(* ===== verification/_CoqProject ===== *)
-Q . S2P
Prelude.v
Containers.v
Options.v
InfoHash.v
Address.v
Announce.v
Torrent.v
TorrentSpec.v
TorrentTheorems.v
TorrentDb.v
FsTreeWhiteList.v
UdpServer.v
UdpTheorems.v
HttpHandlers.v
HttpTheorems.v
Lifecycle.v
Tracker.v
TrackerTheorems.v
SessionTheorems.v
Hefurctl.v
TrackerSpec.v
TrackerRefinement.v
TrackerClients.v
Threads.v
ThreadsTheorems.v
ThreadsRuns.v
Js.v
JsNum.v
JsSort.v
TableSorter.v
TableTheorems.v
JsDom.v
BsUtil.v
BsUtilTheorems.v
BsAlertButton.v
BsCarousel.v
BsCollapse.v
PopperDom.v
PopperPlacement.v
PopperModifiers.v
PopperClass.v
BsDropdown.v
BsModal.v
BsSanitizer.v
BsTabToast.v
BsScrollSpy.v
BsTooltip.v
PopperTheorems.v
BsPureTheorems.v
BsDomTheory.v
BsHoare.v
BsTheorems.v
BsPluginTheorems.v
BsTasks.v
BsTimers.v
BsRegistry.v
BsClasses.v
BsDropdownTheorems.v
BsTooltipTheorems.v
BsTabTheorems.v
BsButtonTheorems.v
BsModalTheorems.v
BsAccordion.v
