(* ===== verification/Prelude.v ===== *)
(** * hefur: a verification library of the tracker and of its web pages

    hefur is a BitTorrent tracker.  The daemon (src/hefur, C++) keeps, per
    torrent, the peers that announced themselves, and answers announces and
    scrapes over UDP and HTTP; its web interface (src/www) shows the torrents
    in pages that run a table sorter of the project and Bootstrap 4.5 with
    Popper 1.16 (src/www/js/bootstrap.bundle.js).  The library has two halves
    that share this file only.

    ** The tracker

    - Containers.v: the trie and the intrusive list of the mimosa library (a
      submodule absent from the repository) as classes of operations with
      laws; two instances give them a model.
    - Options.v (options.hh, options.cc), InfoHash.v (info-hash), Address.v
      (address), Announce.v (the requests and responses, peer.hh): the data.
    - Torrent.v (torrent.cc): a torrent is a record of a peer heap, a trie of
      peers by address, the list ordered by timeout and the counters.
      [announce], [removePeer], [createOrUpdatePeer] and [cleanup] follow the
      member functions statement by statement and return [None] where the C++
      would touch a peer that does not exist.
    - TorrentSpec.v: what a torrent promises, a finite map from addresses to
      peers, the well-formedness invariant and the relation between the two.
      TorrentTheorems.v: [announce] refines the map; no operation fails on a
      reachable torrent and the counters agree with the peers; the addresses
      returned are distinct, live and never the requester's; [cleanup] drops
      exactly the peers whose timeout has passed.
    - TorrentDb.v (torrent-db.cc): the database as a step relation over
      announces, scrapes, cleanups, additions and removals, in any
      interleaving; its invariant and the result of each operation.
    - FsTreeWhiteList.v (fs-tree-white-list.cc): one scan of the directory (the
      files it meets are a list, given by the file system) and [check].
    - UdpServer.v (udp-server.cc): the packets as byte lists, cut off at the size
      of the receive buffer ([sizeof_buffer]), connection identifiers, the
      dispatch of a packet to a reply, the send queue.
      UdpTheorems.v: packets are laid out as their readers expect, requests
      without a valid identifier are ignored, an identifier is accepted for its
      period and the next, an announce never finds a torrent.
    - HttpHandlers.v (announce-, scrape-, stat-, peers-, file-, log-handler.cc)
      and HttpTheorems.v: the handlers on every branch, the values the
      statistics page gives its template (a row per torrent, the flags of the
      options), the bencoded answer of a compact announce and a client's reader
      of it.
    - Lifecycle.v (http-server.cc, control-server.cc, control-service.cc, the
      start and stop of udp-server.cc): servers as their stop flag, thread and
      socket.  A server started again: UDP serves with new secrets, HTTP never
      serves.
    - Tracker.v (hefur.cc, main.cc): the daemon as one record built from the
      options; a step is an HTTP request through the routes of its server, a
      turn of the UDP loop, a cleanup, a scan or a check of the white list, all
      on the one database; signals, the quit request and the destructors in the
      order of the members.  The database is reference-counted: a thread of a
      connection takes a reference, and an event of the release ([ReleaseEvent])
      is a destructor, a look-up by such a thread or its return.
      TrackerTheorems.v: no run of the daemon fails, what its pages answer, and
      that without a white list no torrent is ever known.
      SessionTheorems.v: an HTTP announce is what the next scrape counts, a UDP
      client's connect and scrape agree with the server on every byte, for as
      many hashes as a packet and the buffers hold, the release leaves no thread
      on a destroyed database, whatever connections are still served, and when
      the daemon quits.
    - Threads.v (the locks of torrent-db.cc, torrent.cc and peers-handler.cc):
      threads that call the database, each call in turns under the lock in the
      mode of the code; the locks are a class with laws.  ThreadsTheorems.v: in
      every interleaving the exclusive calls and the cleanups of single torrents
      are atomic, and some thread can always go on; a scrape may be torn.
      ThreadsRuns.v: uninterrupted, a call does what its one step does; the page
      of the peers can read a peer that a cleanup has freed.
    - Hefurctl.v (hefurctl/main.cc): the control program against the control
      service of the daemon, the releases of its logs included; its [quit]
      request ends a running daemon.
    - TrackerSpec.v: the tracker as a user may think of it, swarms in a map by
      info-hash with no heap, timeout list or counters kept on the side.
      TrackerRefinement.v: [swarms_of] reads these swarms off the daemon's
      state; every step of the daemon, and every run, is the abstract
      tracker's, with the same answers.
      TrackerClients.v: what follows for a client: two implementations of the
      containers answer alike, but for the order of the rows of the statistics
      page; every address handed out was announced, in an announce that was not
      a departure; and a peer that renews its announces in time stays.  Answers
      are compared by [same_output], which takes these rows as a multiset.

    Machine integers are [Z] with their wrap-around written out ([wrap]); time
    is an argument; locks make each call one step.  The loops over peers take
    one round more than there are peers as fuel; the theorems show that they end.

    ** The pages

    - Js.v, JsNum.v, JsSort.v: numbers, strings and sorting of the language.  A
      number is an exact rational, rounded to a double where that can be seen;
      [NaN] is [None]; strings are lists of code units below 256.  Sorting is
      the stable sort the language fixes for a consistent comparator.
    - TableSorter.v (table-sorter.js) and TableTheorems.v: a sort permutes the
      rows, orders their cells, keeps ties in place; a second click reverses;
      byte sizes with units order as the numbers they print.
    - JsDom.v: the world of the Bootstrap plugins.  The document with jQuery is
      the class [Dom] with its documented laws [DomLaws]; what the plugins own
      is concrete: instances in a heap, data on elements, pending timers and
      one-shot listeners as tasks, exceptions, in a monad [M].  [fire] is the
      dispatch of an event to the listeners of the page, an arbitrary change of
      the world with an answer whether the event was prevented.  [loop_step] is
      the browser's event loop over the tasks.  Attribute values in selectors
      are written without quotes.
    - BsUtil.v, BsAlertButton.v, BsCarousel.v, BsCollapse.v, BsDropdown.v,
      BsModal.v, BsSanitizer.v, BsTooltip.v (with the popover), BsScrollSpy.v,
      BsTabToast.v: one Section per plugin, with its instances as a record, its
      callbacks as an inductive type that lists what each captures, a
      definition per method with the method's name (a prefix where two plugins
      share one), its jQuery interface and its data API handlers.
    - PopperDom.v (reading one snapshot of the page, class [Page]),
      PopperPlacement.v (placements, offsets, rounding), PopperModifiers.v (the
      ten modifiers and how they run), PopperClass.v (instances).  BsDropdown.v
      states the interface [PopperApi] with [PopperLaws] through which
      drop-downs and tooltips use Popper; the class of PopperClass.v implements
      it.
    - BsUtilTheorems.v: fresh identifiers in bounded time, the jQuery gate, the
      callback of a transition runs exactly once under every schedule of timer
      and event, the types of options and of their patterns.  PopperTheorems.v: mirrored placements, the roomiest side,
      poppers inside their boundaries and next to their reference, arrows,
      flipping on every branch, listeners gone after [destroy].
      BsPureTheorems.v: the sanitizer and the order of a carousel's items.
      BsDomTheory.v: class lists, running plugin code, a document [toy] that
      satisfies the laws.  BsHoare.v: a program logic for the monad [M], [runs]
      with a rule per operation and the tactic [wp], and the relation [restyle]
      of documents that differ by style only.  BsTheorems.v: a slide moves the
      active class, a collapse goes through its states and is locked meanwhile,
      a prevented fading modal is locked, a modal gives the page its styles
      back.  BsPluginTheorems.v: the check of option types, the section a
      scroll selects, the life of a toast and its timers.
      BsTasks.v: lists of tasks and invariants the event loop keeps (with
      [keeps] and the tactic [keep] of BsHoare.v).  BsTimers.v: the interval of a
      carousel that is not disposed is the one it remembers, in every run;
      [dispose] leaks it.
      BsRegistry.v: loading the bundle, the registration of each plugin in
      jQuery and [noConflict], which gives back what was there before;
      the events each plugin listens to.  BsClasses.v: the class helpers of the
      compiler on property descriptors, and what they give the classes of the
      bundle.
      BsTabTheorems.v: showing a tab moves the active class of the list and of
      the panes; switching again during a fade leaves several panes active.
      BsDropdownTheorems.v: a click leaves open at most its own menu and those
      no click has made an instance for, for every implementation of the
      interface to Popper.  BsTooltipTheorems.v: tips show
      clean HTML only, and have at most one delay.
      BsButtonTheorems.v: clicks in a group of radio buttons leave the last one
      active alone with its input checked; the call on a disabled button leaves
      none active.  BsAccordion.v: the panels of a parent refine an automaton
      over their states ([sim], one lemma per operation); by a selector as the
      parent at most one is open or opening in every run, by an element two may
      be.  BsModalTheorems.v: [show], [hide] and the ends of their
      transitions, of a modal that fades or not, step by step ([snap], [stage]):
      the instance comes back to rest and the page to its classes and, where it
      scrolled, its inline styles.

    Theorems about runs of plugin code take the listeners of the page as silent
    ([silent]: they prevent nothing and change nothing) where they describe
    what one call leaves, and as arbitrary programs that keep the invariant
    where they state one.

    Fuel: the climbs of the document take [climb_fuel] from the page, a bound
    of the height of its tree; [getUID] needs one round more than the longest
    identifier of the page has characters (proved); the splitting of offsets
    takes the length of the text.  [None] of an option result is an exception
    of the code or a read of a property of [null], except where a comment says
    otherwise.

    ** Not modelled

    The command line parser, the RPC library, templates and logging: calls of
    mimosa.  What the system answers (sockets, poll, the clock, random bytes,
    the files of a directory) is an argument.  The daemon as a whole makes each
    call of the database one step, which Threads.v justifies for the calls that
    change it; the weak memory of the machine is not modelled, nor is what the
    singleton of the mimosa library answers to a look-up after its instance was
    destroyed.  What jQuery does with an object that is no node but has the
    [nodeType] of one is an argument of the tips' content.
    Of the web files: bootstrap.js and the minified files, which repeat the
    plugins of the bundle, and the user-agent tests inside Popper, whose
    answers are parameters. *)
From stdpp Require Import base list gmap strings.
From Stdlib Require Import ZArith Lia Sorted.

#[export] Set Default Goal Selector "!".

Declare Scope hefur_scope.
Delimit Scope hefur_scope with hefur.
Global Open Scope Z_scope.

Create HintDb hefur.
Create Rewrite HintDb hefur.

(** ** Fixed-width unsigned integers

    A [w]-bit unsigned integer is a [Z] in [0 <= z < 2 ^ w]; every operation
    that can leave the range wraps explicitly. *)

Definition wrap (w z : Z) : Z := z mod 2 ^ w.

Notation "x +u32 y" := (wrap 32 (x + y)) (at level 50, left associativity) : hefur_scope.
Notation "x -u32 y" := (wrap 32 (x - y)) (at level 50, left associativity) : hefur_scope.
Notation "x +u64 y" := (wrap 64 (x + y)) (at level 50, left associativity) : hefur_scope.

Global Open Scope hefur_scope.

(** The value of a [uint32_t] converted to [int] (two's complement). *)
Definition int_of_u32 (z : Z) : Z := if decide (z < 2 ^ 31) then z else z - 2 ^ 32.

(** [std::clamp<int>(v, lo, hi)], for [lo <= hi]. *)
Definition clamp (v lo hi : Z) : Z := if decide (v < lo) then lo else if decide (hi < v) then hi else v.

(** ** Bytes: a byte is a [Z] in [0 <= b < 256]. *)

Definition byte_ok (b : Z) : Prop := 0 <= b < 256.

(** Big-endian encoding on [n] bytes and its inverse. *)
Fixpoint be_bytes (n : nat) (z : Z) : list Z :=
  match n with
  | O => []
  | S m => (z / 256 ^ Z.of_nat m) mod 256 :: be_bytes m z
  end.

Fixpoint be_val (l : list Z) : Z :=
  match l with
  | [] => 0
  | b :: l => b * 256 ^ Z.of_nat (length l) + be_val l
  end.

(** [slice off len l]: the bytes of a field at offset [off]. *)
Definition slice {A} (off len : nat) (l : list A) : list A := take len (drop off l).

(** ** Generic lemmas *)

Lemma wrap_small w z : 0 <= z < 2 ^ w -> wrap w z = z.
Proof. intros. by apply Z.mod_small. Qed.

Lemma wrap_range w z : 0 <= w -> 0 <= wrap w z < 2 ^ w.
Proof. intros. apply Z.mod_pos_bound. lia. Qed.

Lemma clamp_range v lo hi : lo <= hi -> lo <= clamp v lo hi <= hi.
Proof. intros. unfold clamp. repeat case_decide; lia. Qed.

Lemma be_bytes_length n z : length (be_bytes n z) = n.
Proof. induction n; simpl; congruence. Qed.

Lemma be_bytes_ok n z : Forall byte_ok (be_bytes n z).
Proof.
  induction n; simpl; constructor; [|done].
  unfold byte_ok. apply Z.mod_pos_bound. lia.
Qed.

Lemma be_val_range l : Forall byte_ok l -> 0 <= be_val l < 256 ^ Z.of_nat (length l).
Proof.
  unfold byte_ok. induction 1 as [|b l Hb _ IH]; simpl be_val; simpl length.
  - simpl. lia.
  - rewrite Nat2Z.inj_succ, Z.pow_succ_r by lia. nia.
Qed.

Lemma be_val_be_bytes_mod n z : 0 <= z -> be_val (be_bytes n z) = z mod 256 ^ Z.of_nat n.
Proof.
  intros Hz. induction n as [|n IH].
  - simpl. by rewrite Z.mod_1_r.
  - cbn [be_bytes be_val]. rewrite IH, be_bytes_length, Nat2Z.inj_succ, Z.pow_succ_r by lia.
    assert (0 < 256 ^ Z.of_nat n) by (apply Z.pow_pos_nonneg; lia).
    rewrite (Z.mul_comm 256). rewrite Z.rem_mul_r by lia. lia.
Qed.

Lemma be_val_be_bytes n z : 0 <= z < 256 ^ Z.of_nat n -> be_val (be_bytes n z) = z.
Proof. intros. rewrite be_val_be_bytes_mod by lia. apply Z.mod_small. lia. Qed.

(** Only the last [n] base-256 digits matter. *)
Lemma be_bytes_add n m v k : (n <= m)%nat -> be_bytes n (k * 256 ^ Z.of_nat m + v) = be_bytes n v.
Proof.
  revert m. induction n as [|n IHn]; intros m Hnm; [done|]. cbn [be_bytes]. f_equal.
  - replace (Z.of_nat m) with (Z.of_nat (m - S n) + 1 + Z.of_nat n) by lia.
    rewrite !Z.pow_add_r by lia.
    replace (k * (256 ^ Z.of_nat (m - S n) * 256 ^ 1 * 256 ^ Z.of_nat n) + v)
      with (v + (k * 256 ^ Z.of_nat (m - S n) * 256) * 256 ^ Z.of_nat n) by ring.
    rewrite Z.div_add by (apply Z.pow_nonzero; lia).
    by rewrite Z.mod_add by lia.
  - apply IHn. lia.
Qed.

Lemma be_bytes_be_val l : Forall byte_ok l -> be_bytes (length l) (be_val l) = l.
Proof.
  induction 1 as [|b l Hb Hl IH]; [done|].
  pose proof (be_val_range l Hl) as Hr. unfold byte_ok in Hb.
  cbn [length be_bytes be_val]. f_equal.
  - rewrite Z.add_comm, Z.div_add, Z.div_small by lia. apply Z.mod_small. lia.
  - rewrite be_bytes_add by lia. done.
Qed.

Lemma slice_app_l {A} (off len : nat) (l1 l2 : list A) :
  (off + len <= length l1)%nat -> slice off len (l1 ++ l2) = slice off len l1.
Proof.
  intros H. unfold slice. rewrite drop_app_le by lia. rewrite take_app_le; [done|].
  rewrite length_drop. lia.
Qed.

Lemma slice_app_r {A} (off len : nat) (l1 l2 : list A) :
  (length l1 <= off)%nat -> slice off len (l1 ++ l2) = slice (off - length l1) len l2.
Proof. intros H. unfold slice. by rewrite drop_app_ge. Qed.

Lemma slice_all {A} (n : nat) (l : list A) : (length l <= n)%nat -> slice 0 n l = l.
Proof. intros. unfold slice. rewrite drop_0. by apply take_ge. Qed.

Lemma slice_length {A} (off len : nat) (l : list A) :
  (off + len <= length l)%nat -> length (slice off len l) = len.
Proof. intros. unfold slice. rewrite length_take, length_drop. lia. Qed.

Lemma filter_none {A} (P : A -> Prop) `{forall x, Decision (P x)} (l : list A) :
  (forall x, x ∈ l -> ~ P x) -> filter P l = [].
Proof.
  induction l as [|x l IH]; intros Hl; [done|].
  rewrite filter_cons_False by (apply Hl; left). apply IH. intros y Hy. apply Hl. by right.
Qed.

Lemma filter_all {A} (P : A -> Prop) `{forall x, Decision (P x)} (l : list A) :
  (forall x, x ∈ l -> P x) -> filter P l = l.
Proof.
  induction l as [|x l IH]; intros Hl; [done|].
  rewrite filter_cons_True by (apply Hl; left). f_equal. apply IH. intros y Hy. apply Hl. by right.
Qed.

Lemma Forall_filter {A} (P Q : A -> Prop) `{forall x, Decision (P x)} (l : list A) :
  Forall Q l -> Forall Q (filter P l).
Proof. rewrite !Forall_forall. intros Hl x [_ Hx]%list_elem_of_filter. auto. Qed.

#[export] Hint Resolve be_bytes_ok clamp_range : hefur.
#[export] Hint Rewrite be_bytes_length @length_app @length_take @length_drop @length_replicate : hefur.

(** ** Automation shared by the components *)

(** Case analysis on every [decide]/[match] that blocks the goal. *)
Ltac split_cases := repeat (case_decide || case_match); simplify_eq/=.

Ltac solve_len := autorewrite with hefur; simpl; try lia.

(** Filtering keeps a list sorted. *)
Lemma sorted_filter {A} (R : A -> A -> Prop) (P : A -> Prop) `{forall x, Decision (P x)} l :
  StronglySorted R l -> StronglySorted R (filter P l).
Proof.
  induction 1 as [|x l Hs IH Hx]; [constructor|]. rewrite filter_cons. case_decide; [|done].
  constructor; [done|]. rewrite List.Forall_forall in Hx |- *. intros y Hy.
  apply Hx, list_elem_of_In. apply list_elem_of_In in Hy. by apply list_elem_of_filter in Hy as [_ ?].
Qed.

