(* ===== verification/Containers.v ===== *)
(** The containers of the [mimosa] library (a git submodule, not part of the
    repository) as interfaces: the trie that indexes peers and torrents, and
    the intrusive list that orders peers by timeout.  The tracker's theorems
    are proved against the two law classes; the instances at the end give the
    classes a concrete model. *)
From stdpp Require Import base list gmap strings.
From Stdlib Require Import ZArith Lia.
From S2P Require Import Prelude.

(** A C++ pointer to a heap object. *)
Abbreviation ptr := nat.
Abbreviation tkey := (list Z).

(** ** [m::Trie<Value *, getKey>]

    The key of a stored value is passed explicitly, as computed by [getKey]
    at the call. *)
Class Trie (T : Type) := {
  t_empty : T;
  t_find : tkey -> T -> option ptr;
  t_insert : tkey -> ptr -> T -> T;
  t_erase : tkey -> T -> T;
  t_entries : T -> list (tkey * ptr);
}.

(** Documented behaviour: a map from keys to values in which an insertion on a
    present tkey is dropped (see the comment of [TorrentDb::addTorrent]). *)
Class TrieLaws (T : Type) `{Trie T} : Prop := {
  t_find_empty k : t_find k t_empty = None;
  t_insert_present k p q t : t_find k t = Some q -> t_insert k p t = t;
  t_find_insert k k' p t : t_find k t = None ->
    t_find k' (t_insert k p t) = if decide (k = k') then Some p else t_find k' t;
  t_find_erase k k' t :
    t_find k' (t_erase k t) = if decide (k = k') then None else t_find k' t;
  t_entries_find k p t : (k, p) ∈ t_entries t <-> t_find k t = Some p;
  t_entries_nodup t : NoDup (t_entries t).*1;
}.

(** ** [m::IntrusiveDList<Peer, ...>] *)
Class DList (L : Type) := {
  l_empty : L;
  l_pushBack : ptr -> L -> L;
  l_erase : ptr -> L -> L;
  l_list : L -> list ptr;   (* from front to back *)
}.

Class DListLaws (L : Type) `{DList L} : Prop := {
  l_list_empty : l_list l_empty = [];
  l_list_pushBack p l : p ∉ l_list l -> l_list (l_pushBack p l) = l_list l ++ [p];
  l_list_erase p l : l_list (l_erase p l) = filter (.≠ p) (l_list l);
}.

(** ** Concrete instances *)

#[export] Instance gmap_trie : Trie (gmap tkey ptr) := {
  t_empty := ∅;
  t_find k m := m !! k;
  t_insert k p m := match m !! k with Some _ => m | None => <[k := p]> m end;
  t_erase k m := delete k m;
  t_entries m := map_to_list m;
}.

#[export] Instance gmap_trie_laws : TrieLaws (gmap tkey ptr).
Proof.
  split; simpl; intros.
  - apply lookup_empty.
  - by simplify_option_eq.
  - simplify_option_eq; by simplify_map_eq.
  - case_decide; by simplify_map_eq.
  - apply elem_of_map_to_list.
  - apply NoDup_fst_map_to_list.
Qed.

#[export] Instance list_dlist : DList (list ptr) := {
  l_empty := [];
  l_pushBack p l := l ++ [p];
  l_erase p l := filter (.≠ p) l;
  l_list l := l;
}.

#[export] Instance list_dlist_laws : DListLaws (list ptr).
Proof. by split. Qed.
