(* ===== verification/Options.v ===== *)
(** The command line options the tracker reads ([options.hh], [options.cc]). *)
From stdpp Require Import base list strings.
From Stdlib Require Import ZArith Lia.
From S2P Require Import Prelude.

Record Options := {
  MAX_PEERS : Z;              (* uint32_t *)
  MAX_NUMWANT : Z;            (* uint32_t *)
  MIN_NUMWANT : Z;            (* uint32_t *)
  MAX_TORRENT_SIZE : Z;       (* uint32_t, MiB *)
  MAX_TORRENT_NAME : Z;       (* uint32_t *)
  MAX_SCAN_DEPTH : Z;         (* uint32_t *)
  MAX_SCAN_INODES : Z;        (* uint32_t *)
  ANNOUNCE_INTERVAL : Z;      (* uint32_t, minutes *)
  SCRAPE_INTERVAL : Z;        (* uint32_t, minutes *)
  HTTP_TIMEOUT : Z;           (* uint32_t, milliseconds *)
  HTTP_PORT : Z;              (* uint16_t, 0 disables *)
  HTTPS_PORT : Z;             (* uint16_t, 0 disables *)
  UDP_PORT : Z;               (* uint16_t, 0 disables *)
  IPV6 : bool;
  ALLOW_PROXY : bool;
  DISABLE_PEERS_PAGE : bool;
  DISABLE_STAT_PAGE : bool;
  DISABLE_FILE_PAGE : bool;
  CERT : string;
  KEY : string;
  TORRENT_DIR : string;
  SCAN_INTERVAL : Z;          (* uint32_t, seconds *)
  WWW_DIR : string;
  CONTROL_SOCKET : string;
  BIND_ADDR : string;
  REVERSE_PROXY_HEADER : string;
  REVERSE_PROXY_FROM : string;
}.

(** The values when no option is given. *)
Definition default_options : Options := {|
  MAX_PEERS := 1024;
  MAX_NUMWANT := 100;
  MIN_NUMWANT := 50;
  MAX_TORRENT_SIZE := 10;
  MAX_TORRENT_NAME := 64;
  MAX_SCAN_DEPTH := 64;
  MAX_SCAN_INODES := 128 * 1024;
  ANNOUNCE_INTERVAL := 15;
  SCRAPE_INTERVAL := 15;
  HTTP_TIMEOUT := 2000;
  HTTP_PORT := 6969;
  HTTPS_PORT := 6970;
  UDP_PORT := 6969;
  IPV6 := false;
  ALLOW_PROXY := false;
  DISABLE_PEERS_PAGE := false;
  DISABLE_STAT_PAGE := false;
  DISABLE_FILE_PAGE := false;
  CERT := "";
  KEY := "";
  TORRENT_DIR := "";
  SCAN_INTERVAL := 60;
  WWW_DIR := "/usr/share/hefur/www";
  CONTROL_SOCKET := "/var/run/hefur/control";
  BIND_ADDR := "0.0.0.0";
  REVERSE_PROXY_HEADER := "X-Real-IP";
  REVERSE_PROXY_FROM := "";
|}.

(** A configuration with some options given on the command line. *)
Definition with_proxy_from (from : string) (o : Options) : Options := {|
  MAX_PEERS := MAX_PEERS o; MAX_NUMWANT := MAX_NUMWANT o; MIN_NUMWANT := MIN_NUMWANT o;
  MAX_TORRENT_SIZE := MAX_TORRENT_SIZE o; MAX_TORRENT_NAME := MAX_TORRENT_NAME o;
  MAX_SCAN_DEPTH := MAX_SCAN_DEPTH o; MAX_SCAN_INODES := MAX_SCAN_INODES o;
  ANNOUNCE_INTERVAL := ANNOUNCE_INTERVAL o; SCRAPE_INTERVAL := SCRAPE_INTERVAL o;
  HTTP_TIMEOUT := HTTP_TIMEOUT o; HTTP_PORT := HTTP_PORT o; HTTPS_PORT := HTTPS_PORT o;
  UDP_PORT := UDP_PORT o; IPV6 := IPV6 o; ALLOW_PROXY := ALLOW_PROXY o;
  DISABLE_PEERS_PAGE := DISABLE_PEERS_PAGE o; DISABLE_STAT_PAGE := DISABLE_STAT_PAGE o;
  DISABLE_FILE_PAGE := DISABLE_FILE_PAGE o; CERT := CERT o; KEY := KEY o;
  TORRENT_DIR := TORRENT_DIR o; SCAN_INTERVAL := SCAN_INTERVAL o; WWW_DIR := WWW_DIR o;
  CONTROL_SOCKET := CONTROL_SOCKET o; BIND_ADDR := BIND_ADDR o;
  REVERSE_PROXY_HEADER := REVERSE_PROXY_HEADER o; REVERSE_PROXY_FROM := from;
|}.

Definition with_network (ipv6 : bool) (torrent_dir bind_addr : string) (o : Options) : Options := {|
  MAX_PEERS := MAX_PEERS o; MAX_NUMWANT := MAX_NUMWANT o; MIN_NUMWANT := MIN_NUMWANT o;
  MAX_TORRENT_SIZE := MAX_TORRENT_SIZE o; MAX_TORRENT_NAME := MAX_TORRENT_NAME o;
  MAX_SCAN_DEPTH := MAX_SCAN_DEPTH o; MAX_SCAN_INODES := MAX_SCAN_INODES o;
  ANNOUNCE_INTERVAL := ANNOUNCE_INTERVAL o; SCRAPE_INTERVAL := SCRAPE_INTERVAL o;
  HTTP_TIMEOUT := HTTP_TIMEOUT o; HTTP_PORT := HTTP_PORT o; HTTPS_PORT := HTTPS_PORT o;
  UDP_PORT := UDP_PORT o; IPV6 := ipv6; ALLOW_PROXY := ALLOW_PROXY o;
  DISABLE_PEERS_PAGE := DISABLE_PEERS_PAGE o; DISABLE_STAT_PAGE := DISABLE_STAT_PAGE o;
  DISABLE_FILE_PAGE := DISABLE_FILE_PAGE o; CERT := CERT o; KEY := KEY o;
  TORRENT_DIR := torrent_dir; SCAN_INTERVAL := SCAN_INTERVAL o; WWW_DIR := WWW_DIR o;
  CONTROL_SOCKET := CONTROL_SOCKET o; BIND_ADDR := bind_addr;
  REVERSE_PROXY_HEADER := REVERSE_PROXY_HEADER o; REVERSE_PROXY_FROM := REVERSE_PROXY_FROM o;
|}.

(** What a sane configuration satisfies: [std::clamp] needs [lo <= hi], and the
    [int] casts need the bounds to be positive [int]s. *)
Definition options_ok (o : Options) : Prop :=
  0 <= MIN_NUMWANT o <= MAX_NUMWANT o /\ MAX_NUMWANT o < 2 ^ 31 /\ 0 <= MAX_PEERS o < 2 ^ 32 - 1.

Lemma default_options_ok : options_ok default_options.
Proof. unfold options_ok; simpl; lia. Qed.
