(* ===== verification/InfoHash.v ===== *)
(** Info hashes ([info-hash.hh], [info-hash.cc]). *)
From stdpp Require Import base list.
From Stdlib Require Import ZArith Lia.
From S2P Require Import Prelude.

Inductive Type_ := NONE | SHA1 | SHA256.

#[export] Instance Type_eq_dec : EqDecision Type_.
Proof. solve_decision. Defined.

(** [bytes_] is a 32 byte array. *)
Record InfoHash := { bytes_ : list Z; type_ : Type_ }.

#[export] Instance InfoHash_eq_dec : EqDecision InfoHash.
Proof. solve_decision. Defined.

Definition hashSize (t : Type_) : nat :=
  match t with SHA1 => 20 | SHA256 => 32 | NONE => 0 end%nat.

Definition isValidHashSize (size : Z) : bool :=
  if decide (size = 20) then true else if decide (size = 32) then true else false.

(** [InfoHash(Type type, const char *data)]: the array starts zeroed. *)
Definition InfoHash_new (t : Type_) (data : list Z) : InfoHash :=
  {| bytes_ := take (hashSize t) data ++ replicate (32 - hashSize t)%nat 0; type_ := t |}.

Definition bytes (h : InfoHash) : list Z := take (hashSize (type_ h)) (bytes_ h).

Definition info_hash_eqb (a b : InfoHash) : bool :=
  if decide (type_ a = type_ b) then bool_decide (bytes a = bytes b) else false.

Lemma bytes_new t data : (hashSize t <= length data)%nat -> bytes (InfoHash_new t data) = take (hashSize t) data.
Proof.
  intros H. unfold bytes, InfoHash_new; cbn [type_ bytes_].
  rewrite take_app_le by (rewrite length_take; lia). rewrite take_take. f_equal. lia.
Qed.

Lemma isValidHashSize_spec size : isValidHashSize size = true <-> size = 20 \/ size = 32.
Proof. unfold isValidHashSize. repeat case_decide; intuition congruence. Qed.

