(* ===== verification/Address.v ===== *)
(** Internet addresses ([address.hh], [address.hxx], [address.cc]). *)
From stdpp Require Import base list gmap strings.
From Stdlib Require Import ZArith Lia.
From S2P Require Import Prelude.

(** [family_] only ever holds one of these three values. *)
Inductive Family := AF_UNSPEC | AF_INET | AF_INET6.

#[export] Instance Family_eq_dec : EqDecision Family.
Proof. solve_decision. Defined.

(** The anonymous union of [in_] (4 address bytes, 2 port bytes) and [in6_]
    (16 and 2) is its 18 bytes of memory; ports are stored in network order. *)
Record Address := { family_ : Family; union_ : list Z }.

#[export] Instance Address_eq_dec : EqDecision Address.
Proof. solve_decision. Defined.

(** The socket addresses the code receives; the port is in network order. *)
Inductive sockaddr :=
| SaIn (sin_addr sin_port : list Z)
| SaIn6 (sin6_addr sin6_port : list Z)
| SaOther.

(** Writing [src] over the bytes at [off]. *)
Definition memcpy_at (off : nat) (src mem : list Z) : list Z :=
  take off mem ++ src ++ drop (off + length src) mem.

Definition set_union (f : list Z -> list Z) (a : Address) : Address :=
  {| family_ := family_ a; union_ := f (union_ a) |}.

Definition in_addr (a : Address) : list Z := slice 0 4 (union_ a).
Definition in_port (a : Address) : list Z := slice 4 2 (union_ a).
Definition in6_addr (a : Address) : list Z := slice 0 16 (union_ a).
Definition in6_port (a : Address) : list Z := slice 16 2 (union_ a).

(** [Address::Address()]: the union is left uninitialised ([junk]). *)
Definition Address_new (junk : list Z) : Address := {| family_ := AF_UNSPEC; union_ := junk |}.

Definition address_eqb (a other : Address) : bool :=
  if decide (family_ a = family_ other) then
    match family_ a with
    | AF_INET => bool_decide (slice 0 6 (union_ a) = slice 0 6 (union_ other))
    | AF_INET6 => bool_decide (slice 0 18 (union_ a) = slice 0 18 (union_ other))
    | AF_UNSPEC => false
    end
  else false.

Definition key (a : Address) : list Z :=
  match family_ a with
  | AF_INET => slice 0 6 (union_ a)
  | _ => slice 0 18 (union_ a)
  end.

(** [ntohs] of the stored bytes is their big-endian value. *)
Definition port (a : Address) : Z :=
  match family_ a with
  | AF_INET => be_val (in_port a)
  | AF_INET6 => be_val (in6_port a)
  | AF_UNSPEC => 0
  end.

(** The assignments take a pointer: [None] is the null pointer. *)
Definition assign_in (a : Address) (in_ : option (list Z * list Z)) : Address :=
  match in_ with
  | None => a
  | Some (sin_addr, sin_port) =>
      {| family_ := AF_INET; union_ := memcpy_at 0 sin_addr (memcpy_at 4 sin_port (union_ a)) |}
  end.

(** The prefix of an IPv4 address mapped into IPv6. *)
Definition v4_mapped : list Z := replicate 10 0 ++ [255; 255].

Definition assign_in6 (a : Address) (in6 : option (list Z * list Z)) : Address :=
  match in6 with
  | None => a
  | Some (sin6_addr, sin6_port) =>
      if decide (take 12 sin6_addr = v4_mapped) then
        {| family_ := AF_INET;
           union_ := memcpy_at 0 (slice 12 4 sin6_addr) (memcpy_at 4 sin6_port (union_ a)) |}
      else
        {| family_ := AF_INET6;
           union_ := memcpy_at 0 sin6_addr (memcpy_at 16 sin6_port (union_ a)) |}
  end.

Definition assign_sockaddr (a : Address) (addr : option sockaddr) : Address :=
  match addr with
  | None => a
  | Some (SaIn ad p) => assign_in a (Some (ad, p))
  | Some (SaIn6 ad p) => assign_in6 a (Some (ad, p))
  | Some SaOther => {| family_ := AF_UNSPEC; union_ := union_ a |}
  end.

(** The [uint16_t] argument is [p] modulo 2^16; [htons] stores it big-endian. *)
Definition setPort (a : Address) (p : Z) : Address :=
  match family_ a with
  | AF_INET => set_union (memcpy_at 4 (be_bytes 2 (wrap 16 p))) a
  | AF_INET6 => set_union (memcpy_at 16 (be_bytes 2 (wrap 16 p))) a
  | AF_UNSPEC => a
  end.

Section Printing.
(** [inet_ntop] of the C library, by family. *)
Context (inet_ntop : Family -> list Z -> string).
(** [%d] of [snprintf]. *)
Context (print_d : Z -> string).

Definition ipStr (a : Address) : string :=
  match family_ a with
  | AF_INET => inet_ntop AF_INET (in_addr a)
  | AF_INET6 => inet_ntop AF_INET6 (in6_addr a)
  | AF_UNSPEC => "(unknown family)"
  end.

Definition str (a : Address) : string :=
  match family_ a with
  | AF_INET => inet_ntop AF_INET (in_addr a) +:+ ":" +:+ print_d (port a)
  | AF_INET6 => "[" +:+ inet_ntop AF_INET6 (in6_addr a) +:+ "]:" +:+ print_d (port a)
  | AF_UNSPEC => "(unknown family)"
  end.
End Printing.

(** ** Well-formed values *)

Definition address_ok (a : Address) : Prop := length (union_ a) = 18%nat /\ Forall byte_ok (union_ a).

Definition sockaddr_ok (s : sockaddr) : Prop :=
  match s with
  | SaIn ad p => length ad = 4%nat /\ length p = 2%nat /\ Forall byte_ok ad /\ Forall byte_ok p
  | SaIn6 ad p => length ad = 16%nat /\ length p = 2%nat /\ Forall byte_ok ad /\ Forall byte_ok p
  | SaOther => True
  end.

(** ** Lemmas *)

Lemma memcpy_at_length off src mem :
  (off + length src <= length mem)%nat -> length (memcpy_at off src mem) = length mem.
Proof. intros. unfold memcpy_at. solve_len. Qed.

Lemma memcpy_at_ok off src mem :
  Forall byte_ok src -> Forall byte_ok mem -> Forall byte_ok (memcpy_at off src mem).
Proof. intros. unfold memcpy_at. rewrite !Forall_app. auto using Forall_take, Forall_drop. Qed.

Lemma slice_memcpy_same off src mem :
  (off <= length mem)%nat -> slice off (length src) (memcpy_at off src mem) = src.
Proof.
  intros. unfold memcpy_at. rewrite slice_app_r by (rewrite length_take; lia).
  rewrite length_take. replace (off - off `min` length mem)%nat with 0%nat by lia.
  rewrite slice_app_l by lia. by apply slice_all.
Qed.

Lemma slice_memcpy_before o l off src mem :
  (o + l <= off)%nat -> (off <= length mem)%nat -> slice o l (memcpy_at off src mem) = slice o l mem.
Proof.
  intros. unfold memcpy_at. rewrite slice_app_l by (rewrite length_take; lia).
  unfold slice. rewrite skipn_firstn_comm, take_take. f_equal. lia.
Qed.

Lemma slice_memcpy_after o l off src mem :
  (off + length src <= o)%nat -> (off + length src <= length mem)%nat ->
  slice o l (memcpy_at off src mem) = slice o l mem.
Proof.
  intros. unfold memcpy_at. rewrite app_assoc.
  rewrite slice_app_r by solve_len.
  unfold slice. rewrite drop_drop. do 2 f_equal. solve_len.
Qed.

Lemma memcpy_at_0 src mem : (length src <= length mem)%nat ->
  memcpy_at 0 src mem = src ++ drop (length src) mem.
Proof. intros. unfold memcpy_at. by rewrite take_0. Qed.

(** The two writes of an assignment leave exactly address then port in front. *)
Lemma assign_prefix ad p mem :
  (length ad + length p <= length mem)%nat ->
  slice 0 (length ad + length p) (memcpy_at 0 ad (memcpy_at (length ad) p mem)) = ad ++ p.
Proof.
  intros H. rewrite memcpy_at_0 by (rewrite memcpy_at_length; lia).
  unfold memcpy_at. unfold slice. rewrite drop_0.
  rewrite take_app, take_ge by lia. f_equal.
  rewrite drop_app_ge by solve_len. rewrite length_take.
  replace (length ad - length ad `min` length mem)%nat with 0%nat by lia. rewrite drop_0.
  replace (length ad + length p - length ad)%nat with (length p) by lia.
  by rewrite take_app_length.
Qed.

#[export] Hint Resolve memcpy_at_ok : hefur.

(** The canonical (family, key) pair the code gives a socket address. *)
Definition canonical (s : sockaddr) : Family * list Z :=
  match s with
  | SaIn ad p => (AF_INET, ad ++ p)
  | SaIn6 ad p =>
      if decide (take 12 ad = v4_mapped) then (AF_INET, drop 12 ad ++ p) else (AF_INET6, ad ++ p)
  | SaOther => (AF_UNSPEC, [])
  end.

Lemma slice_12_4 (ad : list Z) : length ad = 16%nat -> slice 12 4 ad = drop 12 ad.
Proof. intros H. unfold slice. apply take_ge. solve_len. Qed.

Lemma assign_sockaddr_ok a s :
  address_ok a -> sockaddr_ok s -> address_ok (assign_sockaddr a (Some s)).
Proof.
  intros [Hl Hb] Hs. destruct s as [ad p|ad p|]; simpl in *; [| |done].
  - destruct Hs as (H1 & H2 & H3 & H4). split; simpl; [|auto with hefur].
    rewrite !memcpy_at_length; rewrite ?memcpy_at_length; lia.
  - destruct Hs as (H1 & H2 & H3 & H4). unfold assign_in6. case_decide; split; simpl.
    + rewrite !memcpy_at_length; rewrite ?memcpy_at_length, ?slice_length; lia.
    + apply memcpy_at_ok; [|auto with hefur]. by apply Forall_take, Forall_drop.
    + rewrite !memcpy_at_length; rewrite ?memcpy_at_length; lia.
    + auto with hefur.
Qed.

(** Assigning a socket address normalises it: whatever the union held
    before, the result has the family and the key (address bytes then port
    bytes) of the socket address, an IPv4 address mapped into IPv6 being
    turned into plain IPv4. *)
Theorem assign_sockaddr_canonical a s :
  address_ok a -> sockaddr_ok s -> s <> SaOther ->
  (family_ (assign_sockaddr a (Some s)), key (assign_sockaddr a (Some s))) = canonical s.
Proof.
  intros [Hl Hb] Hs Hn. destruct s as [ad p|ad p|]; simpl in *; [| |done].
  - destruct Hs as (H1 & H2 & _). unfold key, assign_in; simpl. f_equal.
    pose proof (assign_prefix ad p (union_ a)) as E. rewrite H1, H2 in E. apply E. lia.
  - destruct Hs as (H1 & H2 & _). unfold assign_in6, key. case_decide; simpl; f_equal.
    + rewrite slice_12_4 by done.
      pose proof (assign_prefix (drop 12 ad) p (union_ a)) as E.
      rewrite length_drop, H1, H2 in E. apply E. lia.
    + pose proof (assign_prefix ad p (union_ a)) as E. rewrite H1, H2 in E. apply E. lia.
Qed.

Lemma assign_sockaddr_canonical_witness :
  let a := Address_new (replicate 18 7) in
  let s := SaIn6 (v4_mapped ++ [192; 168; 0; 1]) [26; 225] in
  (family_ (assign_sockaddr a (Some s)), key (assign_sockaddr a (Some s))) = canonical s.
Proof.
  apply (assign_sockaddr_canonical (Address_new (replicate 18 7))
    (SaIn6 (v4_mapped ++ [192; 168; 0; 1]) [26; 225])).
  - split; [reflexivity|]. repeat constructor; discriminate.
  - simpl. repeat split; repeat constructor; discriminate.
  - discriminate.
Defined.

Lemma be_val_2_range l : length l = 2%nat -> Forall byte_ok l -> 0 <= be_val l < 65536.
Proof. intros H Hb. pose proof (be_val_range l Hb) as Hr. rewrite H in Hr. exact Hr. Qed.

(** Setting the port of an IPv4 or IPv6 address reads back modulo 2^16,
    keeps the family and the address bytes, and leaves an address of unknown
    family unchanged. *)
Theorem setPort_port a p :
  address_ok a ->
  family_ (setPort a p) = family_ a /\
  match family_ a with
  | AF_UNSPEC => setPort a p = a
  | AF_INET => port (setPort a p) = p mod 65536 /\ in_addr (setPort a p) = in_addr a
  | AF_INET6 => port (setPort a p) = p mod 65536 /\ in6_addr (setPort a p) = in6_addr a
  end.
Proof.
  intros [Hl _]. unfold setPort, port. pose proof (wrap_range 16 p ltac:(lia)) as Hw.
  destruct (family_ a) eqn:E; cbn [family_ set_union]; rewrite ?E; [done| |]; split; try done; split.
  - unfold in_port; cbn [union_ set_union]. pose proof (slice_memcpy_same 4 (be_bytes 2 (wrap 16 p)) (union_ a)) as S.
    rewrite be_bytes_length in S. rewrite S by lia. apply be_val_be_bytes. exact Hw.
  - unfold in_addr; cbn [union_ set_union]. apply slice_memcpy_before; lia.
  - unfold in6_port; cbn [union_ set_union]. pose proof (slice_memcpy_same 16 (be_bytes 2 (wrap 16 p)) (union_ a)) as S.
    rewrite be_bytes_length in S. rewrite S by lia. apply be_val_be_bytes. exact Hw.
  - unfold in6_addr; cbn [union_ set_union]. apply slice_memcpy_before; lia.
Qed.

Lemma setPort_port_witness :
  let a := assign_in (Address_new (replicate 18 0)) (Some ([10; 0; 0; 1], [0; 80])) in
  address_ok a /\ port (setPort a 6969) = 6969.
Proof.
  intros a. assert (Ha : address_ok a) by (split; [reflexivity|repeat constructor; discriminate]).
  split; [exact Ha|]. exact (proj1 (proj2 (setPort_port a 6969 Ha))).
Defined.

Lemma setPort_ok a p : address_ok a -> address_ok (setPort a p).
Proof.
  intros [Hl Hb]. unfold setPort. destruct (family_ a); [done| |];
    (split; cbn [union_ set_union]; [rewrite memcpy_at_length; rewrite ?be_bytes_length; lia
                                    |auto with hefur]).
Qed.

Lemma key_length a : address_ok a -> length (key a) = match family_ a with AF_INET => 6%nat | _ => 18%nat end.
Proof. intros [Hl _]. unfold key. destruct (family_ a); apply slice_length; lia. Qed.

(** The key alone separates addresses, as the comment of [Address::key]
    claims although it drops the family: two addresses of known family compare
    equal exactly when their keys are equal.  An address of unknown family
    equals nothing, not even itself. *)
Theorem address_eqb_key a b :
  address_ok a -> address_ok b -> family_ a <> AF_UNSPEC ->
  address_eqb a b = true <-> family_ b <> AF_UNSPEC /\ key a = key b.
Proof.
  intros Ha Hb Hn. pose proof (key_length a Ha) as La. pose proof (key_length b Hb) as Lb.
  unfold address_eqb, key in *.
  destruct (family_ a) eqn:Ea, (family_ b) eqn:Eb; case_decide; try done;
    rewrite ?bool_decide_eq_true; split; try done; try tauto; intros [_ Hk];
    rewrite Hk in La; congruence.
Qed.

Lemma address_eqb_key_witness :
  let a := assign_in (Address_new (replicate 18 0)) (Some ([10; 0; 0; 1], [0; 80])) in
  let b := assign_in (Address_new (replicate 18 9)) (Some ([10; 0; 0; 1], [0; 80])) in
  address_eqb a b = true.
Proof.
  intros a b. apply (address_eqb_key a b).
  - split; [reflexivity|repeat constructor; discriminate].
  - split; [reflexivity|repeat constructor; discriminate].
  - discriminate.
  - split; [discriminate|reflexivity].
Defined.

(** The port bytes an IPv4 assignment leaves. *)
Lemma assign_sockaddr_canonical_key junk ad p :
  address_ok (Address_new junk) -> length ad = 4%nat -> length p = 2%nat ->
  family_ (assign_sockaddr (Address_new junk) (Some (SaIn ad p))) = AF_INET /\
  slice 4 2 (union_ (assign_sockaddr (Address_new junk) (Some (SaIn ad p)))) = p.
Proof.
  intros [Hl _] Ha Hp. split; [done|]. cbn [assign_sockaddr assign_in union_ Address_new] in *.
  rewrite slice_memcpy_after; rewrite ?memcpy_at_length; try lia.
  rewrite <- Hp. apply slice_memcpy_same. lia.
Qed.

#[export] Hint Resolve assign_sockaddr_ok setPort_ok : hefur.

