(* ===== verification/Announce.v ===== *)
(** Announce and scrape requests and responses ([announce-request.hh],
    [announce-request.cc], [announce-response.hh], [scrape-request.hh],
    [scrape-response.hh], [peer.hh]). *)
From stdpp Require Import base list strings.
From Stdlib Require Import ZArith Lia Ascii.
From S2P Require Import Prelude Address InfoHash.

Inductive Event := kNone | kStarted | kCompleted | kStopped.

#[export] Instance Event_eq_dec : EqDecision Event.
Proof. solve_decision. Defined.

(** [crypto_port_] and [crypto_support_] are never read nor written. *)
Record AnnounceRequest := {
  rq_peerid_ : list Z;          (* char [20] *)
  rq_info_hash_ : InfoHash;
  rq_num_want_ : Z;             (* uint32_t *)
  rq_event_ : Event;
  rq_downloaded_ : Z;           (* uint64_t *)
  rq_uploaded_ : Z;
  rq_left_ : Z;
  rq_addr_ : Address;
  rq_skip_ipv6_ : bool;
}.

(** [interval_] stays uninitialised ([None]) until [TorrentDb] sets it. *)
Record AnnounceResponse := {
  error_ : bool;
  error_msg_ : string;
  nleechers_ : Z;
  nseeders_ : Z;
  ncompleted_ : Z;
  interval_ : option Z;
  addrs_ : list Address;
}.

Record ScrapeItem := {
  it_info_hash_ : InfoHash;
  it_nleechers_ : Z;
  it_nseeders_ : Z;
  it_ndownloaded_ : Z;
}.

Record ScrapeResponse := {
  sc_error_ : bool;
  sc_error_msg_ : string;
  sc_interval_ : Z;
  sc_items_ : list ScrapeItem;
}.

Record Peer := {
  addr_ : Address;
  left_ : Z;
  downloaded_ : Z;
  uploaded_ : Z;
  timeout_ts_ : Z;
  peerid_ : list Z;
}.

(** [strcasecmp] in the C locale folds ASCII letters. *)
Definition tolower (c : ascii) : ascii :=
  let n := nat_of_ascii c in
  if decide (65 <= n /\ n <= 90)%nat then ascii_of_nat (n + 32) else c.

Fixpoint lower (s : string) : string :=
  match s with
  | EmptyString => EmptyString
  | String c s => String (tolower c) (lower s)
  end.

Definition strcasecmp_eq (a b : string) : bool := bool_decide (lower a = lower b).

Definition parseEvent (s : string) : Event :=
  if strcasecmp_eq s "started" then kStarted
  else if strcasecmp_eq s "completed" then kCompleted
  else if strcasecmp_eq s "stopped" then kStopped
  else kNone.

(** [Peer::addr], the key of the peer trie. *)
Definition Peer_addr (p : Peer) : list Z := Address.key (addr_ p).

(** Event parsing ignores case: a string and its lower-case form denote
    the same event, the four events are told apart, and anything else is
    [kNone]. *)
Theorem parseEvent_spec s :
  parseEvent s = parseEvent (lower s) /\
  (parseEvent s = kStarted <-> lower s = "started") /\
  (parseEvent s = kCompleted <-> lower s = "completed") /\
  (parseEvent s = kStopped <-> lower s = "stopped").
Proof.
  assert (Hi : lower (lower s) = lower s).
  { induction s as [|c s IH]; [done|]. cbn [lower]. rewrite IH. f_equal.
    destruct c as [[] [] [] [] [] [] [] []]; reflexivity. }
  unfold parseEvent, strcasecmp_eq. rewrite Hi. simpl.
  repeat case_bool_decide; simplify_eq/=; intuition congruence.
Qed.

