(* ===== verification/Torrent.v ===== *)
(** One torrent and its peers ([torrent.hh], [torrent.cc]).

    A peer is a heap object: the trie [peers_] and the list [timeouts_] hold
    pointers to it, and an announce updates it in place.  An operation that
    reads a pointer with no object behind it (a freed peer) returns [None]. *)
From stdpp Require Import base list gmap strings.
From Stdlib Require Import ZArith Lia.
From S2P Require Import Prelude Containers Options Address InfoHash Announce.

Record Torrent (T L : Type) := mkTorrent {
  info_hash_ : InfoHash;
  name_ : string;
  path_ : string;
  length_ : Z;               (* uint64_t *)
  heap_ : gmap ptr Peer;     (* the live peers *)
  fresh_ : ptr;              (* the next pointer [new] returns *)
  timeouts_ : L;
  peers_ : T;
  leechers_ : Z;             (* uint32_t *)
  seeders_ : Z;
  completed_ : Z;
}.
Arguments mkTorrent {T L}.
Arguments info_hash_ {T L}.
Arguments name_ {T L}.
Arguments path_ {T L}.
Arguments length_ {T L}.
Arguments heap_ {T L}.
Arguments fresh_ {T L}.
Arguments timeouts_ {T L}.
Arguments peers_ {T L}.
Arguments leechers_ {T L}.
Arguments seeders_ {T L}.
Arguments completed_ {T L}.

Section Ops.
Context {T L : Type} `{Trie T} `{DList L}.
(** [m::minute] and the bytes of a fresh peer's address are mimosa's and the
    allocator's. *)
Context (minute : Z) (junk : list Z) (o : Options).

Implicit Types (t : Torrent T L) (p : ptr) (now : Z).

Definition Torrent_new (ih : InfoHash) (name path : string) (len : Z) : Torrent T L :=
  mkTorrent ih name path len ∅ 0%nat l_empty t_empty 0 0 0.

Definition with_peers t (h : gmap ptr Peer) (fr : ptr) (tm : L) (ps : T) (le se : Z) : Torrent T L :=
  mkTorrent (info_hash_ t) (name_ t) (path_ t) (length_ t) h fr tm ps le se (completed_ t).

Definition with_completed t (c : Z) : Torrent T L :=
  mkTorrent (info_hash_ t) (name_ t) (path_ t) (length_ t) (heap_ t) (fresh_ t) (timeouts_ t)
    (peers_ t) (leechers_ t) (seeders_ t) c.

(** [std::terminate] on another type is [None]. *)
Definition version t : option Z :=
  match type_ (info_hash_ t) with SHA1 => Some 1 | SHA256 => Some 2 | NONE => None end.

(** The peer without the counters' share of it: [--seeders_] or [--leechers_]. *)
Definition count_out t (peer : Peer) : Z * Z :=
  if decide (left_ peer = 0) then (leechers_ t, seeders_ t -u32 1)
  else (leechers_ t -u32 1, seeders_ t).

Definition count_in (le se : Z) (left : Z) : Z * Z :=
  if decide (left = 0) then (le, se +u32 1) else (le +u32 1, se).

Definition removePeer p t : option (Torrent T L) :=
  peer ← heap_ t !! p;
  let '(le, se) := count_out t peer in
  Some (with_peers t (delete p (heap_ t)) (fresh_ t) (l_erase p (timeouts_ t))
          (t_erase (Peer_addr peer) (peers_ t)) le se).

Definition set_timeout (ts : Z) (peer : Peer) : Peer :=
  {| addr_ := addr_ peer; left_ := left_ peer; downloaded_ := downloaded_ peer;
     uploaded_ := uploaded_ peer; timeout_ts_ := ts; peerid_ := peerid_ peer |}.

Definition updateTimeout now p (remove : bool) t : option (Torrent T L) :=
  let tm := if remove then l_erase p (timeouts_ t) else timeouts_ t in
  peer ← heap_ t !! p;
  let ts := now + minute * (ANNOUNCE_INTERVAL o +u32 5) in
  Some (with_peers t (<[p := set_timeout ts peer]> (heap_ t)) (fresh_ t) (l_pushBack p tm)
          (peers_ t) (leechers_ t) (seeders_ t)).

(** [Peer() = default]. *)
Definition Peer_new : Peer :=
  {| addr_ := Address.Address_new junk; left_ := 0; downloaded_ := 0; uploaded_ := 0;
     timeout_ts_ := 0; peerid_ := replicate 20 0 |}.

Definition fill_peer (rq : AnnounceRequest) (peer : Peer) : Peer :=
  {| addr_ := rq_addr_ rq; left_ := rq_left_ rq; downloaded_ := rq_downloaded_ rq;
     uploaded_ := rq_uploaded_ rq; timeout_ts_ := timeout_ts_ peer; peerid_ := rq_peerid_ rq |}.

(** Returns the torrent and the peer, which is never the null pointer. *)
Definition createOrUpdatePeer now (rq : AnnounceRequest) (peer : option ptr) t
  : option (Torrent T L * option ptr) :=
  let update := bool_decide (is_Some peer) in
  '(le, se) ← match peer with
              | Some p => old ← heap_ t !! p; Some (count_out t old)
              | None => Some (leechers_ t, seeders_ t)
              end;
  let '(p, fr, h) := match peer with
                     | Some p => (p, fresh_ t, heap_ t)
                     | None => (fresh_ t, S (fresh_ t), <[fresh_ t := Peer_new]> (heap_ t))
                     end in
  old ← h !! p;
  let new := fill_peer rq old in
  let '(le, se) := count_in le se (left_ new) in
  let ps := if update then peers_ t else t_insert (Peer_addr new) p (peers_ t) in
  t ← updateTimeout now p update (with_peers t (<[p := new]> h) fr (timeouts_ t) ps le se);
  Some (t, Some p).

(** The [continue] condition of the loop over the peers. *)
Definition skip_peer (rq : AnnounceRequest) (it : Peer) : bool :=
  bool_decide ((family_ (rq_addr_ rq) = AF_INET \/ rq_skip_ipv6_ rq = true)
               /\ family_ (addr_ it) = AF_INET6)
  || bool_decide (peerid_ it = rq_peerid_ rq)
  || Address.address_eqb (rq_addr_ rq) (addr_ it).

(** The loop from [timeouts_.rbegin()] to [timeouts_.rend()]. *)
Fixpoint collect_addrs (rq : AnnounceRequest) (num_want : Z) (h : gmap ptr Peer)
    (it : list ptr) (addrs : list Address) : option (list Address) :=
  match it with
  | [] => Some addrs
  | p :: it =>
      if decide (num_want <= Z.of_nat (length addrs)) then Some addrs
      else
        peer ← h !! p;
        if skip_peer rq peer then collect_addrs rq num_want h it addrs
        else collect_addrs rq num_want h it (addrs ++ [addr_ peer])
  end.

(** [num_want_] after [std::clamp<int>], back in a [uint32_t]. *)
Definition clamp_num_want (num_want : Z) : Z :=
  wrap 32 (clamp (int_of_u32 num_want) (int_of_u32 (MIN_NUMWANT o)) (int_of_u32 (MAX_NUMWANT o))).

Definition with_addrs (r : AnnounceResponse) (a : list Address) : AnnounceResponse :=
  {| error_ := error_ r; error_msg_ := error_msg_ r; nleechers_ := nleechers_ r;
     nseeders_ := nseeders_ r; ncompleted_ := ncompleted_ r; interval_ := interval_ r; addrs_ := a |}.

Definition with_error (r : AnnounceResponse) (msg : string) : AnnounceResponse :=
  {| error_ := true; error_msg_ := msg; nleechers_ := nleechers_ r;
     nseeders_ := nseeders_ r; ncompleted_ := ncompleted_ r; interval_ := interval_ r;
     addrs_ := addrs_ r |}.

(** [++completed_] when a known leecher reports its completion. *)
Definition count_completed (rq : AnnounceRequest) (peer : option ptr) t : option (Torrent T L) :=
  match peer with
  | None => Some t
  | Some p =>
      old ← heap_ t !! p;
      if decide (0 < left_ old /\ rq_left_ rq = 0 /\ rq_event_ rq = kCompleted)
      then Some (with_completed t (completed_ t +u32 1)) else Some t
  end.

Definition announce now (rq : AnnounceRequest) t : option (Torrent T L * AnnounceResponse) :=
  let response := {| error_ := false; error_msg_ := ""; nleechers_ := leechers_ t;
                     nseeders_ := seeders_ t; ncompleted_ := completed_ t;
                     interval_ := None; addrs_ := [] |} in
  let peer := t_find (Address.key (rq_addr_ rq)) (peers_ t) in
  t ← count_completed rq peer t;
  if decide (rq_event_ rq = kStopped) then
    t ← match peer with Some p => removePeer p t | None => Some t end;
    Some (t, response)
  else
    '(t, created) ← createOrUpdatePeer now rq peer t;
    match created with
    | None => Some (t, with_error response "internal error (2)")
    | Some _ =>
        addrs ← collect_addrs rq (clamp_num_want (rq_num_want_ rq)) (heap_ t)
                  (reverse (l_list (timeouts_ t))) [];
        t ← (if decide (MAX_PEERS o < leechers_ t +u32 seeders_ t)
             then front ← head (l_list (timeouts_ t)); removePeer front t else Some t);
        Some (t, with_addrs response addrs)
    end.

(** [while (!timeouts_.empty())]: each round removes the front or returns, so
    as many rounds as peers, and one to stop, are enough. *)
Fixpoint cleanup_loop (fuel : nat) now t : option (Torrent T L) :=
  match fuel with
  | O => None
  | S fuel =>
      match l_list (timeouts_ t) with
      | [] => Some t
      | p :: _ =>
          peer ← heap_ t !! p;
          if decide (now < timeout_ts_ peer) then Some t
          else t ← removePeer p t; cleanup_loop fuel now t
      end
  end.

Definition cleanup now t : option (Torrent T L) :=
  cleanup_loop (S (length (l_list (timeouts_ t)))) now t.

(** The peers from the oldest to the latest announce, as [PeersHandler] and
    the specification see them. *)
Definition peer_list t : list Peer := omap (heap_ t !!.) (l_list (timeouts_ t)).

(** [Torrent::~Torrent]: every listed peer is erased and freed. *)
Fixpoint destroy_loop (fuel : nat) t : option (Torrent T L) :=
  match fuel with
  | O => None
  | S fuel =>
      match l_list (timeouts_ t) with
      | [] => Some t
      | p :: _ =>
          _ ← heap_ t !! p;
          destroy_loop fuel (with_peers t (delete p (heap_ t)) (fresh_ t)
            (l_erase p (timeouts_ t)) (peers_ t) (leechers_ t) (seeders_ t))
      end
  end.

Definition destroy t : option (Torrent T L) := destroy_loop (S (length (l_list (timeouts_ t)))) t.
End Ops.
