(* ===== verification/TorrentSpec.v ===== *)
(** What a torrent promises, as operations on the list of its peers from the
    oldest to the latest announce, and the proof that the pointer-based code
    of [Torrent.v] implements it. *)
From stdpp Require Import base list gmap strings.
From Stdlib Require Import ZArith Lia Sorted.
From S2P Require Import Prelude Containers Options Address InfoHash Announce Torrent.

(** ** The specification *)
Section Spec.
Context (minute : Z) (o : Options).

Definition remove_key (k : tkey) (ps : list Peer) : list Peer := filter (fun q => Peer_addr q <> k) ps.
Definition find_key (k : tkey) (ps : list Peer) : option Peer := head (filter (fun q => Peer_addr q = k) ps).

Definition peer_timeout (now : Z) : Z := now + minute * (ANNOUNCE_INTERVAL o +u32 5).

Definition peer_of (now : Z) (rq : AnnounceRequest) : Peer :=
  {| addr_ := rq_addr_ rq; left_ := rq_left_ rq; downloaded_ := rq_downloaded_ rq;
     uploaded_ := rq_uploaded_ rq; timeout_ts_ := peer_timeout now; peerid_ := rq_peerid_ rq |}.

(** The latest announcers first, without the excluded ones, [num_want] at most. *)
Definition selected (rq : AnnounceRequest) (ps : list Peer) : list Address :=
  take (Z.to_nat (clamp_num_want o (rq_num_want_ rq)))
    (addr_ <$> filter (fun q => skip_peer rq q = false) (reverse ps)).

Definition trim (ps : list Peer) : list Peer :=
  if decide (MAX_PEERS o < Z.of_nat (length ps)) then tail ps else ps.

Definition announced (now : Z) (rq : AnnounceRequest) (ps : list Peer) : list Peer :=
  remove_key (Peer_addr (peer_of now rq)) ps ++ [peer_of now rq].

Definition spec_peers (now : Z) (rq : AnnounceRequest) (ps : list Peer) : list Peer :=
  if decide (rq_event_ rq = kStopped) then remove_key (Peer_addr (peer_of now rq)) ps
  else trim (announced now rq ps).

Definition spec_addrs (now : Z) (rq : AnnounceRequest) (ps : list Peer) : list Address :=
  if decide (rq_event_ rq = kStopped) then [] else selected rq (announced now rq ps).

(** One more completion when a known leecher reports that nothing is left. *)
Definition spec_completed (rq : AnnounceRequest) (ps : list Peer) (c : Z) : Z :=
  match find_key (Address.key (rq_addr_ rq)) ps with
  | Some old => if decide (0 < left_ old /\ rq_left_ rq = 0 /\ rq_event_ rq = kCompleted)
                then c +u32 1 else c
  | None => c
  end.

Definition nb_seeders (ps : list Peer) : Z := Z.of_nat (length (filter (fun q => left_ q = 0) ps)).
Definition nb_leechers (ps : list Peer) : Z := Z.of_nat (length (filter (fun q => left_ q <> 0) ps)).

Fixpoint spec_cleanup (now : Z) (ps : list Peer) : list Peer :=
  match ps with
  | [] => []
  | q :: ps => if decide (now < timeout_ts_ q) then q :: ps else spec_cleanup now ps
  end.
End Spec.

(** ** Facts about the specification *)

Lemma nb_split ps : nb_seeders ps + nb_leechers ps = Z.of_nat (length ps).
Proof.
  unfold nb_seeders, nb_leechers. induction ps as [|q ps IH]; [done|].
  rewrite !filter_cons. repeat case_decide; simpl length; try done; lia.
Qed.

Lemma nb_seeders_perm ps ps' : ps ≡ₚ ps' -> nb_seeders ps = nb_seeders ps'.
Proof. intros Hp. unfold nb_seeders. by rewrite Hp. Qed.
Lemma nb_leechers_perm ps ps' : ps ≡ₚ ps' -> nb_leechers ps = nb_leechers ps'.
Proof. intros Hp. unfold nb_leechers. by rewrite Hp. Qed.

Lemma nb_seeders_cons q ps :
  nb_seeders (q :: ps) = nb_seeders ps + (if decide (left_ q = 0) then 1 else 0).
Proof. unfold nb_seeders. rewrite filter_cons. case_decide; simpl length; lia. Qed.
Lemma nb_leechers_cons q ps :
  nb_leechers (q :: ps) = nb_leechers ps + (if decide (left_ q = 0) then 0 else 1).
Proof. unfold nb_leechers. rewrite filter_cons. repeat case_decide; simpl length; try done; lia. Qed.

Lemma nb_nonneg ps : 0 <= nb_seeders ps /\ 0 <= nb_leechers ps.
Proof. unfold nb_seeders, nb_leechers. lia. Qed.

Lemma remove_key_notin k ps : k ∉ Peer_addr <$> ps -> remove_key k ps = ps.
Proof.
  induction ps as [|q ps IH]; [done|]. rewrite fmap_cons, not_elem_of_cons. intros [Hn Hp].
  unfold remove_key in *. rewrite filter_cons_True by congruence. f_equal. auto.
Qed.

Lemma remove_key_head q ps : NoDup (Peer_addr <$> q :: ps) -> remove_key (Peer_addr q) (q :: ps) = ps.
Proof.
  rewrite fmap_cons, NoDup_cons. intros [Hq _].
  pose proof (remove_key_notin (Peer_addr q) ps Hq) as E. unfold remove_key in *.
  by rewrite filter_cons_False by tauto.
Qed.

Lemma remove_key_perm q ps :
  NoDup (Peer_addr <$> ps) -> q ∈ ps -> ps ≡ₚ q :: remove_key (Peer_addr q) ps.
Proof.
  induction ps as [|r ps IH]; [by intros _ ?%not_elem_of_nil|].
  rewrite fmap_cons, NoDup_cons, elem_of_cons. intros [Hr Hn] [->|Hq].
  - pose proof (remove_key_notin (Peer_addr r) ps Hr) as E. unfold remove_key in *.
    rewrite filter_cons_False by tauto. by rewrite E.
  - unfold remove_key in *. rewrite filter_cons_True.
    + rewrite (IH Hn Hq) at 1. apply Permutation_swap.
    + intros E. apply Hr. rewrite E. by apply list_elem_of_fmap_2.
Qed.

Lemma remove_key_nodup k ps : NoDup (Peer_addr <$> ps) -> NoDup (Peer_addr <$> remove_key k ps).
Proof.
  induction ps as [|q ps IH]; [done|]. rewrite fmap_cons, NoDup_cons. intros [Hn Hd].
  unfold remove_key in *. rewrite filter_cons. case_decide; [|auto].
  rewrite fmap_cons, NoDup_cons. split; [|auto].
  intros (r & Er & Hr%list_elem_of_filter)%list_elem_of_fmap. apply Hn. rewrite Er.
  apply list_elem_of_fmap_2. tauto.
Qed.

Lemma remove_key_not_in k ps : k ∉ Peer_addr <$> remove_key k ps.
Proof. intros (q & -> & Hq%list_elem_of_filter)%list_elem_of_fmap. tauto. Qed.

Lemma remove_key_length k ps : (length (remove_key k ps) <= length ps)%nat.
Proof. apply length_filter. Qed.

Lemma find_key_some k ps q :
  NoDup (Peer_addr <$> ps) -> q ∈ ps -> Peer_addr q = k -> find_key k ps = Some q.
Proof.
  intros Hn Hq <-. unfold find_key.
  destruct (list_elem_of_split _ _ Hq) as (l1 & l2 & ->).
  rewrite fmap_app, fmap_cons in Hn. apply NoDup_app in Hn as (_ & Hd & _).
  rewrite filter_app, filter_cons_True by done.
  replace (filter (fun r => Peer_addr r = Peer_addr q) l1) with (@nil Peer); [done|].
  symmetry. apply filter_none. intros r Hr E.
  apply (Hd (Peer_addr r)); [by apply list_elem_of_fmap_2|rewrite E; left].
Qed.

Lemma find_key_none k ps : k ∉ Peer_addr <$> ps -> find_key k ps = None.
Proof.
  intros Hn. unfold find_key. replace (filter _ ps) with (@nil Peer); [done|].
  symmetry. apply filter_none. intros r Hr E. apply Hn. rewrite <- E. by apply list_elem_of_fmap_2.
Qed.

Lemma Forall2_filter_iff {A B} (R : A -> B -> Prop) (P : A -> Prop) (Q : B -> Prop)
    `{forall x, Decision (P x)} `{forall y, Decision (Q y)} l k :
  Forall2 R l k -> (forall x y, x ∈ l -> R x y -> P x <-> Q y) ->
  Forall2 (fun x y => R x y /\ P x) (filter P l) (filter Q k).
Proof.
  induction 1 as [|x y l k Hxy Hlk IH]; intros Hiff; [constructor|].
  pose proof (Hiff x y ltac:(left) Hxy).
  assert (Forall2 (fun x y => R x y /\ P x) (filter P l) (filter Q k)) by (apply IH; intros; apply Hiff; [by right|done]).
  rewrite !filter_cons. repeat case_decide; try tauto; by constructor.
Qed.

#[export] Hint Resolve remove_key_nodup remove_key_not_in : hefur.

(** ** The refinement *)
Section Refinement.
Context {T L : Type} `{TrieLaws T} `{DListLaws L}.
Context (minute : Z) (junk : list Z) (o : Options).

Implicit Types (t : Torrent T L).

(** The heap, the trie, the list and the counters of [t] represent [ps]. *)
Record represents t (ps : list Peer) : Prop := {
  r_nodup : NoDup (l_list (timeouts_ t));
  r_list : Forall2 (fun p q => heap_ t !! p = Some q) (l_list (timeouts_ t)) ps;
  r_dom p q : heap_ t !! p = Some q -> p ∈ l_list (timeouts_ t);
  r_fresh p q : heap_ t !! p = Some q -> (p < fresh_ t)%nat;
  r_trie k p : t_find k (peers_ t) = Some p <-> exists q, heap_ t !! p = Some q /\ Peer_addr q = k;
  r_keys : NoDup (Peer_addr <$> ps);
  r_seeders : seeders_ t = nb_seeders ps;
  r_leechers : leechers_ t = nb_leechers ps;
}.

(** Same torrent, the peers apart. *)
Definition same_meta t t' : Prop :=
  info_hash_ t' = info_hash_ t /\ name_ t' = name_ t /\ path_ t' = path_ t /\
  length_ t' = length_ t /\ completed_ t' = completed_ t.

Lemma represents_new ih name path len : represents (Torrent_new ih name path len) [].
Proof.
  split; simpl; rewrite ?l_list_empty; try done; try constructor.
  - rewrite t_find_empty. done.
  - intros (q & E & _). done.
Qed.

Lemma represents_completed t ps c : represents t ps -> represents (with_completed t c) ps.
Proof. intros []. by split. Qed.

Lemma represents_in t ps p q : represents t ps -> heap_ t !! p = Some q -> q ∈ ps.
Proof.
  intros Hr Hp. pose proof (r_dom _ _ Hr _ _ Hp) as (i & Hi)%list_elem_of_lookup.
  destruct (Forall2_lookup_l _ _ _ _ _ (r_list _ _ Hr) Hi) as (q' & Hq' & E).
  simplify_eq. by eapply list_elem_of_lookup_2.
Qed.

Lemma represents_inj t ps p p' q q' :
  represents t ps -> heap_ t !! p = Some q -> heap_ t !! p' = Some q' ->
  Peer_addr q = Peer_addr q' -> p = p'.
Proof.
  intros Hr Hp Hp' E.
  assert (t_find (Peer_addr q) (peers_ t) = Some p) by (apply (r_trie _ _ Hr); eauto).
  assert (t_find (Peer_addr q) (peers_ t) = Some p') by (apply (r_trie _ _ Hr); eauto).
  congruence.
Qed.

Lemma represents_notin t ps k :
  represents t ps -> t_find k (peers_ t) = None -> k ∉ Peer_addr <$> ps.
Proof.
  intros Hr Hk (q & -> & (i & Hi)%list_elem_of_lookup)%list_elem_of_fmap.
  destruct (Forall2_lookup_r _ _ _ _ _ (r_list _ _ Hr) Hi) as (p & Hp & E).
  assert (t_find (Peer_addr q) (peers_ t) = Some p) by (apply (r_trie _ _ Hr); eauto).
  congruence.
Qed.

(** Dropping one pointer from the list drops its peer, in any heap that
    agrees with the old one elsewhere. *)
Lemma represents_filter t ps p q (h : gmap ptr Peer) :
  represents t ps -> heap_ t !! p = Some q ->
  (forall p', p' <> p -> h !! p' = heap_ t !! p') ->
  Forall2 (fun p q => h !! p = Some q)
    (filter (.≠ p) (l_list (timeouts_ t))) (remove_key (Peer_addr q) ps).
Proof.
  intros Hr Hp Hh.
  eapply Forall2_impl; [apply (Forall2_filter_iff (fun p q => heap_ t !! p = Some q))|].
  - apply Hr.
  - intros p' q' _ Hp'. split; [|naive_solver].
    intros Hn E. apply Hn. by eapply represents_inj.
  - simpl. intros p' q' [Hp' Hn]. by rewrite Hh.
Qed.

(** The counters without the share of one peer. *)
Lemma count_out_spec t ps p q le se :
  represents t ps -> Z.of_nat (length ps) < 2 ^ 32 -> heap_ t !! p = Some q ->
  count_out t q = (le, se) ->
  le = nb_leechers (remove_key (Peer_addr q) ps) /\ se = nb_seeders (remove_key (Peer_addr q) ps).
Proof.
  intros Hr Hlen Hp E.
  pose proof (remove_key_perm q ps (r_keys _ _ Hr) (represents_in _ _ _ _ Hr Hp)) as Hperm.
  pose proof (nb_seeders_perm _ _ Hperm) as Hs. pose proof (nb_leechers_perm _ _ Hperm) as Hl.
  rewrite nb_seeders_cons in Hs. rewrite nb_leechers_cons in Hl.
  pose proof (nb_split ps). pose proof (nb_nonneg (remove_key (Peer_addr q) ps)).
  unfold count_out in E. rewrite (r_seeders _ _ Hr), (r_leechers _ _ Hr) in E.
  case_decide; simplify_eq; rewrite wrap_small; lia.
Qed.

Lemma count_in_spec ps left le se :
  Z.of_nat (length ps) + 1 < 2 ^ 32 ->
  count_in (nb_leechers ps) (nb_seeders ps) left = (le, se) ->
  forall q, left_ q = left -> le = nb_leechers (ps ++ [q]) /\ se = nb_seeders (ps ++ [q]).
Proof.
  intros Hlen E q Hq.
  assert (Hp : ps ++ [q] ≡ₚ q :: ps) by (symmetry; apply Permutation_cons_append).
  rewrite (nb_leechers_perm _ _ Hp), (nb_seeders_perm _ _ Hp), nb_leechers_cons, nb_seeders_cons.
  pose proof (nb_split ps). pose proof (nb_nonneg ps).
  unfold count_in in E. rewrite Hq. case_decide; simplify_eq; rewrite wrap_small; lia.
Qed.

Lemma removePeer_spec t ps p q :
  represents t ps -> Z.of_nat (length ps) < 2 ^ 32 -> heap_ t !! p = Some q ->
  exists t', removePeer p t = Some t' /\ represents t' (remove_key (Peer_addr q) ps) /\ same_meta t t'.
Proof.
  intros Hr Hlen Hp. unfold removePeer. rewrite Hp; simpl.
  destruct (count_out t q) as [le se] eqn:E.
  destruct (count_out_spec _ _ _ _ _ _ Hr Hlen Hp E) as [-> ->].
  eexists. split; [done|]. split; [|done].
  split; simpl; rewrite ?l_list_erase; auto with hefur.
  - apply NoDup_filter, Hr.
  - apply (represents_filter _ _ _ _ _ Hr Hp). intros. by apply lookup_delete_ne.
  - intros p' q' (Hn & Hp')%lookup_delete_Some. apply list_elem_of_filter. split; [done|].
    by eapply (r_dom _ _ Hr).
  - intros p' q' [Hn Hp']%lookup_delete_Some. by eapply (r_fresh _ _ Hr).
  - intros k p'. rewrite t_find_erase. setoid_rewrite lookup_delete_Some.
    case_decide as Hk.
    + split; [done|]. intros (q' & [Hn Hp'] & E'). exfalso. apply Hn.
      apply (represents_inj t ps p p' q q' Hr Hp Hp'). congruence.
    + rewrite (r_trie _ _ Hr). split; [|intros (q' & [_ Hp'] & E'); eauto].
      intros (q' & Hp' & E'). exists q'. split; [split|]; auto. intros ->. congruence.
  - apply remove_key_nodup, Hr.
Qed.

(** A peer is refreshed: it goes to the back of the list with new data. *)
Lemma represents_update t ps p q new :
  represents t ps -> heap_ t !! p = Some q -> Peer_addr new = Peer_addr q ->
  let ps' := remove_key (Peer_addr q) ps ++ [new] in
  represents (with_peers t (<[p := new]> (heap_ t)) (fresh_ t) (l_pushBack p (l_erase p (timeouts_ t))) (peers_ t)
    (nb_leechers ps') (nb_seeders ps')) ps'.
Proof.
  intros Hr Hp Hkn ps'.
  assert (Hnew : p ∉ l_list (l_erase p (timeouts_ t))).
  { rewrite l_list_erase, list_elem_of_filter. tauto. }
  split; simpl; rewrite ?l_list_pushBack, ?l_list_erase by done; rewrite ?l_list_erase in Hnew; [..|done|done].
  - apply NoDup_app. split; [apply NoDup_filter, Hr|]. split; [|apply NoDup_singleton].
    intros p' Hp' ->%list_elem_of_singleton. by apply Hnew.
  - apply Forall2_app; [|by repeat constructor; apply lookup_insert_eq].
    apply (represents_filter _ _ _ _ _ Hr Hp). intros. by apply lookup_insert_ne.
  - intros p' q'. destruct (decide (p' = p)) as [->|Hn].
    + intros _. apply elem_of_app. right. by apply list_elem_of_singleton.
    + rewrite lookup_insert_ne by done. intros Hp'. apply elem_of_app. left.
      apply list_elem_of_filter. split; [done|]. by eapply (r_dom _ _ Hr).
  - intros p' q' [[-> _]|[_ Hp']]%lookup_insert_Some; by eapply (r_fresh _ _ Hr).
  - intros k p'. rewrite (r_trie _ _ Hr). setoid_rewrite lookup_insert_Some.
    split; intros (q' & Hq' & E2).
    + destruct (decide (p = p')) as [->|Hn]; [|by eauto 6].
      exists new. simplify_eq. split; [by left|done].
    + destruct Hq' as [[-> <-]|[Hn Hp']]; [|by eauto]. exists q. split; [done|congruence].
  - unfold ps'. rewrite fmap_app. apply NoDup_app. split; [apply remove_key_nodup, Hr|].
    split; [|apply NoDup_singleton]. simpl. rewrite Hkn.
    intros k Hin ->%list_elem_of_singleton. by eapply remove_key_not_in.
Qed.

(** A peer is added at the back of the list. *)
Lemma represents_insert t ps new :
  represents t ps -> t_find (Peer_addr new) (peers_ t) = None ->
  represents (with_peers t (<[fresh_ t := new]> (heap_ t)) (S (fresh_ t)) (l_pushBack (fresh_ t) (timeouts_ t))
    (t_insert (Peer_addr new) (fresh_ t) (peers_ t)) (nb_leechers (ps ++ [new])) (nb_seeders (ps ++ [new]))) (ps ++ [new]).
Proof.
  intros Hr Ek. pose proof (represents_notin _ _ _ Hr Ek) as Hnk.
  assert (Hnone : heap_ t !! fresh_ t = None).
  { destruct (heap_ t !! fresh_ t) eqn:Hf; [|done]. apply (r_fresh _ _ Hr) in Hf. lia. }
  assert (Hnew : fresh_ t ∉ l_list (timeouts_ t)).
  { intros (i & Hi)%list_elem_of_lookup.
    destruct (Forall2_lookup_l _ _ _ _ _ (r_list _ _ Hr) Hi) as (q' & _ & E). congruence. }
  split; simpl; rewrite ?l_list_pushBack by done; [..|done|done].
  - apply NoDup_app. split; [apply Hr|]. split; [|apply NoDup_singleton].
    intros p' Hp' ->%list_elem_of_singleton. by apply Hnew.
  - apply Forall2_app; [|by repeat constructor; apply lookup_insert_eq].
    eapply Forall2_impl; [apply Hr|]. simpl. intros p' q' Hp'.
    rewrite lookup_insert_ne; [done|]. congruence.
  - intros p' q' [[<- _]|[_ Hp']]%lookup_insert_Some; apply elem_of_app.
    + right. by apply list_elem_of_singleton.
    + left. by eapply (r_dom _ _ Hr).
  - intros p' q' [[<- _]|[_ Hp']]%lookup_insert_Some; [lia|]. apply (r_fresh _ _ Hr) in Hp'. lia.
  - intros k p'. rewrite t_find_insert by exact Ek. setoid_rewrite lookup_insert_Some. case_decide as Hk.
    + split; [intros [= <-]; exists new; split; [by left|done]|].
      intros (q' & [[<- _]|[_ Hp']] & E2); [done|]. exfalso. apply Hnk. rewrite Hk, <- E2.
      apply list_elem_of_fmap_2. by eapply represents_in.
    + rewrite (r_trie _ _ Hr). split; intros (q' & Hq' & E2).
      * exists q'. split; [right|done]. split; [congruence|done].
      * destruct Hq' as [[<- <-]|[Hn Hp']]; [done|by eauto].
  - rewrite fmap_app. apply NoDup_app. split; [apply Hr|]. split; [|apply NoDup_singleton].
    intros k Hin ->%list_elem_of_singleton. by apply Hnk.
Qed.

(** The two cases of [createOrUpdatePeer] end in the same state: the peer is
    at the back of the list with the data of the request. *)
Lemma create_spec now rq t ps :
  represents t ps -> Z.of_nat (length ps) + 1 < 2 ^ 32 ->
  let peer := t_find (Address.key (rq_addr_ rq)) (peers_ t) in
  exists t' p, createOrUpdatePeer minute junk o now rq peer t = Some (t', Some p) /\
    represents t' (announced minute o now rq ps) /\ same_meta t t'.
Proof.
  intros Hr Hlen peer. unfold createOrUpdatePeer, announced.
  destruct peer as [p|] eqn:Ek; subst peer; simpl.
  - destruct (proj1 (r_trie _ _ Hr _ _) Ek) as (q & Hp & Hk). rewrite Hp; simpl.
    destruct (count_out t q) as [le se] eqn:E. simpl.
    destruct (count_out_spec _ _ _ _ _ _ Hr ltac:(lia) Hp E) as [-> ->].
    destruct (count_in _ _ _) as [le' se'] eqn:E'.
    pose proof (remove_key_length (Peer_addr q) ps).
    destruct (count_in_spec (remove_key (Peer_addr q) ps) _ _ _ ltac:(lia) E' (peer_of minute o now rq)) as [-> ->]; [done|].
    unfold updateTimeout; simpl. rewrite lookup_insert_eq; simpl.
    eexists _, p. split; [done|]. split; [|done]. rewrite insert_insert_eq.
    change (set_timeout _ _) with (peer_of minute o now rq).
    assert (Hkn : Peer_addr (peer_of minute o now rq) = Peer_addr q) by (by rewrite Hk).
    rewrite Hkn. exact (represents_update t ps p q _ Hr Hp Hkn).
  - rewrite lookup_insert_eq; simpl.
    rewrite (r_leechers _ _ Hr), (r_seeders _ _ Hr).
    destruct (count_in _ _ _) as [le' se'] eqn:E'.
    destruct (count_in_spec _ _ _ _ Hlen E' (peer_of minute o now rq)) as [-> ->]; [done|].
    unfold updateTimeout; simpl. rewrite lookup_insert_eq; simpl.
    eexists _, (fresh_ t). split; [done|]. split; [|done]. rewrite !insert_insert_eq.
    change (set_timeout _ _) with (peer_of minute o now rq).
    rewrite remove_key_notin by (by eapply represents_notin).
    exact (represents_insert t ps (peer_of minute o now rq) Hr Ek).
Qed.

Lemma collect_addrs_spec rq n (h : gmap ptr Peer) l ps addrs :
  0 <= n -> Forall2 (fun p q => h !! p = Some q) l ps ->
  collect_addrs rq n h l addrs =
    Some (addrs ++ take (Z.to_nat n - length addrs)
                     (addr_ <$> filter (fun q => skip_peer rq q = false) ps)).
Proof.
  intros Hn Hl. revert addrs. induction Hl as [|p q l ps Hp Hl IH]; intros addrs; simpl.
  - by rewrite take_nil, app_nil_r.
  - case_decide.
    + replace (Z.to_nat n - length addrs)%nat with 0%nat by lia. by rewrite take_0, app_nil_r.
    + rewrite Hp; simpl. rewrite filter_cons. destruct (skip_peer rq q); case_decide; try done.
      rewrite IH. rewrite fmap_cons, <- app_assoc; simpl. rewrite length_app; simpl.
      destruct (Z.to_nat n - length addrs)%nat as [|m] eqn:Em; [lia|].
      replace (Z.to_nat n - (length addrs + 1))%nat with m by lia. done.
Qed.

Lemma completed_spec rq t ps :
  represents t ps ->
  count_completed rq (t_find (Address.key (rq_addr_ rq)) (peers_ t)) t =
    Some (with_completed t (spec_completed rq ps (completed_ t))).
Proof.
  intros Hr. unfold count_completed, spec_completed.
  destruct (t_find _ _) as [p|] eqn:Ek.
  - destruct (proj1 (r_trie _ _ Hr _ _) Ek) as (q & Hp & Hk). rewrite Hp; simpl.
    rewrite (find_key_some _ _ q (r_keys _ _ Hr) (represents_in _ _ _ _ Hr Hp) Hk).
    case_decide; [done|]. by destruct t.
  - rewrite find_key_none by (by eapply represents_notin). by destruct t.
Qed.

(** What a request leaves behind and what it answers. *)
Lemma announce_refines now rq t ps :
  represents t ps -> options_ok o -> Z.of_nat (length ps) <= MAX_PEERS o ->
  exists t' r, announce minute junk o now rq t = Some (t', r) /\
    represents t' (spec_peers minute o now rq ps) /\
    completed_ t' = spec_completed rq ps (completed_ t) /\
    info_hash_ t' = info_hash_ t /\ name_ t' = name_ t /\ path_ t' = path_ t /\ length_ t' = length_ t /\
    r = {| error_ := false; error_msg_ := ""; nleechers_ := nb_leechers ps;
           nseeders_ := nb_seeders ps; ncompleted_ := completed_ t; interval_ := None;
           addrs_ := spec_addrs minute o now rq ps |}.
Proof.
  intros Hr Ho Hlen. unfold announce. rewrite (completed_spec _ _ _ Hr). cbn [mbind option_bind].
  rewrite (r_seeders _ _ Hr), (r_leechers _ _ Hr). unfold spec_peers, spec_addrs.
  pose proof (represents_completed t ps (spec_completed rq ps (completed_ t)) Hr) as Hrc.
  set (tc := with_completed t _) in *.
  assert (HM : 0 <= MAX_PEERS o < 2 ^ 32 - 1) by apply Ho.
  case_decide as Hstop.
  - change (peers_ t) with (peers_ tc). destruct (t_find _ _) as [p|] eqn:Ek.
    + destruct (proj1 (r_trie _ _ Hrc _ _) Ek) as (q & Hp & Hk).
      destruct (removePeer_spec tc ps p q Hrc ltac:(lia) Hp) as (t' & -> & Hr' & Hm).
      simpl. eexists _, _. split; [done|]. rewrite Hk in Hr'. unfold same_meta in Hm.
      split; [exact Hr'|]. destruct Hm as (E1 & E2 & E3 & E4 & E5).
      subst tc; simpl in *. repeat split; congruence.
    + simpl. eexists _, _. split; [done|]. rewrite remove_key_notin by (by eapply represents_notin).
      done.
  - change (peers_ t) with (peers_ tc).
    destruct (create_spec now rq tc ps Hrc ltac:(lia)) as (t1 & p & -> & Hr1 & Hm1).
    cbn [mbind option_bind]. cbv beta iota.
    set (ps1 := announced minute o now rq ps) in *.
    assert (Hl1 : Z.of_nat (length ps1) <= Z.of_nat (length ps) + 1).
    { unfold ps1, announced. rewrite length_app; simpl.
      pose proof (remove_key_length (Peer_addr (peer_of minute o now rq)) ps). lia. }
    rewrite (collect_addrs_spec _ _ _ _ (reverse ps1)); cycle 1.
    { apply wrap_range. lia. }
    { apply Forall2_reverse, Hr1. }
    cbn [mbind option_bind]. rewrite Nat.sub_0_r, app_nil_l. unfold trim.
    pose proof (nb_split ps1) as Hs. pose proof (nb_nonneg ps1).
    rewrite (r_seeders _ _ Hr1), (r_leechers _ _ Hr1), wrap_small by lia.
    replace (nb_leechers ps1 + nb_seeders ps1) with (Z.of_nat (length ps1)) by lia.
    unfold same_meta in Hm1. destruct Hm1 as (E1 & E2 & E3 & E4 & E5).
    case_decide as Hmax.
    + pose proof (r_list _ _ Hr1) as Hl. pose proof (r_keys _ _ Hr1) as Hk1.
      destruct Hl as [|p1 q1 l1 ps1' Hp1 Hl]; [simpl in Hmax; lia|].
      cbn [head hd_error mbind option_bind].
      destruct (removePeer_spec t1 _ p1 q1 Hr1 ltac:(lia) Hp1) as (t2 & -> & Hr2 & Hm2).
      eexists _, _. split; [done|].
      rewrite remove_key_head in Hr2 by done. split; [exact Hr2|]. destruct Hm2 as (F1 & F2 & F3 & F4 & F5).
      subst tc; simpl in *. repeat split; congruence.
    + eexists _, _. split; [done|]. split; [exact Hr1|]. subst tc; simpl in *. repeat split; congruence.
Qed.

Lemma cleanup_loop_spec now fuel t ps :
  represents t ps -> Z.of_nat (length ps) < 2 ^ 32 -> (length ps < fuel)%nat ->
  exists t', cleanup_loop fuel now t = Some t' /\ represents t' (spec_cleanup now ps) /\ same_meta t t'.
Proof.
  revert t ps. induction fuel as [|fuel IH]; intros t ps Hr Hlen Hf; [lia|].
  simpl. pose proof (r_list _ _ Hr) as Hl. pose proof (r_keys _ _ Hr) as Hk.
  destruct Hl as [|p q l ps Hp Hl]; [by exists t|].
  rewrite Hp; simpl. case_decide; [by exists t|].
  destruct (removePeer_spec t _ p q Hr Hlen Hp) as (t1 & -> & Hr1 & Hm1). cbn [mbind option_bind].
  rewrite remove_key_head in Hr1 by done. simpl in Hlen, Hf.
  destruct (IH t1 ps Hr1 ltac:(lia) ltac:(lia)) as (t2 & -> & Hr2 & Hm2).
  exists t2. split; [done|]. split; [done|].
  destruct Hm1 as (E1 & E2 & E3 & E4 & E5), Hm2 as (F1 & F2 & F3 & F4 & F5).
  repeat split; congruence.
Qed.

Lemma cleanup_refines now t ps :
  represents t ps -> Z.of_nat (length ps) < 2 ^ 32 ->
  exists t', cleanup now t = Some t' /\ represents t' (spec_cleanup now ps) /\ same_meta t t'.
Proof.
  intros Hr Hlen. apply cleanup_loop_spec; auto.
  rewrite (Forall2_length _ _ _ (r_list _ _ Hr)). lia.
Qed.

Lemma peer_list_represents t ps : represents t ps -> peer_list t = ps.
Proof.
  intros Hr. unfold peer_list. destruct Hr as [_ Hl _ _ _ _ _ _].
  induction Hl as [|p q l ps' Hp Hl IH]; [done|].
  cbn. rewrite Hp. f_equal. exact IH.
Qed.

End Refinement.
