(* ===== verification/TorrentTheorems.v ===== *)
(** Theorems about a torrent: memory safety and invariants of every history of
    announces and cleanups, what an announce answers, what a cleanup removes. *)
From stdpp Require Import base list gmap strings sorting.
From Stdlib Require Import ZArith Lia.
From S2P Require Import Prelude Containers Options Address InfoHash Announce Torrent TorrentSpec.

(** Later peers time out later. *)
Definition by_timeout : relation Peer := fun a b => timeout_ts_ a <= timeout_ts_ b.

(** ** Histories: the monotonic clock never goes back. *)
Section History.
Context {T L : Type} `{TrieLaws T} `{DListLaws L}.
Context (minute : Z) (junk : list Z) (o : Options).

Inductive reachable : Torrent T L -> Z -> Prop :=
| reach_new ih name path len clock :
    reachable (Torrent_new ih name path len) clock
| reach_announce t clock now rq t' r :
    reachable t clock -> clock <= now ->
    announce minute junk o now rq t = Some (t', r) -> reachable t' now
| reach_cleanup t clock now t' :
    reachable t clock -> clock <= now ->
    cleanup now t = Some t' -> reachable t' now.

(** The invariant of histories, on the peers a state represents. *)
Record peers_inv (clock : Z) (ps : list Peer) : Prop := {
  inv_length : Z.of_nat (length ps) <= MAX_PEERS o;
  inv_sorted : StronglySorted by_timeout ps;
  inv_bound : Forall (fun q => timeout_ts_ q <= peer_timeout minute o clock) ps;
}.

Lemma sorted_snoc q ps :
  StronglySorted by_timeout ps -> Forall (fun r => timeout_ts_ r <= timeout_ts_ q) ps ->
  StronglySorted by_timeout (ps ++ [q]).
Proof.
  induction 1 as [|r ps Hs IH Hr]; simpl; intros Hq; [repeat constructor|].
  inversion_clear Hq. constructor; [by apply IH|]. apply Forall_app. auto.
Qed.

Lemma inv_nil clock : options_ok o -> peers_inv clock [].
Proof. intros Ho. split; [apply Ho|constructor|constructor]. Qed.

Lemma inv_later clock now ps : clock <= now -> peers_inv clock ps -> peers_inv now ps.
Proof.
  intros Hc [Hl Hs Hb]. split; [done|done|]. eapply Forall_impl; [exact Hb|].
  unfold peer_timeout. simpl. intros. lia.
Qed.

Lemma inv_filter clock (P : Peer -> Prop) `{forall q, Decision (P q)} ps :
  peers_inv clock ps -> peers_inv clock (filter P ps).
Proof.
  intros [Hl Hs Hb]. pose proof (length_filter P ps). split; [lia|by apply sorted_filter|].
  by apply Forall_filter.
Qed.

Lemma inv_tail clock ps : peers_inv clock ps -> peers_inv clock (tail ps).
Proof.
  intros [Hl Hs Hb]. destruct ps as [|q ps]; [done|]. simpl in *.
  inversion_clear Hs. inversion_clear Hb. split; [lia|done|done].
Qed.

Lemma inv_spec_peers now rq ps :
  options_ok o -> peers_inv now ps -> peers_inv now (spec_peers minute o now rq ps).
Proof.
  intros Ho Hi. unfold spec_peers, trim, announced.
  case_decide; [by apply inv_filter|].
  pose proof (inv_filter now (fun q => Peer_addr q <> Peer_addr (peer_of minute o now rq)) ps Hi)
    as [Hl Hs Hb].
  set (ps' := filter _ ps) in *. change (remove_key _ ps) with ps'.
  assert (Hs' : StronglySorted by_timeout (ps' ++ [peer_of minute o now rq])).
  { by apply sorted_snoc. }
  assert (Hb' : Forall (fun q => timeout_ts_ q <= peer_timeout minute o now)
                  (ps' ++ [peer_of minute o now rq])).
  { apply Forall_app. split; [done|]. by repeat constructor. }
  case_decide as Hc; [|split; [lia|done|done]].
  destruct ps' as [|q ps']; simpl in *.
  - split; [simpl; apply Ho|constructor|constructor].
  - inversion_clear Hs'. inversion_clear Hb'.
    rewrite length_app in Hc; simpl in Hc. split; [rewrite length_app; simpl; lia|done|done].
Qed.

Lemma spec_cleanup_filter now ps :
  StronglySorted by_timeout ps -> spec_cleanup now ps = filter (fun q => now < timeout_ts_ q) ps.
Proof.
  induction 1 as [|q ps Hs IH Hq]; [done|]. simpl. rewrite filter_cons.
  case_decide as Hd; [|done]. f_equal. symmetry. apply filter_all.
  intros r Hr. rewrite Forall_forall in Hq. specialize (Hq r Hr). unfold by_timeout in Hq. lia.
Qed.

Lemma reachable_inv t clock :
  options_ok o -> reachable t clock -> exists ps, represents t ps /\ peers_inv clock ps.
Proof.
  intros Ho. assert (HM : 0 <= MAX_PEERS o < 2 ^ 32 - 1) by apply Ho.
  induction 1 as [ih name path len clock|t clock now rq t' r _ (ps & Hr & Hi) Hc E
                 |t clock now t' _ (ps & Hr & Hi) Hc E].
  - exists []. split; [apply represents_new|by apply inv_nil].
  - destruct (announce_refines minute junk o now rq t ps Hr Ho (inv_length _ _ Hi))
      as (t1 & r1 & E1 & Hr1 & _). simplify_eq.
    eexists. split; [exact Hr1|]. apply inv_spec_peers; [done|]. by eapply inv_later.
  - pose proof (inv_length _ _ Hi).
    destruct (cleanup_refines now t ps Hr ltac:(lia)) as (t1 & E1 & Hr1 & _). simplify_eq.
    eexists. split; [exact Hr1|]. rewrite spec_cleanup_filter by apply Hi.
    apply inv_filter. by eapply inv_later.
Qed.
End History.

(** ** The properties *)
Section Properties.
Context {T L : Type} `{TrieLaws T} `{DListLaws L}.
Context (minute : Z) (junk : list Z) (o : Options).

(** In every history of announces and cleanups, no operation reads a freed
    peer, the trie, the list, the heap and the two counters describe the same
    peers, at most [MAX_PEERS] peers are kept, and [timeouts_] is sorted by
    expiry; and the next announce or cleanup always returns. *)
Theorem torrent_safe (t : Torrent T L) clock :
  options_ok o -> reachable minute junk o t clock ->
  (exists ps, represents t ps /\ peers_inv minute o clock ps) /\
  (forall now rq, exists t' r, announce minute junk o now rq t = Some (t', r)) /\
  (forall now, exists t', cleanup now t = Some t').
Proof.
  intros Ho Ht. destruct (reachable_inv minute junk o t clock Ho Ht) as (ps & Hr & Hi).
  pose proof (inv_length _ _ _ _ Hi). pose proof (proj2 (proj2 Ho)).
  split; [by exists ps|]. split.
  - intros now rq.
    destruct (announce_refines minute junk o now rq t ps Hr Ho) as (t' & r & E & _); eauto.
  - intros now. destruct (cleanup_refines now t ps Hr) as (t' & E & _); [lia|eauto].
Qed.

(** C2. Refinement: on a torrent that represents the list of peers [ps] an
    announce leaves a torrent that represents [spec_peers] (the requester
    removed, or moved to the back with the data of the request, and the
    oldest peer dropped beyond [MAX_PEERS]), counts one more completion
    exactly when [spec_completed] does, keeps the torrent's other data, and
    answers the counts from before the request with [spec_addrs]. *)
Theorem announce_implements_spec now rq (t : Torrent T L) ps :
  represents t ps -> options_ok o -> Z.of_nat (length ps) <= MAX_PEERS o ->
  exists t' r, announce minute junk o now rq t = Some (t', r) /\
    represents t' (spec_peers minute o now rq ps) /\
    completed_ t' = spec_completed rq ps (completed_ t) /\
    info_hash_ t' = info_hash_ t /\ name_ t' = name_ t /\ path_ t' = path_ t /\ length_ t' = length_ t /\
    r = {| error_ := false; error_msg_ := ""; nleechers_ := nb_leechers ps;
           nseeders_ := nb_seeders ps; ncompleted_ := completed_ t; interval_ := None;
           addrs_ := spec_addrs minute o now rq ps |}.
Proof. apply announce_refines. Qed.

(** The addresses answered by an announce are addresses of peers of the
    torrent, [num_want] (clamped) of them at most; none is the requester's
    own, none belongs to a peer with the requester's peer id, and none is
    IPv6 when the requester is IPv4 or asked to skip IPv6.  A stopped
    requester gets none. *)
Theorem announce_response_addrs now rq (t : Torrent T L) clock t' r :
  options_ok o -> reachable minute junk o t clock ->
  announce minute junk o now rq t = Some (t', r) ->
  error_ r = false /\
  Z.of_nat (length (addrs_ r)) <= clamp_num_want o (rq_num_want_ rq) /\
  (rq_event_ rq = kStopped -> addrs_ r = []) /\
  forall a, a ∈ addrs_ r -> exists q, q ∈ peer_list t /\ addr_ q = a /\
    Address.address_eqb (rq_addr_ rq) a = false /\
    peerid_ q <> rq_peerid_ rq /\
    (family_ (rq_addr_ rq) = AF_INET \/ rq_skip_ipv6_ rq = true -> family_ a <> AF_INET6).
Proof.
  intros Ho Ht E. destruct (reachable_inv minute junk o t clock Ho Ht) as (ps & Hr & Hi).
  destruct (announce_refines minute junk o now rq t ps Hr Ho (inv_length _ _ _ _ Hi))
    as (t1 & r1 & E1 & _ & _ & _ & _ & _ & _ & Er). simplify_eq; simpl.
  pose proof (wrap_range 32 (clamp (int_of_u32 (rq_num_want_ rq)) (int_of_u32 (MIN_NUMWANT o))
    (int_of_u32 (MAX_NUMWANT o))) ltac:(lia)) as Hw.
  rewrite (peer_list_represents _ _ Hr). unfold spec_addrs, clamp_num_want in *.
  split; [done|]. case_decide as Hs.
  - simpl. split; [lia|]. split; [done|]. by intros a ?%not_elem_of_nil.
  - unfold selected, clamp_num_want. split; [rewrite length_take; lia|]. split; [done|].
    intros a Ha%(subseteq_take _ _ a).
    apply list_elem_of_fmap in Ha as (q & -> & [Hskip Hq]%list_elem_of_filter).
    exists q. unfold skip_peer in Hskip. apply orb_false_iff in Hskip as [[H6 Hid]%orb_false_iff Heq].
    apply bool_decide_eq_false in H6, Hid.
    assert (Hin : q ∈ ps).
    { rewrite elem_of_reverse in Hq. apply elem_of_app in Hq as [Hq|Hq].
      - by apply list_elem_of_filter in Hq as [_ Hq].
      - apply list_elem_of_singleton in Hq. subst q. exfalso. by apply Hid. }
    repeat split; auto.
Qed.

(** A cleanup removes exactly the peers whose timeout has passed, and
    changes nothing else of the peer list. *)
Theorem cleanup_removes_expired now (t : Torrent T L) clock :
  options_ok o -> reachable minute junk o t clock ->
  exists t', cleanup now t = Some t' /\
    peer_list t' = filter (fun q => now < timeout_ts_ q) (peer_list t) /\
    completed_ t' = completed_ t.
Proof.
  intros Ho Ht. destruct (reachable_inv minute junk o t clock Ho Ht) as (ps & Hr & Hi).
  pose proof (inv_length _ _ _ _ Hi). pose proof (proj2 (proj2 Ho)).
  destruct (cleanup_refines now t ps Hr ltac:(lia)) as (t' & E & Hr' & Hm).
  exists t'. split; [done|]. split; [|apply Hm].
  rewrite (peer_list_represents _ _ Hr), (peer_list_represents _ _ Hr').
  apply spec_cleanup_filter, Hi.
Qed.

(** After a stop the requester's key is in no peer of the torrent; after
    any other announce, when [MAX_PEERS] is positive, the requester is the
    last peer of the list, with the data of the request and a full timeout. *)
Theorem announce_keeps_requester now rq (t : Torrent T L) clock t' r :
  options_ok o -> 0 < MAX_PEERS o -> reachable minute junk o t clock ->
  announce minute junk o now rq t = Some (t', r) ->
  if decide (rq_event_ rq = kStopped)
  then Address.key (rq_addr_ rq) ∉ Peer_addr <$> peer_list t'
  else last (peer_list t') = Some (peer_of minute o now rq).
Proof.
  intros Ho HM Ht E. destruct (reachable_inv minute junk o t clock Ho Ht) as (ps & Hr & Hi).
  pose proof (inv_length _ _ _ _ Hi).
  destruct (announce_refines minute junk o now rq t ps Hr Ho) as (t1 & r1 & E1 & Hr1 & _); [done|].
  simplify_eq. rewrite (peer_list_represents _ _ Hr1). unfold spec_peers.
  case_decide; [apply remove_key_not_in|].
  unfold trim, announced. case_decide as Hc; [|apply last_snoc].
  destruct (remove_key _ ps) as [|q ps'] eqn:Ek; simpl in *; [lia|apply last_snoc].
Qed.

(** The number of wanted peers always ends between the two options; a
    value of 2^31 or more (the protocol's -1 default included) becomes
    [MIN_NUMWANT]. *)
Theorem num_want_clamped num_want :
  options_ok o -> 0 <= num_want < 2 ^ 32 ->
  MIN_NUMWANT o <= clamp_num_want o num_want <= MAX_NUMWANT o /\
  (2 ^ 31 <= num_want -> clamp_num_want o num_want = MIN_NUMWANT o).
Proof.
  intros (Hmin & Hmax & Hpeers) Hn. unfold clamp_num_want, int_of_u32.
  rewrite (decide_True (P := MIN_NUMWANT o < 2 ^ 31)) by lia.
  rewrite (decide_True (P := MAX_NUMWANT o < 2 ^ 31)) by lia.
  pose proof (clamp_range (if decide (num_want < 2 ^ 31) then num_want else num_want - 2 ^ 32)
    (MIN_NUMWANT o) (MAX_NUMWANT o) ltac:(lia)).
  rewrite wrap_small by lia. split; [lia|]. intros Hb. unfold clamp.
  repeat case_decide; lia.
Qed.
End Properties.

(** ** Witnesses: a torrent with one peer, on the concrete containers *)
Module Demo.
Definition minute : Z := 60000.
Definition addr (n : Z) : Address :=
  Address.assign_in (Address.Address_new (replicate 18 0)) (Some ([10; 0; 0; n], [26; 225])).
Definition rq (n left : Z) (ev : Event) : AnnounceRequest :=
  {| rq_peerid_ := replicate 20 n;
     rq_info_hash_ := InfoHash.InfoHash_new SHA1 (replicate 20 1);
     rq_num_want_ := 2 ^ 32 - 1; rq_event_ := ev; rq_downloaded_ := 0; rq_uploaded_ := 0;
     rq_left_ := left; rq_addr_ := addr n; rq_skip_ipv6_ := false |}.
Definition t0 : Torrent (gmap tkey ptr) (list ptr) :=
  Torrent_new (InfoHash.InfoHash_new SHA1 (replicate 20 1)) "name" "path" 7.
Definition after (now : Z) (r : AnnounceRequest) (t : Torrent (gmap tkey ptr) (list ptr)) :=
  match announce minute (replicate 18 0) default_options now r t with Some (t', _) => t' | None => t end.
Definition t1 := after 100 (rq 1 5 kStarted) t0.

Lemma t1_reachable : reachable minute (replicate 18 0) default_options t1 100.
Proof.
  eapply (reach_announce _ _ _ t0 0 100 (rq 1 5 kStarted)); [apply reach_new|lia|].
  vm_compute. reflexivity.
Defined.
End Demo.

Lemma torrent_safe_witness :
  exists t' r, announce Demo.minute (replicate 18 0) default_options 200 (Demo.rq 2 0 kCompleted) Demo.t1
               = Some (t', r).
Proof.
  exact (proj1 (proj2 (torrent_safe Demo.minute (replicate 18 0) default_options Demo.t1 100
    default_options_ok Demo.t1_reachable)) 200 (Demo.rq 2 0 kCompleted)).
Defined.

Lemma announce_implements_spec_witness :
  exists t' r, announce Demo.minute (replicate 18 0) default_options 50 (Demo.rq 3 0 kNone) Demo.t0
               = Some (t', r).
Proof.
  destruct (announce_implements_spec Demo.minute (replicate 18 0) default_options 50 (Demo.rq 3 0 kNone)
    Demo.t0 [] (represents_new _ _ _ _) default_options_ok) as (t' & r & E & _); [simpl; lia|].
  exists t', r. exact E.
Defined.

Lemma announce_response_addrs_witness :
  Z.of_nat (length [Demo.addr 1]) <= clamp_num_want default_options (2 ^ 32 - 1).
Proof.
  apply (announce_response_addrs Demo.minute (replicate 18 0) default_options 200 (Demo.rq 2 0 kNone)
    Demo.t1 100 (Demo.after 200 (Demo.rq 2 0 kNone) Demo.t1)
    {| error_ := false; error_msg_ := ""; nleechers_ := 1; nseeders_ := 0; ncompleted_ := 0;
       interval_ := None; addrs_ := [Demo.addr 1] |} default_options_ok Demo.t1_reachable).
  vm_compute. reflexivity.
Defined.

Lemma cleanup_removes_expired_witness :
  exists t', cleanup 1200100 Demo.t1 = Some t' /\ peer_list t' = [].
Proof.
  destruct (cleanup_removes_expired Demo.minute (replicate 18 0) default_options 1200100 Demo.t1 100
    default_options_ok Demo.t1_reachable) as (t' & E & Ep & _).
  exists t'. split; [exact E|]. rewrite Ep. vm_compute. reflexivity.
Defined.

Lemma announce_keeps_requester_witness :
  last (peer_list (Demo.after 200 (Demo.rq 2 0 kNone) Demo.t1))
  = Some (peer_of Demo.minute default_options 200 (Demo.rq 2 0 kNone)).
Proof.
  refine (announce_keeps_requester Demo.minute (replicate 18 0) default_options 200 (Demo.rq 2 0 kNone)
    Demo.t1 100 _ _ default_options_ok _ Demo.t1_reachable _); [reflexivity|vm_compute; reflexivity].
Defined.

Lemma num_want_clamped_witness : clamp_num_want default_options (2 ^ 32 - 1) = 50.
Proof.
  refine (proj2 (num_want_clamped default_options (2 ^ 32 - 1) default_options_ok _) _); lia.
Defined.
