(* ===== verification/TorrentDb.v ===== *)
(** The in-memory torrent database ([torrent-db.hh], [torrent-db.cc]).

    [torrents_] is a trie of pointers to torrents; a torrent object stays at
    its pointer, so announces and cleanups update it in place.  Every public
    operation runs under [torrents_lock_] and is one step here; Threads.v looks
    into the steps. *)
From stdpp Require Import base list gmap strings.
From Stdlib Require Import ZArith Lia.
From S2P Require Import Prelude Containers Options Address InfoHash Announce Torrent TorrentSpec TorrentTheorems.

Record TorrentDb (T L : Type) := mkTorrentDb {
  torrents_ : T;
  objects_ : gmap ptr (Torrent T L);   (* the torrent objects *)
  next_ : ptr;
}.
Arguments mkTorrentDb {T L}.
Arguments torrents_ {T L}.
Arguments objects_ {T L}.
Arguments next_ {T L}.

Section Ops.
Context {T L : Type} `{Trie T} `{DList L}.
Context (minute : Z) (junk : list Z) (o : Options).

Implicit Types (db : TorrentDb T L).

Definition TorrentDb_new : TorrentDb T L := mkTorrentDb t_empty ∅ 0%nat.

(** [torrent->key().substr(0, 20)]. *)
Definition torrentKey (t : Torrent T L) : tkey := take 20 (bytes (info_hash_ t)).

Definition with_object db (p : ptr) (t : Torrent T L) : TorrentDb T L :=
  mkTorrentDb (torrents_ db) (<[p := t]> (objects_ db)) (next_ db).

Definition with_interval (r : AnnounceResponse) (i : Z) : AnnounceResponse :=
  {| error_ := error_ r; error_msg_ := error_msg_ r; nleechers_ := nleechers_ r;
     nseeders_ := nseeders_ r; ncompleted_ := ncompleted_ r; interval_ := Some i;
     addrs_ := addrs_ r |}.

Definition not_found : AnnounceResponse :=
  {| error_ := true; error_msg_ := "torrent not found"; nleechers_ := 0; nseeders_ := 0;
     ncompleted_ := 0; interval_ := None; addrs_ := [] |}.

Definition db_announce (now : Z) (rq : AnnounceRequest) db
  : option (TorrentDb T L * AnnounceResponse) :=
  match t_find (bytes (rq_info_hash_ rq)) (torrents_ db) with
  | None => Some (db, not_found)
  | Some p =>
      t ← objects_ db !! p;
      '(t, r) ← announce minute junk o now rq t;
      Some (with_object db p t, with_interval r (wrap 32 (ANNOUNCE_INTERVAL o * 60)))
  end.

(** One turn of the loop of [TorrentDb::scrape]. *)
Definition scrape_item db (h : InfoHash) : option (option ScrapeItem) :=
  match t_find (bytes h) (torrents_ db) with
  | None => Some None
  | Some p =>
      t ← objects_ db !! p;
      Some (Some {| it_info_hash_ := h; it_nleechers_ := leechers_ t; it_nseeders_ := seeders_ t;
                    it_ndownloaded_ := completed_ t |})
  end.

Fixpoint scrape_items db (hs : list InfoHash) : option (list ScrapeItem) :=
  match hs with
  | [] => Some []
  | h :: hs =>
      i ← scrape_item db h;
      its ← scrape_items db hs;
      Some (match i with Some i => i :: its | None => its end)
  end.

Definition scrape db (hs : list InfoHash) : option ScrapeResponse :=
  items ← scrape_items db hs;
  Some {| sc_error_ := false; sc_error_msg_ := "";
          sc_interval_ := wrap 32 (SCRAPE_INTERVAL o * 60); sc_items_ := items |}.

(** [torrents_.foreach]: the torrents one after the other. *)
Fixpoint cleanup_all (now : Z) (es : list (tkey * ptr)) db : option (TorrentDb T L) :=
  match es with
  | [] => Some db
  | (_, p) :: es =>
      t ← objects_ db !! p;
      t ← cleanup now t;
      cleanup_all now es (with_object db p t)
  end.

Definition db_cleanup (now : Z) db : option (TorrentDb T L) :=
  cleanup_all now (t_entries (torrents_ db)) db.

(** [addTorrent(new Torrent(...))]; [None] is the null pointer.  When the
    trie drops the pointer the object is released; here it stays, unreachable. *)
Definition addTorrent (torrent : option (Torrent T L)) db : TorrentDb T L :=
  match torrent with
  | None => db
  | Some t =>
      mkTorrentDb (t_insert (torrentKey t) (next_ db) (torrents_ db))
        (<[next_ db := t]> (objects_ db)) (S (next_ db))
  end.

Definition removeTorrent (info_hash : tkey) db : TorrentDb T L :=
  mkTorrentDb (t_erase info_hash (torrents_ db)) (objects_ db) (next_ db).

(** The torrent an info hash leads to. *)
Definition lookup_torrent db (k : tkey) : option (Torrent T L) :=
  p ← t_find k (torrents_ db); objects_ db !! p.
End Ops.

(** ** The invariant *)
Section Invariant.
Context {T L : Type} `{TrieLaws T} `{DListLaws L}.
Context (minute : Z) (junk : list Z) (o : Options).

Implicit Types (db : TorrentDb T L).

(** Every indexed pointer leads to an object stored under its own key, and
    every object has been through announces and cleanups only. *)
Record db_inv (clock : Z) db : Prop := {
  db_objects k p : t_find k (torrents_ db) = Some p ->
    exists t, objects_ db !! p = Some t /\ torrentKey t = k;
  db_fresh p t : objects_ db !! p = Some t -> (p < next_ db)%nat;
  db_reach p t : objects_ db !! p = Some t ->
    exists ps, represents t ps /\ peers_inv minute o clock ps;
}.

Lemma db_inv_new clock : db_inv clock TorrentDb_new.
Proof.
  split; simpl.
  - intros k p. by rewrite t_find_empty.
  - intros p t. by rewrite lookup_empty.
  - intros p t. by rewrite lookup_empty.
Qed.

Lemma db_inv_later clock now db : clock <= now -> db_inv clock db -> db_inv now db.
Proof.
  intros Hc Hi. split; [apply Hi|apply Hi|]. intros p t Hp.
  destruct (db_reach _ _ Hi p t Hp) as (ps & Hr & Hps). exists ps. split; [done|].
  by eapply inv_later.
Qed.

(** Two keys never lead to the same object. *)
Lemma db_inv_inj clock db k k' p :
  db_inv clock db -> t_find k (torrents_ db) = Some p -> t_find k' (torrents_ db) = Some p -> k = k'.
Proof.
  intros Hi Hk Hk'. destruct (db_objects _ _ Hi _ _ Hk) as (t & Ht & E).
  destruct (db_objects _ _ Hi _ _ Hk') as (t' & Ht' & E'). congruence.
Qed.

(** Updating an object in place, its info hash kept. *)
Lemma db_inv_with_object clock db p t t' :
  db_inv clock db -> objects_ db !! p = Some t -> info_hash_ t' = info_hash_ t ->
  (exists ps, represents t' ps /\ peers_inv minute o clock ps) ->
  db_inv clock (with_object db p t').
Proof.
  intros Hi Hp E Hps. split; simpl.
  - intros k q Hk. destruct (db_objects _ _ Hi _ _ Hk) as (s & Hs & Es).
    destruct (decide (p = q)) as [<-|Hn].
    + exists t'. rewrite lookup_insert_eq. split; [done|]. unfold torrentKey in *. congruence.
    + exists s. by rewrite lookup_insert_ne.
  - intros q s [[<- _]|[_ Hs]]%lookup_insert_Some; by eapply (db_fresh _ _ Hi).
  - intros q s [[<- <-]|[_ Hs]]%lookup_insert_Some; [done|by eapply (db_reach _ _ Hi)].
Qed.

Lemma lookup_with_object clock db p t k0 k :
  db_inv clock db -> t_find k0 (torrents_ db) = Some p ->
  lookup_torrent (with_object db p t) k = if decide (k = k0) then Some t else lookup_torrent db k.
Proof.
  intros Hi Hk0. unfold lookup_torrent; simpl. case_decide as Hk.
  - rewrite Hk, Hk0; simpl. apply lookup_insert_eq.
  - destruct (t_find k (torrents_ db)) as [q|] eqn:Hq; simpl; [|done].
    apply lookup_insert_ne. intros <-. apply Hk. by eapply db_inv_inj.
Qed.

Lemma db_announce_ok clock now rq db :
  options_ok o -> clock <= now -> db_inv clock db ->
  exists db' r, db_announce minute junk o now rq db = Some (db', r) /\ db_inv now db'.
Proof.
  intros Ho Hc Hi%(db_inv_later _ now); [|done]. unfold db_announce.
  destruct (t_find _ _) as [p|] eqn:Hk; [|eauto].
  destruct (db_objects _ _ Hi _ _ Hk) as (t & Hp & _). rewrite Hp; simpl.
  destruct (db_reach _ _ Hi p t Hp) as (ps & Hr & Hps).
  destruct (announce_refines minute junk o now rq t ps Hr Ho (inv_length _ _ _ _ Hps))
    as (t' & r & -> & Hr' & _ & Eih & _). simpl.
  eexists _, _. split; [done|]. eapply db_inv_with_object; eauto.
  exists (spec_peers minute o now rq ps). split; [done|]. by apply inv_spec_peers.
Qed.

Lemma torrent_cleanup_ok now (t : Torrent T L) ps :
  options_ok o -> represents t ps -> peers_inv minute o now ps ->
  exists t', cleanup now t = Some t' /\ same_meta t t' /\
    represents t' (filter (fun q => now < timeout_ts_ q) ps) /\
    peers_inv minute o now (filter (fun q => now < timeout_ts_ q) ps).
Proof.
  intros Ho Hr Hps. pose proof (inv_length _ _ _ _ Hps). pose proof (proj2 (proj2 Ho)).
  destruct (cleanup_refines now t ps Hr ltac:(lia)) as (t' & E & Hr' & Hm).
  rewrite spec_cleanup_filter in Hr' by apply Hps.
  exists t'. do 3 (split; [done|]). by apply inv_filter.
Qed.

Lemma cleanup_all_ok now es db :
  options_ok o -> db_inv now db ->
  (forall k p, (k, p) ∈ es -> t_find k (torrents_ db) = Some p) ->
  exists db', cleanup_all now es db = Some db' /\ db_inv now db'.
Proof.
  intros Ho. revert db. induction es as [|[k p] es IH]; intros db Hi Hes; [eauto|]. simpl.
  destruct (db_objects _ _ Hi k p) as (t & Hp & _); [apply Hes; left|]. rewrite Hp; simpl.
  destruct (db_reach _ _ Hi p t Hp) as (ps & Hr & Hps).
  destruct (torrent_cleanup_ok now t ps Ho Hr Hps) as (t' & -> & (Eih & _) & Hr' & Hps'). simpl.
  apply IH; [by eapply db_inv_with_object; eauto|]. intros k' p' Hin. apply Hes. by right.
Qed.

Lemma db_cleanup_ok clock now db :
  options_ok o -> clock <= now -> db_inv clock db ->
  exists db', db_cleanup now db = Some db' /\ db_inv now db'.
Proof.
  intros Ho Hc Hi%(db_inv_later _ now); [|done]. apply cleanup_all_ok; [done|done|].
  intros k p. apply t_entries_find.
Qed.

Lemma db_inv_add clock t db ps :
  db_inv clock db -> represents t ps -> peers_inv minute o clock ps ->
  db_inv clock (addTorrent (Some t) db).
Proof.
  intros Hi Hr Hps. split; simpl.
  - intros k p Hk. destruct (t_find (torrentKey t) (torrents_ db)) as [q|] eqn:Hq.
    + rewrite (t_insert_present _ _ q) in Hk by done.
      destruct (db_objects _ _ Hi _ _ Hk) as (s & Hs & Es). exists s.
      rewrite lookup_insert_ne; [done|]. apply (db_fresh _ _ Hi) in Hs. lia.
    + rewrite t_find_insert in Hk by done. case_decide as Hd.
      * simplify_eq. exists t. by rewrite lookup_insert_eq.
      * destruct (db_objects _ _ Hi _ _ Hk) as (s & Hs & Es). exists s.
        rewrite lookup_insert_ne; [done|]. apply (db_fresh _ _ Hi) in Hs. lia.
  - intros p s [[<- _]|[_ Hs]]%lookup_insert_Some; [lia|].
    apply (db_fresh _ _ Hi) in Hs. lia.
  - intros p s [[<- <-]|[_ Hs]]%lookup_insert_Some; [eauto|by eapply (db_reach _ _ Hi)].
Qed.

Lemma db_inv_remove clock k db : db_inv clock db -> db_inv clock (removeTorrent k db).
Proof.
  intros Hi. split; simpl; [|apply Hi|apply Hi].
  intros k' p. rewrite t_find_erase. case_decide; [done|]. apply Hi.
Qed.

Lemma scrape_items_ok clock db hs : db_inv clock db -> exists items, scrape_items db hs = Some items.
Proof.
  intros Hi. induction hs as [|h hs (items & IH)]; [by eexists|]. simpl. unfold scrape_item.
  destruct (t_find _ _) as [p|] eqn:Hk; simpl; [|rewrite IH; by eexists].
  destruct (db_objects _ _ Hi _ _ Hk) as (t & -> & _). simpl. rewrite IH. by eexists.
Qed.
End Invariant.

(** ** Histories of the database *)
Section DbHistory.
Context {T L : Type} `{TrieLaws T} `{DListLaws L}.
Context (minute : Z) (junk : list Z) (o : Options).

(** The white list, the only caller of [addTorrent], builds its info hashes
    from 20 (SHA1) or 32 (SHA256) bytes. *)
Definition info_hash_ok (ih : InfoHash) : Prop := type_ ih <> NONE /\ length (bytes_ ih) = 32%nat.

Inductive db_reachable : TorrentDb T L -> Z -> Prop :=
| dr_new clock : db_reachable TorrentDb_new clock
| dr_announce db clock now rq db' r :
    db_reachable db clock -> clock <= now ->
    db_announce minute junk o now rq db = Some (db', r) -> db_reachable db' now
| dr_cleanup db clock now db' :
    db_reachable db clock -> clock <= now -> db_cleanup now db = Some db' -> db_reachable db' now
| dr_add db clock ih name path len :
    db_reachable db clock -> info_hash_ok ih ->
    db_reachable (addTorrent (Some (Torrent_new ih name path len)) db) clock
| dr_remove db clock k :
    db_reachable db clock -> db_reachable (removeTorrent k db) clock.

Lemma db_reachable_inv db clock :
  options_ok o -> db_reachable db clock -> db_inv minute o clock db.
Proof.
  intros Ho. induction 1 as [clock|db clock now rq db' r _ IH Hc E|db clock now db' _ IH Hc E
                            |db clock ih name path len _ IH _|db clock k _ IH].
  - apply db_inv_new.
  - destruct (db_announce_ok minute junk o clock now rq db Ho Hc IH) as (? & ? & E' & Hi). congruence.
  - destruct (db_cleanup_ok minute o clock now db Ho Hc IH) as (? & E' & Hi). congruence.
  - eapply db_inv_add; [done|apply represents_new|by apply inv_nil].
  - by apply db_inv_remove.
Qed.

(** The keys of the trie are 20 bytes long. *)
Lemma db_reachable_keys db clock k p :
  options_ok o -> db_reachable db clock -> t_find k (torrents_ db) = Some p -> length k = 20%nat.
Proof.
  intros Ho Hd. revert k p.
  induction Hd as [clock|db clock now rq db' r Hd IH Hc E|db clock now db' Hd IH Hc E
                  |db clock ih name path len Hd IH [Hty Hlen]|db clock k0 Hd IH]; intros k p Hk.
  - simpl in Hk. by rewrite t_find_empty in Hk.
  - unfold db_announce in E. destruct (t_find (bytes _) _); simplify_option_eq; [|by eauto].
    case_match; simplify_option_eq. by eauto.
  - assert (Hsame : forall es db1 db2, cleanup_all now es db1 = Some db2 -> torrents_ db2 = torrents_ db1).
    { induction es as [|[k1 p1] es IHes]; intros db1 db2 E1; simplify_option_eq; [done|].
      by rewrite (IHes _ _ E1). }
    rewrite (Hsame _ _ _ E) in Hk. by eauto.
  - simpl in Hk. set (t := Torrent_new ih name path len) in *.
    destruct (t_find (torrentKey t) (torrents_ db)) as [q|] eqn:Hq.
    + rewrite (t_insert_present _ _ q) in Hk by done. by eauto.
    + rewrite t_find_insert in Hk by done. case_decide as Hd'; [|by eauto]. subst k.
      subst t. unfold torrentKey, bytes; simpl. rewrite !length_take.
      rewrite Hlen. destruct (type_ ih); [done|reflexivity|reflexivity].
  - simpl in Hk. rewrite t_find_erase in Hk. case_decide; [done|by eauto].
Qed.

(** In every history of additions, removals, announces and cleanups, the
    database never follows a dangling pointer: the next announce, scrape or
    cleanup returns. *)
Theorem db_safe db clock :
  options_ok o -> db_reachable db clock ->
  (forall now rq, clock <= now -> exists db' r, db_announce minute junk o now rq db = Some (db', r)) /\
  (forall now, clock <= now -> exists db', db_cleanup now db = Some db') /\
  (forall hs, exists r, scrape o db hs = Some r).
Proof.
  intros Ho Hd. pose proof (db_reachable_inv db clock Ho Hd) as Hi. repeat split.
  - intros now rq Hc.
    destruct (db_announce_ok minute junk o clock now rq db Ho Hc Hi) as (db' & r & E & _). eauto.
  - intros now Hc. destruct (db_cleanup_ok minute o clock now db Ho Hc Hi) as (db' & E & _). eauto.
  - intros hs. destruct (scrape_items_ok minute o clock db hs Hi) as (items & E).
    unfold scrape. rewrite E. simpl. eauto.
Qed.

Lemma db_announce_result db clock now rq :
  options_ok o -> db_reachable db clock ->
  match lookup_torrent db (bytes (rq_info_hash_ rq)) with
  | None => db_announce minute junk o now rq db = Some (db, not_found)
  | Some t => exists t' r db',
      announce minute junk o now rq t = Some (t', r) /\
      db_announce minute junk o now rq db
        = Some (db', with_interval r (wrap 32 (ANNOUNCE_INTERVAL o * 60))) /\
      forall k, lookup_torrent db' k =
        if decide (k = bytes (rq_info_hash_ rq)) then Some t' else lookup_torrent db k
  end.
Proof.
  intros Ho Hd. pose proof (db_reachable_inv db clock Ho Hd) as Hi.
  unfold lookup_torrent at 1, db_announce. destruct (t_find _ _) as [p|] eqn:Hk; simpl; [|eauto].
  destruct (db_objects _ _ _ _ Hi _ _ Hk) as (t & Hp & _). rewrite Hp; simpl.
  destruct (db_reach _ _ _ _ Hi p t Hp) as (ps & Hr & Hps).
  destruct (announce_refines minute junk o now rq t ps Hr Ho (inv_length _ _ _ _ Hps))
    as (t' & r & -> & _). simpl.
  eexists t', r, _. split; [done|]. split; [done|]. intros k. by eapply lookup_with_object.
Qed.

(** An announce for an unknown info hash answers the error
    ["torrent not found"] and changes nothing; otherwise the torrent of that
    hash, and no other, takes the announce, and the answer is the torrent's
    with the interval option in seconds. *)
Theorem db_announce_spec db clock now rq :
  options_ok o -> db_reachable db clock ->
  match lookup_torrent db (bytes (rq_info_hash_ rq)) with
  | None => exists r, db_announce minute junk o now rq db = Some (db, r) /\
      error_ r = true /\ error_msg_ r = "torrent not found"
  | Some t => exists t' r db',
      announce minute junk o now rq t = Some (t', r) /\
      db_announce minute junk o now rq db
        = Some (db', with_interval r (wrap 32 (ANNOUNCE_INTERVAL o * 60))) /\
      forall k, lookup_torrent db' k =
        if decide (k = bytes (rq_info_hash_ rq)) then Some t' else lookup_torrent db k
  end.
Proof.
  intros Ho Hd. pose proof (db_announce_result db clock now rq Ho Hd) as Hr.
  destruct (lookup_torrent _ _); [done|]. by exists not_found.
Qed.

Lemma scrape_result db clock hs :
  options_ok o -> db_reachable db clock ->
  exists r, scrape o db hs = Some r /\ sc_error_ r = false /\
    sc_interval_ r = wrap 32 (SCRAPE_INTERVAL o * 60) /\
    sc_items_ r = omap (fun h => t ← lookup_torrent db (bytes h);
      Some {| it_info_hash_ := h; it_nleechers_ := leechers_ t; it_nseeders_ := seeders_ t;
              it_ndownloaded_ := completed_ t |}) hs.
Proof.
  intros Ho Hd. pose proof (db_reachable_inv db clock Ho Hd) as Hi.
  destruct (scrape_items_ok minute o clock db hs Hi) as (items & E). unfold scrape. rewrite E; simpl.
  eexists. split; [done|]. split; [done|]. split; [done|]. simpl.
  revert items E. induction hs as [|h hs IH]; intros items E; simpl in *; [congruence|].
  unfold scrape_item in E. unfold lookup_torrent at 1.
  destruct (scrape_items db hs) as [its|] eqn:Eis; [|by destruct (t_find _ _); simplify_option_eq].
  specialize (IH its eq_refl).
  destruct (t_find _ _) as [p|] eqn:Hk; simpl in *; [|simplify_eq; done].
  destruct (objects_ db !! p) as [t|]; simpl in *; [|done]. simplify_eq. done.
Qed.

(** A scrape answers one item per known hash, in the order of the request
    and with the hash as asked, carrying the counts of its torrent; unknown
    hashes are left out. *)
Theorem scrape_spec db clock hs :
  options_ok o -> db_reachable db clock ->
  exists r, scrape o db hs = Some r /\ sc_error_ r = false /\
    sc_interval_ r = wrap 32 (SCRAPE_INTERVAL o * 60) /\
    sc_items_ r = omap (fun h => t ← lookup_torrent db (bytes h);
      Some {| it_info_hash_ := h; it_nleechers_ := leechers_ t; it_nseeders_ := seeders_ t;
              it_ndownloaded_ := completed_ t |}) hs.
Proof. apply scrape_result. Qed.

(** Adding a torrent whose key is already present keeps the torrent in
    place, with its peers; otherwise the new torrent is found under the first
    20 bytes of its info hash, and every other key is unaffected. *)
Theorem addTorrent_spec db clock t k :
  options_ok o -> db_reachable db clock ->
  lookup_torrent (addTorrent (Some t) db) k =
    match lookup_torrent db k with
    | Some s => Some s
    | None => if decide (k = torrentKey t) then Some t else None
    end.
Proof.
  intros Ho Hd. pose proof (db_reachable_inv db clock Ho Hd) as Hi. unfold lookup_torrent; simpl.
  assert (Hold : forall k p, t_find k (torrents_ db) = Some p ->
    exists s, objects_ db !! p = Some s /\ <[next_ db:=t]> (objects_ db) !! p = Some s).
  { intros k' p Hk. destruct (db_objects _ _ _ _ Hi _ _ Hk) as (s & Hs & _). exists s. split; [done|].
    rewrite lookup_insert_ne; [done|]. apply (db_fresh _ _ _ _ Hi) in Hs. lia. }
  destruct (t_find (torrentKey t) (torrents_ db)) as [q|] eqn:Hq.
  - rewrite (t_insert_present _ _ q) by done.
    destruct (t_find k (torrents_ db)) as [p|] eqn:Hk; simpl.
    + destruct (Hold k p Hk) as (s & -> & ->). done.
    + case_decide; [congruence|done].
  - rewrite t_find_insert by done. case_decide as Hd'.
    + subst k. rewrite Hq; simpl. rewrite lookup_insert_eq, decide_True; done.
    + destruct (t_find k (torrents_ db)) as [p|] eqn:Hk; simpl.
      * destruct (Hold k p Hk) as (s & -> & ->). done.
      * rewrite decide_False; [done|congruence].
Qed.
End DbHistory.

(** ** Witnesses *)
Module DbDemo.
Definition ih : InfoHash := InfoHash_new SHA1 (replicate 20 1).
Definition db : TorrentDb (gmap tkey ptr) (list ptr) :=
  addTorrent (Some (Torrent_new ih "name" "/t/name.torrent" 7)) TorrentDb_new.
Lemma db_reachable_ : db_reachable Demo.minute (replicate 18 0) default_options db 0.
Proof. apply dr_add; [apply dr_new|split; [discriminate|reflexivity]]. Defined.
End DbDemo.

Lemma db_safe_witness :
  exists r, scrape default_options DbDemo.db [DbDemo.ih] = Some r.
Proof.
  exact (proj2 (proj2 (db_safe Demo.minute (replicate 18 0) default_options DbDemo.db 0
    default_options_ok DbDemo.db_reachable_)) [DbDemo.ih]).
Defined.

Lemma db_announce_spec_witness :
  exists t' r db', announce Demo.minute (replicate 18 0) default_options 5 (Demo.rq 1 5 kStarted)
      (Torrent_new DbDemo.ih "name" "/t/name.torrent" 7) = Some (t', r) /\
    db_announce Demo.minute (replicate 18 0) default_options 5 (Demo.rq 1 5 kStarted) DbDemo.db
      = Some (db', with_interval r 900).
Proof.
  destruct (db_announce_spec Demo.minute (replicate 18 0) default_options DbDemo.db 0 5
    (Demo.rq 1 5 kStarted) default_options_ok DbDemo.db_reachable_) as (t' & r & db' & E1 & E2 & _).
  exists t', r, db'. split; [exact E1|exact E2].
Defined.

Lemma scrape_spec_witness :
  exists r, scrape default_options DbDemo.db [InfoHash_new SHA1 (replicate 20 9); DbDemo.ih] = Some r /\
    length (sc_items_ r) = 1%nat.
Proof.
  destruct (scrape_spec Demo.minute (replicate 18 0) default_options DbDemo.db 0
    [InfoHash_new SHA1 (replicate 20 9); DbDemo.ih] default_options_ok DbDemo.db_reachable_)
    as (r & E & _ & _ & Ei).
  exists r. split; [exact E|]. rewrite Ei. vm_compute. reflexivity.
Defined.

Lemma addTorrent_spec_witness :
  lookup_torrent (addTorrent (Some (Torrent_new DbDemo.ih "other" "" 8)) DbDemo.db) (replicate 20 1)
  = Some (Torrent_new DbDemo.ih "name" "/t/name.torrent" 7).
Proof.
  rewrite (addTorrent_spec Demo.minute (replicate 18 0) default_options DbDemo.db 0
    (Torrent_new DbDemo.ih "other" "" 8) (replicate 20 1) default_options_ok DbDemo.db_reachable_).
  vm_compute. reflexivity.
Defined.
