(* ===== verification/FsTreeWhiteList.v ===== *)
(** The directory white list ([fs-tree-white-list.hh], [fs-tree-white-list.cc]):
    a scan registers the torrents of the .torrent files found, a check drops
    the torrents whose file has disappeared. *)
From stdpp Require Import base list gmap strings.
From Stdlib Require Import ZArith Lia.
From S2P Require Import Prelude Containers Options Address InfoHash Announce Torrent TorrentSpec TorrentTheorems TorrentDb.

(** The result of mimosa's torrent parser. *)
Record TorrentDesc := {
  d_info_hash_v1 : list Z;
  d_info_hash_v2 : list Z;
  d_name : string;
  d_length : Z;
}.

Section Ops.
Context {T L : Type} `{Trie T} `{DList L}.
Context (o : Options).
(** The environment: [fnmatch("*.torrent", path, ...) == 0], mimosa's parser,
    and [stat(path) != 0 && errno == ENOENT]. *)
Context (is_torrent : string -> bool) (parseFile : string -> option TorrentDesc)
        (vanished : string -> bool).

Implicit Types (db : TorrentDb T L).

(** [strncmp(path, root, root.size()) == 0]. *)
Definition under_root (root path : string) : bool := String.prefix root path.

(** The callback's work on one path. *)
Definition scan_path (path : string) db : TorrentDb T L :=
  if is_torrent path then
    match parseFile path with
    | None => db
    | Some desc =>
        addTorrent (Some (Torrent_new (InfoHash_new SHA256 (d_info_hash_v2 desc))
                            (d_name desc) path (d_length desc)))
          (addTorrent (Some (Torrent_new (InfoHash_new SHA1 (d_info_hash_v1 desc))
                               (d_name desc) path (d_length desc))) db)
    end
  else db.

(** [paths] is what [m::fs::find] visits; a [false] from the callback ends it. *)
Fixpoint scan_loop (nb_inodes : Z) (paths : list string) db : TorrentDb T L :=
  match paths with
  | [] => db
  | path :: paths =>
      let nb_inodes := nb_inodes +u32 1 in
      if decide (MAX_SCAN_INODES o < nb_inodes) then db
      else scan_loop nb_inodes paths (scan_path path db)
  end.

Definition scan (paths : list string) db : TorrentDb T L := scan_loop 0 paths db.

(** The keys to erase: the torrent's whole info hash ([Torrent::key]). *)
Definition checkTorrent (root : string) (t : Torrent T L) (keys : list tkey) : list tkey :=
  if negb (under_root root (path_ t)) then keys
  else if vanished (path_ t) then keys ++ [bytes (info_hash_ t)] else keys.

Fixpoint check_keys (root : string) (es : list (tkey * ptr)) (keys : list tkey) db
  : option (list tkey) :=
  match es with
  | [] => Some keys
  | (_, p) :: es => t ← objects_ db !! p; check_keys root es (checkTorrent root t keys) db
  end.

Definition check (root : string) db : option (TorrentDb T L) :=
  keys ← check_keys root (t_entries (torrents_ db)) [] db;
  Some (fold_left (fun db k => removeTorrent k db) keys db).
End Ops.

Section Theorems.
Context {T L : Type} `{TrieLaws T} `{DListLaws L}.
Context (minute : Z) (junk : list Z) (o : Options).
Context (is_torrent : string -> bool) (parseFile : string -> option TorrentDesc)
        (vanished : string -> bool).

Implicit Types (db : TorrentDb T L).

(** The condition under which a check wants to drop a torrent. *)
Definition to_drop (root : string) (t : Torrent T L) : bool :=
  under_root root (path_ t) && vanished (path_ t).

Lemma check_keys_spec root es db keys :
  (forall k p, (k, p) ∈ es -> exists t, objects_ db !! p = Some t) ->
  exists ks, check_keys vanished root es keys db = Some (keys ++ ks) /\
    forall k, k ∈ ks <-> exists k' p t, (k', p) ∈ es /\ objects_ db !! p = Some t /\
      to_drop root t = true /\ bytes (info_hash_ t) = k.
Proof.
  revert keys. induction es as [|[k p] es IH]; intros keys Hes; simpl.
  - exists []. rewrite app_nil_r. split; [done|]. intros k. split; [by intros ?%not_elem_of_nil|].
    intros (k' & p & t & Hin%not_elem_of_nil & _). done.
  - destruct (Hes k p ltac:(left)) as (t & Ht). rewrite Ht; simpl.
    destruct (IH (checkTorrent vanished root t keys)) as (ks & -> & Hks).
    { intros k' p' Hin. apply (Hes k'). by right. }
    assert (Hshape : exists k0, checkTorrent vanished root t keys = keys ++ k0 /\
      k0 = if to_drop root t then [bytes (info_hash_ t)] else []).
    { eexists. split; [|done]. unfold checkTorrent, to_drop.
      destruct (under_root _ _), (vanished _); simpl; by rewrite ?app_nil_r. }
    destruct Hshape as (k0 & -> & ->). rewrite <- app_assoc.
    eexists. split; [done|]. intros k'. rewrite elem_of_app, Hks. split.
    + intros [Hin|(k1 & p1 & t1 & Hin & Hr)].
      * destruct (to_drop root t) eqn:Ed; [|by apply not_elem_of_nil in Hin].
        apply list_elem_of_singleton in Hin. exists k, p, t. split; [left|done].
      * exists k1, p1, t1. split; [by right|done].
    + intros (k1 & p1 & t1 & Hin & Hp1 & Hd & Hk). apply elem_of_cons in Hin as [[= -> ->]|Hin].
      * left. simplify_eq. rewrite Hd. by apply list_elem_of_singleton.
      * right. eauto 10.
Qed.

Lemma removeTorrent_fold_lookup ks db k :
  lookup_torrent (fold_left (fun db k => removeTorrent k db) ks db) k =
    if decide (k ∈ ks) then None else lookup_torrent db k.
Proof.
  revert db. induction ks as [|k0 ks IH]; intros db; cbn [fold_left].
  - rewrite decide_False; [done|]. apply not_elem_of_nil.
  - rewrite IH. unfold lookup_torrent; simpl. rewrite t_find_erase.
    destruct (decide (k ∈ ks)) as [Hin|Hin].
    + by rewrite decide_True by (by right).
    + destruct (decide (k0 = k)) as [->|Hn].
      * by rewrite decide_True by left.
      * rewrite decide_False; [done|]. rewrite elem_of_cons. intros [E|E]; [by apply Hn|done].
Qed.

(** What a check leaves under every key. *)
Lemma check_lookup root db clock :
  options_ok o -> db_reachable minute junk o db clock ->
  exists db', check vanished root db = Some db' /\
    forall k, lookup_torrent db' k =
      (t ← lookup_torrent db k;
       if decide (to_drop root t = true /\ bytes (info_hash_ t) = k) then None else Some t).
Proof.
  intros Ho Hd. pose proof (db_reachable_inv minute junk o db clock Ho Hd) as Hi. unfold check.
  destruct (check_keys_spec root (t_entries (torrents_ db)) db []) as (ks & E & Hks).
  { intros k p Hin%t_entries_find. destruct (db_objects _ _ _ _ Hi _ _ Hin) as (t & Ht & _). eauto. }
  rewrite E; simpl. eexists. split; [done|]. intros k. rewrite removeTorrent_fold_lookup.
  destruct (lookup_torrent db k) as [t|] eqn:Ht; cbn [mbind option_bind]; [|by case_decide].
  unfold lookup_torrent in Ht.
  destruct (t_find k (torrents_ db)) as [p|] eqn:Hk; simpl in Ht; [|done].
  destruct (decide (to_drop root t = true /\ bytes (info_hash_ t) = k)) as [[Hdr Hb]|Hn].
  - rewrite decide_True; [done|]. apply Hks. exists k, p, t. by rewrite t_entries_find.
  - rewrite decide_False; [done|]. rewrite Hks.
    intros (k' & p' & t' & Hk'%t_entries_find & Hp' & Hdr & Hb). apply Hn.
    destruct (db_objects _ _ _ _ Hi _ _ Hk') as (s & Hs & Es).
    assert (s = t') as -> by congruence.
    destruct (db_objects _ _ _ _ Hi _ _ Hk) as (s2 & Hs2 & Es2).
    assert (s2 = t) as -> by congruence.
    unfold torrentKey in *.
    assert (Hl : (length (bytes (info_hash_ t')) <= 20)%nat).
    { rewrite Hb, <- Es2, length_take. lia. }
    assert (k' = k) as ->.
    { rewrite <- Es, take_ge by done. done. }
    assert (p' = p) as -> by congruence. assert (t' = t) as -> by congruence. auto.
Qed.

(** C13. A check drops a torrent exactly when its file has vanished from under
    the root and its whole info hash is the key it is stored under: a version
    1 torrent (20 byte hash) is dropped, but a version 2 torrent, stored
    under the first 20 of its 32 bytes, never is. *)
Theorem check_spec root db clock :
  options_ok o -> db_reachable minute junk o db clock ->
  exists db', check vanished root db = Some db' /\
    forall k t, lookup_torrent db k = Some t ->
      lookup_torrent db' k =
        if decide (to_drop root t = true /\ bytes (info_hash_ t) = k) then None else Some t.
Proof.
  intros Ho Hd. destruct (check_lookup root db clock Ho Hd) as (db' & E & Hk).
  exists db'. split; [done|]. intros k t Ht. by rewrite Hk, Ht.
Qed.
End Theorems.

(** ** Witness: one version 1 and one version 2 torrent, both files gone *)
Module WhiteListDemo.
Definition v1 : Torrent (gmap tkey ptr) (list ptr) :=
  Torrent_new (InfoHash_new SHA1 (replicate 20 1)) "a" "/t/a.torrent" 7.
Definition v2 : Torrent (gmap tkey ptr) (list ptr) :=
  Torrent_new (InfoHash_new SHA256 (replicate 32 2)) "a" "/t/a.torrent" 7.
Definition db := addTorrent (Some v2) (addTorrent (Some v1) TorrentDb_new).
Lemma wl_reachable_ : db_reachable Demo.minute (replicate 18 0) default_options db 0.
Proof.
  repeat (apply dr_add; [|split; [discriminate|reflexivity]]). apply dr_new.
Defined.
End WhiteListDemo.

Lemma check_spec_witness :
  exists db', check (fun _ => true) "/t/" WhiteListDemo.db = Some db' /\
    lookup_torrent db' (replicate 20 1) = None /\
    lookup_torrent db' (replicate 20 2) = Some WhiteListDemo.v2.
Proof.
  destruct (check_spec Demo.minute (replicate 18 0) default_options (fun _ => true) "/t/"
    WhiteListDemo.db 0 default_options_ok WhiteListDemo.wl_reachable_) as (db' & E & Hk).
  exists db'. split; [exact E|]. split.
  - rewrite (Hk _ WhiteListDemo.v1) by reflexivity. vm_compute. reflexivity.
  - rewrite (Hk _ WhiteListDemo.v2) by reflexivity. vm_compute. reflexivity.
Defined.
