(* ===== verification/UdpServer.v ===== *)
(** The UDP tracker ([udp-server.hh], [udp-server.cc]): the packets as bytes,
    the connection ids, the request handlers and the two I/O loops.

    The packed C structs are read at their byte offsets.  Multi-byte fields go
    through [be..toh]/[htobe..], that is, big-endian bytes, except for
    [connection_id_], kept in host order (little-endian here), and
    [transaction_id_], copied. *)
From stdpp Require Import base list gmap strings.
From Stdlib Require Import ZArith Lia Ascii.
From S2P Require Import Prelude Containers Options Address InfoHash Announce Torrent TorrentSpec TorrentTheorems TorrentDb.

(** ** The output queue, mimosa's intrusive single-linked list *)
Class SList (Q A : Type) := {
  q_empty : Q;
  q_push : A -> Q -> Q;
  q_pop : Q -> Q;
  q_items : Q -> list A;      (* the front first *)
}.
Class SListLaws (Q A : Type) `{SList Q A} : Prop := {
  q_items_empty : q_items q_empty = [];
  q_items_push x q : q_items (q_push x q) ≡ₚ x :: q_items q;
  q_items_pop q : q_items (q_pop q) = tail (q_items q);
}.

#[export] Instance list_slist {A} : SList (list A) A :=
  { q_empty := []; q_push x q := q ++ [x]; q_pop q := tail q; q_items q := q }.
#[export] Instance list_slist_laws {A} : SListLaws (list A) A.
Proof. split; simpl; [done|intros; symmetry; apply Permutation_cons_append|done]. Qed.

Record SendToBuffer := { to_addr_ : sockaddr; data_ : list Z }.

(** ** Packets *)
Inductive Action := kConnect | kAnnounce | kScrape | kError.

Definition action_code (a : Action) : Z :=
  match a with kConnect => 0 | kAnnounce => 1 | kScrape => 2 | kError => 3 end.

Record ConnectRequest := {
  conn_connection_id_ : list Z;
  conn_action_ : Z;
  conn_transaction_id_ : list Z;
}.
Definition sizeof_ConnectRequest : nat := 16.

Record UdpAnnounceRequest := {
  ann_connection_id_ : list Z;
  ann_transaction_id_ : list Z;
  ann_info_hash_ : list Z;
  ann_peer_id_ : list Z;
  ann_downloaded_ : Z;
  ann_left_ : Z;
  ann_uploaded_ : Z;
  ann_event_ : Z;
  ann_ip_ : list Z;
  ann_num_want_ : Z;
  ann_port_ : Z;
}.
Definition sizeof_AnnounceRequest : nat := 98.
Definition sizeof_ScrapeRequest : nat := 16.
Definition sizeof_buffer : nat := Z.to_nat 4096.   (* [buffer] of [receive] *)
#[global] Arguments sizeof_buffer : simpl never.

(** The three views of the receive buffer. *)
Definition view_conn (b : list Z) : ConnectRequest := {|
  conn_connection_id_ := slice 0 8 b;
  conn_action_ := be_val (slice 8 4 b);
  conn_transaction_id_ := slice 12 4 b;
|}.

Definition view_ann (b : list Z) : UdpAnnounceRequest := {|
  ann_connection_id_ := slice 0 8 b;
  ann_transaction_id_ := slice 12 4 b;
  ann_info_hash_ := slice 16 20 b;
  ann_peer_id_ := slice 36 20 b;
  ann_downloaded_ := be_val (slice 56 8 b);
  ann_left_ := be_val (slice 64 8 b);
  ann_uploaded_ := be_val (slice 72 8 b);
  ann_event_ := be_val (slice 80 4 b);
  ann_ip_ := slice 84 4 b;
  ann_num_want_ := be_val (slice 92 4 b);
  ann_port_ := be_val (slice 96 2 b);
|}.

(** The [i]-th info hash after the header of a scrape request. *)
Definition scrape_hash (b : list Z) (i : nat) : list Z := slice (sizeof_ScrapeRequest + i * 20) 20 b.

Definition host64 (z : Z) : list Z := reverse (be_bytes 8 z).
Definition host64_val (l : list Z) : Z := be_val (reverse l).

Definition string_bytes (s : string) : list Z :=
  (fun c => Z.of_nat (nat_of_ascii c)) <$> String.list_ascii_of_string s.

(** ** Connection ids *)
Definition secret_byte (secret : list Z) (j : nat) : Z := nth j secret 0.

Fixpoint conn_id_sum (secret ip : list Z) (js : list nat) (conn_id : Z) : Z :=
  match js with
  | [] => conn_id
  | j :: js => conn_id_sum secret ip js
      (conn_id +u64 Z.lxor (nth j ip 0 * secret_byte secret j) (secret_byte secret (j + 1)))
  end.

Definition connectionId_in (secret sin_addr : list Z) : Z := conn_id_sum secret sin_addr (seq 0 4) 0.
Definition connectionId_in6 (secret sin6_addr : list Z) : Z := conn_id_sum secret sin6_addr (seq 0 16) 0.

Definition connectionId (secret : list Z) (addr : sockaddr) : Z :=
  match addr with
  | SaIn ad _ => connectionId_in secret ad
  | SaIn6 ad _ => connectionId_in6 secret ad
  | SaOther => 42
  end.

Definition convert (event : Z) : Event :=
  if decide (event = 0) then kNone
  else if decide (event = 2) then kStarted
  else if decide (event = 1) then kCompleted
  else if decide (event = 3) then kStopped
  else kNone.

(** What [recvfrom] finds: an error or a packet of any length. *)
Inductive Received :=
| RecvError                                          (* EAGAIN or an error *)
| RecvPacket (addr : sockaddr) (b : list Z) (mem : bool).  (* [mem]: calloc succeeds *)

Section Server.
Context {T L Q : Type} `{Trie T} `{DList L} `{SList Q SendToBuffer}.
Context (minute second : Z) (junk : list Z) (o : Options).

Record UdpServer := {
  secrets_ : list (list Z);        (* the newest first *)
  sbufs_ : Q;
  next_timeout_ : Z;
  tdb_ : option (TorrentDb T L);   (* [Hefur::instance().torrentDb()] *)
}.

Implicit Types (s : UdpServer).

Definition with_sbufs s (q : Q) : UdpServer :=
  {| secrets_ := secrets_ s; sbufs_ := q; next_timeout_ := next_timeout_ s; tdb_ := tdb_ s |}.
Definition with_tdb s (db : TorrentDb T L) : UdpServer :=
  {| secrets_ := secrets_ s; sbufs_ := sbufs_ s; next_timeout_ := next_timeout_ s; tdb_ := Some db |}.

(** [memmove] by one and a fresh [secrets_[0]]; [None] is a [gnutls_rnd]
    failure, which leaves the first slot as it was. *)
Definition genSecret (now : Z) (rnd : option (list Z)) s : UdpServer :=
  {| secrets_ := match rnd with Some r => r | None => nth 0 (secrets_ s) [] end
                 :: take 2 (secrets_ s);
     sbufs_ := sbufs_ s; next_timeout_ := now + second; tdb_ := tdb_ s |}.

Definition checkConnectionId s (connection_id : list Z) (addr : sockaddr) : bool :=
  let ok j := bool_decide (host64_val connection_id = connectionId (nth j (secrets_ s) []) addr) in
  ok 0%nat || ok 1%nat || ok 2%nat.

(** Allocating, filling and pushing a buffer; nothing happens without memory. *)
Definition push_buffer (mem : bool) (addr : sockaddr) (data : list Z) s : UdpServer :=
  if mem then with_sbufs s (q_push {| to_addr_ := addr; data_ := data |} (sbufs_ s)) else s.

Definition connect_packet (id : Z) (tid : list Z) : list Z :=
  be_bytes 4 (action_code kConnect) ++ tid ++ host64 id.

Definition handleConnect (conn : ConnectRequest) (size : nat) (addr : sockaddr) (mem : bool) s
  : UdpServer :=
  if decide (size < sizeof_ConnectRequest)%nat then s
  else push_buffer mem addr
    (connect_packet (connectionId (nth 0 (secrets_ s) []) addr) (conn_transaction_id_ conn)) s.

Definition failure_packet (tid : list Z) (msg : string) : list Z :=
  be_bytes 4 (action_code kError) ++ tid ++ string_bytes msg.

Definition sendFailure (tid : list Z) (addr : sockaddr) (msg : string) (mem : bool) s : UdpServer :=
  push_buffer mem addr (failure_packet tid msg) s.

(** The internal request; [info_hash_.type_] keeps its default, [NONE]. *)
Definition announce_request (ann : UdpAnnounceRequest) (addr : sockaddr) : AnnounceRequest :=
  let a0 := Address_new junk in
  let a := if ALLOW_PROXY o
           then {| family_ := AF_INET; union_ := memcpy_at 0 (ann_ip_ ann) (union_ a0) |}
           else assign_sockaddr a0 (Some addr) in
  {| rq_peerid_ := ann_peer_id_ ann;
     rq_info_hash_ := {| bytes_ := memcpy_at 0 (ann_info_hash_ ann) (replicate 32 0); type_ := NONE |};
     rq_num_want_ := ann_num_want_ ann;
     rq_event_ := convert (ann_event_ ann);
     rq_downloaded_ := ann_downloaded_ ann;
     rq_uploaded_ := ann_uploaded_ ann;
     rq_left_ := ann_left_ ann;
     rq_addr_ := setPort a (ann_port_ ann);
     rq_skip_ipv6_ := true |}.

(** The slot of one peer; [calloc] left zeros where nothing is written. *)
Definition peer_slot (a : Address) : list Z :=
  match family_ a with
  | AF_INET => in_addr a ++ in_port a
  | _ => replicate 6 0
  end.

Definition announce_packet (tid : list Z) (rp : AnnounceResponse) : list Z :=
  be_bytes 4 (action_code kAnnounce) ++ tid ++ be_bytes 4 (default 0 (interval_ rp)) ++
  be_bytes 4 (nleechers_ rp) ++ be_bytes 4 (nseeders_ rp) ++ mjoin (peer_slot <$> addrs_ rp).

(** [None] where the database would follow a dangling pointer. *)
Definition handleAnnounce (now : Z) (ann : UdpAnnounceRequest) (size : nat) (addr : sockaddr)
    (mem : bool) s : option UdpServer :=
  if decide (size < sizeof_AnnounceRequest)%nat then Some s
  else if negb (checkConnectionId s (ann_connection_id_ ann) addr) then Some s
  else
    match tdb_ s with
    | None => Some s
    | Some db =>
        '(db, rp) ← db_announce minute junk o now (announce_request ann addr) db;
        let s := with_tdb s db in
        Some (if error_ rp then sendFailure (ann_transaction_id_ ann) addr (error_msg_ rp) mem s
              else push_buffer mem addr (announce_packet (ann_transaction_id_ ann) rp) s)
    end.

Definition scrape_slot (it : ScrapeItem) : list Z :=
  be_bytes 4 (it_nseeders_ it) ++ be_bytes 4 (it_ndownloaded_ it) ++ be_bytes 4 (it_nleechers_ it).

Definition scrape_packet (tid : list Z) (rp : ScrapeResponse) : list Z :=
  be_bytes 4 (action_code kScrape) ++ tid ++ mjoin (scrape_slot <$> sc_items_ rp).

Definition scrape_request (b : list Z) (size : nat) : list InfoHash :=
  (fun i => InfoHash_new SHA1 (scrape_hash b i)) <$> seq 0 ((size - sizeof_ScrapeRequest) / 20).

Definition handleScrape (b : list Z) (size : nat) (addr : sockaddr) (mem : bool) s
  : option UdpServer :=
  if decide (size < sizeof_ScrapeRequest)%nat then Some s
  else if negb (checkConnectionId s (conn_connection_id_ (view_conn b)) addr) then Some s
  else
    match tdb_ s with
    | None => Some s
    | Some db =>
        rp ← scrape o db (scrape_request b size);
        let tid := conn_transaction_id_ (view_conn b) in
        Some (if sc_error_ rp then sendFailure tid addr (sc_error_msg_ rp) mem s
              else push_buffer mem addr (scrape_packet tid rp) s)
    end.

(** The [switch] on the action. *)
Definition dispatch (now : Z) (addr : sockaddr) (b : list Z) (mem : bool) s : option UdpServer :=
  let action := conn_action_ (view_conn b) in
  if decide (action = 0) then Some (handleConnect (view_conn b) (length b) addr mem s)
  else if decide (action = 1) then handleAnnounce now (view_ann b) (length b) addr mem s
  else if decide (action = 2) then handleScrape b (length b) addr mem s
  else Some s.

(** [while (sbufs_.size() < 64)]; of each packet [recvfrom] leaves in the buffer
    what fits. *)
Fixpoint receive (now : Z) (rs : list Received) s : option UdpServer :=
  match rs with
  | [] => Some s
  | r :: rs =>
      if decide (length (q_items (sbufs_ s)) < 64)%nat then
        match r with
        | RecvError => Some s
        | RecvPacket addr b mem =>
            let b := take sizeof_buffer b in
            if decide (length b < sizeof_ConnectRequest)%nat then receive now rs s
            else s ← dispatch now addr b mem s; receive now rs s
        end
      else Some s
  end.

(** What [sendto] does with the front packet. *)
Inductive SendResult := Sent | TryLater | SendFailed.

(** Returns the server and the packets written; a failed packet is dropped. *)
Fixpoint send (rs : list SendResult) s (out : list SendToBuffer) : UdpServer * list SendToBuffer :=
  match q_items (sbufs_ s), rs with
  | sbuf :: _, Sent :: rs => send rs (with_sbufs s (q_pop (sbufs_ s))) (out ++ [sbuf])
  | sbuf :: _, SendFailed :: rs => send rs (with_sbufs s (q_pop (sbufs_ s))) out
  | _, _ => (s, out)
  end.

(** What [poll] reports. *)
Inductive PollResult := PollError | PollTimeout | PollOut (rs : list SendResult) | PollIn (rs : list Received).

(** One turn of the loop of [run]; the packets sent are the second component. *)
Definition run_turn (now millisecond : Z) (rnd : option (list Z)) (p : PollResult) s
  : option (UdpServer * list SendToBuffer) :=
  if decide (Z.quot (next_timeout_ s - now) millisecond <= 0) then Some (genSecret now rnd s, [])
  else
    match p with
    | PollError => Some (s, [])
    | PollTimeout => Some (genSecret now rnd s, [])
    | PollOut rs => Some (send rs s [])
    | PollIn rs => s ← receive now rs s; Some (s, [])
    end.
End Server.
Arguments UdpServer : clear implicits.
