(* ===== verification/UdpTheorems.v ===== *)
(** Theorems about the UDP tracker: connection ids, what an unauthenticated
    packet can do, announce and scrape answers, wire round trips, bounds. *)
From stdpp Require Import base list gmap strings.
From Stdlib Require Import ZArith Lia Ascii.
From S2P Require Import Prelude Containers Options Address InfoHash Announce Torrent TorrentSpec TorrentTheorems TorrentDb UdpServer.

Lemma lxor_bound n a b : 0 <= a < 2 ^ n -> 0 <= b < 2 ^ n -> 0 <= n -> 0 <= Z.lxor a b < 2 ^ n.
Proof.
  intros Ha Hb Hn. split; [apply Z.lxor_nonneg; lia|].
  destruct (Z.eq_dec (Z.lxor a b) 0) as [->|Hz]; [apply Z.pow_pos_nonneg; lia|].
  assert (0 <= Z.lxor a b) by (apply Z.lxor_nonneg; lia).
  apply Z.log2_lt_pow2; [lia|].
  pose proof (Z.log2_lxor a b ltac:(lia) ltac:(lia)) as Hl.
  assert (Hlog : forall c, 0 <= c < 2 ^ n -> c <> 0 -> Z.log2 c < n).
  { intros c Hc Hc0. apply Z.log2_lt_pow2; lia. }
  destruct (Z.eq_dec a 0) as [->|Ha0]; [rewrite Z.lxor_0_l in *; apply Hlog; lia|].
  destruct (Z.eq_dec b 0) as [->|Hb0]; [rewrite Z.lxor_0_r in *; apply Hlog; lia|].
  specialize (Hlog a Ha Ha0) as Hla. specialize (Hlog b Hb Hb0) as Hlb. lia.
Qed.

Lemma nth_byte (l : list Z) j : Forall byte_ok l -> 0 <= nth j l 0 < 256.
Proof.
  intros Hl. destruct (decide (j < length l)%nat) as [Hj|Hj].
  - rewrite Forall_forall in Hl. apply Hl. apply list_elem_of_In, nth_In, Hj.
  - rewrite nth_overflow by lia. lia.
Qed.

Lemma conn_id_sum_bound secret ip js c :
  Forall byte_ok secret -> Forall byte_ok ip -> 0 <= c ->
  c + Z.of_nat (length js) * 2 ^ 16 < 2 ^ 64 ->
  0 <= conn_id_sum secret ip js c <= c + Z.of_nat (length js) * 2 ^ 16.
Proof.
  intros Hs Hi. revert c. induction js as [|j js IH]; intros c Hc Hlen; simpl; [lia|].
  pose proof (nth_byte ip j Hi). pose proof (nth_byte secret j Hs).
  pose proof (nth_byte secret (j + 1) Hs). unfold secret_byte.
  simpl length in *.
  pose proof (lxor_bound 16 (nth j ip 0 * nth j secret 0) (nth (j + 1) secret 0) ltac:(nia) ltac:(lia)
    ltac:(lia)) as Hx.
  rewrite wrap_small by lia.
  specialize (IH (c + Z.lxor (nth j ip 0 * nth j secret 0) (nth (j + 1) secret 0)) ltac:(lia) ltac:(lia)).
  lia.
Qed.

Lemma conn_id_sum_range secret ip js c :
  0 <= c < 2 ^ 64 -> 0 <= conn_id_sum secret ip js c < 2 ^ 64.
Proof. revert c. induction js; intros c Hc; simpl; [done|]. apply IHjs, wrap_range. lia. Qed.

Lemma connectionId_range secret addr : 0 <= connectionId secret addr < 2 ^ 64.
Proof. destruct addr; simpl; [apply conn_id_sum_range; lia..|lia]. Qed.

Lemma host64_roundtrip z : 0 <= z < 2 ^ 64 -> host64_val (host64 z) = z.
Proof.
  intros Hz. unfold host64, host64_val. rewrite reverse_involutive. by apply be_val_be_bytes.
Qed.

(** A connection id is a 64 bit integer, but its construction from the
    secret leaves few values: at most 2^18 for an IPv4 client and 2^20 for an
    IPv6 one. *)
Theorem connectionId_bounds secret ip port :
  Forall byte_ok secret -> Forall byte_ok ip ->
  0 <= connectionId secret (SaIn ip port) <= 2 ^ 18 /\
  0 <= connectionId secret (SaIn6 ip port) <= 2 ^ 20.
Proof.
  intros Hs Hi. split.
  - exact (conn_id_sum_bound secret ip (seq 0 4) 0 Hs Hi ltac:(lia) ltac:(simpl; lia)).
  - exact (conn_id_sum_bound secret ip (seq 0 16) 0 Hs Hi ltac:(lia) ltac:(simpl; lia)).
Qed.

Lemma connectionId_bounds_witness :
  0 <= connectionId (replicate 32 255) (SaIn [255; 255; 255; 255] [0; 0]) <= 2 ^ 18.
Proof.
  refine (proj1 (connectionId_bounds (replicate 32 255) [255; 255; 255; 255] [0; 0] _ _));
    repeat constructor; discriminate.
Defined.

Section Server.
Context {T L Q : Type} `{TrieLaws T} `{DListLaws L} `{SListLaws Q SendToBuffer}.
Context (minute second : Z) (junk : list Z) (o : Options).

Implicit Types (s : UdpServer T L Q).

(** The connection id handed out by a connect answer is accepted for the
    same client address, at once and after one or two new secrets, whatever
    the random bytes. *)
Theorem connect_id_accepted s addr now1 now2 r1 r2 :
  let id := host64 (connectionId (nth 0 (secrets_ s) []) addr) in
  checkConnectionId s id addr = true /\
  checkConnectionId (genSecret second now1 (Some r1) s) id addr = true /\
  checkConnectionId (genSecret second now2 (Some r2) (genSecret second now1 (Some r1) s)) id addr = true.
Proof.
  intros id. unfold checkConnectionId.
  assert (E : host64_val id = connectionId (nth 0 (secrets_ s) []) addr).
  { apply host64_roundtrip, connectionId_range. }
  rewrite E. destruct (secrets_ s) as [|s0 [|s1 ss]] eqn:Es; simpl; rewrite ?Es; simpl;
    rewrite !bool_decide_eq_true_2 by done; rewrite ?orb_true_r; done.
Qed.

(** A datagram that the server does not take for a request: shorter than a
    header, with no action it knows, an announce that is too short, or an
    announce or a scrape whose connection id does not check.  A connect request
    needs no id. *)
Definition rejected s (addr : sockaddr) (b : list Z) : Prop :=
  let action := conn_action_ (view_conn b) in
  (length b < 16)%nat \/ action ∉ [0; 1; 2] \/
  (action = 1 /\ (length b < 98)%nat) \/
  (action <> 0 /\ checkConnectionId s (slice 0 8 b) addr = false).

Lemma rejected_dispatch now addr b mem s : rejected s addr b -> (16 <= length b)%nat ->
  dispatch minute junk o now addr b mem s = Some s.
Proof.
  intros Hr Hl. unfold rejected in Hr. rewrite !not_elem_of_cons in Hr. pose proof (not_elem_of_nil (conn_action_ (view_conn b))).
  unfold dispatch. case_decide as H0'; [exfalso; intuition (congruence || lia)|]. case_decide as H1'.
  - unfold handleAnnounce. case_decide as Hs; [done|]. unfold sizeof_AnnounceRequest in Hs.
    cbn [ann_connection_id_ view_ann]. destruct (checkConnectionId s _ addr) eqn:Ec; [|done]. exfalso. intuition (congruence || lia).
  - case_decide as H2'; [|done]. unfold handleScrape. case_decide; [done|]. cbn [conn_connection_id_ view_conn].
    destruct (checkConnectionId s _ addr) eqn:Ec; [|done]. exfalso. intuition (congruence || lia).
Qed.

(** C38. A datagram of whatever length and content that is not a request the
    server accepts (too short for its action, of an unknown action, or an
    announce or a scrape whose connection id does not check) changes nothing:
    the server goes on with the next datagram as if it had not come, no answer
    is queued, the database and the secrets are untouched.  (A connect request
    is answered whatever its connection id.) *)
Theorem unauthenticated_ignored now addr b mem rs s :
  (length (q_items (sbufs_ s)) < 64)%nat -> rejected s addr (take sizeof_buffer b) ->
  receive minute junk o now (RecvPacket addr b mem :: rs) s = receive minute junk o now rs s.
Proof.
  intros Hq Hr. cbn [receive]. rewrite decide_True by done. unfold sizeof_ConnectRequest. cbv zeta.
  case_decide as Hl; [done|]. rewrite rejected_dispatch by (done || lia). done.
Qed.

(** C12. Every well-formed UDP announce is refused: the request keeps the
    info hash type [NONE], whose key is the empty string, so the database
    answers ["torrent not found"] and the client gets that error packet,
    whatever torrents are registered. *)
Theorem udp_announce_not_found now addr b s db clock :
  options_ok o -> tdb_ s = Some db -> db_reachable minute junk o db clock ->
  conn_action_ (view_conn b) = 1 -> (98 <= length b)%nat ->
  checkConnectionId s (slice 0 8 b) addr = true ->
  exists s', dispatch minute junk o now addr b true s = Some s' /\ tdb_ s' = Some db /\
    q_items (sbufs_ s') ≡ₚ
      {| to_addr_ := addr; data_ := [0; 0; 0; 3] ++ slice 12 4 b ++ string_bytes "torrent not found" |}
      :: q_items (sbufs_ s).
Proof.
  intros Ho Hdb Hd Ha Hl Hc. unfold dispatch. rewrite Ha. cbn [decide].
  rewrite decide_False, decide_True by done. unfold handleAnnounce.
  rewrite decide_False by (unfold sizeof_AnnounceRequest; lia).
  cbn [ann_connection_id_ view_ann]. rewrite Hc, Hdb. cbn [negb]. unfold db_announce.
  assert (bytes (rq_info_hash_ (announce_request junk o (view_ann b) addr)) = []) as -> by reflexivity.
  assert (Hn : t_find [] (torrents_ db) = None).
  { destruct (t_find [] (torrents_ db)) eqn:E; [|done].
    by apply (db_reachable_keys minute junk o db clock) in E. }
  rewrite Hn; simpl.
  eexists. split; [done|]. split; [done|]. simpl. rewrite q_items_push. done.
Qed.

(** ** Scrape answers *)

(** The client's view of the slots of an answer. *)
Fixpoint read_slots (n : nat) (b : list Z) : list (Z * Z * Z) :=
  match n with
  | O => []
  | S n => (be_val (slice 0 4 b), be_val (slice 4 4 b), be_val (slice 8 4 b)) :: read_slots n (drop 12 b)
  end.

Definition item_ok (it : ScrapeItem) : Prop :=
  0 <= it_nseeders_ it < 2 ^ 32 /\ 0 <= it_ndownloaded_ it < 2 ^ 32 /\ 0 <= it_nleechers_ it < 2 ^ 32.

Lemma read_slot it rest :
  item_ok it ->
  let b := scrape_slot it ++ rest in
  be_val (slice 0 4 b) = it_nseeders_ it /\ be_val (slice 4 4 b) = it_ndownloaded_ it /\
  be_val (slice 8 4 b) = it_nleechers_ it /\ drop 12 b = rest.
Proof.
  intros (H1' & H2' & H3') b. subst b. unfold scrape_slot.
  repeat split.
  - rewrite <- !app_assoc, slice_app_l by (rewrite be_bytes_length; lia).
    rewrite slice_all by (rewrite be_bytes_length; lia). by apply be_val_be_bytes.
  - rewrite <- !app_assoc, slice_app_r by (rewrite be_bytes_length; lia). rewrite be_bytes_length.
    rewrite slice_app_l by (rewrite be_bytes_length; lia).
    rewrite slice_all by (rewrite be_bytes_length; lia). by apply be_val_be_bytes.
  - rewrite <- !app_assoc, slice_app_r by (rewrite be_bytes_length; lia). rewrite be_bytes_length.
    rewrite slice_app_r by (rewrite be_bytes_length; lia). rewrite be_bytes_length.
    rewrite slice_app_l by (rewrite be_bytes_length; lia).
    rewrite slice_all by (rewrite be_bytes_length; lia). by apply be_val_be_bytes.
Qed.

(** A scrape packet reads back: after the action and the transaction id,
    its 12 byte slots give the seeders, completed and leechers of the items,
    in order. *)
Theorem scrape_packet_roundtrip tid rp :
  length tid = 4%nat -> Forall item_ok (sc_items_ rp) ->
  be_val (slice 0 4 (scrape_packet tid rp)) = 2 /\
  slice 4 4 (scrape_packet tid rp) = tid /\
  read_slots (length (sc_items_ rp)) (drop 8 (scrape_packet tid rp)) =
    (fun it => (it_nseeders_ it, it_ndownloaded_ it, it_nleechers_ it)) <$> sc_items_ rp.
Proof.
  intros Ht Hi. unfold scrape_packet. repeat split.
  - rewrite slice_app_r by (rewrite be_bytes_length; lia). rewrite be_bytes_length, Nat.sub_diag.
    rewrite slice_app_l by lia. apply slice_all. lia.
  - rewrite app_assoc, drop_app_ge by (rewrite length_app, be_bytes_length; lia).
    rewrite length_app, be_bytes_length, Ht, drop_0.
    induction Hi as [|it its Hit Hi IH]; [done|].
    change (mjoin (scrape_slot <$> it :: its)) with (scrape_slot it ++ mjoin (scrape_slot <$> its)).
    rewrite fmap_cons. cbn [length read_slots].
    destruct (read_slot it (mjoin (scrape_slot <$> its)) Hit) as (-> & -> & -> & ->).
    f_equal. exact IH.
Qed.

(** ** Bounds *)

Lemma push_buffer_length mem addr d s :
  (length (q_items (sbufs_ (push_buffer mem addr d s))) <= S (length (q_items (sbufs_ s))))%nat.
Proof. destruct mem; simpl; [rewrite q_items_push|]; simpl; lia. Qed.

Lemma dispatch_length now addr b mem s s' :
  dispatch minute junk o now addr b mem s = Some s' ->
  (length (q_items (sbufs_ s')) <= S (length (q_items (sbufs_ s))))%nat.
Proof.
  pose proof (fun d s => push_buffer_length mem addr d s) as Hp. unfold dispatch.
  unfold handleConnect, handleAnnounce, handleScrape, sendFailure.
  intros E. repeat (case_decide || case_match); simplify_option_eq; try lia; try apply Hp;
    repeat case_match; simplify_option_eq; try lia; apply (Hp _ (with_tdb _ _)) || apply Hp.
Qed.

(** The packets queued by [receive] never exceed 64. *)
Theorem receive_bounded now rs s s' :
  (length (q_items (sbufs_ s)) <= 64)%nat -> receive minute junk o now rs s = Some s' ->
  (length (q_items (sbufs_ s')) <= 64)%nat.
Proof.
  revert s. induction rs as [|r rs IH]; intros s Hl E; simpl in E; [congruence|].
  case_decide as Hd; [|congruence]. destruct r as [|addr b mem]; [congruence|].
  cbv zeta in E. case_decide; [by eauto|]. destruct (dispatch _ _ _ _ _ _ _ _) as [s1|] eqn:E1; simpl in E; [|done].
  apply dispatch_length in E1. eapply IH; [|exact E]. lia.
Qed.

(** A queue that the socket accepts is sent completely, in queue order,
    and left empty. *)
Theorem send_all s n :
  (length (q_items (sbufs_ s)) <= n)%nat ->
  snd (send (replicate n Sent) s []) = q_items (sbufs_ s) /\
  q_items (sbufs_ (fst (send (replicate n Sent) s []))) = [].
Proof.
  assert (Hgen : forall n s out, (length (q_items (sbufs_ s)) <= n)%nat ->
    snd (send (replicate n Sent) s out) = out ++ q_items (sbufs_ s) /\
    q_items (sbufs_ (fst (send (replicate n Sent) s out))) = []).
  { clear n s. induction n as [|n IH]; intros s out Hl; simpl.
    - destruct (q_items (sbufs_ s)) as [|x l] eqn:E; simpl in *; [|lia].
      by rewrite E, app_nil_r.
    - destruct (q_items (sbufs_ s)) as [|x l] eqn:E; simpl in *; [by rewrite E, app_nil_r|].
      destruct (IH (with_sbufs s (q_pop (sbufs_ s))) (out ++ [x])) as [E1 E2].
      { simpl. rewrite q_items_pop, E. simpl. lia. }
      rewrite E1, E2. simpl. by rewrite q_items_pop, E, <- app_assoc. }
  intros Hl. exact (Hgen n s [] Hl).
Qed.
End Server.

(** ** Witnesses *)
Module UdpDemo.
Definition client : sockaddr := SaIn [10; 0; 0; 9] [26; 225].
Definition server : UdpServer (gmap tkey ptr) (list ptr) (list SendToBuffer) :=
  {| secrets_ := [replicate 32 3; replicate 32 4; replicate 32 5]; sbufs_ := [];
     next_timeout_ := 0; tdb_ := Some DbDemo.db |}.
Definition id : list Z := host64 (connectionId (replicate 32 3) client).
Definition announce_bytes : list Z :=
  id ++ [0; 0; 0; 1] ++ [9; 9; 9; 9] ++ replicate 20 1 ++ replicate 42 0 ++ replicate 20 0.
Definition item : ScrapeItem :=
  {| it_info_hash_ := DbDemo.ih; it_nleechers_ := 3; it_nseeders_ := 70000; it_ndownloaded_ := 2 |}.
End UdpDemo.

Lemma unauthenticated_ignored_witness :
  receive Demo.minute (replicate 18 0) default_options 0
    [RecvPacket UdpDemo.client (replicate 8 7 ++ drop 8 UdpDemo.announce_bytes) true] UdpDemo.server = Some UdpDemo.server.
Proof.
  rewrite (unauthenticated_ignored Demo.minute (replicate 18 0) default_options 0 UdpDemo.client
    (replicate 8 7 ++ drop 8 UdpDemo.announce_bytes) true [] UdpDemo.server).
  - reflexivity.
  - vm_compute. lia.
  - right. right. right. vm_compute. split; [discriminate|reflexivity].
Defined.

Lemma udp_announce_not_found_witness :
  exists s', dispatch Demo.minute (replicate 18 0) default_options 0 UdpDemo.client
    UdpDemo.announce_bytes true UdpDemo.server = Some s' /\ tdb_ s' = Some DbDemo.db.
Proof.
  destruct (udp_announce_not_found Demo.minute (replicate 18 0) default_options 0 UdpDemo.client
    UdpDemo.announce_bytes UdpDemo.server DbDemo.db 0 default_options_ok eq_refl
    DbDemo.db_reachable_) as (s' & E & Es & _).
  - vm_compute. reflexivity.
  - vm_compute. lia.
  - vm_compute. reflexivity.
  - exists s'. split; [exact E|exact Es].
Defined.

Lemma scrape_packet_roundtrip_witness :
  read_slots 1 (drop 8 (scrape_packet [1; 2; 3; 4]
    {| sc_error_ := false; sc_error_msg_ := ""; sc_interval_ := 900; sc_items_ := [UdpDemo.item] |}))
  = [(70000, 2, 3)].
Proof.
  refine (proj2 (proj2 (scrape_packet_roundtrip [1; 2; 3; 4]
    {| sc_error_ := false; sc_error_msg_ := ""; sc_interval_ := 900; sc_items_ := [UdpDemo.item] |} _ _))).
  - reflexivity.
  - repeat constructor; simpl; lia.
Defined.

Lemma receive_bounded_witness :
  exists s', receive Demo.minute (replicate 18 0) default_options 0
    [RecvPacket UdpDemo.client UdpDemo.announce_bytes true] UdpDemo.server = Some s' /\
    (length (q_items (sbufs_ s')) <= 64)%nat.
Proof.
  eexists. split; [vm_compute; reflexivity|].
  eapply (receive_bounded Demo.minute (replicate 18 0) default_options 0
    [RecvPacket UdpDemo.client UdpDemo.announce_bytes true] UdpDemo.server).
  - simpl. lia.
  - vm_compute. reflexivity.
Defined.

Lemma send_all_witness :
  q_items (sbufs_ (fst (send (replicate 1 Sent)
    (with_sbufs UdpDemo.server [{| to_addr_ := UdpDemo.client; data_ := [1] |}]) []))) = [].
Proof.
  apply (send_all (with_sbufs UdpDemo.server [{| to_addr_ := UdpDemo.client; data_ := [1] |}]) 1).
  simpl. lia.
Defined.
