(* ===== verification/HttpHandlers.v ===== *)
(** The HTTP handlers ([announce-handler.cc], [scrape-handler.cc],
    [peers-handler.cc], [file-handler.cc], [stat-handler.cc],
    [log-handler.cc]).

    mimosa parses the request and writes the response: a request is what the
    handlers read of it, a response what they set, and the bencoded body the
    calls made to the encoder. *)
From stdpp Require Import base list gmap strings.
From Stdlib Require Import ZArith Lia Ascii.
From S2P Require Import Prelude Containers Options Address InfoHash Announce Torrent TorrentSpec TorrentTheorems TorrentDb UdpServer.

(** ** C library conversions *)
Definition is_space (c : Z) : bool := bool_decide (c = 32 \/ 9 <= c <= 13).
Definition is_digit (c : Z) : bool := bool_decide (48 <= c <= 57).

Fixpoint skip_spaces (s : list Z) : list Z :=
  match s with c :: r => if is_space c then skip_spaces r else s | [] => [] end.

Fixpoint digits (s : list Z) (acc : Z) : Z :=
  match s with c :: r => if is_digit c then digits r (acc * 10 + (c - 48)) else acc | [] => acc end.

(** [strtoll(s, 0, 10)], which saturates. *)
Definition strtoll (s : list Z) : Z :=
  let v := match skip_spaces s with
           | 45 :: r => - digits r 0
           | 43 :: r => digits r 0
           | r => digits r 0
           end in
  Z.max (- 2 ^ 63) (Z.min (2 ^ 63 - 1) v).

Definition atoll (s : list Z) : Z := strtoll s.
(** [(int) strtol(s)]. *)
Definition atoi (s : list Z) : Z := int_of_u32 (wrap 32 (strtoll s)).

(** ** Requests and responses *)
Record HttpRequest := {
  queryGet : string -> list Z;            (* empty when the key is absent *)
  query_values : string -> list (list Z); (* every value of the key, in order *)
  remoteAddr : sockaddr;
  unparsedHeaders : string -> option string;
  host : string;                          (* of the [Host] header, with [req_port] *)
  req_port : Z;
}.

Inductive EncOp := startDict | startList | pushData (d : list Z) | pushInt (n : Z) | enc_end.

Inductive Status := kStatusOk | kStatusBadRequest | kStatusNotFound | kStatusServiceUnavailable.

Record HttpResponse := {
  handled : bool;                 (* the handler's return value *)
  status : Status;
  keepAlive : bool;
  body : list EncOp;
}.

Definition push (s : string) : EncOp := pushData (string_bytes s).

Definition refused : HttpResponse :=
  {| handled := false; status := kStatusOk; keepAlive := true; body := [] |}.
Definition status_only (h : bool) (st : Status) (ka : bool) : HttpResponse :=
  {| handled := h; status := st; keepAlive := ka; body := [] |}.
Definition text (ops : list EncOp) : HttpResponse :=
  {| handled := true; status := kStatusOk; keepAlive := false; body := ops |}.

Definition failure_body (msg : string) : list EncOp :=
  [startDict; push "failure reason"; push msg; enc_end].

Section Handlers.
Context {T L : Type} `{Trie T} `{DList L}.
Context (minute : Z) (junk : list Z) (o : Options).
(** [inet_pton] on the address bytes, [inet_ntop], and [Base16Decoder]. *)
Context (inet_pton4 inet_pton6 : list Z -> option (list Z))
        (inet_ntop : Family -> list Z -> string) (base16 : list Z -> list Z).
(** [Base16Encoder]. *)
Context (to_base16 : list Z -> list Z).
(** The bytes of the uninitialised [sin_port] and [sin6_port]. *)
Context (junk_port : list Z).

Implicit Types (db : TorrentDb T L) (request : HttpRequest).

(** ** AnnounceHandler *)

Definition request_addr request : Address :=
  let a0 := Address_new junk in
  let ip := queryGet request "ip" in
  let a :=
    if ALLOW_PROXY o && bool_decide (ip <> []) then
      match inet_pton4 ip with
      | Some ad => assign_in a0 (Some (ad, junk_port))
      | None =>
          match inet_pton6 ip with
          | Some ad => assign_in6 a0 (Some (ad, junk_port))
          | None => a0
          end
      end
    else assign_sockaddr a0 (Some (remoteAddr request)) in
  setPort a (atoi (queryGet request "port")).

Definition http_num_want request : Z :=
  match query_values request "numwant" with
  | [] => MIN_NUMWANT o
  | v :: _ => wrap 32 (Z.min (atoi v) (int_of_u32 (MAX_NUMWANT o)))
  end.

Definition bytes_string (l : list Z) : string :=
  String.string_of_list_ascii ((fun b => ascii_of_nat (Z.to_nat b)) <$> l).

Definition http_announce_request request : AnnounceRequest :=
  {| rq_peerid_ := queryGet request "peer_id";
     rq_info_hash_ := {| bytes_ := memcpy_at 0 (queryGet request "info_hash") (replicate 32 0);
                         type_ := SHA1 |};
     rq_num_want_ := http_num_want request;
     rq_event_ := parseEvent (bytes_string (queryGet request "event"));
     rq_downloaded_ := wrap 64 (atoll (queryGet request "downloaded"));
     rq_uploaded_ := wrap 64 (atoll (queryGet request "uploaded"));
     rq_left_ := wrap 64 (atoll (queryGet request "left"));
     rq_addr_ := request_addr request;
     rq_skip_ipv6_ := false |}.

Definition peer_dict (a : Address) : list EncOp :=
  [startDict; push "ip"; push (ipStr inet_ntop a); push "port"; pushInt (port a); enc_end].

(** The two strings of the compact form. *)
Definition compact4 (addrs : list Address) : list Z :=
  mjoin ((fun a => match family_ a with AF_INET => in_addr a ++ in_port a | _ => [] end) <$> addrs).
Definition compact6 (addrs : list Address) : list Z :=
  mjoin ((fun a => match family_ a with AF_INET6 => in6_addr a ++ in6_port a | _ => [] end) <$> addrs).

Definition announce_body (compact : bool) (rp : AnnounceResponse) : list EncOp :=
  [startDict; push "interval"; pushInt (default 0 (interval_ rp))] ++
  (if compact then
     [push "peers"; pushData (compact4 (addrs_ rp)); push "peers6"; pushData (compact6 (addrs_ rp))]
   else [push "peers"; startList] ++ mjoin (peer_dict <$> addrs_ rp) ++ [enc_end]) ++
  [enc_end].

Definition announce_handle (now : Z) (tdb : option (TorrentDb T L)) request
  : option (option (TorrentDb T L) * HttpResponse) :=
  if decide (length (queryGet request "peer_id") <> 20 \/ length (queryGet request "info_hash") <> 20)%nat
  then Some (tdb, refused)
  else
    match tdb with
    | None => Some (None, status_only true kStatusServiceUnavailable false)
    | Some db =>
        '(db, rp) ← db_announce minute junk o now (http_announce_request request) db;
        Some (Some db,
              text (if error_ rp then failure_body (error_msg_ rp)
                    else announce_body (bool_decide (query_values request "compact" <> [])) rp))
    end.

(** ** ScrapeHandler *)

Definition http_scrape_request request : list InfoHash :=
  InfoHash_new SHA1 <$> filter (fun v => length v = 20%nat) (query_values request "info_hash").

Definition scrape_entry (it : ScrapeItem) : list EncOp :=
  [pushData (take 20 (bytes_ (it_info_hash_ it))); startDict;
   push "complete"; pushInt (it_nseeders_ it);
   push "incomplete"; pushInt (it_nleechers_ it);
   push "downloaded"; pushInt (it_ndownloaded_ it); enc_end].

Definition scrape_handle (tdb : option (TorrentDb T L)) request : option HttpResponse :=
  match tdb with
  | None => Some (status_only true kStatusServiceUnavailable false)
  | Some db =>
      rp ← scrape o db (http_scrape_request request);
      Some (text
        (if sc_error_ rp then failure_body (sc_error_msg_ rp)
         else [startDict; push "flags"; startDict; push "min_request_interval";
               pushInt (sc_interval_ rp); enc_end; push "files"; startDict] ++
              mjoin (scrape_entry <$> sc_items_ rp) ++ [enc_end; enc_end]))
  end.

(** ** PeersHandler: the status, and the rows of the page *)

Record PeerRow := { row_address : Address; row_peerid : list Z; row_downloaded : Z;
                    row_uploaded : Z; row_left : Z }.
Definition peer_row (p : Peer) : PeerRow :=
  {| row_address := addr_ p; row_peerid := peerid_ p; row_downloaded := downloaded_ p;
     row_uploaded := uploaded_ p; row_left := left_ p |}.

(** [templates] tells whether both templates load. *)
Definition peers_handle (tdb : option (TorrentDb T L)) (templates : bool) request
  : option (HttpResponse * list PeerRow) :=
  let info_hash := base16 (queryGet request "info_hash") in
  if decide (length info_hash <> 20 /\ length info_hash <> 32)%nat
  then Some (status_only false kStatusNotFound true, [])
  else if negb templates then Some (refused, [])
  else
    match tdb with
    | None => Some (status_only true kStatusServiceUnavailable true, [])
    | Some db =>
        match t_find (take 20 info_hash) (torrents_ db) with
        | None => Some (status_only true kStatusNotFound true, [])
        | Some p =>
            t ← objects_ db !! p;
            Some (status_only true kStatusOk true, peer_row <$> peer_list t)
        end
    end.

(** ** FileHandler: the response, or the path to stream *)

Definition file_handle (tdb : option (TorrentDb T L)) request : option (HttpResponse + string) :=
  let info_hash := base16 (queryGet request "info_hash") in
  if isValidHashSize (Z.of_nat (length info_hash))
  then Some (inl (status_only false kStatusBadRequest true))
  else
    match tdb with
    | None => Some (inl (status_only true kStatusServiceUnavailable true))
    | Some db =>
        match t_find info_hash (torrents_ db) with
        | None => Some (inl (status_only true kStatusNotFound true))
        | Some p => t ← objects_ db !! p; Some (inr (path_ t))
        end
    end.

(** ** StatHandler: the rows and the totals *)

Record StatTotals := { total_leechers : Z; total_seeders : Z; total_length : Z; total_completed : Z }.

Definition add_totals (t : Torrent T L) (a : StatTotals) : StatTotals :=
  {| total_leechers := total_leechers a +u64 leechers_ t;
     total_seeders := total_seeders a +u64 seeders_ t;
     total_length := total_length a +u64 length_ t;
     total_completed := total_completed a +u64 completed_ t |}.

Definition magnet_prefix (version : Z) : string :=
  if decide (version = 1) then "btih:" else "btmh:1220".

(** The dictionary of one torrent; the template prints the length. *)
Record StatRow := {
  st_name : string;
  st_length : Z;
  st_version : Z;
  st_magnet_key : list Z;
  st_info_hash : list Z;
  st_leechers : Z;
  st_seeders : Z;
  st_completed : Z;
  st_show_peers : bool;
  st_show_torrent : bool;
}.

Definition stat_row (ih : InfoHash) (name : string) (len version leechers seeders completed : Z) : StatRow :=
  {| st_name := name; st_length := len; st_version := version;
     st_magnet_key := string_bytes (magnet_prefix version) ++ to_base16 (bytes ih);
     st_info_hash := bytes ih; st_leechers := leechers; st_seeders := seeders; st_completed := completed;
     st_show_peers := negb (DISABLE_PEERS_PAGE o); st_show_torrent := negb (DISABLE_FILE_PAGE o) |}.

Definition torrent_row (t : Torrent T L) (version : Z) : StatRow :=
  stat_row (info_hash_ t) (name_ t) (length_ t) version (leechers_ t) (seeders_ t) (completed_ t).

Fixpoint stat_loop (es : list (tkey * ptr)) (rows : list StatRow) (a : StatTotals) db
  : option (list StatRow * StatTotals) :=
  match es with
  | [] => Some (rows, a)
  | (_, p) :: es =>
      t ← objects_ db !! p;
      v ← version t;
      stat_loop es (rows ++ [torrent_row t v]) (add_totals t a) db
  end.

(** The dictionary of the page: the addresses of the trackers, the torrents in
    the order of [foreach], and the totals. *)
Record StatPage := {
  sp_tracker_http : string * Z;
  sp_tracker_udp : option (string * Z);
  sp_torrents : list StatRow;
  sp_totals : StatTotals;
}.

Definition stat_page request (rows : list StatRow) (a : StatTotals) : StatPage :=
  {| sp_tracker_http := (host request, req_port request);
     sp_tracker_udp := if decide (UDP_PORT o <> 0) then Some (host request, UDP_PORT o) else None;
     sp_torrents := rows; sp_totals := a |}.

(** The page when it is sent. *)
Definition stat_handle (tdb : option (TorrentDb T L)) (templates : bool) request
  : option (HttpResponse * option StatPage) :=
  let zero := {| total_leechers := 0; total_seeders := 0; total_length := 0; total_completed := 0 |} in
  if negb templates then Some (refused, None)
  else
    match tdb with
    | None => Some (status_only true kStatusServiceUnavailable true, None)
    | Some db =>
        '(rows, a) ← stat_loop (t_entries (torrents_ db)) [] zero db;
        Some (status_only true kStatusOk true, Some (stat_page request rows a))
    end.

(** ** LogHandler: the address the next handlers see *)

(** A [uint16_t] stored in the socket address as it is, without [htons]. *)
Definition raw_port (p : Z) : list Z := reverse (be_bytes 2 (wrap 16 p)).

Definition proxy_trusted (original_ip : Address) : bool :=
  bool_decide (REVERSE_PROXY_FROM o <> "" /\ REVERSE_PROXY_HEADER o <> "" /\
    (REVERSE_PROXY_FROM o = "0.0.0.0" \/ REVERSE_PROXY_FROM o = "::" \/
     REVERSE_PROXY_FROM o = ipStr inet_ntop original_ip)).

Definition log_remoteAddr request : sockaddr :=
  let original_ip := assign_sockaddr (Address_new junk) (Some (remoteAddr request)) in
  if proxy_trusted original_ip then
    let real_ip := default "" (unparsedHeaders request (REVERSE_PROXY_HEADER o)) in
    if decide (real_ip <> "") then
      let p := raw_port (port original_ip) in
      match inet_pton4 (string_bytes real_ip) with
      | Some ad => SaIn ad p
      | None =>
          match inet_pton6 (string_bytes real_ip) with
          | Some ad => if decide (take 12 ad = v4_mapped) then SaIn (drop 12 ad) p else SaIn6 ad p
          | None => remoteAddr request
          end
      end
    else remoteAddr request
  else remoteAddr request.
End Handlers.
