(* ===== verification/HttpTheorems.v ===== *)
(** Theorems about the HTTP handlers. *)
From stdpp Require Import base list gmap strings.
From Stdlib Require Import ZArith Lia Ascii.
From S2P Require Import Prelude Containers Options Address InfoHash Announce Torrent TorrentSpec TorrentTheorems TorrentDb UdpServer HttpHandlers.

(** ** The client's reading of an answer *)

(** What a bencoded body says; the encoder writes its calls in order. *)
Inductive Benc :=
| BInt (n : Z)
| BStr (d : list Z)
| BList (l : list Benc)
| BDict (l : list (list Z * Benc)).

(** The lists and dictionaries that are open, with the key that waits. *)
Inductive Frame :=
| FList (l : list Benc)
| FDict (l : list (list Z * Benc)) (key : option (list Z)).

Definition put_value (v : Benc) (open : list Frame) : option (Benc + list Frame) :=
  match open, v with
  | [], _ => Some (inl v)
  | FList l :: open, _ => Some (inr (FList (l ++ [v]) :: open))
  | FDict l None :: open, BStr k => Some (inr (FDict l (Some k) :: open))
  | FDict l (Some k) :: open, _ => Some (inr (FDict (l ++ [(k, v)]) None :: open))
  | _, _ => None
  end.

(** One value, and nothing after it. *)
Fixpoint read_ops (ops : list EncOp) (open : list Frame) : option Benc :=
  match ops with
  | [] => None
  | op :: ops =>
      let put v open :=
        match put_value v open with
        | Some (inl v) => if ops is [] then Some v else None
        | Some (inr open) => read_ops ops open
        | None => None
        end in
      match op, open with
      | startDict, _ => read_ops ops (FDict [] None :: open)
      | startList, _ => read_ops ops (FList [] :: open)
      | pushData d, _ => put (BStr d) open
      | pushInt n, _ => put (BInt n) open
      | enc_end, FList l :: open => put (BList l) open
      | enc_end, FDict l None :: open => put (BDict l) open
      | enc_end, _ => None
      end
  end.

Definition read_body (ops : list EncOp) : option Benc := read_ops ops [].

(** A compact peer string, [n] bytes of address each; the whole string is read.
    A round takes at least two bytes: the length is enough fuel. *)
Fixpoint read_peers (n : nat) (fuel : nat) (b : list Z) : option (list (list Z * Z)) :=
  match b, fuel with
  | [], _ => Some []
  | _, O => None
  | _, S fuel =>
      if decide (length b < n + 2)%nat then None
      else cons (slice 0 n b, be_val (slice n 2 b)) <$> read_peers n fuel (drop (n + 2) b)
  end.

Definition read_compact (n : nat) (b : list Z) : option (list (list Z * Z)) := read_peers n (length b) b.

Lemma read_peers_cons n fuel ad p rest :
  length ad = n -> length p = 2%nat ->
  read_peers n (S fuel) (ad ++ p ++ rest) = cons (ad, be_val p) <$> read_peers n fuel rest.
Proof.
  intros Ha Hp. cbn [read_peers].
  destruct (ad ++ p ++ rest) as [|z l] eqn:E.
  { apply (f_equal length) in E. rewrite !length_app in E. simpl in E. lia. }
  rewrite <- E. clear E z l. rewrite decide_False by (rewrite !length_app; lia). f_equal; [f_equal; f_equal|f_equal].
  - rewrite slice_app_l by lia. apply slice_all. lia.
  - rewrite slice_app_r by lia. rewrite Ha, Nat.sub_diag, slice_app_l by lia.
    by rewrite slice_all by lia.
  - rewrite app_assoc, drop_app_ge by (rewrite length_app; lia).
    rewrite length_app. replace (n + 2 - (length ad + length p))%nat with 0%nat by lia.
    by rewrite drop_0.
Qed.

(** The strings of one family, [n] bytes of address and two of port for each
    address that [P] selects. *)
Lemma read_peers_joined n (P : Address -> Prop) `{!forall a, Decision (P a)} (enc ad : Address -> list Z) addrs fuel :
  (forall a, a ∈ addrs -> ~ P a -> enc a = []) ->
  (forall a, a ∈ addrs -> P a -> exists p, enc a = ad a ++ p /\ length (ad a) = n /\ length p = 2%nat /\ port a = be_val p) ->
  (length (mjoin (enc <$> addrs)) <= fuel)%nat ->
  read_peers n fuel (mjoin (enc <$> addrs)) = Some ((fun a => (ad a, port a)) <$> filter P addrs).
Proof.
  intros Hout Hin. revert fuel. induction addrs as [|a addrs IH]; intros fuel Hf; [by destruct fuel|].
  rewrite fmap_cons in *. change (mjoin (enc a :: ?l)) with (enc a ++ mjoin l) in *. rewrite filter_cons.
  specialize (IH ltac:(intros b Hb; apply Hout; by right) ltac:(intros b Hb; apply Hin; by right)).
  destruct (decide (P a)) as [Hp|Hp].
  - destruct (Hin a ltac:(by left) Hp) as (p & E & Hn & Hl & Ep). rewrite E, !length_app in Hf.
    destruct fuel as [|fuel]; [lia|]. rewrite E, <- app_assoc, read_peers_cons by done.
    rewrite IH by lia. cbn. by rewrite Ep.
  - rewrite (Hout a ltac:(by left) Hp) in *. by apply IH.
Qed.

Lemma read_compact4 addrs : Forall address_ok addrs ->
  read_compact 4 (compact4 addrs) = Some ((fun a => (in_addr a, port a)) <$> filter (fun a => family_ a = AF_INET) addrs).
Proof.
  intros Ho. rewrite Forall_forall in Ho. apply read_peers_joined; [..|done]; intros a Ha Hp.
  - by destruct (family_ a).
  - rewrite Hp. exists (in_port a). destruct (Ho a Ha) as [Hl _]. split; [done|].
    split; [apply slice_length; lia|]. split; [apply slice_length; lia|]. unfold port. by rewrite Hp.
Qed.

Lemma read_compact6 addrs : Forall address_ok addrs ->
  read_compact 16 (compact6 addrs) = Some ((fun a => (in6_addr a, port a)) <$> filter (fun a => family_ a = AF_INET6) addrs).
Proof.
  intros Ho. rewrite Forall_forall in Ho. apply read_peers_joined; [..|done]; intros a Ha Hp.
  - by destruct (family_ a).
  - rewrite Hp. exists (in6_port a). destruct (Ho a Ha) as [Hl _]. split; [done|].
    split; [apply slice_length; lia|]. split; [apply slice_length; lia|]. unfold port. by rewrite Hp.
Qed.

(** The dictionaries of the peers, inside the list of the other form. *)
Lemma read_peer_dicts inet_ntop addrs ops l l0 : read_ops (mjoin (peer_dict inet_ntop <$> addrs) ++ ops) (FList l :: l0) =
  read_ops ops (FList (l ++ ((fun a => BDict [(string_bytes "ip", BStr (string_bytes (ipStr inet_ntop a)));
    (string_bytes "port", BInt (port a))]) <$> addrs)) :: l0).
Proof.
  revert l. induction addrs as [|a addrs IH]; intros l; [by rewrite app_nil_r|].
  rewrite fmap_cons. change (mjoin (?x :: ?l)) with (x ++ mjoin l). rewrite <- app_assoc. cbn [app peer_dict read_ops put_value push].
  rewrite IH. by rewrite <- app_assoc.
Qed.

Section Handlers.
Context {T L : Type} `{TrieLaws T} `{DListLaws L}.
Context (minute : Z) (junk : list Z) (o : Options).
Context (inet_pton4 inet_pton6 : list Z -> option (list Z))
        (inet_ntop : Family -> list Z -> string) (base16 : list Z -> list Z) (junk_port : list Z).

Implicit Types (db : TorrentDb T L) (request : HttpRequest).

Lemma http_announce_key request :
  length (queryGet request "info_hash") = 20%nat ->
  bytes (rq_info_hash_ (http_announce_request junk o inet_pton4 inet_pton6 junk_port request))
  = queryGet request "info_hash".
Proof.
  intros Hl. unfold bytes; cbn [http_announce_request rq_info_hash_ type_ bytes_ hashSize].
  unfold memcpy_at. rewrite take_0, app_nil_l. rewrite take_app_le by lia. apply take_ge. lia.
Qed.

(** The HTTP announce: a peer id or an info hash that is not 20 bytes long
    is refused with the database untouched; otherwise the database takes the
    announce under the 20 bytes of the query, and the body is the failure
    dictionary when no torrent has that key, or the torrent's answer. *)
Theorem announce_handle_spec now db clock request :
  options_ok o -> db_reachable minute junk o db clock -> clock <= now ->
  let rq := http_announce_request junk o inet_pton4 inet_pton6 junk_port request in
  let compact := bool_decide (query_values request "compact" <> []) in
  exists db' resp,
    announce_handle minute junk o inet_pton4 inet_pton6 inet_ntop junk_port now (Some db) request
      = Some (Some db', resp) /\
    if decide (length (queryGet request "peer_id") = 20 /\ length (queryGet request "info_hash") = 20)%nat
    then match lookup_torrent db (queryGet request "info_hash") with
         | None => db' = db /\ resp = text (failure_body "torrent not found")
         | Some t => exists t' r, announce minute junk o now rq t = Some (t', r) /\
             lookup_torrent db' (queryGet request "info_hash") = Some t' /\
             resp = text (announce_body inet_ntop compact
                      (with_interval r (wrap 32 (ANNOUNCE_INTERVAL o * 60))))
         end
    else db' = db /\ resp = refused.
Proof.
  intros Ho Hd Hc rq compact. unfold announce_handle.
  destruct (decide (length (queryGet request "peer_id") = 20 /\
                    length (queryGet request "info_hash") = 20)%nat) as [[Hp Hh]|Hn].
  2: { rewrite decide_True by lia. eauto. }
  rewrite decide_False by lia. fold rq.
  pose proof (http_announce_key request Hh) as Hkey. fold rq in Hkey.
  pose proof (db_reachable_inv minute junk o db clock Ho Hd) as Hi.
  unfold db_announce. rewrite Hkey. unfold lookup_torrent at 1.
  destruct (t_find (queryGet request "info_hash") (torrents_ db)) as [p|] eqn:Hk; simpl; [|eauto].
  destruct (db_objects _ _ _ _ Hi _ _ Hk) as (t & Ht & _). rewrite Ht; simpl.
  destruct (db_reach _ _ _ _ Hi p t Ht) as (ps & Hr & Hps).
  destruct (announce_refines minute junk o now rq t ps Hr Ho (inv_length _ _ _ _ Hps))
    as (t' & r & -> & _ & _ & _ & _ & _ & _ & Er). simpl.
  eexists _, _. split; [done|]. exists t', r. split; [done|]. split.
  - rewrite (lookup_with_object minute o clock db p t' _ _ Hi Hk). by rewrite decide_True.
  - by rewrite Er.
Qed.

(** C37. The answer to an announce reads back.  When the database takes an
    announce, the body is one bencoded dictionary: the interval, and the peers
    of the response.  To a request for the compact form, ["peers"] is a string
    made of the address and port of every IPv4 peer, in order, and ["peers6"]
    one made of those of every IPv6 peer, with no other byte; to any other
    request, ["peers"] is the list of the dictionaries of all of them. *)
Theorem compact_roundtrip now db db' rp request :
  length (queryGet request "peer_id") = 20%nat -> length (queryGet request "info_hash") = 20%nat ->
  db_announce minute junk o now (http_announce_request junk o inet_pton4 inet_pton6 junk_port request) db
    = Some (db', rp) ->
  error_ rp = false -> Forall address_ok (addrs_ rp) ->
  exists body, announce_handle minute junk o inet_pton4 inet_pton6 inet_ntop junk_port now (Some db) request
      = Some (Some db', text body) /\
    let interval := (string_bytes "interval", BInt (default 0 (interval_ rp))) in
    if decide (query_values request "compact" = [])
    then read_body body = Some (BDict [interval; (string_bytes "peers", BList ((fun a =>
           BDict [(string_bytes "ip", BStr (string_bytes (ipStr inet_ntop a))); (string_bytes "port", BInt (port a))])
           <$> addrs_ rp))])
    else exists peers peers6,
           read_body body = Some (BDict [interval; (string_bytes "peers", BStr peers); (string_bytes "peers6", BStr peers6)]) /\
           read_compact 4 peers = Some ((fun a => (in_addr a, port a)) <$> filter (fun a => family_ a = AF_INET) (addrs_ rp)) /\
           read_compact 16 peers6 = Some ((fun a => (in6_addr a, port a)) <$> filter (fun a => family_ a = AF_INET6) (addrs_ rp)).
Proof.
  intros Hp Hh Ea Ee Ha. unfold announce_handle. rewrite decide_False by lia. rewrite Ea. cbn [mbind option_bind]. rewrite Ee.
  eexists. split; [done|]. cbv zeta. unfold announce_body, read_body. case_decide as Hc.
  - rewrite Hc, bool_decide_eq_false_2 by (intros Hn; by apply Hn). cbn [app read_ops put_value push].
    rewrite <- app_assoc, read_peer_dicts. done.
  - rewrite bool_decide_eq_true_2 by done. exists (compact4 (addrs_ rp)), (compact6 (addrs_ rp)).
    split; [done|]. split; [by apply read_compact4|by apply read_compact6].
Qed.

(** The file page serves no torrent: a well-formed info hash (20 or 32
    bytes) is answered with a bad request, and no other string is the key of
    a torrent. *)
Theorem file_handle_never_serves db clock request :
  options_ok o -> db_reachable minute junk o db clock ->
  let size := length (base16 (queryGet request "info_hash")) in
  file_handle base16 (Some db) request =
    Some (inl (if decide (size = 20 \/ size = 32)%nat
               then status_only false kStatusBadRequest true
               else status_only true kStatusNotFound true)).
Proof.
  intros Ho Hd size. unfold file_handle. fold size.
  case_decide as Hs.
  - assert (isValidHashSize (Z.of_nat size) = true) as -> by (apply isValidHashSize_spec; lia). done.
  - destruct (isValidHashSize (Z.of_nat size)) eqn:Ev; [apply isValidHashSize_spec in Ev; lia|].
    destruct (t_find _ (torrents_ db)) eqn:Hk; [|done].
    apply (db_reachable_keys minute junk o db clock) in Hk; [|done|done]. fold size in Hk. lia.
Qed.

(** Behind a trusted proxy that names an IPv4 client, the handlers see the
    named address, but with the two bytes of the connection's port swapped,
    as the host-order value is stored without [htons]. *)
Theorem log_handler_port request ad p ip :
  inet_pton4 (string_bytes ip) = Some ad -> length ad = 4%nat -> Forall byte_ok ad ->
  remoteAddr request = SaIn [127; 0; 0; 1] p -> length p = 2%nat -> Forall byte_ok p ->
  address_ok (Address_new junk) ->
  REVERSE_PROXY_FROM o = "0.0.0.0" -> REVERSE_PROXY_HEADER o <> "" ->
  unparsedHeaders request (REVERSE_PROXY_HEADER o) = Some ip -> ip <> "" ->
  log_remoteAddr junk o inet_pton4 inet_pton6 inet_ntop request = SaIn ad (reverse p).
Proof.
  intros Hip Hl Hb Hr Hp Hpb Hj Hf Hh Hu Hne. unfold log_remoteAddr.
  set (orig := assign_sockaddr _ _).
  assert (Ht : proxy_trusted o inet_ntop orig = true).
  { unfold proxy_trusted. apply bool_decide_eq_true. rewrite Hf. split; [done|]. auto. }
  rewrite Ht, Hu. change (default "" (Some ip)) with ip. cbv zeta.
  rewrite decide_True by exact Hne. rewrite Hip.
  f_equal. unfold raw_port. f_equal.
  assert (E : port orig = be_val p).
  { pose proof (assign_sockaddr_canonical_key junk [127; 0; 0; 1] p Hj eq_refl Hp) as [Ef Ek].
    subst orig. rewrite Hr. unfold port. rewrite Ef. unfold in_port. by rewrite Ek. }
  rewrite E. pose proof (be_val_2_range p Hp Hpb). rewrite wrap_small by lia.
  rewrite <- Hp at 1. by apply be_bytes_be_val.
Qed.
End Handlers.

(** ** Witnesses *)
Module HttpDemo.
Definition request : HttpRequest := {|
  queryGet k := if decide (k = "peer_id") then replicate 20 65
                else if decide (k = "info_hash") then replicate 20 1
                else if decide (k = "port") then [54; 57; 54; 57] else [];
  query_values _ := [];
  remoteAddr := SaIn [127; 0; 0; 1] [26; 225];
  unparsedHeaders _ := Some "10.0.0.9";
  host := "tracker"; req_port := 6969;
|}.
Definition no_pton (_ : list Z) : option (list Z) := None.
Definition some_pton (_ : list Z) : option (list Z) := Some [10; 0; 0; 9].
Definition ntop (_ : Family) (_ : list Z) : string := "ip".
Definition proxied : Options := with_proxy_from "0.0.0.0" default_options.
(** The torrent after the announce of [request], and a second client that asks for
    the compact form. *)
Definition visited : TorrentDb (gmap tkey ptr) (list ptr) :=
  from_option (fun r => default DbDemo.db (fst r)) DbDemo.db
    (announce_handle Demo.minute (replicate 18 0) default_options no_pton no_pton ntop [0; 0] 5 (Some DbDemo.db) request).
Definition other : HttpRequest := {|
  queryGet k := if decide (k = "peer_id") then replicate 20 66
                else if decide (k = "info_hash") then replicate 20 1 else [];
  query_values k := if decide (k = "compact") then [[49]] else [];
  remoteAddr := SaIn [10; 0; 0; 2] [26; 225];
  unparsedHeaders _ := None;
  host := "tracker"; req_port := 6969;
|}.
Definition answer : TorrentDb (gmap tkey ptr) (list ptr) * AnnounceResponse :=
  default (DbDemo.db, not_found) (db_announce Demo.minute (replicate 18 0) default_options 6
    (http_announce_request (replicate 18 0) default_options no_pton no_pton [0; 0] other) visited).
Lemma demo_answered : db_announce Demo.minute (replicate 18 0) default_options 6
    (http_announce_request (replicate 18 0) default_options no_pton no_pton [0; 0] other) visited = Some answer.
Proof. vm_compute. reflexivity. Qed.
End HttpDemo.

Lemma announce_handle_spec_witness :
  exists db' resp, announce_handle Demo.minute (replicate 18 0) default_options HttpDemo.no_pton
    HttpDemo.no_pton HttpDemo.ntop [0; 0] 5 (Some DbDemo.db) HttpDemo.request = Some (Some db', resp).
Proof.
  destruct (announce_handle_spec Demo.minute (replicate 18 0) default_options HttpDemo.no_pton
    HttpDemo.no_pton HttpDemo.ntop [0; 0] 5 DbDemo.db 0 HttpDemo.request default_options_ok
    DbDemo.db_reachable_ ltac:(lia)) as (db' & resp & E & _).
  exists db', resp. exact E.
Defined.

Lemma file_handle_never_serves_witness :
  file_handle (fun l => l) (Some DbDemo.db) HttpDemo.request
  = Some (inl (status_only false kStatusBadRequest true)).
Proof.
  exact (file_handle_never_serves Demo.minute (replicate 18 0) default_options (fun l => l) DbDemo.db 0
    HttpDemo.request default_options_ok DbDemo.db_reachable_).
Defined.

Lemma log_handler_port_witness :
  log_remoteAddr (replicate 18 0) HttpDemo.proxied HttpDemo.some_pton HttpDemo.no_pton HttpDemo.ntop
    HttpDemo.request = SaIn [10; 0; 0; 9] [225; 26].
Proof.
  apply (log_handler_port (replicate 18 0) HttpDemo.proxied HttpDemo.some_pton HttpDemo.no_pton
    HttpDemo.ntop HttpDemo.request [10; 0; 0; 9] [26; 225] "10.0.0.9");
    try reflexivity; try discriminate; try (repeat constructor; discriminate).
Defined.

Lemma compact_roundtrip_witness : exists body peers,
  announce_handle Demo.minute (replicate 18 0) default_options HttpDemo.no_pton HttpDemo.no_pton HttpDemo.ntop [0; 0] 6
    (Some HttpDemo.visited) HttpDemo.other = Some (Some (fst HttpDemo.answer), text body) /\
  read_compact 4 peers = Some [([127; 0; 0; 1], 6969)].
Proof.
  destruct (compact_roundtrip Demo.minute (replicate 18 0) default_options HttpDemo.no_pton HttpDemo.no_pton
    HttpDemo.ntop [0; 0] 6 HttpDemo.visited (fst HttpDemo.answer) (snd HttpDemo.answer) HttpDemo.other)
    as (body & E & peers & peers6 & _ & E4 & _);
    [reflexivity|reflexivity|apply HttpDemo.demo_answered|vm_compute; reflexivity| |].
  - repeat constructor; vm_compute; discriminate.
  - exists body, peers. split; [exact E|]. rewrite E4. vm_compute. reflexivity.
Defined.
