(* ===== verification/Lifecycle.v ===== *)
(** Starting and stopping the servers: [http-server.cc], the control part of
    [udp-server.cc], [control-server.cc] and [control-service.cc].

    What the operating system and mimosa decide (whether a socket can be made,
    bound or listened on) is an argument.  A thread is running from
    [thread_.start] until it leaves its loop or is joined. *)
From stdpp Require Import base list gmap strings.
From Stdlib Require Import ZArith Lia.
From S2P Require Import Prelude Containers Options Address InfoHash Announce Torrent TorrentDb UdpServer.

Inductive Thread := Th_none | Th_running.

#[export] Instance Thread_eq_dec : EqDecision Thread.
Proof. solve_decision. Defined.

(** ** HttpServer *)

(** The handlers; mimosa's [FsHandler(root, nskip)] serves files. *)
Inductive Handler :=
| FsHandler (root : string) (nskip : nat)
| AnnounceHandler | ScrapeHandler | StatHandler | PeersHandler | FileHandler.

#[export] Instance Handler_eq_dec : EqDecision Handler.
Proof. solve_decision. Defined.

(** What the code sets on mimosa's server. *)
Record MhServer := {
  mh_routes : list (string * Handler);             (* behind the [LogHandler] *)
  mh_timeout : Z;                                  (* read and write *)
  mh_listen : option (Z * bool * list Z);          (* port, ipv6, address *)
  mh_secure : option (string * string);
}.

Record HttpServer := {
  http_stop_ : bool;
  http_thread_ : Thread;
  server_ : option MhServer;
}.

Section Http.
Context (millisecond : Z) (o : Options).
Context (inet_pton4 inet_pton6 : list Z -> option (list Z)).
(** The bytes of the uninitialised [buf]. *)
Context (junk_buf : list Z).

Implicit Types (s : HttpServer).

Definition HttpServer_new : HttpServer :=
  {| http_stop_ := false; http_thread_ := Th_none; server_ := None |}.

Definition http_routes : list (string * Handler) :=
  [("/favicon.ico", FsHandler (WWW_DIR o ++ "/img/") 0);
   ("/img/*", FsHandler (WWW_DIR o ++ "/img/") 1);
   ("/css/*", FsHandler (WWW_DIR o ++ "/css/") 1);
   ("/js/*", FsHandler (WWW_DIR o ++ "/js/") 1);
   ("/announce", AnnounceHandler);
   ("/scrape", ScrapeHandler)] ++
  (if negb (DISABLE_STAT_PAGE o) then [("/stat", StatHandler)] else []) ++
  (if negb (DISABLE_PEERS_PAGE o) then [("/peers", PeersHandler)] else []) ++
  (if negb (DISABLE_FILE_PAGE o) then [("/file/*", FileHandler)] else []).

(** [inet_pton] writes nothing when it fails; its result is not read. *)
Definition http_bind_addr (ipv6 : bool) : list Z :=
  if ipv6 then default junk_buf (inet_pton6 (string_bytes (BIND_ADDR o)))
  else default (take 4 junk_buf) (inet_pton4 (string_bytes (BIND_ADDR o))).

Definition http_stop s : HttpServer :=
  match server_ s with
  | None => s
  | Some _ => {| http_stop_ := true; http_thread_ := Th_none; server_ := None |}
  end.

(** [listens] is the result of [listenInet4] or [listenInet6]. *)
Definition http_start (listens : bool) (port : Z) (ipv6 : bool) (cert key : string) s
  : HttpServer * bool :=
  let s := match server_ s with Some _ => http_stop s | None => s end in
  let server := {| mh_routes := http_routes; mh_timeout := HTTP_TIMEOUT o * millisecond;
                   mh_listen := None; mh_secure := None |} in
  if negb listens
  then ({| http_stop_ := http_stop_ s; http_thread_ := http_thread_ s; server_ := Some server |}, false)
  else
    let server := {| mh_routes := mh_routes server; mh_timeout := mh_timeout server;
                     mh_listen := Some (port, ipv6, http_bind_addr ipv6);
                     mh_secure := if decide (cert <> "" /\ key <> "") then Some (cert, key) else None |} in
    ({| http_stop_ := http_stop_ s; http_thread_ := Th_running; server_ := Some server |}, true).

(** One test of the loop of [run]: the server that takes the next request,
    or [None], and the thread is over. *)
Definition http_run_turn s : HttpServer * option MhServer :=
  match http_thread_ s with
  | Th_none => (s, None)
  | Th_running =>
      if negb (http_stop_ s) then (s, server_ s)
      else ({| http_stop_ := http_stop_ s; http_thread_ := Th_none; server_ := server_ s |}, None)
  end.

(** The calls on a server, with the turns of its thread between them. *)
Inductive HttpCall :=
| HcStart (listens : bool) (port : Z) (ipv6 : bool) (cert key : string)
| HcStop
| HcTurn.

Definition http_call s (c : HttpCall) : HttpServer :=
  match c with
  | HcStart listens port ipv6 cert key => fst (http_start listens port ipv6 cert key s)
  | HcStop => http_stop s
  | HcTurn => fst (http_run_turn s)
  end.

Definition http_calls (cs : list HttpCall) s : HttpServer := foldl http_call s cs.

(** Whether the thread would serve a request now. *)
Definition http_serves s : bool :=
  match snd (http_run_turn s) with Some _ => true | None => false end.
End Http.

(** ** UdpServer *)
Section Udp.
Context {T L Q : Type} `{Trie T} `{DList L} `{SList Q SendToBuffer}.
Context (second : Z).

(** The control fields, next to those of [UdpServer.v]. *)
Record UdpProc := {
  udp_stop_ : bool;
  udp_thread_ : Thread;
  fd_ : Z;
  udp : UdpServer T L Q;
}.

Implicit Types (s : UdpProc).

(** The three zeroed secrets and the empty queue of the constructor. *)
Definition UdpServer_new (db : option (TorrentDb T L)) : UdpProc :=
  {| udp_stop_ := false; udp_thread_ := Th_none; fd_ := -1;
     udp := {| secrets_ := replicate 3 (replicate 32 0); sbufs_ := q_empty; next_timeout_ := 0;
               tdb_ := db |} |}.

Definition udp_stop s : UdpProc :=
  if decide (fd_ s <= 0) then s
  else {| udp_stop_ := true; udp_thread_ := Th_none; fd_ := fd_ s; udp := udp s |}.

(** What the system answers to [socket] and [bind], and for the [i]-th secret
    the clock and what [gnutls_rnd] gives. *)
Record UdpEnv := {
  env_socket : Z;
  env_bind : bool;
  env_now : nat -> Z;
  env_rnd : nat -> option (list Z);
}.

Definition udp_start (env : UdpEnv) s : UdpProc * bool :=
  let s := if decide (0 <= fd_ s) then udp_stop s else s in
  let s fd := {| udp_stop_ := false; udp_thread_ := udp_thread_ s; fd_ := fd; udp := udp s |} in
  let s := s (env_socket env) in
  if decide (fd_ s < 0) then (s, false)
  else if negb (env_bind env) then (s, false)
  else
    let u := foldl (fun u i => genSecret second (env_now env i) (env_rnd env i) u) (udp s) (seq 0 3) in
    ({| udp_stop_ := false; udp_thread_ := Th_running; fd_ := fd_ s; udp := u |}, true).

Definition udp_serves s : bool := bool_decide (udp_thread_ s = Th_running /\ udp_stop_ s = false).
End Udp.
Arguments UdpProc : clear implicits.

(** ** ControlServer and ControlService *)
Record ControlServer := {
  ctl_stop_ : bool;
  ctl_thread_ : Thread;
  socket_path_ : string;
  ctl_listening : bool;       (* mimosa's server accepts on the socket *)
  unlinked : list string;     (* the paths given to [unlink], the latest first *)
}.

Definition ControlServer_new : ControlServer :=
  {| ctl_stop_ := false; ctl_thread_ := Th_none; socket_path_ := ""; ctl_listening := false;
     unlinked := [] |}.

Definition control_start (listens : bool) (socket_path : string) (s : ControlServer)
  : ControlServer * bool :=
  if negb listens
  then ({| ctl_stop_ := ctl_stop_ s; ctl_thread_ := ctl_thread_ s; socket_path_ := socket_path;
           ctl_listening := ctl_listening s; unlinked := unlinked s |}, false)
  else ({| ctl_stop_ := false; ctl_thread_ := Th_running; socket_path_ := socket_path;
           ctl_listening := true; unlinked := unlinked s |}, true).

Definition control_stop (s : ControlServer) : ControlServer :=
  {| ctl_stop_ := true; ctl_thread_ := Th_none; socket_path_ := socket_path_ s;
     ctl_listening := false; unlinked := socket_path_ s :: unlinked s |}.

Definition control_serves (s : ControlServer) : bool :=
  bool_decide (ctl_thread_ s = Th_running /\ ctl_stop_ s = false /\ ctl_listening s = true).

(** The methods of the service, and what they do to the process: its answer
    status is always [kOk]. *)
Inductive ControlRequest := releaseLogs | quit_request.
Inductive ControlEffect := LogsReleased | SignalSent.     (* [kill(getpid(), SIGQUIT)] *)

Definition control_service (r : ControlRequest) : ControlEffect * bool :=
  match r with releaseLogs => (LogsReleased, true) | quit_request => (SignalSent, true) end.

(** The routing table of the header's documentation. *)
Definition route_of (o : Options) (path : string) (h : Handler) : Prop :=
  match h with
  | FsHandler root nskip => exists dir, dir ∈ ["/img/"; "/css/"; "/js/"] /\
      root = WWW_DIR o ++ dir /\
      (path = dir ++ "*" /\ nskip = 1%nat \/
       path = "/favicon.ico" /\ dir = "/img/" /\ nskip = 0%nat)
  | AnnounceHandler => path = "/announce"
  | ScrapeHandler => path = "/scrape"
  | StatHandler => path = "/stat" /\ DISABLE_STAT_PAGE o = false
  | PeersHandler => path = "/peers" /\ DISABLE_PEERS_PAGE o = false
  | FileHandler => path = "/file/*" /\ DISABLE_FILE_PAGE o = false
  end%string.

Lemma http_routes_spec o path h : (path, h) ∈ http_routes o <-> route_of o path h.
Proof.
  unfold http_routes, route_of.
  destruct (DISABLE_STAT_PAGE o), (DISABLE_PEERS_PAGE o), (DISABLE_FILE_PAGE o);
    cbn [negb app]; rewrite !elem_of_cons, elem_of_nil; destruct h as [root nskip| | | | |];
    try (intuition congruence).
  all: split; [intros Hx; repeat destruct Hx as [[= -> -> ->]|Hx]; try done|].
  all: try (eexists; split; [|split; [done|auto]]; set_solver).
  all: intros (dir & Hd & -> & Hp); rewrite !elem_of_cons, elem_of_nil in Hd;
    destruct Hp as [[-> ->]|(-> & -> & ->)]; [|auto]; destruct Hd as [->|[->|[->|[]]]]; auto.
Qed.

(** ** What a server that was stopped does *)
Section HttpProperties.
Context (millisecond : Z) (o : Options).
Context (inet_pton4 inet_pton6 : list Z -> option (list Z)) (junk_buf : list Z).

Notation http_start := (http_start millisecond o inet_pton4 inet_pton6 junk_buf).
Notation http_calls := (http_calls millisecond o inet_pton4 inet_pton6 junk_buf).
Notation http_call := (http_call millisecond o inet_pton4 inet_pton6 junk_buf).

Lemma http_stop_latched s : http_stop_ s = true -> http_stop_ (http_stop s) = true.
Proof. unfold http_stop. by destruct (server_ s). Qed.

Lemma http_call_latched s c : http_stop_ s = true -> http_stop_ (http_call s c) = true.
Proof.
  intros Hs. destruct c as [listens port ipv6 cert key| |]; simpl.
  - unfold Lifecycle.http_start, http_stop. destruct (server_ s), listens; simpl; done.
  - by apply http_stop_latched.
  - unfold http_run_turn. rewrite Hs. by destruct (http_thread_ s).
Qed.

Lemma http_calls_latched cs s : http_stop_ s = true -> http_stop_ (http_calls cs s) = true.
Proof.
  revert s. induction cs as [|c cs IH]; intros s Hs; [done|]. apply (IH (http_call s c)).
  by apply http_call_latched.
Qed.

Lemma http_latched_idle s : http_stop_ s = true -> http_serves s = false.
Proof. intros Hs. unfold http_serves, http_run_turn. rewrite Hs. by destruct (http_thread_ s). Qed.

(** C26. The header promises that starting a started server restarts it, but
    the flag of the loop is never cleared: once a server has been started and
    then stopped or started again, no later sequence of starts, stops and
    turns makes its thread serve a request, although the starts whose socket
    listens return [true].  The same holds for a second start after one whose
    socket could not listen. *)
Theorem http_restart_never_serves s cs port ipv6 cert key listens :
  server_ s <> None ->
  http_serves (http_calls cs (http_stop s)) = false /\
  http_serves (http_calls cs (fst (http_start listens port ipv6 cert key s))) = false /\
  snd (http_start listens port ipv6 cert key s) = listens.
Proof.
  intros Hs. assert (Hl : http_stop_ (http_stop s) = true).
  { unfold http_stop. by destruct (server_ s). }
  split; [by apply http_latched_idle, http_calls_latched|]. split.
  - apply http_latched_idle, http_calls_latched. unfold Lifecycle.http_start.
    destruct (server_ s); [|done]. by destruct listens.
  - unfold Lifecycle.http_start. by destruct listens.
Qed.

(** The first start whose socket listens makes the thread serve, until
    it is stopped, with the announce and scrape handlers always routed, the
    pages that are not disabled and no other, and TLS exactly when both a
    certificate and a key are given. *)
Theorem http_first_start_serves n port ipv6 cert key :
  let s := http_calls (replicate n HcTurn)
             (fst (http_start true port ipv6 cert key HttpServer_new)) in
  http_serves s = true /\
  exists srv, server_ s = Some srv /\
    mh_listen srv = Some (port, ipv6, http_bind_addr o inet_pton4 inet_pton6 junk_buf ipv6) /\
    (is_Some (mh_secure srv) <-> cert <> "" /\ key <> "") /\
    forall path h, (path, h) ∈ mh_routes srv <-> route_of o path h.
Proof.
  intros s. assert (Es : s = fst (http_start true port ipv6 cert key HttpServer_new)).
  { subst s. unfold Lifecycle.http_calls. induction n as [|n IH]; [done|exact IH]. }
  rewrite Es. split; [done|]. eexists. split; [done|]. split; [done|]. split.
  { cbn. case_decide; split; intros Hx; [done|by eexists|by destruct Hx|done]. }
  intros path h. apply http_routes_spec.
Qed.
End HttpProperties.

Section UdpProperties.
Context {T L Q : Type} `{Trie T} `{DList L} `{SList Q SendToBuffer}.
Context (second : Z).

Implicit Types (s : UdpProc T L Q).

(** The three secrets of a start replace the ones before. *)
Lemma udp_start_secrets env s :
  snd (udp_start second env s) = true ->
  (forall i, is_Some (env_rnd env i)) ->
  secrets_ (udp (fst (udp_start second env s))) =
    (fun i => default [] (env_rnd env i)) <$> [2%nat; 1%nat; 0%nat].
Proof.
  unfold udp_start. intros Hs Hr.
  destruct (Hr 0%nat) as [r0 E0], (Hr 1%nat) as [r1 E1], (Hr 2%nat) as [r2 E2].
  repeat case_decide; destruct (env_bind env); cbn in *; try done; by rewrite E0, E1, E2.
Qed.

(** Unlike the HTTP server, the UDP server can be started again: from any
    state, a start that gets and binds a socket serves, with three new
    secrets, so that exactly the connection ids made from these are accepted
    and those given before are not; a start that fails leaves the thread of a
    stopped server off; and a stop ends the thread whatever happened before,
    except when the socket is descriptor 0, which [stop] takes for none. *)
Theorem udp_restart_serves env s :
  (forall i, is_Some (env_rnd env i)) -> fd_ s <> 0 ->
  let '(s', ok) := udp_start second env s in
  (ok = bool_decide (0 <= env_socket env) && env_bind env) /\
  (ok = true -> udp_serves s' = true /\ fd_ s' = env_socket env /\
    forall id addr, checkConnectionId (udp s') id addr = true <->
      exists i, (i < 3)%nat /\ host64_val id = connectionId (default [] (env_rnd env i)) addr) /\
  (ok = false -> 0 < fd_ s -> udp_serves s' = false) /\
  (udp_serves (udp_stop s') = true -> udp_serves s' = true /\ fd_ s' <= 0).
Proof.
  intros Hr Hfd. pose proof (udp_start_secrets env s) as Hsec.
  destruct (udp_start second env s) as [s' ok] eqn:E. simpl in Hsec.
  unfold udp_start in E.
  split.
  { destruct (env_bind env); rewrite ?andb_true_r, ?andb_false_r; repeat case_decide; simplify_eq/=;
      rewrite ?bool_decide_eq_true_2, ?bool_decide_eq_false_2 by lia; done || lia. }
  split; [|split].
  - intros Hok. specialize (Hsec Hok Hr). split; [|split].
    + repeat case_decide; destruct (env_bind env); simplify_eq/=; done.
    + repeat case_decide; destruct (env_bind env); simplify_eq/=; done.
    + intros id addr. unfold checkConnectionId. rewrite Hsec. cbn [nth fmap list_fmap].
      rewrite !orb_true_iff, !bool_decide_eq_true. split.
      * intros [[Hx|Hx]|Hx]; [exists 2%nat|exists 1%nat|exists 0%nat]; auto.
      * intros (i & Hi & Hx). destruct i as [|[|[|i]]]; auto. lia.
  - intros Hok Hpos. unfold udp_stop in E.
    repeat case_decide; destruct (env_bind env); simplify_eq/=; try lia; done.
  - unfold udp_stop. destruct (decide (fd_ s' <= 0)); [auto|]. unfold udp_serves. cbn [udp_thread_ udp_stop_].
    rewrite bool_decide_eq_false_2; [done|]. by intros [].
Qed.
End UdpProperties.

(** ** Witnesses *)
Module LifecycleDemo.
Definition pton4 (_ : list Z) : option (list Z) := Some [0; 0; 0; 0].
Definition pton6 (_ : list Z) : option (list Z) := None.
Definition started : HttpServer :=
  fst (http_start 1000 default_options pton4 pton6 (replicate 16 204) true 6969 false "" ""
         HttpServer_new).
Definition env : UdpEnv := {|
  env_socket := 5; env_bind := true; env_now _ := 0; env_rnd i := Some (replicate 32 (Z.of_nat i));
|}.
Definition udp0 : UdpProc (gmap tkey ptr) (list ptr) (list SendToBuffer) := UdpServer_new None.
End LifecycleDemo.

Lemma http_restart_never_serves_witness :
  http_serves LifecycleDemo.started = true /\
  http_serves (fst (http_start 1000 default_options LifecycleDemo.pton4 LifecycleDemo.pton6
    (replicate 16 204) true 6969 false "" "" LifecycleDemo.started)) = false.
Proof.
  split; [reflexivity|].
  refine (proj1 (proj2 (http_restart_never_serves 1000 default_options LifecycleDemo.pton4
    LifecycleDemo.pton6 (replicate 16 204) LifecycleDemo.started [] 6969 false "" "" true _))).
  discriminate.
Defined.

Lemma udp_restart_serves_witness :
  udp_serves (fst (udp_start 1000 LifecycleDemo.env
    (udp_stop (fst (udp_start 1000 LifecycleDemo.env LifecycleDemo.udp0))))) = true.
Proof.
  pose proof (udp_restart_serves 1000 LifecycleDemo.env
    (udp_stop (fst (udp_start 1000 LifecycleDemo.env LifecycleDemo.udp0)))
    ltac:(intros i; eexists; reflexivity) ltac:(discriminate)) as Hx.
  destruct Hx as (_ & Hx & _). apply Hx. reflexivity.
Defined.
