(* ===== verification/Tracker.v ===== *)
(** The daemon: [hefur.hh], [hefur.cc], [main.cc].  The servers, the white list
    and the cleanup thread share one database; each request, packet batch,
    cleanup or scan is one step, and a run is any sequence of them. *)
From stdpp Require Import base list gmap strings.
From Stdlib Require Import ZArith Lia.
From S2P Require Import Prelude Containers Options Address InfoHash Announce Torrent TorrentSpec TorrentTheorems TorrentDb FsTreeWhiteList UdpServer UdpTheorems HttpHandlers HttpTheorems Lifecycle.

(** What the environment provides to the daemon. *)
Record World := {
  w_inet_pton4 : list Z -> option (list Z);
  w_inet_pton6 : list Z -> option (list Z);
  w_inet_ntop : Family -> list Z -> string;
  w_base16 : list Z -> list Z;
  w_to_base16 : list Z -> list Z;
  w_route : list (string * Handler) -> string -> option Handler;   (* mimosa's dispatch *)
  w_is_torrent : string -> bool;
  w_parseFile : string -> option TorrentDesc;
  w_vanished : string -> bool;
  w_junk : list Z;                  (* uninitialised bytes *)
}.

(** What the system answers while the daemon starts. *)
Record StartEnv := {
  http_listens : bool;
  https_listens : bool;
  udp_env : UdpEnv;
  control_listens : bool;
  control_interface : bool;         (* HEFUR_CONTROL_INTERFACE *)
}.

Inductive HttpOut :=
| OutResponse (r : HttpResponse)
| OutPeers (r : HttpResponse) (rows : list PeerRow)
| OutStat (r : HttpResponse) (page : option StatPage)
| OutFile (path : string)
| OutStatic (root : string) (nskip : nat)
| OutNoRoute.

(** The members of the daemon in the order of their destruction, the reverse of
    their declaration. *)
Inductive Member := MControl | MUdp | MHttps | MHttp | MWl | MTdb.
Definition destruction_order : list Member := [MControl; MUdp; MHttps; MHttp; MWl; MTdb].

#[export] Instance Member_eq_dec : EqDecision Member.
Proof. solve_decision. Defined.

Section Tracker.
Context {T L Q : Type} `{Trie T} `{DList L} `{SList Q SendToBuffer}.
Context (minute second millisecond : Z) (o : Options) (w : World).

Record Hefur := {
  hf_tdb : TorrentDb T L;
  hf_wl : bool;                     (* the white list exists *)
  hf_http : option HttpServer;
  hf_https : option HttpServer;
  hf_udp : option (UdpProc T L Q);
  hf_control : option ControlServer;
}.

Implicit Types (h : Hefur).

Definition set_db h db : Hefur :=
  {| hf_tdb := db; hf_wl := hf_wl h; hf_http := hf_http h; hf_https := hf_https h;
     hf_udp := hf_udp h; hf_control := hf_control h |}.
Definition set_udp h u : Hefur :=
  {| hf_tdb := hf_tdb h; hf_wl := hf_wl h; hf_http := hf_http h; hf_https := hf_https h;
     hf_udp := u; hf_control := hf_control h |}.

(** The constructor; no result of a [start] is read. *)
Definition Hefur_new (env : StartEnv) : Hefur :=
  let start listens port cert key :=
    Some (fst (http_start millisecond o (w_inet_pton4 w) (w_inet_pton6 w) (w_junk w) listens port
                 (IPV6 o) cert key HttpServer_new)) in
  {| hf_tdb := TorrentDb_new;
     hf_wl := bool_decide (TORRENT_DIR o <> "");
     hf_udp := if decide (UDP_PORT o <> 0)
               then Some (fst (udp_start second (udp_env env) (UdpServer_new None))) else None;
     hf_http := if decide (HTTP_PORT o <> 0)
                then start (http_listens env) (HTTP_PORT o) "" "" else None;
     hf_https := if decide (HTTPS_PORT o <> 0 /\ CERT o <> "" /\ KEY o <> "")
                 then start (https_listens env) (HTTPS_PORT o) (CERT o) (KEY o) else None;
     hf_control := if decide (control_interface env = true /\ CONTROL_SOCKET o <> "")
                   then Some (fst (control_start (control_listens env) (CONTROL_SOCKET o) ControlServer_new))
                   else None |}.

(** [LogHandler], then the handler of the route. *)
Definition logged (request : HttpRequest) : HttpRequest :=
  {| queryGet := queryGet request; query_values := query_values request;
     remoteAddr := log_remoteAddr (w_junk w) o (w_inet_pton4 w) (w_inet_pton6 w) (w_inet_ntop w) request;
     unparsedHeaders := unparsedHeaders request; host := host request; req_port := req_port request |}.

Definition handle (now : Z) (hd : Handler) (request : HttpRequest) (templates : bool)
    (db : TorrentDb T L) : option (TorrentDb T L * HttpOut) :=
  match hd with
  | FsHandler root nskip => Some (db, OutStatic root nskip)
  | AnnounceHandler =>
      '(tdb, r) ← announce_handle minute (w_junk w) o (w_inet_pton4 w) (w_inet_pton6 w) (w_inet_ntop w)
                    (w_junk w) now (Some db) request;
      Some (default db tdb, OutResponse r)
  | ScrapeHandler => r ← scrape_handle o (Some db) request; Some (db, OutResponse r)
  | StatHandler =>
      '(r, page) ← stat_handle o (w_to_base16 w) (Some db) templates request; Some (db, OutStat r page)
  | PeersHandler =>
      '(r, rows) ← peers_handle (w_base16 w) (Some db) templates request; Some (db, OutPeers r rows)
  | FileHandler =>
      r ← file_handle (w_base16 w) (Some db) request;
      Some (db, match r with inl r => OutResponse r | inr path => OutFile path end)
  end.

(** One request on a server; nothing is served unless its thread loops. *)
Definition serve (now : Z) (srv : option HttpServer) (path : string) (request : HttpRequest)
    (templates : bool) h : option (Hefur * option HttpOut) :=
  match srv ≫= (fun s => snd (http_run_turn s)) with
  | None => Some (h, None)
  | Some mh =>
      match w_route w (mh_routes mh) path with
      | None => Some (h, Some OutNoRoute)
      | Some hd =>
          '(db, out) ← handle now hd (logged request) templates (hf_tdb h);
          Some (set_db h db, Some out)
      end
  end.

(** One turn of the UDP thread, on the shared database. *)
Definition udp_turn (now : Z) (rnd : option (list Z)) (p : PollResult) h
  : option (Hefur * list SendToBuffer) :=
  match hf_udp h with
  | None => Some (h, [])
  | Some u =>
      if udp_serves u then
        '(u', out) ← run_turn minute second (w_junk w) o now millisecond rnd p
                       (with_tdb (udp u) (hf_tdb h));
        let u' := {| udp_stop_ := udp_stop_ u; udp_thread_ := udp_thread_ u; fd_ := fd_ u; udp := u' |} in
        Some (set_udp (set_db h (default (hf_tdb h) (tdb_ (udp u')))) (Some u'), out)
      else Some (h, [])
  end.

(** What can happen, and what leaves the daemon. *)
Inductive Event_ :=
| EvHttp (tls : bool) (path : string) (request : HttpRequest) (templates : bool)
| EvUdp (rnd : option (list Z)) (p : PollResult)
| EvCleanup                        (* [TorrentDb::cleanupLoop] *)
| EvScan (paths : list string)     (* [FsTreeWhiteList::loopScan] *)
| EvCheck.

Inductive Output := OutHttp (r : option HttpOut) | OutPackets (l : list SendToBuffer) | OutNothing.

Definition step (now : Z) (e : Event_) h : option (Hefur * Output) :=
  match e with
  | EvHttp tls path request templates =>
      '(h, r) ← serve now (if tls then hf_https h else hf_http h) path request templates h;
      Some (h, OutHttp r)
  | EvUdp rnd p => '(h, l) ← udp_turn now rnd p h; Some (h, OutPackets l)
  | EvCleanup => db ← db_cleanup now (hf_tdb h); Some (set_db h db, OutNothing)
  | EvScan paths =>
      Some (if hf_wl h
            then set_db h (scan o (w_is_torrent w) (w_parseFile w) paths (hf_tdb h)) else h, OutNothing)
  | EvCheck =>
      if hf_wl h
      then db ← check (w_vanished w) (TORRENT_DIR o) (hf_tdb h); Some (set_db h db, OutNothing)
      else Some (h, OutNothing)
  end.

(** A run of the daemon, its events dated by the monotonic clock. *)
Fixpoint run (es : list (Z * Event_)) h : option (Hefur * list Output) :=
  match es with
  | [] => Some (h, [])
  | (now, e) :: es =>
      '(h, out) ← step now e h;
      '(h, outs) ← run es h;
      Some (h, out :: outs)
  end.

(** ** [main]: waiting for a signal, then releasing the daemon *)

(** The daemon during [~Hefur]: its members, those destroyed already (the latest
    first), whether the white list's thread runs; the database, which is counted
    by reference, whether it and its cleanup thread are alive; and the threads of
    connections that hold a reference to it, from their call of [torrentDb] to
    the end of their handler.  [HttpServer::stop] does not wait for these. *)
Record Dying := {
  dy_h : Hefur;
  dy_destroyed : list Member;
  dy_wl_thread : bool;
  dy_database : bool;
  dy_cleanup_thread : bool;
  dy_holders : gset nat;
}.

Definition dying (holders : gset nat) h : Dying :=
  {| dy_h := h; dy_destroyed := []; dy_wl_thread := hf_wl h; dy_database := true; dy_cleanup_thread := true;
     dy_holders := holders |}.

(** The references to the database: that of the member [tdb_] and those of the
    connections. *)
Definition references (d : Dying) : nat :=
  (if decide (MTdb ∈ dy_destroyed d) then 0 else 1) + size (dy_holders d).

(** [~TorrentDb], which joins the cleanup thread, when the last reference goes. *)
Definition unref (d : Dying) : Dying :=
  if decide (references d = 0%nat)
  then {| dy_h := dy_h d; dy_destroyed := dy_destroyed d; dy_wl_thread := dy_wl_thread d;
          dy_database := false; dy_cleanup_thread := false; dy_holders := dy_holders d |}
  else d.

(** The destructors stop their server, or set [stop_] and join; that of [tdb_]
    drops its reference. *)
Definition destroy (d : Dying) (m : Member) : Dying :=
  let h := dy_h d in
  let gone h wl := {| dy_h := h; dy_destroyed := m :: dy_destroyed d; dy_wl_thread := wl;
                      dy_database := dy_database d; dy_cleanup_thread := dy_cleanup_thread d;
                      dy_holders := dy_holders d |} in
  let with_h h := gone h (dy_wl_thread d) in
  match m with
  | MControl => with_h {| hf_tdb := hf_tdb h; hf_wl := hf_wl h; hf_http := hf_http h;
      hf_https := hf_https h; hf_udp := hf_udp h; hf_control := control_stop <$> hf_control h |}
  | MUdp => with_h (set_udp h (udp_stop <$> hf_udp h))
  | MHttps => with_h {| hf_tdb := hf_tdb h; hf_wl := hf_wl h; hf_http := hf_http h;
      hf_https := http_stop <$> hf_https h; hf_udp := hf_udp h; hf_control := hf_control h |}
  | MHttp => with_h {| hf_tdb := hf_tdb h; hf_wl := hf_wl h; hf_http := http_stop <$> hf_http h;
      hf_https := hf_https h; hf_udp := hf_udp h; hf_control := hf_control h |}
  | MWl => gone h false
  | MTdb => unref (gone h (dy_wl_thread d))
  end.

Definition with_holders (d : Dying) (hs : gset nat) : Dying :=
  {| dy_h := dy_h d; dy_destroyed := dy_destroyed d; dy_wl_thread := dy_wl_thread d;
     dy_database := dy_database d; dy_cleanup_thread := dy_cleanup_thread d; dy_holders := hs |}.

(** What happens during the release: the next destructor; a connection calls
    [torrentDb] in a handler, as long as [tdb_] is there to be copied; a
    connection is done with its handler. *)
Inductive ReleaseEvent := RDestroy | RLookup (c : nat) | RReturn (c : nat).

Definition release_step (d : Dying) (e : ReleaseEvent) : Dying :=
  match e with
  | RDestroy =>
      match destruction_order !! length (dy_destroyed d) with Some m => destroy d m | None => d end
  | RLookup c =>
      if decide (MTdb ∈ dy_destroyed d) then d else with_holders d ({[c]} ∪ dy_holders d)
  | RReturn c =>
      if decide (c ∈ dy_holders d) then unref (with_holders d (dy_holders d ∖ {[c]})) else d
  end.

Definition release (es : list ReleaseEvent) (d : Dying) : Dying := foldl release_step d es.

(** The members whose threads can still use the database. *)
Definition database_users (d : Dying) : list Member :=
  let h := dy_h d in
  let alive (b : bool) (m : Member) := if b then [m] else [] in
  alive (from_option udp_serves false (hf_udp h)) MUdp ++
  alive (from_option http_serves false (hf_https h)) MHttps ++
  alive (from_option http_serves false (hf_http h)) MHttp ++
  alive (dy_wl_thread d) MWl.

(** [quit] and its static [once], the future [stop_], and where [main] is. *)
Record Daemon := {
  d_once : bool;
  d_stop_ : bool;
  d_control : option ControlServer;
  d_released : bool;
}.

Definition quit (d : Daemon) : Daemon :=
  if d_once d
  then {| d_once := false; d_stop_ := true; d_control := d_control d; d_released := d_released d |}
  else d.

(** A signal, a request on the control socket, or the main thread trying to
    go past [Hefur::run], that is [stop_.get()]. *)
Inductive DaemonEvent := DSignal | DControl (r : ControlRequest) | DMain.

Definition daemon_step (d : Daemon) (e : DaemonEvent) : Daemon :=
  if d_released d then d
  else
    match e with
    | DSignal => quit d
    | DControl r =>
        if from_option control_serves false (d_control d) then
          match control_service r with (SignalSent, _) => quit d | (LogsReleased, _) => d end
        else d
    | DMain =>
        if d_stop_ d
        then {| d_once := d_once d; d_stop_ := true; d_control := control_stop <$> d_control d;
                d_released := true |}
        else d
    end.

Definition daemon_start h : Daemon :=
  {| d_once := true; d_stop_ := false; d_control := hf_control h; d_released := false |}.
End Tracker.
Arguments Hefur : clear implicits.
Arguments Dying : clear implicits.
