(* ===== verification/TrackerTheorems.v ===== *)
(** Theorems about the whole daemon: no run of its threads over the shared
    database fails, what the pages can answer, and the conversations of a
    client with it over UDP and HTTP. *)
From stdpp Require Import base list gmap strings.
From Stdlib Require Import ZArith Lia.
From S2P Require Import Prelude Containers Options Address InfoHash Announce Torrent TorrentSpec TorrentTheorems TorrentDb FsTreeWhiteList UdpServer UdpTheorems HttpHandlers HttpTheorems Lifecycle Tracker.

(** ** The torrents of a reachable database *)
Section Objects.
Context {T L : Type} `{TrieLaws T} `{DListLaws L}.
Context (minute : Z) (junk : list Z) (o : Options).

(** What every operation keeps of a torrent. *)
Definition object_ok (t : Torrent T L) : Prop :=
  type_ (info_hash_ t) <> NONE /\ 0 <= completed_ t < 2 ^ 32.

Definition objects_ok (db : TorrentDb T L) : Prop :=
  forall p t, objects_ db !! p = Some t -> object_ok t.

Lemma spec_completed_range rq ps c : 0 <= c < 2 ^ 32 -> 0 <= spec_completed rq ps c < 2 ^ 32.
Proof.
  intros Hc. unfold spec_completed. destruct (find_key _ _); [|done].
  case_decide; [|done]. apply wrap_range. lia.
Qed.

Lemma with_object_ok db p t : objects_ok db -> object_ok t -> objects_ok (with_object db p t).
Proof. intros Hdb Ht q s. simpl. intros [[_ <-]|[_ Hs]]%lookup_insert_Some; eauto. Qed.

Lemma cleanup_all_objects now es (db db' : TorrentDb T L) :
  options_ok o -> db_inv minute o now db ->
  cleanup_all now es db = Some db' -> objects_ok db -> objects_ok db'.
Proof.
  intros Ho. revert db. induction es as [|[k p] es IH]; intros db Hi E Hdb; simpl in E; [by simplify_eq|].
  destruct (objects_ db !! p) as [t|] eqn:Hp; simpl in E; [|done].
  destruct (db_reach _ _ _ _ Hi p t Hp) as (ps & Hr & Hps).
  destruct (torrent_cleanup_ok minute o now t ps Ho Hr Hps) as (t' & E' & (Eih & _ & _ & _ & Ec) & Hr' & Hps').
  rewrite E' in E; simpl in E. eapply IH; [|exact E|].
  - eapply db_inv_with_object; eauto.
  - apply with_object_ok; [done|]. unfold object_ok. rewrite Eih, Ec. exact (Hdb p t Hp).
Qed.

Lemma db_reachable_objects (db : TorrentDb T L) clock :
  options_ok o -> db_reachable minute junk o db clock -> objects_ok db.
Proof.
  intros Ho. induction 1 as [clock|db clock now rq db' r Hd IH Hc E|db clock now db' Hd IH Hc E
                            |db clock ih name path len Hd IH Hih|db clock k Hd IH].
  - intros p t. simpl. by rewrite lookup_empty.
  - pose proof (db_reachable_inv minute junk o db clock Ho Hd) as Hi.
    unfold db_announce in E. destruct (t_find _ _) as [p|] eqn:Hk; [|by simplify_eq].
    destruct (objects_ db !! p) as [t|] eqn:Hp; simpl in E; [|done].
    destruct (db_reach _ _ _ _ Hi p t Hp) as (ps & Hr & Hps).
    destruct (announce_refines minute junk o now rq t ps Hr Ho (inv_length _ _ _ _ Hps))
      as (t' & r' & E' & _ & Ec & Eih & _).
    rewrite E' in E; simplify_eq/=. apply with_object_ok; [done|]. unfold object_ok.
    rewrite Eih, Ec. destruct (IH p t Hp). split; [done|]. by apply spec_completed_range.
  - pose proof (db_reachable_inv minute junk o db clock Ho Hd) as Hi.
    eapply cleanup_all_objects; [done|by eapply db_inv_later|exact E|done].
  - intros p t. simpl. intros [[_ <-]|[_ Ht]]%lookup_insert_Some; [|by eauto].
    split; [apply Hih|simpl; lia].
  - done.
Qed.

(** A torrent found in a reachable database. *)
Lemma db_reachable_lookup (db : TorrentDb T L) clock k t :
  options_ok o -> db_reachable minute junk o db clock -> lookup_torrent db k = Some t ->
  object_ok t /\ exists ps, represents t ps /\ peers_inv minute o clock ps.
Proof.
  intros Ho Hd Hk. unfold lookup_torrent in Hk.
  destruct (t_find k (torrents_ db)) as [p|]; simpl in Hk; [|done]. split.
  - by eapply db_reachable_objects.
  - eapply db_reach; [|exact Hk]. by eapply db_reachable_inv.
Qed.

(** The operations return. *)
Lemma db_announce_total (db : TorrentDb T L) clock now rq :
  options_ok o -> db_reachable minute junk o db clock -> clock <= now ->
  exists db' r, db_announce minute junk o now rq db = Some (db', r) /\
    db_reachable minute junk o db' now.
Proof.
  intros Ho Hd Hc.
  destruct (db_announce_ok minute junk o clock now rq db Ho Hc
    (db_reachable_inv minute junk o db clock Ho Hd)) as (db' & r & E & _).
  exists db', r. split; [done|]. by eapply dr_announce.
Qed.

Lemma scrape_total (db : TorrentDb T L) clock hs :
  options_ok o -> db_reachable minute junk o db clock -> exists r, scrape o db hs = Some r.
Proof.
  intros Ho Hd. destruct (scrape_items_ok minute o clock db hs
    (db_reachable_inv minute junk o db clock Ho Hd)) as (items & E).
  unfold scrape. rewrite E. by eexists.
Qed.

(** ** The white list only adds and removes *)
Lemma InfoHash_new_ok ty data :
  ty <> NONE -> (hashSize ty <= length data)%nat -> info_hash_ok (InfoHash_new ty data).
Proof.
  intros Ht Hl. split; [done|]. unfold InfoHash_new; cbn [bytes_].
  rewrite length_app, length_take, length_replicate. destruct ty; cbn [hashSize] in *; lia.
Qed.

Context (is_torrent : string -> bool) (parseFile : string -> option TorrentDesc)
        (vanished : string -> bool).
(** The parser's hashes are the arrays of SHA1 and SHA256. *)
Hypothesis parse_ok : forall path d, parseFile path = Some d ->
  length (d_info_hash_v1 d) = 20%nat /\ length (d_info_hash_v2 d) = 32%nat.

Lemma scan_path_reachable path db clock :
  db_reachable minute junk o db clock ->
  db_reachable minute junk o (scan_path is_torrent parseFile path db) clock.
Proof.
  intros Hd. unfold scan_path. destruct (is_torrent path); [|done].
  destruct (parseFile path) as [d|] eqn:Ep; [|done]. apply parse_ok in Ep as [H1' H2'].
  repeat (apply dr_add; [|apply InfoHash_new_ok; simpl; [done|lia]]). done.
Qed.

Lemma scan_loop_reachable n paths db clock :
  db_reachable minute junk o db clock ->
  db_reachable minute junk o (scan_loop o is_torrent parseFile n paths db) clock.
Proof.
  revert n db. induction paths as [|path paths IH]; intros n db Hd; simpl; [done|].
  case_decide; [done|]. by apply IH, scan_path_reachable.
Qed.

Lemma check_reachable root db clock :
  options_ok o -> db_reachable minute junk o db clock ->
  exists db', check vanished root db = Some db' /\ db_reachable minute junk o db' clock.
Proof.
  intros Ho Hd. pose proof (db_reachable_inv minute junk o db clock Ho Hd) as Hi. unfold check.
  destruct (check_keys_spec vanished root (t_entries (torrents_ db)) db []) as (ks & -> & _).
  { intros k p Hin%t_entries_find. destruct (db_objects _ _ _ _ Hi _ _ Hin) as (t & Ht & _). eauto. }
  simpl. eexists. split; [done|]. clear Hi. revert db Hd.
  induction ks as [|k ks IH]; intros db Hd; simpl; [done|]. apply IH. by apply dr_remove.
Qed.
End Objects.

(** ** The servers over the database *)
Section Servers.
Context {T L Q : Type} `{TrieLaws T} `{DListLaws L} `{SListLaws Q SendToBuffer}.
Context (minute second millisecond : Z) (o : Options) (w : World).
Hypothesis Ho : options_ok o.

Notation junk := (w_junk w).
Notation reach db clock := (db_reachable minute junk o db clock).

Implicit Types (s : UdpServer T L Q).

Lemma handleAnnounce_reach now ann size addr mem s db clock :
  tdb_ s = Some db -> reach db clock -> clock <= now ->
  exists s' db' c, handleAnnounce minute junk o now ann size addr mem s = Some s' /\
    tdb_ s' = Some db' /\ reach db' c /\ c <= now.
Proof.
  intros Hs Hd Hc. unfold handleAnnounce. case_decide; [by eexists _, _, _|].
  destruct (checkConnectionId _ _ _); simpl; [|by eexists _, _, _]. rewrite Hs.
  destruct (db_announce_total minute junk o db clock now (announce_request junk o ann addr) Ho Hd Hc)
    as (db' & r & E & Hd').
  rewrite E; simpl. eexists _, db', now. split; [done|].
  split; [unfold sendFailure, push_buffer; by destruct (error_ r), mem|done].
Qed.

Lemma handleScrape_reach b size addr mem s db clock :
  tdb_ s = Some db -> reach db clock ->
  exists s', handleScrape o b size addr mem s = Some s' /\ tdb_ s' = Some db.
Proof.
  intros Hs Hd. unfold handleScrape. case_decide; [by eexists|].
  destruct (checkConnectionId _ _ _); simpl; [|by eexists]. rewrite Hs.
  destruct (scrape_total minute junk o db clock (scrape_request b size) Ho Hd) as (r & E).
  rewrite E; simpl. eexists. split; [done|].
  unfold sendFailure, push_buffer. by destruct (sc_error_ r), mem.
Qed.

Lemma dispatch_reach now addr b mem s db clock :
  tdb_ s = Some db -> reach db clock -> clock <= now ->
  exists s' db' c, dispatch minute junk o now addr b mem s = Some s' /\
    tdb_ s' = Some db' /\ reach db' c /\ c <= now.
Proof.
  intros Hs Hd Hc. unfold dispatch. case_decide.
  - unfold handleConnect, push_buffer. case_decide; [by eexists _, _, _|].
    destruct mem; by eexists _, db, clock.
  - case_decide; [by eapply handleAnnounce_reach|]. case_decide; [|by eexists _, _, _].
    destruct (handleScrape_reach b (length b) addr mem s db clock Hs Hd) as (s' & E & Es).
    by eexists _, db, clock.
Qed.

Lemma receive_reach now rs s db clock :
  tdb_ s = Some db -> reach db clock -> clock <= now ->
  exists s' db' c, receive minute junk o now rs s = Some s' /\
    tdb_ s' = Some db' /\ reach db' c /\ c <= now.
Proof.
  revert s db clock. induction rs as [|r rs IH]; intros s db clock Hs Hd Hc; simpl;
    [by eexists _, _, _|].
  case_decide; [|by eexists _, _, _]. destruct r as [|addr b mem]; [by eexists _, _, _|].
  case_decide; [by eapply IH|].
  destruct (dispatch_reach now addr (take sizeof_buffer b) mem s db clock Hs Hd Hc) as (s1 & db1 & c1 & -> & Hs1 & Hd1 & Hc1).
  simpl. by eapply IH.
Qed.

Lemma send_tdb rs s out : tdb_ (fst (send rs s out)) = tdb_ s.
Proof.
  revert s out. induction rs as [|r rs IH]; intros s out; simpl; [by destruct (q_items _)|].
  destruct (q_items _), r; simpl; rewrite ?IH; done.
Qed.

Lemma run_turn_reach now rnd p s db clock :
  tdb_ s = Some db -> reach db clock -> clock <= now ->
  exists s' out db' c, run_turn minute second junk o now millisecond rnd p s = Some (s', out) /\
    tdb_ s' = Some db' /\ reach db' c /\ c <= now.
Proof.
  intros Hs Hd Hc. unfold run_turn. case_decide; [by eexists _, _, db, clock|].
  destruct p as [| |rs|rs]; [by eexists _, _, db, clock..| |].
  - pose proof (send_tdb rs s []) as E. destruct (send rs s []) as [s' out]. simpl in E.
    eexists s', out, db, clock. by rewrite E.
  - destruct (receive_reach now rs s db clock Hs Hd Hc) as (s' & db' & c & -> & Hr). simpl. eauto 10.
Qed.

(** ** The pages over the database *)

Lemma stat_loop_ok es rows a (db : TorrentDb T L) :
  objects_ok db -> (forall k p, (k, p) ∈ es -> exists t, objects_ db !! p = Some t) ->
  exists r, stat_loop o (w_to_base16 w) es rows a db = Some r.
Proof.
  intros Hdb. revert rows a. induction es as [|[k p] es IH]; intros rows a Hes; simpl; [by eexists|].
  destruct (Hes k p ltac:(left)) as (t & Ht). rewrite Ht; simpl.
  assert (Hv : exists v, version t = Some v).
  { unfold version. destruct (Hdb p t Ht) as [Hn _]. destruct (type_ _); [done|by eexists..]. }
  destruct Hv as (v & ->). simpl. apply IH. intros k' p' Hin. apply (Hes k'). by right.
Qed.

(** What a handler can answer. *)
Definition out_of (hd : Handler) (out : HttpOut) : Prop :=
  match hd, out with
  | FsHandler root nskip, OutStatic root' nskip' => root' = root /\ nskip' = nskip
  | AnnounceHandler, OutResponse r => r = refused \/ exists ops, r = text ops
  | ScrapeHandler, OutResponse r => exists ops, r = text ops
  | StatHandler, OutStat _ _ => True
  | PeersHandler, OutPeers _ _ => True
  | FileHandler, OutResponse r => r = status_only false kStatusBadRequest true \/
      r = status_only true kStatusNotFound true
  | _, _ => False
  end.

Lemma handle_reach now hd request templates (db : TorrentDb T L) clock :
  reach db clock -> clock <= now ->
  exists db' out c, handle minute o w now hd request templates db = Some (db', out) /\
    reach db' c /\ c <= now /\ out_of hd out.
Proof.
  intros Hd Hc. pose proof (db_reachable_inv minute junk o db clock Ho Hd) as Hi.
  assert (Hsame : forall out : HttpOut, out_of hd out ->
    exists db' out' c, Some (db, out) = Some (db', out') /\ reach db' c /\ c <= now /\ out_of hd out').
  { intros out Hout. by exists db, out, clock. }
  destruct hd as [root nskip| | | | |]; cbn [handle].
  - by apply Hsame.
  - unfold announce_handle. case_decide; [simpl; apply Hsame; by left|].
    destruct (db_announce_total minute junk o db clock now
      (http_announce_request junk o (w_inet_pton4 w) (w_inet_pton6 w) junk request) Ho Hd Hc)
      as (db' & r & E & Hd').
    rewrite E; simpl. eexists db', _, now. split; [done|]. split; [done|].
    split; [done|]. right. by eexists.
  - destruct (scrape_total minute junk o db clock (http_scrape_request request) Ho Hd) as (r & E).
    unfold scrape_handle. rewrite E. simpl. apply Hsame. by eexists.
  - unfold stat_handle. destruct templates; simpl; [|by apply Hsame].
    destruct (stat_loop_ok (t_entries (torrents_ db)) [] {| total_leechers := 0; total_seeders := 0;
      total_length := 0; total_completed := 0 |} db) as ([rows a] & ->); [by eapply db_reachable_objects| |].
    { intros k p Hin%t_entries_find. destruct (db_objects _ _ _ _ Hi _ _ Hin) as (t & Ht & _). eauto. }
    simpl. by apply Hsame.
  - unfold peers_handle. case_decide; [by apply Hsame|]. destruct templates; simpl; [|by apply Hsame].
    destruct (t_find _ _) as [p|] eqn:Hk; simpl; [|by apply Hsame].
    destruct (db_objects _ _ _ _ Hi _ _ Hk) as (t & -> & _). simpl. by apply Hsame.
  - rewrite (file_handle_never_serves minute junk o (w_base16 w) db clock request Ho Hd). simpl.
    apply Hsame. case_decide; simpl; auto.
Qed.
End Servers.

(** ** Runs of the daemon *)
Section System.
Context {T L Q : Type} `{TrieLaws T} `{DListLaws L} `{SListLaws Q SendToBuffer}.
Context (minute second millisecond : Z) (o : Options) (w : World).
Hypothesis Ho : options_ok o.
Hypothesis parse_ok : forall path d, w_parseFile w path = Some d ->
  length (d_info_hash_v1 d) = 20%nat /\ length (d_info_hash_v2 d) = 32%nat.
(** mimosa's dispatcher answers a handler that was registered. *)
Hypothesis route_ok : forall rs path hd, w_route w rs path = Some hd -> exists pat, (pat, hd) ∈ rs.

Notation reach db clock := (db_reachable minute (w_junk w) o db clock).
Notation step := (step minute second millisecond o w).
Notation run := (run minute second millisecond o w).
Notation Hefur_new := (Hefur_new second millisecond o w).

Implicit Types (h : Hefur T L Q).

Definition servers_of h : list HttpServer := option_list (hf_http h) ++ option_list (hf_https h).

Definition tracker_ok (clock : Z) h : Prop :=
  (exists c, c <= clock /\ reach (hf_tdb h) c) /\
  forall srv mh, srv ∈ servers_of h -> server_ srv = Some mh -> mh_routes mh = http_routes o.

(** The output of an event: a request to a server that listens is answered by
    the handler its path is routed to. *)
Definition output_ok (e : Event_) (out : Output) : Prop :=
  match e, out with
  | EvHttp _ path _ _, OutHttp (Some out) =>
      match w_route w (http_routes o) path with Some hd => out_of hd out | None => out = OutNoRoute end
  | EvHttp _ _ _ _, OutHttp None => True
  | EvHttp _ _ _ _, _ | _, OutHttp _ => False
  | _, _ => True
  end.

Lemma tracker_ok_new env clock : tracker_ok clock (Hefur_new env).
Proof.
  split; [exists clock; split; [done|apply dr_new]|].
  intros srv mh Hin. unfold servers_of, Tracker.Hefur_new, http_start in Hin; cbn in Hin.
  apply elem_of_app in Hin as [Hin|Hin]; case_decide; simpl in Hin;
    try (by apply not_elem_of_nil in Hin); apply list_elem_of_singleton in Hin as ->;
    [destruct (http_listens env)|destruct (https_listens env)]; intros [= <-]; done.
Qed.

(** An operation that leaves a reachable database and the servers. *)
Lemma tracker_ok_db clock now h h' db c :
  tracker_ok clock h -> reach db c -> c <= now -> hf_tdb h' = db -> servers_of h' = servers_of h ->
  tracker_ok now h'.
Proof. intros [_ Hs] Hd Hc E Es. unfold tracker_ok. rewrite E, Es. split; [eauto|done]. Qed.

Lemma serve_ok clock now (tls : bool) path request templates h :
  tracker_ok clock h -> clock <= now ->
  exists h' out,
    serve minute o w now (if tls then hf_https h else hf_http h) path request templates h = Some (h', out) /\
    tracker_ok now h' /\ output_ok (EvHttp tls path request templates) (OutHttp out).
Proof.
  intros Hh Hc. pose proof Hh as [(c & Hcc & Hd) Hs]. unfold serve.
  assert (Hsame : forall out, output_ok (EvHttp tls path request templates) (OutHttp out) ->
    exists h' out', Some (h, out) = Some (h', out') /\
    tracker_ok now h' /\ output_ok (EvHttp tls path request templates) (OutHttp out')).
  { intros out Hout. exists h, out. split; [done|]. split; [|done].
    eapply tracker_ok_db; eauto; lia. }
  destruct (_ ≫= _) as [mh|] eqn:Emh; [|by apply Hsame].
  assert (Hr : mh_routes mh = http_routes o).
  { destruct (if tls then _ else _) as [srv|] eqn:Esrv; simpl in Emh; [|done]. apply (Hs srv).
    - unfold servers_of. rewrite elem_of_app. destruct tls; rewrite Esrv; simpl; [right|left]; left.
    - unfold http_run_turn in Emh. destruct (http_thread_ srv), (http_stop_ srv); done. }
  rewrite Hr. destruct (w_route w _ path) as [hd|] eqn:Ert; [|apply Hsame; simpl; by rewrite Ert].
  destruct (handle_reach minute o w Ho now hd (logged o w request) templates (hf_tdb h) c Hd ltac:(lia))
    as (db' & out & c' & -> & Hd' & Hc' & Hout). simpl.
  eexists _, _. split; [done|]. split; [by eapply tracker_ok_db|]. simpl. by rewrite Ert.
Qed.

Lemma udp_turn_ok clock now rnd p h :
  tracker_ok clock h -> clock <= now ->
  exists h' out, udp_turn minute second millisecond o w now rnd p h = Some (h', out) /\ tracker_ok now h'.
Proof.
  intros Hh Hc. pose proof Hh as [(c & Hcc & Hd) Hs]. unfold udp_turn.
  assert (Hsame : tracker_ok now h) by (eapply tracker_ok_db; eauto; lia).
  destruct (hf_udp h) as [u|]; [|by eexists _, _]. destruct (udp_serves u); [|by eexists _, _].
  destruct (run_turn_reach minute second millisecond o w Ho now rnd p (with_tdb (udp u) (hf_tdb h)) _ c
    eq_refl Hd ltac:(lia)) as (u' & out & db' & c' & -> & E & Hd' & Hc'). simpl.
  eexists _, _. split; [done|]. eapply tracker_ok_db; [done|exact Hd'|done|simpl; by rewrite E|done].
Qed.

Lemma step_ok clock now e h :
  tracker_ok clock h -> clock <= now ->
  exists h' out, step now e h = Some (h', out) /\ tracker_ok now h' /\ output_ok e out.
Proof.
  intros Hh Hc. pose proof Hh as [(c & Hcc & Hd) Hs].
  assert (Hsame : tracker_ok now h) by (eapply tracker_ok_db; eauto; lia).
  destruct e as [tls path request templates|rnd p| |paths|]; cbn [Tracker.step].
  - destruct (serve_ok clock now tls path request templates h Hh Hc) as (h' & out & -> & Hr).
    simpl. eauto.
  - destruct (udp_turn_ok clock now rnd p h Hh Hc) as (h' & out & -> & Hr). simpl. by eexists _, _.
  - destruct (db_cleanup_ok minute o c now (hf_tdb h) Ho ltac:(lia)
      (db_reachable_inv minute (w_junk w) o _ _ Ho Hd)) as (db' & E & _).
    rewrite E; simpl. eexists _, _. split; [done|]. split; [|done].
    eapply tracker_ok_db; [done| |reflexivity|done..]. by eapply dr_cleanup; [exact Hd|lia|].
  - eexists _, _. split; [done|]. split; [|done]. destruct (hf_wl h); [|done].
    eapply tracker_ok_db; [done| |exact (Z.le_trans _ _ _ Hcc Hc)|done..].
    by apply scan_loop_reachable.
  - destruct (hf_wl h); [|by eexists _, _].
    destruct (check_reachable minute (w_junk w) o (w_vanished w) (TORRENT_DIR o) (hf_tdb h) c Ho Hd)
      as (db' & -> & Hd'). simpl. eexists _, _. split; [done|]. split; [|done].
    eapply tracker_ok_db; [done|exact Hd'|lia|done..].
Qed.

(** The dates of a run do not go back. *)
Fixpoint dated (clock : Z) (es : list (Z * Event_)) : Prop :=
  match es with [] => True | (now, _) :: es => clock <= now /\ dated now es end.

Lemma run_ok clock es h :
  tracker_ok clock h -> dated clock es ->
  exists h' outs c, run es h = Some (h', outs) /\ tracker_ok c h' /\
    Forall2 (fun e => output_ok (snd e)) es outs.
Proof.
  revert clock h. induction es as [|[now e] es IH]; intros clock h Hh Hes; simpl.
  { exists h, [], clock. auto. }
  destruct Hes as [Hc Hes].
  destruct (step_ok clock now e h Hh Hc) as (h1 & out & -> & Hh1 & Hout). simpl.
  destruct (IH now h1 Hh1 Hes) as (h' & outs & c & -> & Hh' & Houts). simpl.
  exists h', (out :: outs), c. split; [done|]. split; [done|]. by constructor.
Qed.

(** The daemon as a whole never follows a dangling pointer nor meets a
    torrent of unknown version: for every configuration and every outcome of
    its start, each sequence of requests of either HTTP server, turns of the
    UDP thread, cleanups, scans and checks of the white list, in any order,
    runs to its end with one output per event, over a database that is in one
    of the histories of [db_reachable]. *)
Theorem tracker_never_fails env clock es :
  dated clock es ->
  exists h outs c, run es (Hefur_new env) = Some (h, outs) /\ length outs = length es /\
    reach (hf_tdb h) c.
Proof.
  intros Hes. destruct (run_ok clock es (Hefur_new env) (tracker_ok_new env clock) Hes)
    as (h & outs & c & E & [(c' & _ & Hd) _] & Hl%Forall2_length). exists h, outs, c'. auto.
Qed.

(** C25. What the pages answer, in every run.  A request that a server takes is
    answered by the handler of its path, if there is one.  A page disabled by
    its option answers nothing; the announces, the scrapes and the file page
    answer a response, the pages of the torrents and of the peers a page, static
    files come from the three directories under [WWW_DIR] only.  The file page
    serves no torrent whatever the options: each of its responses has the status
    of a bad request or of a page that is not found, and no body. *)
Theorem pages_served env clock es h outs i now tls path request templates out :
  dated clock es -> run es (Hefur_new env) = Some (h, outs) ->
  es !! i = Some (now, EvHttp tls path request templates) -> outs !! i = Some (OutHttp (Some out)) ->
  match w_route w (http_routes o) path with
  | None => out = OutNoRoute
  | Some (FsHandler root nskip) => out = OutStatic root nskip /\
      exists dir, dir ∈ ["/img/"; "/css/"; "/js/"]%string /\ root = (WWW_DIR o ++ dir)%string
  | Some AnnounceHandler | Some ScrapeHandler => exists r, out = OutResponse r
  | Some StatHandler => DISABLE_STAT_PAGE o = false /\ exists r page, out = OutStat r page
  | Some PeersHandler => DISABLE_PEERS_PAGE o = false /\ exists r rows, out = OutPeers r rows
  | Some FileHandler => DISABLE_FILE_PAGE o = false /\
      exists r, out = OutResponse r /\ status r ∈ [kStatusBadRequest; kStatusNotFound] /\ body r = []
  end.
Proof.
  intros Hes E Hi Ho'.
  destruct (run_ok clock es (Hefur_new env) (tracker_ok_new env clock) Hes) as (h' & outs' & c & E' & _ & Houts).
  rewrite E in E'. simplify_eq. pose proof (Forall2_lookup_lr _ _ _ _ _ _ Houts Hi Ho') as Hout. simpl in Hout.
  destruct (w_route w _ path) as [hd|] eqn:Er; [|done]. destruct (route_ok _ _ _ Er) as (pat & Hr).
  apply http_routes_spec in Hr. destruct hd, out; simpl in *; try done; try (split; [by apply Hr|]); eauto.
  - destruct Hr as (dir & Hd & Hroot & _), Hout as [-> ->]. eauto.
  - destruct Hout as [-> | ->]; (eexists; split; [done|]; split; [|done]); [left|right; left].
Qed.
End System.

(** ** Without a white list *)
Section NoWhiteList.
Context {T L Q : Type} `{TrieLaws T} `{DListLaws L} `{SListLaws Q SendToBuffer}.
Context (minute second millisecond : Z) (o : Options) (w : World).

Notation empty_db := (TorrentDb_new (T := T) (L := L)).

Lemma announce_empty now rq :
  db_announce minute (w_junk w) o now rq empty_db = Some (empty_db, not_found).
Proof. unfold db_announce, TorrentDb_new; simpl. by rewrite t_find_empty. Qed.

Lemma entries_empty : t_entries (t_empty (Trie := H)) = [].
Proof.
  destruct (t_entries t_empty) as [|[k p] es] eqn:E; [done|].
  assert (Hin : (k, p) ∈ t_entries t_empty) by (rewrite E; left).
  apply t_entries_find in Hin. by rewrite t_find_empty in Hin.
Qed.

Lemma push_buffer_tdb mem addr d (s : UdpServer T L Q) : tdb_ (push_buffer mem addr d s) = tdb_ s.
Proof. by destruct mem. Qed.

Lemma dispatch_empty now addr b mem (s s' : UdpServer T L Q) :
  tdb_ s = Some empty_db -> dispatch minute (w_junk w) o now addr b mem s = Some s' ->
  tdb_ s' = Some empty_db.
Proof.
  intros Hs. unfold dispatch, handleConnect, handleAnnounce, handleScrape, sendFailure.
  rewrite Hs. intros E.
  repeat case_decide; simplify_eq; rewrite ?push_buffer_tdb; try done;
    destruct (checkConnectionId _ _ _); simplify_eq/=; rewrite ?push_buffer_tdb; try done.
  - rewrite announce_empty in E. simplify_eq/=. by rewrite push_buffer_tdb.
  - destruct (scrape _ _ _); simplify_eq/=. destruct (sc_error_ _); by rewrite push_buffer_tdb.
Qed.

Lemma receive_empty now rs (s s' : UdpServer T L Q) :
  tdb_ s = Some empty_db -> receive minute (w_junk w) o now rs s = Some s' ->
  tdb_ s' = Some empty_db.
Proof.
  revert s. induction rs as [|r rs IH]; intros s Hs E; simpl in E; [by simplify_eq|].
  case_decide; [|by simplify_eq]. destruct r as [|addr b mem]; [by simplify_eq|].
  case_decide; [by eapply IH|].
  destruct (dispatch _ _ _ _ _ _ _ _) as [s1|] eqn:E1; simpl in E; [|done].
  eapply IH; [|exact E]. by eapply dispatch_empty.
Qed.

Lemma run_turn_empty now rnd p (s s' : UdpServer T L Q) out :
  tdb_ s = Some empty_db ->
  run_turn minute second (w_junk w) o now millisecond rnd p s = Some (s', out) ->
  tdb_ s' = Some empty_db.
Proof.
  intros Hs. unfold run_turn. case_decide; [intros [= <- _]; done|].
  destruct p as [| |rs|rs]; intros E; simplify_eq/=; [done|done| |].
  - pose proof (send_tdb rs s []) as Et. rewrite Hs in Et. by destruct (send rs s []); simplify_eq/=.
  - destruct (receive _ _ _ _ _ _) as [s1|] eqn:E1; simplify_eq/=. by eapply receive_empty.
Qed.

Definition untracked (h : Hefur T L Q) : Prop := hf_tdb h = empty_db /\ hf_wl h = false.

Lemma handle_empty now hd request templates db out :
  handle minute o w now hd request templates empty_db = Some (db, out) -> db = empty_db.
Proof.
  destruct hd; cbn [handle]; intros E; [by simplify_eq| |by unfold mbind, option_bind in E; repeat case_match; simplify_eq..].
  unfold announce_handle in E. case_decide; simplify_eq/=; [done|].
  rewrite announce_empty in E. by simplify_eq/=.
Qed.

Lemma step_untracked now e (h h' : Hefur T L Q) out :
  untracked h -> step minute second millisecond o w now e h = Some (h', out) -> untracked h'.
Proof.
  intros [Hdb Hwl]. destruct e as [tls path request templates|rnd p| |paths|]; cbn [step].
  - unfold serve. intros E.
    destruct ((if tls then hf_https h else hf_http h) ≫= _) as [mh|]; [|by simplify_eq/=].
    destruct (w_route w _ path) as [hd|]; [|by simplify_eq/=]. rewrite Hdb in E.
    destruct (handle _ _ _ _ _ _ _ _) as [[db' out']|] eqn:E'; simplify_eq/=.
    split; [|done]. by eapply handle_empty.
  - unfold udp_turn. destruct (hf_udp h) as [u|]; intros E; [|by simplify_eq/=].
    destruct (udp_serves u); [|by simplify_eq/=].
    destruct (run_turn _ _ _ _ _ _ _ _ _) as [[u' out']|] eqn:E'; simplify_eq/=.
    apply run_turn_empty in E'; [|by rewrite Hdb]. split; [|done]. simpl. by rewrite E'.
  - unfold db_cleanup. rewrite Hdb. simpl. rewrite entries_empty. intros E; simplify_eq/=. done.
  - rewrite Hwl. by intros [= <- _].
  - rewrite Hwl. by intros [= <- _].
Qed.

(** C31. The help of [--torrent-dir] says that every torrent is allowed when
    the option is empty, but the white list is the only caller of
    [addTorrent]: without the option, the default, no torrent is ever
    tracked, and in every run every HTTP announce with a well-formed peer id
    and info hash is answered ["torrent not found"]. *)
Theorem no_white_list_no_torrent env es h outs :
  TORRENT_DIR o = ""%string ->
  run minute second millisecond o w es (Hefur_new (T := T) (L := L) (Q := Q) second millisecond o w env)
    = Some (h, outs) ->
  (forall k, lookup_torrent (hf_tdb h) k = None) /\
  forall now request templates,
    length (queryGet request "peer_id") = 20%nat -> length (queryGet request "info_hash") = 20%nat ->
    handle minute o w now AnnounceHandler request templates (hf_tdb h) =
      Some (hf_tdb h, OutResponse (text (failure_body "torrent not found"))).
Proof.
  intros Hdir E.
  assert (Hrun : forall es h h' outs, untracked h -> run minute second millisecond o w es h = Some (h', outs) ->
    untracked h').
  { clear env es h outs Hdir E. intros es.
    induction es as [|[now e] es IH]; intros h h' outs Hh E; simpl in E;
      [by simplify_eq|].
    destruct (step _ _ _ _ _ _ _ _) as [[h1 out]|] eqn:E1; simpl in E; [|done].
    destruct (run _ _ _ _ _ _ _) as [[h2 outs']|] eqn:E2; simplify_eq/=.
    eapply IH; [|exact E2]. by eapply step_untracked. }
  apply Hrun in E as [-> _].
  2: { split; [done|]. cbn. rewrite Hdir. by rewrite bool_decide_eq_false_2 by auto. }
  split; [intros k; unfold lookup_torrent; simpl; by rewrite t_find_empty|].
  intros now request templates Hp Hh. cbn [handle]. unfold announce_handle.
  rewrite decide_False by lia. rewrite announce_empty. done.
Qed.
End NoWhiteList.
