(* ===== verification/SessionTheorems.v ===== *)
(** Conversations of a client with the daemon: an announce followed by a scrape
    over HTTP, a connection followed by a scrape over UDP; and how the daemon
    ends. *)
From stdpp Require Import base list gmap strings.
From Stdlib Require Import ZArith Lia.
From S2P Require Import Prelude Containers Options Address InfoHash Announce Torrent TorrentSpec TorrentTheorems TorrentDb FsTreeWhiteList UdpServer UdpTheorems HttpHandlers HttpTheorems Lifecycle Tracker TrackerTheorems.

(** ** HTTP *)
Section Http.
Context {T L : Type} `{TrieLaws T} `{DListLaws L}.
Context (minute : Z) (o : Options) (w : World).

Implicit Types (db : TorrentDb T L).

Lemma bytes_sha1 ih : length ih = 20%nat -> bytes (InfoHash_new SHA1 ih) = ih.
Proof. intros Hl. rewrite bytes_new by (simpl; lia). simpl. apply take_ge. lia. Qed.

(** An announce is seen by the next scrape: when a torrent with the peers
    [ps] is announced to over HTTP, a scrape of its hash answers the counts
    of the specification's peers after the announce (the requester added,
    moved, or removed when it stops), the completions included, and scrapes
    change nothing. *)
Theorem http_announce_then_scrape now now' clock ra rs tm db ih t ps :
  options_ok o -> db_reachable minute (w_junk w) o db clock -> clock <= now ->
  queryGet ra "info_hash" = ih -> length ih = 20%nat -> length (queryGet ra "peer_id") = 20%nat ->
  query_values rs "info_hash" = [ih] ->
  lookup_torrent db ih = Some t -> represents t ps ->
  let rq := http_announce_request (w_junk w) o (w_inet_pton4 w) (w_inet_pton6 w) (w_junk w) ra in
  let ps' := spec_peers minute o now rq ps in
  exists db' r,
    handle minute o w now AnnounceHandler ra tm db = Some (db', OutResponse r) /\
    handle minute o w now' ScrapeHandler rs tm db' = Some (db', OutResponse (text
      ([startDict; push "flags"; startDict; push "min_request_interval";
        pushInt (wrap 32 (SCRAPE_INTERVAL o * 60)); enc_end; push "files"; startDict;
        pushData ih; startDict; push "complete"; pushInt (nb_seeders ps');
        push "incomplete"; pushInt (nb_leechers ps');
        push "downloaded"; pushInt (spec_completed rq ps (completed_ t)); enc_end;
        enc_end; enc_end]))).
Proof.
  intros Ho Hd Hc Eih Hih Hpid Ers Ht Hr rq ps'.
  pose proof (db_reachable_inv minute (w_junk w) o db clock Ho Hd) as Hi.
  assert (Hlen : Z.of_nat (length ps) <= MAX_PEERS o).
  { destruct (proj2 (db_reachable_lookup minute (w_junk w) o db clock ih t Ho Hd Ht)) as (qs & Hq & Hqs).
    by rewrite <- (peer_list_represents _ _ Hr), (peer_list_represents _ _ Hq), (inv_length _ _ _ _ Hqs). }
  pose proof (http_announce_key (w_junk w) o (w_inet_pton4 w) (w_inet_pton6 w) (w_junk w) ra
    ltac:(by rewrite Eih)) as Hkey. fold rq in Hkey. rewrite Eih in Hkey.
  destruct (announce_refines minute (w_junk w) o now rq t ps Hr Ho Hlen)
    as (t' & r & Ea & Hr' & Ec & _ & _ & _ & _ & _).
  assert (Hann : exists db' r', db_announce minute (w_junk w) o now rq db = Some (db', r') /\
    lookup_torrent db' ih = Some t').
  { unfold db_announce. rewrite Hkey. unfold lookup_torrent in Ht.
    destruct (t_find ih (torrents_ db)) as [p|] eqn:Hk; simpl in Ht; [|done].
    rewrite Ht; simpl. rewrite Ea; simpl. eexists _, _. split; [done|].
    rewrite (lookup_with_object minute o clock db p t' _ _ Hi Hk). by rewrite decide_True. }
  destruct Hann as (db' & r' & Edb & Hk'). exists db'.
  pose proof (dr_announce _ _ _ _ _ _ _ _ _ Hd Hc Edb) as Hd'.
  destruct (scrape_result minute (w_junk w) o db' now (http_scrape_request rs) Ho Hd')
    as (sr & Esr & Hse & Hsi & Hit).
  eexists. split.
  { cbn [handle]. unfold announce_handle. rewrite Eih, decide_False by lia. fold rq. rewrite Edb.
    reflexivity. }
  cbn [handle]. unfold scrape_handle. rewrite Esr. cbn [mbind option_bind]. rewrite Hse, Hit, Hsi.
  unfold http_scrape_request. rewrite Ers. rewrite filter_cons, decide_True by done.
  rewrite filter_nil. cbn [fmap list_fmap omap list_omap]. rewrite bytes_sha1 by done. rewrite Hk'.
  cbn [mbind option_bind]. do 4 f_equal. cbn [it_info_hash_ scrape_entry].
  assert (take 20 (bytes_ (InfoHash_new SHA1 ih)) = ih) as Eb by (by apply bytes_sha1).
  rewrite (r_seeders _ _ Hr'), (r_leechers _ _ Hr'), Ec.
  unfold scrape_entry. cbn. cbn in Eb. by rewrite Eb.
Qed.
End Http.

(** ** UDP *)
Section Udp.
Context {T L Q : Type} `{TrieLaws T} `{DListLaws L} `{SListLaws Q SendToBuffer}.
Context (minute second : Z) (o : Options) (w : World).

Implicit Types (s : UdpServer T L Q).

(** The packets of a client. *)
Definition client_connect (protocol tid : list Z) : list Z := protocol ++ be_bytes 4 0 ++ tid.
Definition client_scrape (id tid : list Z) (hs : list (list Z)) : list Z :=
  id ++ be_bytes 4 2 ++ tid ++ mjoin hs.

(** [n] secrets later, as many drawings of random bytes as there are dates. *)
Definition renewed (rs : list (Z * list Z)) s : UdpServer T L Q :=
  foldl (fun s r => genSecret second (fst r) (Some (snd r)) s) s rs.

Lemma renewed_secrets rs s :
  (length rs <= 2)%nat ->
  exists j, (j < 3)%nat /\ nth j (secrets_ (renewed rs s)) [] = nth 0 (secrets_ s) [] /\
    tdb_ (renewed rs s) = tdb_ s.
Proof.
  intros Hl. destruct rs as [|[n1 r1] [|[n2 r2] [|? rs]]]; simpl in Hl; [| | |lia].
  - exists 0%nat. split; [lia|done].
  - exists 1%nat. split; [lia|]. cbn. by destruct (secrets_ s).
  - exists 2%nat. split; [lia|]. cbn. by destruct (secrets_ s).
Qed.

Lemma check_nth_secret j s id addr :
  (j < 3)%nat -> host64_val id = connectionId (nth j (secrets_ s) []) addr ->
  checkConnectionId s id addr = true.
Proof.
  intros Hj E. unfold checkConnectionId. destruct j as [|[|[|j]]]; [..|lia];
    rewrite (bool_decide_eq_true_2 _ E), ?orb_true_r; done.
Qed.

Lemma connect_packet_id id tid : length tid = 4%nat -> slice 8 8 (connect_packet id tid) = host64 id.
Proof.
  intros Ht. unfold connect_packet.
  rewrite slice_app_r by (rewrite be_bytes_length; lia). rewrite be_bytes_length.
  rewrite slice_app_r by lia. rewrite Ht. apply slice_all.
  unfold host64. rewrite length_reverse, be_bytes_length. done.
Qed.

Lemma slice_mjoin (n : nat) (hs : list (list Z)) i h :
  Forall (fun h => length h = n) hs -> hs !! i = Some h -> slice (i * n) n (mjoin hs) = h.
Proof.
  intros Hs. revert i. induction Hs as [|h0 hs Hl Hs IH]; intros i Hi; [done|].
  change (mjoin (h0 :: hs)) with (h0 ++ mjoin hs). destruct i as [|i]; simpl in Hi.
  - simplify_eq. rewrite slice_app_l by lia. apply slice_all. lia.
  - rewrite slice_app_r by lia. replace (S i * n - length h0)%nat with (i * n)%nat by lia. by apply IH.
Qed.

Lemma length_mjoin_const (n : nat) (hs : list (list Z)) :
  Forall (fun h => length h = n) hs -> length (mjoin hs) = (length hs * n)%nat.
Proof.
  induction 1 as [|h hs Hl _ IH]; [done|]. change (mjoin (h :: hs)) with (h ++ mjoin hs).
  rewrite length_app, IH. simpl. lia.
Qed.

(** The server reads back the hashes the client packed. *)
Lemma client_scrape_request id tid hs :
  length id = 8%nat -> length tid = 4%nat -> Forall (fun h => length h = 20%nat) hs ->
  scrape_request (client_scrape id tid hs) (length (client_scrape id tid hs)) = InfoHash_new SHA1 <$> hs.
Proof.
  intros Hid Htid Hs. unfold scrape_request, client_scrape.
  assert (El : ((length (id ++ be_bytes 4 2 ++ tid ++ mjoin hs) - sizeof_ScrapeRequest) / 20)%nat
               = length hs).
  { rewrite !length_app, be_bytes_length, (length_mjoin_const 20) by done.
    unfold sizeof_ScrapeRequest. rewrite Hid, Htid.
    replace (8 + (4 + (4 + length hs * 20)) - 16)%nat with (length hs * 20)%nat by lia.
    by apply Nat.div_mul. }
  rewrite El. apply list_eq. intros i. rewrite !list_lookup_fmap.
  destruct (decide (i < length hs)%nat) as [Hi|Hi].
  - rewrite lookup_seq_lt by done. destruct (lookup_lt_is_Some_2 hs i Hi) as (h & Hh). rewrite Hh.
    cbn [fmap option_fmap option_map]. rewrite Nat.add_0_l. do 2 f_equal. unfold scrape_hash, sizeof_ScrapeRequest.
    rewrite slice_app_r by lia. rewrite slice_app_r by (rewrite be_bytes_length; lia).
    rewrite be_bytes_length, slice_app_r by lia. rewrite Hid, Htid.
    replace (16 + i * 20 - 8 - 4 - 4)%nat with (i * 20)%nat by lia. by apply slice_mjoin.
  - rewrite lookup_seq_ge, lookup_ge_None_2 by lia. done.
Qed.

(** What the client is told of one hash. *)
Definition told (db : TorrentDb T L) (h : list Z) : option (Z * Z * Z) :=
  t ← lookup_torrent db h; Some (seeders_ t, completed_ t, leechers_ t).

Lemma scrape_items_told db clock hs :
  options_ok o -> db_reachable minute (w_junk w) o db clock ->
  Forall (fun h => length h = 20%nat) hs ->
  let items := omap (fun h => t ← lookup_torrent db (bytes h);
      Some {| it_info_hash_ := h; it_nleechers_ := leechers_ t; it_nseeders_ := seeders_ t;
              it_ndownloaded_ := completed_ t |}) (InfoHash_new SHA1 <$> hs) in
  Forall item_ok items /\
  (fun it => (it_nseeders_ it, it_ndownloaded_ it, it_nleechers_ it)) <$> items = omap (told db) hs.
Proof.
  intros Ho Hd Hs. induction Hs as [|h hs Hl Hs IH]; [by split; [constructor|]|].
  cbn [fmap list_fmap omap list_omap]. rewrite bytes_sha1 by done. unfold told at 1.
  destruct (lookup_torrent db h) as [t|] eqn:Ht; [|exact IH]. cbn [mbind option_bind].
  destruct IH as [IH1 IH2]. split; [|cbn [fmap list_fmap]; by f_equal]. constructor; [|done].
  destruct (db_reachable_lookup minute (w_junk w) o db clock h t Ho Hd Ht)
    as ([_ Hc] & ps & Hr & Hps).
  pose proof (inv_length _ _ _ _ Hps). pose proof (proj2 (proj2 Ho)).
  pose proof (nb_split ps). pose proof (nb_nonneg ps).
  unfold item_ok; cbn. rewrite (r_seeders _ _ Hr), (r_leechers _ _ Hr). lia.
Qed.
(** The header both requests start with. *)
Lemma view_header id a tid rest :
  length id = 8%nat -> length tid = 4%nat -> 0 <= a < 2 ^ 32 ->
  let v := view_conn (id ++ be_bytes 4 a ++ tid ++ rest) in
  conn_connection_id_ v = id /\ conn_action_ v = a /\ conn_transaction_id_ v = tid.
Proof.
  intros Hid Htid Ha v. subst v. cbn [view_conn conn_connection_id_ conn_action_ conn_transaction_id_].
  split; [|split].
  - rewrite slice_app_l by lia. apply slice_all. lia.
  - rewrite slice_app_r by lia. rewrite Hid, slice_app_l by (rewrite be_bytes_length; lia).
    rewrite slice_all by (rewrite be_bytes_length; lia). by apply be_val_be_bytes.
  - rewrite slice_app_r by lia. rewrite Hid, slice_app_r by (rewrite be_bytes_length; lia).
    rewrite be_bytes_length, slice_app_l by lia. apply slice_all. lia.
Qed.

Lemma renewed_queue rs s : sbufs_ (renewed rs s) = sbufs_ s.
Proof. revert s. induction rs as [|r rs IH]; intros s; [done|]. apply (IH (genSecret _ _ _ s)). Qed.

Lemma slice_8_header a tid rest :
  length tid = 4%nat -> slice 0 8 (be_bytes 4 a ++ tid ++ rest) = be_bytes 4 a ++ tid.
Proof.
  intros Ht. rewrite app_assoc, slice_app_l by (rewrite length_app, be_bytes_length; lia).
  apply slice_all. rewrite length_app, be_bytes_length. lia.
Qed.

Lemma connect_answer now addr protocol tid s :
  length protocol = 8%nat -> length tid = 4%nat ->
  dispatch minute (w_junk w) o now addr (client_connect protocol tid) true s =
    Some (with_sbufs s (q_push {| to_addr_ := addr;
      data_ := connect_packet (connectionId (nth 0 (secrets_ s) []) addr) tid |} (sbufs_ s))).
Proof.
  intros Hp Ht. unfold client_connect, dispatch.
  destruct (view_header protocol 0 tid [] Hp Ht ltac:(lia)) as (_ & Ea & Et).
  rewrite app_nil_r in Ea, Et. rewrite Ea. rewrite decide_True by done. unfold handleConnect.
  rewrite decide_False.
  - rewrite Et. done.
  - rewrite !length_app, be_bytes_length. unfold sizeof_ConnectRequest. lia.
Qed.

(** The buffer holds a header and 204 hashes: a longer request loses the others. *)
Definition max_hashes : nat := 204.

Lemma client_scrape_fits id tid hs :
  length id = 8%nat -> length tid = 4%nat -> Forall (fun h => length h = 20%nat) hs ->
  take sizeof_buffer (client_scrape id tid hs) = client_scrape id tid (take max_hashes hs).
Proof.
  intros Hid Htid Hs. assert (Hh : length (id ++ be_bytes 4 2 ++ tid) = 16%nat) by (rewrite !length_app, be_bytes_length; lia).
  assert (E : forall hs, client_scrape id tid hs = (id ++ be_bytes 4 2 ++ tid) ++ mjoin hs).
  { intros hs'. unfold client_scrape. by rewrite <- !app_assoc. }
  rewrite !E, take_app_ge by (rewrite Hh; unfold sizeof_buffer; lia). f_equal. rewrite Hh.
  replace (sizeof_buffer - 16)%nat with (max_hashes * 20)%nat by (unfold sizeof_buffer, max_hashes; lia).
  generalize max_hashes as n. clear Hid Htid Hh E. induction Hs as [|h hs Hl Hs IH]; intros n.
  { cbn. rewrite !take_nil. done. }
  destruct n as [|n]; [done|]. change (mjoin (h :: ?l)) with (h ++ mjoin l).
  rewrite take_app_ge by lia. cbn [take]. change (mjoin (h :: ?l)) with (h ++ mjoin l). f_equal.
  rewrite <- IH. f_equal. lia.
Qed.

(** One packet that is let through. *)
Lemma receive_one now addr b s : (length (q_items (sbufs_ s)) < 64)%nat -> (16 <= length (take sizeof_buffer b))%nat ->
  receive minute (w_junk w) o now [RecvPacket addr b true] s =
    dispatch minute (w_junk w) o now addr (take sizeof_buffer b) true s.
Proof.
  intros Hq Hl. cbn [receive]. rewrite decide_True by done. cbv zeta. rewrite decide_False by (unfold sizeof_ConnectRequest; lia).
  by destruct (dispatch _ _ _ _ _ _ _ _).
Qed.

Lemma connect_received now addr protocol tid s :
  length protocol = 8%nat -> length tid = 4%nat -> (length (q_items (sbufs_ s)) < 64)%nat ->
  receive minute (w_junk w) o now [RecvPacket addr (client_connect protocol tid) true] s =
    Some (with_sbufs s (q_push {| to_addr_ := addr;
      data_ := connect_packet (connectionId (nth 0 (secrets_ s) []) addr) tid |} (sbufs_ s))).
Proof.
  intros Hp Ht Hq. assert (Hl : length (client_connect protocol tid) = 16%nat).
  { unfold client_connect. rewrite !length_app, be_bytes_length. lia. }
  assert (Et : take sizeof_buffer (client_connect protocol tid) = client_connect protocol tid).
  { apply take_ge. rewrite Hl. unfold sizeof_buffer. lia. }
  rewrite receive_one, Et by (rewrite ?Et; lia). by apply connect_answer.
Qed.

(** The answer to the scrape of a client whose id is of one of the secrets. *)
Lemma scrape_answer now addr s db clock j id tid hs :
  options_ok o -> db_reachable minute (w_junk w) o db clock -> tdb_ s = Some db ->
  length id = 8%nat -> length tid = 4%nat -> Forall (fun h => length h = 20%nat) hs ->
  (j < 3)%nat -> host64_val id = connectionId (nth j (secrets_ s) []) addr ->
  exists p, dispatch minute (w_junk w) o now addr (client_scrape id tid hs) true s =
      Some (with_sbufs s (q_push {| to_addr_ := addr; data_ := p |} (sbufs_ s))) /\
    slice 0 8 p = be_bytes 4 2 ++ tid /\
    read_slots (length (omap (told db) hs)) (drop 8 p) = omap (told db) hs.
Proof.
  intros Ho Hd Hs Hid Ht Hh Hj Esec.
  destruct (view_header id 2 tid (mjoin hs) Hid Ht ltac:(lia)) as (Ei & Ea & Et).
  pose proof (client_scrape_request id tid hs Hid Ht Hh) as Ereq.
  destruct (scrape_items_told db clock hs Ho Hd Hh) as [Hok Etold].
  unfold client_scrape in *. set (b := id ++ _) in *.
  unfold dispatch. rewrite Ea. rewrite decide_False, decide_False, decide_True by done.
  unfold handleScrape. rewrite decide_False.
  2: { subst b. rewrite !length_app, be_bytes_length. unfold sizeof_ScrapeRequest. lia. }
  rewrite Ei, (check_nth_secret j) by done. cbn [negb]. rewrite Hs.
  destruct (scrape_result minute (w_junk w) o db clock (scrape_request b (length b)) Ho Hd)
    as (sr & Esr & Hse & _ & Hit).
  rewrite Esr. cbn [mbind option_bind]. rewrite Hse, Et. cbn [push_buffer]. eexists. split; [done|].
  rewrite Ereq in Hit. rewrite <- Hit in Hok, Etold. split; [by apply slice_8_header|].
  destruct (scrape_packet_roundtrip tid sr Ht Hok) as (_ & _ & E).
  rewrite <- Etold, length_fmap. exact E.
Qed.

(** C10. A UDP client that connects, reads the connection id off the answer
    and scrapes any number of hashes with it, is answered the counts of every
    hash the tracker knows among the first 204 (what the 4096 bytes of the
    buffer hold), in the order it asked, as long as at most two new secrets
    were drawn in between and the queue of answers is not full: the packets go
    to its address with its transaction ids, and nothing else is queued.  The
    server and the client agree on the layout of the four packets. *)
Theorem udp_scrape_session now now' s db clock addr protocol tid tid' rs hs :
  options_ok o -> db_reachable minute (w_junk w) o db clock -> tdb_ s = Some db ->
  length protocol = 8%nat -> length tid = 4%nat -> length tid' = 4%nat ->
  Forall (fun h => length h = 20%nat) hs -> (length rs <= 2)%nat -> (length (q_items (sbufs_ s)) <= 62)%nat ->
  exists s1 p1,
    receive minute (w_junk w) o now [RecvPacket addr (client_connect protocol tid) true] s = Some s1 /\
    q_items (sbufs_ s1) ≡ₚ {| to_addr_ := addr; data_ := p1 |} :: q_items (sbufs_ s) /\
    slice 0 8 p1 = be_bytes 4 0 ++ tid /\
    exists s2 p2,
      receive minute (w_junk w) o now' [RecvPacket addr (client_scrape (slice 8 8 p1) tid' hs) true] (renewed rs s1)
        = Some s2 /\
      q_items (sbufs_ s2) ≡ₚ {| to_addr_ := addr; data_ := p2 |} :: q_items (sbufs_ s1) /\
      slice 0 8 p2 = be_bytes 4 2 ++ tid' /\
      let counts := omap (told db) (take max_hashes hs) in
      read_slots (length counts) (drop 8 p2) = counts.
Proof.
  intros Ho Hd Hs Hp Ht Ht' Hh Hrs Hq. rewrite connect_received by (done || lia). eexists _, _. split; [done|].
  split; [cbn [sbufs_ with_sbufs]; by rewrite q_items_push|]. split; [by apply slice_8_header|].
  set (id := connectionId _ addr). set (s1 := with_sbufs s _). rewrite connect_packet_id by done.
  assert (Hid : length (host64 id) = 8%nat) by (unfold host64; by rewrite length_reverse, be_bytes_length).
  destruct (renewed_secrets rs s1 Hrs) as (j & Hj & Esec & Etdb).
  destruct (scrape_answer now' addr (renewed rs s1) db clock j (host64 id) tid' (take max_hashes hs)) as (p2 & E2 & E3 & E4);
    try done; [by rewrite Etdb|by apply Forall_take|rewrite Esec; apply host64_roundtrip, connectionId_range|].
  rewrite receive_one; rewrite ?client_scrape_fits by done.
  - eexists _, p2. split; [exact E2|]. split; [cbn [sbufs_ with_sbufs]; rewrite renewed_queue; by rewrite q_items_push|done].
  - rewrite renewed_queue. cbn [s1 sbufs_ with_sbufs]. rewrite q_items_push. cbn [length]. lia.
  - unfold client_scrape. rewrite !length_app, be_bytes_length, Hid. lia.
Qed.
End Udp.

(** ** The end of the daemon *)

Section Ending.
Context {T L Q : Type} `{TrieLaws T} `{DListLaws L} `{SListLaws Q SendToBuffer}.
Context (minute second millisecond : Z) (o : Options) (w : World).

Notation run := (run minute second millisecond o w).
Notation Hefur_new := (Hefur_new second millisecond o w).

Implicit Types (h : Hefur T L Q).





















End Ending.

(** ** Quitting *)
Section Quitting.
Context {T L Q : Type}.

Implicit Types (h : Hefur T L Q).

Definition daemon_run (es : list DaemonEvent) h : Daemon := foldl daemon_step (daemon_start h) es.

(** A signal was sent, or the control interface was up and asked to quit. *)
Definition asked h (es : list DaemonEvent) : Prop :=
  DSignal ∈ es \/
  (from_option control_serves false (hf_control h) = true /\ DControl quit_request ∈ es).

Lemma asked_snoc h es e :
  asked h (es ++ [e]) <-> asked h es \/ e = DSignal \/
    (from_option control_serves false (hf_control h) = true /\ e = DControl quit_request).
Proof. unfold asked. rewrite !elem_of_app, !list_elem_of_singleton. intuition. Qed.

Lemma daemon_run_inv h es :
  let d := daemon_run es h in
  (d_stop_ d = true <-> asked h es) /\ d_once d = negb (d_stop_ d) /\
  (d_released d = true -> d_stop_ d = true) /\ (d_released d = false -> d_control d = hf_control h).
Proof.
  induction es as [|e es IH] using rev_ind; cbv zeta.
  - cbn. split; [|done]. split; [done|]. intros [Hin|[_ Hin]]; by apply not_elem_of_nil in Hin.
  - rewrite asked_snoc. unfold daemon_run in *. rewrite foldl_snoc. cbv zeta in IH.
    set (d := foldl _ _ es) in *. destruct IH as (IH1 & IH2 & IH3 & IH4).
    unfold daemon_step. destruct (d_released d) eqn:Er.
    { specialize (IH3 eq_refl). rewrite Er. tauto. }
    specialize (IH4 eq_refl). unfold quit.
    assert (Hq : d_once d = false -> d_stop_ d = true).
    { intros Eo. rewrite Eo in IH2. by destruct (d_stop_ d). }
    destruct e as [|r|]; [|rewrite IH4; destruct (from_option _ _ _) eqn:Ec; [destruct r; simpl|]|];
      try (destruct (d_once d) eqn:Eo); try (destruct (d_stop_ d) eqn:Es); simpl in *; rewrite ?Er, ?Es, ?Eo;
      intuition congruence.
Qed.

(** C27. [main] gets past [Hefur::run], and the daemon is released, exactly
    when SIGINT or SIGQUIT was received or a quit request came on a control
    socket that listens: whatever the order of the events and however many
    signals there are, and not by another request of the control interface. *)
Theorem daemon_quits h es : d_released (daemon_run (es ++ [DMain]) h) = true <-> asked h es.
Proof.
  destruct (daemon_run_inv h es) as (H1 & _ & H3 & _). unfold daemon_run in *. rewrite foldl_snoc.
  set (d := foldl _ _ es) in *. unfold daemon_step.
  destruct (d_released d) eqn:Er; [rewrite Er; tauto|].
  destruct (d_stop_ d); simpl; rewrite ?Er; tauto.
Qed.
End Quitting.

(** ** Witnesses *)
Module SessionDemo.
Definition options : Options := with_network false "/t" "0.0.0.0" default_options.
Definition desc : TorrentDesc := {|
  d_info_hash_v1 := replicate 20 1; d_info_hash_v2 := replicate 32 2; d_name := "a"; d_length := 7 |}.
Definition world : World := {|
  w_inet_pton4 := LifecycleDemo.pton4; w_inet_pton6 := LifecycleDemo.pton6;
  w_inet_ntop _ _ := "ip"; w_base16 l := l; w_to_base16 l := l;
  w_route rs path := snd <$> head (filter (fun r => fst r = path) rs);
  w_is_torrent _ := true; w_parseFile _ := Some desc; w_vanished _ := false;
  w_junk := replicate 18 0 |}.
Definition env : StartEnv := {|
  http_listens := true; https_listens := true; udp_env := LifecycleDemo.env;
  control_listens := true; control_interface := true |}.
Definition get (ih : list Z) (k : string) : list Z :=
  if decide (k = "peer_id"%string) then replicate 20 7
  else if decide (k = "info_hash"%string) then ih else [].
Definition request : HttpRequest := {|
  queryGet := get (replicate 20 1);
  query_values k := if decide (k = "info_hash"%string) then [replicate 20 1] else [];
  remoteAddr := SaIn [10; 0; 0; 9] [26; 225]; unparsedHeaders _ := None; host := "tracker"; req_port := 6969 |}.
Definition events : list (Z * Event_) :=
  [(1, EvScan ["/t/a.torrent"%string]); (2, EvHttp false "/announce" request true);
   (3, EvCleanup); (4, EvHttp false "/scrape" request true); (5, EvHttp false "/stat" request true);
   (6, EvUdp (Some (replicate 32 1)) (PollIn [RecvPacket UdpDemo.client UdpDemo.announce_bytes true]));
   (7, EvCheck)].
Definition start : Hefur (gmap tkey ptr) (list ptr) (list SendToBuffer) :=
  Hefur_new 1000 1 options world env.

Definition torrent : Torrent (gmap tkey ptr) (list ptr) :=
  Torrent_new DbDemo.ih "name" "/t/name.torrent" 7.

Lemma options_ok_ : options_ok options.
Proof. unfold options_ok; simpl; lia. Defined.
Lemma parse_ok_ : forall path d, w_parseFile world path = Some d ->
  length (d_info_hash_v1 d) = 20%nat /\ length (d_info_hash_v2 d) = 32%nat.
Proof. intros path d [= <-]. done. Defined.
Lemma route_ok_ : forall rs path hd, w_route world rs path = Some hd -> exists pat, (pat, hd) ∈ rs.
Proof.
  intros rs path hd. simpl. destruct (filter _ rs) as [|[p h] l] eqn:E; [done|]. intros [= <-].
  exists p. assert (Hin : (p, h) ∈ filter (fun r => fst r = path) rs) by (rewrite E; left).
  by apply list_elem_of_filter in Hin as [_ Hin].
Defined.
Lemma dated_ : dated 0 events.
Proof. simpl. lia. Defined.

(** The page of the torrents, the fifth answer. *)
Lemma stat_page : exists h outs r page, run Demo.minute 1000 1 options world events start = Some (h, outs) /\
  outs !! 4%nat = Some (OutHttp (Some (OutStat r (Some page)))).
Proof.
  assert (Hb : from_option (fun p => match snd p !! 4%nat with Some (OutHttp (Some (OutStat _ (Some _)))) => true | _ => false end) false
    (run Demo.minute 1000 1 options world events start) = true) by (vm_compute; reflexivity).
  destruct (run _ _ _ _ _ _ _) as [[h outs]|]; [|done]. simpl in Hb.
  destruct (outs !! 4%nat) as [[[[]|]| |]|] eqn:E; try done. destruct page as [page|]; [|done].
  by exists h, outs, r, page.
Defined.
End SessionDemo.

Lemma tracker_never_fails_witness :
  exists h outs, run Demo.minute 1000 1 SessionDemo.options SessionDemo.world SessionDemo.events
    SessionDemo.start = Some (h, outs) /\ length outs = 7%nat.
Proof.
  destruct (tracker_never_fails Demo.minute 1000 1 SessionDemo.options SessionDemo.world
    SessionDemo.options_ok_ SessionDemo.parse_ok_ SessionDemo.env 0
    SessionDemo.events SessionDemo.dated_) as (h & outs & c & E & El & _).
  exists h, outs. split; [exact E|exact El].
Defined.

Lemma pages_served_witness :
  exists h outs r page, run Demo.minute 1000 1 SessionDemo.options SessionDemo.world SessionDemo.events
    SessionDemo.start = Some (h, outs) /\
    outs !! 4%nat = Some (OutHttp (Some (OutStat r (Some page)))) /\ DISABLE_STAT_PAGE SessionDemo.options = false.
Proof.
  destruct SessionDemo.stat_page as (h & outs & r & page & E & Hi). exists h, outs, r, page.
  split; [exact E|]. split; [exact Hi|].
  exact (proj1 (pages_served Demo.minute 1000 1 SessionDemo.options SessionDemo.world SessionDemo.options_ok_
    SessionDemo.parse_ok_ SessionDemo.route_ok_ SessionDemo.env 0 SessionDemo.events h outs 4 5 false "/stat" SessionDemo.request true
    (OutStat r (Some page)) SessionDemo.dated_ E eq_refl Hi)).
Defined.

Lemma no_white_list_no_torrent_witness :
  exists h outs,
    run Demo.minute 1000 1 default_options SessionDemo.world SessionDemo.events
      (Hefur_new (T := gmap tkey ptr) (L := list ptr) (Q := list SendToBuffer) 1000 1 default_options
        SessionDemo.world SessionDemo.env) = Some (h, outs) /\
    forall k, lookup_torrent (hf_tdb h) k = None.
Proof.
  destruct (run Demo.minute 1000 1 default_options SessionDemo.world SessionDemo.events
      (Hefur_new (T := gmap tkey ptr) (L := list ptr) (Q := list SendToBuffer) 1000 1 default_options
        SessionDemo.world SessionDemo.env)) as [[h outs]|] eqn:E.
  - exists h, outs. split; [reflexivity|].
    exact (proj1 (no_white_list_no_torrent Demo.minute 1000 1 default_options SessionDemo.world
      SessionDemo.env SessionDemo.events h outs eq_refl E)).
  - exfalso. vm_compute in E. discriminate E.
Defined.

Lemma http_announce_then_scrape_witness :
  exists db' r, handle Demo.minute SessionDemo.options SessionDemo.world 1 AnnounceHandler
      SessionDemo.request true DbDemo.db = Some (db', OutResponse r) /\
    exists r', handle Demo.minute SessionDemo.options SessionDemo.world 2 ScrapeHandler
      SessionDemo.request true db' = Some (db', OutResponse (text r')) /\
      nth 11 r' enc_end = pushInt 1.
Proof.
  assert (Hd : db_reachable Demo.minute (w_junk SessionDemo.world) SessionDemo.options DbDemo.db 0).
  { apply dr_add; [apply dr_new|split; [discriminate|reflexivity]]. }
  destruct (http_announce_then_scrape Demo.minute SessionDemo.options SessionDemo.world 1 2 0
    SessionDemo.request SessionDemo.request true DbDemo.db (replicate 20 1)
    SessionDemo.torrent [] SessionDemo.options_ok_ Hd ltac:(lia)
    eq_refl eq_refl eq_refl eq_refl ltac:(vm_compute; reflexivity) (represents_new _ _ _ _))
    as (db' & r & E1 & E2).
  exists db', r. split; [exact E1|]. eexists. split; [exact E2|]. vm_compute. reflexivity.
Defined.

Lemma udp_scrape_session_witness :
  exists s1 p1, receive Demo.minute (w_junk SessionDemo.world) SessionDemo.options 1
      [RecvPacket UdpDemo.client (client_connect (replicate 8 0) [1; 2; 3; 4]) true] UdpDemo.server = Some s1 /\
    exists s2 p2, receive Demo.minute (w_junk SessionDemo.world) SessionDemo.options 2
      [RecvPacket UdpDemo.client (client_scrape (slice 8 8 p1) [5; 6; 7; 8] [replicate 20 9; replicate 20 1]) true]
      (renewed 1000 [(5, replicate 32 9)] s1) = Some s2 /\
      read_slots 1 (drop 8 p2) = [(0, 0, 0)].
Proof.
  assert (Hd : db_reachable Demo.minute (w_junk SessionDemo.world) SessionDemo.options DbDemo.db 0).
  { apply dr_add; [apply dr_new|split; [discriminate|reflexivity]]. }
  destruct (udp_scrape_session Demo.minute 1000 SessionDemo.options SessionDemo.world 1 2 UdpDemo.server
    DbDemo.db 0 UdpDemo.client (replicate 8 0) [1; 2; 3; 4] [5; 6; 7; 8] [(5, replicate 32 9)]
    [replicate 20 9; replicate 20 1] SessionDemo.options_ok_ Hd eq_refl eq_refl eq_refl eq_refl)
    as (s1 & p1 & E1 & _ & _ & s2 & p2 & E2 & _ & _ & E3).
  - repeat constructor.
  - simpl; lia.
  - simpl; lia.
  - exists s1, p1. split; [exact E1|]. exists s2, p2. split; [exact E2|exact E3].
Defined.

