(* ===== verification/Hefurctl.v ===== *)
(** The command line client of the control interface ([hefurctl.cc]), and the
    two programs together: what [hefurctl] does to the daemon it reaches. *)
From stdpp Require Import base list gmap strings.
From Stdlib Require Import ZArith Lia.
From S2P Require Import Prelude Containers Options Address InfoHash Announce Torrent TorrentSpec TorrentTheorems TorrentDb FsTreeWhiteList UdpServer UdpTheorems HttpHandlers HttpTheorems Lifecycle Tracker TrackerTheorems SessionTheorems.

Record CtlOptions := {
  PATH : string;
  RELEASE_LOGS : bool;
  QUIT : bool;
}.

Definition default_ctl_options : CtlOptions :=
  {| PATH := "/var/run/hefur/control"; RELEASE_LOGS := false; QUIT := false |}.

(** [connectToUnixSocket]: whether the daemon listens on the path. *)
Definition connects (path : string) (d : Daemon) : bool :=
  from_option (fun c => control_serves c && bool_decide (socket_path_ c = path)) false (d_control d).

(** What the channel does with a call: whether the request reaches the
    service, and whether the call ends canceled. *)
Record CallResult := { delivered : bool; isCanceled : bool }.

Section Hefurctl.
Context (channel : ControlRequest -> CallResult).

(** [control.releaseLogs] or [control.quit], then [wait]. *)
Definition call (r : ControlRequest) (d : Daemon) : Daemon * CallResult :=
  (if delivered (channel r) then daemon_step d (DControl r) else d, channel r).

Definition ctl_releaseLogs (d : Daemon) : Daemon * bool :=
  let '(d, c) := call releaseLogs d in (d, if isCanceled c then false else true).

Definition ctl_quit (d : Daemon) : Daemon * bool :=
  let '(d, c) := call quit_request d in (d, if isCanceled c then false else true).

(** The daemon afterwards, and the exit status. *)
Definition hefurctl (o : CtlOptions) (d : Daemon) : Daemon * Z :=
  let succeed := true in
  if negb (connects (PATH o) d) then (d, 1)
  else
    let '(d, succeed) :=
      if RELEASE_LOGS o then let '(d, b) := ctl_releaseLogs d in (d, b && succeed) else (d, succeed) in
    let '(d, succeed) :=
      if QUIT o then let '(d, b) := ctl_quit d in (d, b && succeed) else (d, succeed) in
    (d, if negb (eqb succeed true) then 1 else 0).

(** An answered call was served. *)
Hypothesis channel_ok : forall r, isCanceled (channel r) = false -> delivered (channel r) = true.

Lemma release_logs_nothing d : daemon_step d (DControl releaseLogs) = d.
Proof. unfold daemon_step. by destruct (d_released d), (from_option control_serves false (d_control d)). Qed.

Lemma ctl_releaseLogs_spec d : ctl_releaseLogs d = (d, negb (isCanceled (channel releaseLogs))).
Proof.
  unfold ctl_releaseLogs, call. rewrite release_logs_nothing.
  by destruct (delivered _), (isCanceled _).
Qed.

Lemma connects_serves path d : connects path d = true -> from_option control_serves false (d_control d) = true.
Proof. unfold connects. destruct (d_control d); simpl; [|done]. by intros [? _]%andb_true_iff. Qed.

(** A delivered quit request is as good as a signal. *)
Lemma quit_delivered path d :
  connects path d = true -> daemon_step d (DControl quit_request) = daemon_step d DSignal.
Proof.
  intros Hc%connects_serves. unfold daemon_step. rewrite Hc. by destruct (d_released d).
Qed.

Context {T L Q : Type}.

(** The release closes the control socket. *)
Lemma released_closed (h : Hefur T L Q) es path :
  d_released (daemon_run es h) = true -> connects path (daemon_run es h) = false.
Proof.
  induction es as [|e es IH] using rev_ind; [done|]. unfold daemon_run in *. rewrite foldl_snoc.
  set (d := foldl _ _ es) in *. unfold daemon_step. destruct (d_released d) eqn:Er; [by rewrite Er|].
  destruct e as [|r|].
  - unfold Tracker.quit. destruct (d_once d); simpl; by rewrite ?Er.
  - destruct (from_option control_serves false _); [|by rewrite Er]. destruct r; simpl; [by rewrite Er|].
    unfold Tracker.quit. destruct (d_once d); simpl; by rewrite ?Er.
  - destruct (d_stop_ d); [|by rewrite Er]. intros _. unfold connects; simpl.
    by destruct (d_control d).
Qed.

(** A signal, then [main]. *)
Lemma signal_releases (h : Hefur T L Q) es :
  d_released (daemon_step (daemon_step (daemon_run es h) DSignal) DMain) = true.
Proof.
  destruct (daemon_run_inv h (es ++ [DSignal])) as ([_ Hs] & _). unfold daemon_run in *.
  rewrite foldl_snoc in Hs. specialize (Hs ltac:(left; apply elem_of_app; right; left)).
  set (d := daemon_step _ DSignal) in *. unfold daemon_step. destruct (d_released d) eqn:Er; [done|].
  by rewrite Hs.
Qed.

(** The two programs together.  Run against a daemon in any state it can
    reach, [hefurctl] exits with 0 exactly when a daemon listens on the
    socket and no requested call was canceled; then, if it was asked to, the
    daemon is released when [main] next looks; without [--quit], or without a
    connection, the daemon is left as it was; and a daemon that was released
    is no longer there to connect to. *)
Theorem hefurctl_quits (h : Hefur T L Q) es o :
  let d := daemon_run es h in
  let '(d', code) := hefurctl o d in
  (code = 0 <-> connects (PATH o) d = true /\
     (RELEASE_LOGS o = true -> isCanceled (channel releaseLogs) = false) /\
     (QUIT o = true -> isCanceled (channel quit_request) = false)) /\
  (code = 0 -> QUIT o = true -> d_released (daemon_step d' DMain) = true) /\
  (QUIT o = false \/ connects (PATH o) d = false -> d' = d) /\
  (d_released d = true -> code = 1).
Proof.
  cbv zeta. set (d := daemon_run es h). unfold hefurctl.
  rewrite ctl_releaseLogs_spec. destruct (connects (PATH o) d) eqn:Ec; cbn [negb].
  2: { split; [by split; [|intros (? & _)]|]. done. }
  assert (Hr : d_released d = true -> False) by (intros Er%(released_closed h es (PATH o)); fold d in Er; congruence).
  assert (Hq : QUIT o = true -> isCanceled (channel quit_request) = false ->
    d_released (daemon_step (if delivered (channel quit_request) then daemon_step d (DControl quit_request)
      else d) DMain) = true).
  { intros _ ->%channel_ok. rewrite (quit_delivered _ _ Ec). apply signal_releases. }
  unfold ctl_quit, call.
  destruct (RELEASE_LOGS o), (QUIT o), (isCanceled (channel releaseLogs)),
    (isCanceled (channel quit_request)); simpl; intuition congruence.
Qed.
End Hefurctl.

(** ** Witness: the default options, over a channel that delivers *)
Lemma hefurctl_quits_witness :
  let o := {| PATH := "/var/run/hefur/control"; RELEASE_LOGS := true; QUIT := true |} in
  let '(d, code) := hefurctl (fun _ => {| delivered := true; isCanceled := false |}) o
                      (daemon_run [] SessionDemo.start) in
  code = 0 /\ d_released (daemon_step d DMain) = true.
Proof.
  pose proof (hefurctl_quits (fun _ => {| delivered := true; isCanceled := false |}) (fun _ _ => eq_refl)
    SessionDemo.start [] {| PATH := "/var/run/hefur/control"; RELEASE_LOGS := true; QUIT := true |}) as Hq.
  cbv zeta in *. destruct (hefurctl _ _ _) as [d code]. destruct Hq as ([_ Hc] & Hd & _).
  assert (E : code = 0) by (apply Hc; split; [vm_compute; reflexivity|done]).
  split; [exact E|]. by apply Hd.
Defined.
