(* ===== verification/TrackerSpec.v ===== *)
(** What the tracker promises: a finite map from 20 byte keys to swarms, a
    swarm being what a torrent file says and the list of its peers from the
    oldest to the latest announce.  Every request, scan and cleanup is a total
    function of that map, without tries, pointers, intrusive lists or failure.
    TrackerRefinement.v proves that the daemon behaves so. *)
From stdpp Require Import base list gmap strings.
From Stdlib Require Import ZArith Lia.
From S2P Require Import Prelude Containers Options Address InfoHash Announce Torrent TorrentSpec TorrentDb FsTreeWhiteList UdpServer HttpHandlers Lifecycle Tracker.

(** Two outputs that differ by the order of the rows of a page of statistics at
    most. *)
Definition same_page (p q : StatPage) : Prop :=
  sp_tracker_http p = sp_tracker_http q /\ sp_tracker_udp p = sp_tracker_udp q /\
  sp_torrents p ≡ₚ sp_torrents q /\ sp_totals p = sp_totals q.

Definition same_out (x y : HttpOut) : Prop :=
  match x, y with
  | OutStat r p, OutStat r' q => r = r' /\ option_Forall2 same_page p q
  | _, _ => x = y
  end.

Definition same_output (x y : Output) : Prop :=
  match x, y with
  | OutHttp r, OutHttp r' => option_Forall2 same_out r r'
  | _, _ => x = y
  end.

#[export] Instance same_page_equivalence : Equivalence same_page.
Proof.
  split; [by intros p|intros p q (A & B & C & E); split_and!; by symmetry|].
  intros p q r (A & B & C & E) (A' & B' & C' & E'). split_and!; by etrans.
Qed.

#[export] Instance same_out_equivalence : Equivalence same_out.
Proof.
  split.
  - intros []; simpl; try done.
  - intros [] []; simpl; try congruence. intros [-> E]. split; [done|by symmetry].
  - intros [] [] []; simpl; try congruence. intros [-> E] [-> E']. split; [done|by etrans].
Qed.

#[export] Instance same_output_equivalence : Equivalence same_output.
Proof.
  split.
  - intros []; simpl; try done.
  - intros [] []; simpl; try congruence. by intros ?; symmetry.
  - intros [] [] []; simpl; try congruence. intros E E'. by etrans.
Qed.

Record Swarm := {
  sw_info_hash : InfoHash;
  sw_name : string;
  sw_path : string;
  sw_length : Z;
  sw_completed : Z;
  sw_peers : list Peer;
}.

Abbreviation Swarms := (gmap tkey Swarm).

(** The swarm of a new torrent file. *)
Definition swarm_new (ih : InfoHash) (name path : string) (len : Z) : Swarm :=
  {| sw_info_hash := ih; sw_name := name; sw_path := path; sw_length := len;
     sw_completed := 0; sw_peers := [] |}.

Definition with_peers (sw : Swarm) (completed : Z) (ps : list Peer) : Swarm :=
  {| sw_info_hash := sw_info_hash sw; sw_name := sw_name sw; sw_path := sw_path sw;
     sw_length := sw_length sw; sw_completed := completed; sw_peers := ps |}.

Definition sumZ (l : list Z) : Z := foldr Z.add 0 l.
Definition sum_of (f : Swarm -> Z) (m : Swarms) : Z := sumZ ((fun e => f (snd e)) <$> map_to_list m).

Section Spec.
Context {Q : Type} `{SList Q SendToBuffer}.
Context (minute second millisecond : Z) (o : Options) (w : World).

Implicit Types (m : Swarms).

(** ** The swarms *)
Definition sw_announce (now : Z) (rq : AnnounceRequest) (sw : Swarm) : Swarm :=
  with_peers sw (spec_completed rq (sw_peers sw) (sw_completed sw))
    (spec_peers minute o now rq (sw_peers sw)).

Definition sw_response (now : Z) (rq : AnnounceRequest) (sw : Swarm) : AnnounceResponse :=
  {| error_ := false; error_msg_ := ""; nleechers_ := nb_leechers (sw_peers sw);
     nseeders_ := nb_seeders (sw_peers sw); ncompleted_ := sw_completed sw;
     interval_ := Some (wrap 32 (ANNOUNCE_INTERVAL o * 60));
     addrs_ := spec_addrs minute o now rq (sw_peers sw) |}.

Definition a_announce (now : Z) (rq : AnnounceRequest) m : Swarms * AnnounceResponse :=
  match m !! bytes (rq_info_hash_ rq) with
  | None => (m, not_found)
  | Some sw => (<[bytes (rq_info_hash_ rq) := sw_announce now rq sw]> m, sw_response now rq sw)
  end.

Definition sw_item (h : InfoHash) (sw : Swarm) : ScrapeItem :=
  {| it_info_hash_ := h; it_nleechers_ := nb_leechers (sw_peers sw);
     it_nseeders_ := nb_seeders (sw_peers sw); it_ndownloaded_ := sw_completed sw |}.

Definition a_scrape (hs : list InfoHash) m : ScrapeResponse :=
  {| sc_error_ := false; sc_error_msg_ := ""; sc_interval_ := wrap 32 (SCRAPE_INTERVAL o * 60);
     sc_items_ := omap (fun h => sw_item h <$> m !! bytes h) hs |}.

Definition sw_cleanup (now : Z) (sw : Swarm) : Swarm :=
  with_peers sw (sw_completed sw) (filter (fun q => now < timeout_ts_ q) (sw_peers sw)).

Definition a_cleanup (now : Z) m : Swarms := sw_cleanup now <$> m.

(** ** The white list *)

(** A torrent that is tracked already is kept, with its peers. *)
Definition a_add (ih : InfoHash) (name path : string) (len : Z) m : Swarms :=
  m ∪ {[ take 20 (bytes ih) := swarm_new ih name path len ]}.

Definition a_scan_path m (path : string) : Swarms :=
  if w_is_torrent w path then
    match w_parseFile w path with
    | None => m
    | Some d =>
        a_add (InfoHash_new SHA256 (d_info_hash_v2 d)) (d_name d) path (d_length d)
          (a_add (InfoHash_new SHA1 (d_info_hash_v1 d)) (d_name d) path (d_length d) m)
    end
  else m.

(** The paths a scan looks at. *)
Definition visited (paths : list string) : list string :=
  if decide (MAX_SCAN_INODES o < 2 ^ 32 - 1) then take (Z.to_nat (MAX_SCAN_INODES o)) paths else paths.

Definition a_scan (paths : list string) m : Swarms := foldl a_scan_path m (visited paths).

Definition sw_lost (k : tkey) (sw : Swarm) : Prop :=
  under_root (TORRENT_DIR o) (sw_path sw) && w_vanished w (sw_path sw) = true /\
  bytes (sw_info_hash sw) = k.

#[export] Instance sw_lost_dec k sw : Decision (sw_lost k sw).
Proof. unfold sw_lost. apply _. Defined.

Definition a_check m : Swarms := filter (fun e => ~ sw_lost (fst e) (snd e)) m.

(** ** The pages *)
Definition a_totals m : StatTotals :=
  {| total_leechers := wrap 64 (sum_of (fun sw => nb_leechers (sw_peers sw)) m);
     total_seeders := wrap 64 (sum_of (fun sw => nb_seeders (sw_peers sw)) m);
     total_length := wrap 64 (sum_of sw_length m);
     total_completed := wrap 64 (sum_of sw_completed m) |}.

Definition a_announce_handle (now : Z) (request : HttpRequest) m : Swarms * HttpResponse :=
  if decide (length (queryGet request "peer_id") <> 20 \/ length (queryGet request "info_hash") <> 20)%nat
  then (m, refused)
  else
    let '(m, rp) := a_announce now (http_announce_request (w_junk w) o (w_inet_pton4 w) (w_inet_pton6 w)
                      (w_junk w) request) m in
    (m, text (if error_ rp then failure_body (error_msg_ rp)
              else announce_body (w_inet_ntop w)
                     (bool_decide (query_values request "compact" <> [])) rp)).

Definition a_scrape_handle (request : HttpRequest) m : HttpResponse :=
  let rp := a_scrape (http_scrape_request request) m in
  text ([startDict; push "flags"; startDict; push "min_request_interval"; pushInt (sc_interval_ rp);
         enc_end; push "files"; startDict] ++ mjoin (scrape_entry <$> sc_items_ rp) ++ [enc_end; enc_end]).

Definition a_peers_handle (templates : bool) (request : HttpRequest) m : HttpResponse * list PeerRow :=
  let info_hash := w_base16 w (queryGet request "info_hash") in
  if decide (length info_hash <> 20 /\ length info_hash <> 32)%nat
  then (status_only false kStatusNotFound true, [])
  else if negb templates then (refused, [])
  else
    match m !! take 20 info_hash with
    | None => (status_only true kStatusNotFound true, [])
    | Some sw => (status_only true kStatusOk true, peer_row <$> sw_peers sw)
    end.

(** No torrent file is ever served. *)
Definition a_file_handle (request : HttpRequest) : HttpResponse :=
  let info_hash := w_base16 w (queryGet request "info_hash") in
  if decide (length info_hash = 20 \/ length info_hash = 32)%nat
  then status_only false kStatusBadRequest true else status_only true kStatusNotFound true.

(** The row of a swarm; its version is that of its hash. *)
Definition sw_row (sw : Swarm) : StatRow :=
  stat_row o (w_to_base16 w) (sw_info_hash sw) (sw_name sw) (sw_length sw)
    (if decide (type_ (sw_info_hash sw) = SHA1) then 1 else 2)
    (nb_leechers (sw_peers sw)) (nb_seeders (sw_peers sw)) (sw_completed sw).

(** One row for each swarm, in some order. *)
Definition a_stat_handle (templates : bool) (request : HttpRequest) m : HttpResponse * option StatPage :=
  if templates
  then (status_only true kStatusOk true,
        Some (stat_page o request ((fun e => sw_row (snd e)) <$> map_to_list m) (a_totals m)))
  else (refused, None).

Definition a_handle (now : Z) (hd : Handler) (request : HttpRequest) (templates : bool) m
  : Swarms * HttpOut :=
  match hd with
  | FsHandler root nskip => (m, OutStatic root nskip)
  | AnnounceHandler => let '(m, r) := a_announce_handle now request m in (m, OutResponse r)
  | ScrapeHandler => (m, OutResponse (a_scrape_handle request m))
  | StatHandler => let '(r, page) := a_stat_handle templates request m in (m, OutStat r page)
  | PeersHandler => let '(r, rows) := a_peers_handle templates request m in (m, OutPeers r rows)
  | FileHandler => (m, OutResponse (a_file_handle request))
  end.

(** ** The UDP server, apart from the database *)
Abbreviation Face := (UdpServer unit unit Q).

Implicit Types (u : Face).

Definition a_handleAnnounce (now : Z) (ann : UdpAnnounceRequest) (size : nat) (addr : sockaddr)
    (mem : bool) u m : Face * Swarms :=
  if decide (size < sizeof_AnnounceRequest)%nat then (u, m)
  else if negb (checkConnectionId u (ann_connection_id_ ann) addr) then (u, m)
  else
    let '(m, rp) := a_announce now (announce_request (w_junk w) o ann addr) m in
    (if error_ rp then sendFailure (ann_transaction_id_ ann) addr (error_msg_ rp) mem u
     else push_buffer mem addr (announce_packet (ann_transaction_id_ ann) rp) u, m).

Definition a_handleScrape (b : list Z) (size : nat) (addr : sockaddr) (mem : bool) u m : Face :=
  if decide (size < sizeof_ScrapeRequest)%nat then u
  else if negb (checkConnectionId u (conn_connection_id_ (view_conn b)) addr) then u
  else push_buffer mem addr
         (scrape_packet (conn_transaction_id_ (view_conn b)) (a_scrape (scrape_request b size) m)) u.

Definition a_dispatch (now : Z) (addr : sockaddr) (b : list Z) (mem : bool) u m : Face * Swarms :=
  let action := conn_action_ (view_conn b) in
  if decide (action = 0) then (handleConnect (view_conn b) (length b) addr mem u, m)
  else if decide (action = 1) then a_handleAnnounce now (view_ann b) (length b) addr mem u m
  else if decide (action = 2) then (a_handleScrape b (length b) addr mem u m, m)
  else (u, m).

Fixpoint a_receive (now : Z) (rs : list Received) u m : Face * Swarms :=
  match rs with
  | [] => (u, m)
  | r :: rs =>
      if decide (length (q_items (sbufs_ u)) < 64)%nat then
        match r with
        | RecvError => (u, m)
        | RecvPacket addr b mem =>
            let b := take sizeof_buffer b in
            if decide (length b < sizeof_ConnectRequest)%nat then a_receive now rs u m
            else let '(u, m) := a_dispatch now addr b mem u m in a_receive now rs u m
        end
      else (u, m)
  end.

Definition a_run_turn (now : Z) (rnd : option (list Z)) (p : PollResult) u m
  : Face * Swarms * list SendToBuffer :=
  if decide (Z.quot (next_timeout_ u - now) millisecond <= 0) then (genSecret second now rnd u, m, [])
  else
    match p with
    | PollError => (u, m, [])
    | PollTimeout => (genSecret second now rnd u, m, [])
    | PollOut rs => let '(u, out) := send rs u [] in (u, m, out)
    | PollIn rs => let '(u, m) := a_receive now rs u m in (u, m, [])
    end.

(** ** The tracker *)
Record Tracker := {
  tr_swarms : Swarms;
  tr_wl : bool;
  tr_http : option (list (string * Handler));   (* the routes of the servers that listen *)
  tr_https : option (list (string * Handler));
  tr_udp : option Face;
}.

Implicit Types (t : Tracker).

(** A server that got its socket draws three secrets. *)
Definition face_new (env : UdpEnv) : Face :=
  foldl (fun u i => genSecret second (env_now env i) (env_rnd env i) u)
    {| secrets_ := replicate 3 (replicate 32 0); sbufs_ := q_empty; next_timeout_ := 0; tdb_ := None |}
    (seq 0 3).

(** The tracker as configured, its servers those that could start. *)
Definition tracker_new (env : StartEnv) : Tracker :=
  {| tr_swarms := ∅;
     tr_wl := bool_decide (TORRENT_DIR o <> ""%string);
     tr_http := if decide (HTTP_PORT o <> 0) then if http_listens env then Some (http_routes o) else None
                else None;
     tr_https := if decide (HTTPS_PORT o <> 0 /\ CERT o <> ""%string /\ KEY o <> ""%string)
                 then if https_listens env then Some (http_routes o) else None else None;
     tr_udp := if decide (UDP_PORT o <> 0 /\ 0 <= env_socket (udp_env env) /\
                          env_bind (udp_env env) = true)
               then Some (face_new (udp_env env)) else None |}.

Definition with_swarms t m : Tracker :=
  {| tr_swarms := m; tr_wl := tr_wl t; tr_http := tr_http t; tr_https := tr_https t; tr_udp := tr_udp t |}.

Definition a_serve (now : Z) (routes : option (list (string * Handler))) (path : string)
    (request : HttpRequest) (templates : bool) t : Tracker * option HttpOut :=
  match routes with
  | None => (t, None)
  | Some rs =>
      match w_route w rs path with
      | None => (t, Some OutNoRoute)
      | Some hd =>
          let '(m, out) := a_handle now hd (logged o w request) templates (tr_swarms t) in
          (with_swarms t m, Some out)
      end
  end.

Definition a_udp_turn (now : Z) (rnd : option (list Z)) (p : PollResult) t
  : Tracker * list SendToBuffer :=
  match tr_udp t with
  | None => (t, [])
  | Some u =>
      let '(u, m, out) := a_run_turn now rnd p u (tr_swarms t) in
      ({| tr_swarms := m; tr_wl := tr_wl t; tr_http := tr_http t; tr_https := tr_https t;
          tr_udp := Some u |}, out)
  end.

Definition a_step (now : Z) (e : Event_) t : Tracker * Output :=
  match e with
  | EvHttp tls path request templates =>
      let '(t, r) := a_serve now (if tls then tr_https t else tr_http t) path request templates t in
      (t, OutHttp r)
  | EvUdp rnd p => let '(t, l) := a_udp_turn now rnd p t in (t, OutPackets l)
  | EvCleanup => (with_swarms t (a_cleanup now (tr_swarms t)), OutNothing)
  | EvScan paths => (if tr_wl t then with_swarms t (a_scan paths (tr_swarms t)) else t, OutNothing)
  | EvCheck => (if tr_wl t then with_swarms t (a_check (tr_swarms t)) else t, OutNothing)
  end.

Fixpoint a_run (es : list (Z * Event_)) t : Tracker * list Output :=
  match es with
  | [] => (t, [])
  | (now, e) :: es =>
      let '(t, out) := a_step now e t in
      let '(t, outs) := a_run es t in
      (t, out :: outs)
  end.
End Spec.
Arguments Tracker : clear implicits.
