(* ===== verification/TrackerRefinement.v ===== *)
(** The daemon refines the tracker of TrackerSpec.v: an abstraction function
    forgets the tries, the heaps of peers, the lists and the threads; each
    operation of the database, each handler, each packet and each turn commutes
    with it, and so does every run. *)
From stdpp Require Import base list gmap strings.
From Stdlib Require Import ZArith Lia.
From S2P Require Import Prelude Containers Options Address InfoHash Announce Torrent TorrentSpec TorrentTheorems TorrentDb FsTreeWhiteList UdpServer UdpTheorems HttpHandlers HttpTheorems Lifecycle Tracker TrackerTheorems SessionTheorems TrackerSpec.

(** ** The abstraction of the database *)
Section Abstraction.
Context {T L : Type} `{TrieLaws T} `{DListLaws L}.

Implicit Types (db : TorrentDb T L).

Definition swarm_of (t : Torrent T L) : Swarm :=
  {| sw_info_hash := info_hash_ t; sw_name := name_ t; sw_path := path_ t; sw_length := length_ t;
     sw_completed := completed_ t; sw_peers := peer_list t |}.

Definition index_of (tr : T) : gmap tkey ptr := list_to_map (t_entries tr).

Definition swarms_of db : Swarms :=
  omap (fun p => swarm_of <$> objects_ db !! p) (index_of (torrents_ db)).

Lemma index_of_lookup tr k : index_of tr !! k = t_find k tr.
Proof.
  unfold index_of. destruct (t_find k tr) as [p|] eqn:Hk.
  - apply elem_of_list_to_map_1; [apply t_entries_nodup|]. by apply t_entries_find.
  - apply not_elem_of_list_to_map_1. intros ([k' p] & -> & Hin)%list_elem_of_fmap.
    apply t_entries_find in Hin. simpl in Hk. congruence.
Qed.

Lemma swarms_of_lookup db k : swarms_of db !! k = swarm_of <$> lookup_torrent db k.
Proof.
  unfold swarms_of, lookup_torrent. rewrite lookup_omap, index_of_lookup.
  by destruct (t_find k (torrents_ db)).
Qed.

Lemma swarms_of_new : swarms_of TorrentDb_new = ∅.
Proof. apply map_eq. intros k. rewrite swarms_of_lookup. unfold lookup_torrent. simpl.
  rewrite t_find_empty. symmetry. apply lookup_empty.
Qed.

(** A torrent and the list it represents. *)
Lemma swarm_represents t ps : represents t ps -> sw_peers (swarm_of t) = ps.
Proof. apply peer_list_represents. Qed.

Lemma swarm_new_of ih name path len :
  swarm_of (Torrent_new ih name path len) = swarm_new ih name path len.
Proof. unfold swarm_of, swarm_new. f_equal. apply swarm_represents, represents_new. Qed.
End Abstraction.

(** ** The operations of the database *)
Section Database.
Context {T L : Type} `{TrieLaws T} `{DListLaws L}.
Context (minute : Z) (o : Options) (w : World).
Hypothesis Ho : options_ok o.

Notation junk := (w_junk w).
Notation reach db clock := (db_reachable minute junk o db clock).

Implicit Types (db : TorrentDb T L).

Lemma announce_abs db clock now rq :
  reach db clock -> clock <= now ->
  exists db', db_announce minute junk o now rq db
    = Some (db', snd (a_announce minute o now rq (swarms_of db))) /\
    reach db' now /\ swarms_of db' = fst (a_announce minute o now rq (swarms_of db)).
Proof.
  intros Hd Hc. pose proof (db_announce_result minute junk o db clock now rq Ho Hd) as Hr.
  unfold a_announce. rewrite swarms_of_lookup.
  destruct (lookup_torrent db _) as [t|] eqn:Ht; cbn [fmap option_fmap option_map fst snd].
  2: { exists db. split; [done|]. split; [|done]. by eapply dr_announce. }
  destruct Hr as (t' & r & db' & Ea & E & Hk).
  destruct (db_reachable_lookup minute junk o db clock _ t Ho Hd Ht) as (_ & ps & Hr & Hps).
  destruct (announce_refines minute junk o now rq t ps Hr Ho (inv_length _ _ _ _ Hps))
    as (t2 & r2 & E2 & Hr2 & Ec & E3 & E4 & E5 & E6 & ->).
  rewrite Ea in E2. simplify_eq. exists db'. rewrite E. split.
  { f_equal. unfold sw_response. rewrite (swarm_represents t ps Hr). done. }
  split; [by eapply dr_announce|].
  apply map_eq. intros k. rewrite swarms_of_lookup, Hk, lookup_insert. case_decide as Hd1.
  - rewrite decide_True by done. simpl. f_equal. unfold sw_announce, with_peers, swarm_of; simpl.
    by rewrite (peer_list_represents _ _ Hr2), (peer_list_represents _ _ Hr), Ec, E3, E4, E5, E6.
  - rewrite decide_False by done. by rewrite swarms_of_lookup.
Qed.

Lemma scrape_abs db clock hs : reach db clock -> scrape o db hs = Some (a_scrape o hs (swarms_of db)).
Proof.
  intros Hd. destruct (scrape_result minute junk o db clock hs Ho Hd) as (r & E & _ & _ & Eits).
  unfold scrape in E. destruct (scrape_items db hs) as [its|] eqn:Ei; simpl in E; [|done].
  injection E as <-. simpl in Eits. unfold scrape. rewrite Ei; simpl. unfold a_scrape. do 2 f_equal. rewrite Eits.
  apply list_omap_ext, Forall_Forall2_diag, Forall_forall. intros h _. simpl. rewrite swarms_of_lookup.
  destruct (lookup_torrent db (bytes h)) as [t|] eqn:Ht; simpl; [|done].
  destruct (db_reachable_lookup minute junk o db clock _ t Ho Hd Ht) as (_ & ps & Hr & _).
  unfold sw_item. rewrite (swarm_represents t ps Hr), (r_seeders _ _ Hr), (r_leechers _ _ Hr). done.
Qed.

(** A cleanup reaches each torrent of the entries once. *)
Lemma cleanup_all_abs now es db db' :
  db_inv minute o now db -> NoDup es.*1 ->
  (forall k p, (k, p) ∈ es -> t_find k (torrents_ db) = Some p) ->
  cleanup_all now es db = Some db' ->
  forall k, swarms_of db' !! k =
    if decide (k ∈ es.*1) then sw_cleanup now <$> swarms_of db !! k else swarms_of db !! k.
Proof.
  revert db. induction es as [|[k0 p] es IH]; intros db Hi Hnd Hes E k; simpl in E.
  { simplify_eq. by rewrite decide_False by (apply not_elem_of_nil). }
  rewrite fmap_cons, NoDup_cons in Hnd. destruct Hnd as [Hk0 Hnd].
  assert (Hp0 : t_find k0 (torrents_ db) = Some p) by (apply Hes; left).
  destruct (db_objects _ _ _ _ Hi _ _ Hp0) as (t & Ht & _). rewrite Ht in E; simpl in E.
  destruct (db_reach _ _ _ _ Hi p t Ht) as (ps & Hr & Hps).
  destruct (torrent_cleanup_ok minute o now t ps Ho Hr Hps) as (t' & E' & (Eih & En & Epa & El & Ec) & Hr' & Hps').
  rewrite E' in E; simpl in E.
  rewrite (IH (with_object db p t')); [|by eapply db_inv_with_object; eauto|done| |done].
  2: { intros k1 p1 Hin. apply Hes. by right. }
  rewrite !swarms_of_lookup, (lookup_with_object _ _ _ _ _ _ k0 k Hi Hp0).
  assert (Hsw : swarm_of t' = sw_cleanup now (swarm_of t)).
  { unfold sw_cleanup, with_peers, swarm_of; simpl.
    by rewrite (peer_list_represents _ _ Hr'), (peer_list_represents _ _ Hr), Eih, Ec, En, Epa, El. }
  destruct (decide (k = k0)) as [->|Hn].
  - rewrite decide_False by done. rewrite decide_True by left.
    unfold lookup_torrent. rewrite Hp0; simpl. rewrite Ht; simpl. by rewrite Hsw.
  - apply decide_ext. rewrite fmap_cons, elem_of_cons. naive_solver.
Qed.

Lemma cleanup_abs now db clock db' :
  reach db clock -> clock <= now -> db_cleanup now db = Some db' ->
  swarms_of db' = a_cleanup now (swarms_of db).
Proof.
  intros Hd Hc E. pose proof (db_reachable_inv minute junk o db clock Ho Hd) as Hi.
  apply map_eq. intros k. unfold a_cleanup. rewrite lookup_fmap.
  rewrite (cleanup_all_abs now _ db db' (db_inv_later _ _ _ _ _ Hc Hi) (t_entries_nodup _)
    (fun k p => proj1 (t_entries_find k p _)) E).
  case_decide as Hk; [done|]. rewrite swarms_of_lookup. unfold lookup_torrent.
  destruct (t_find k (torrents_ db)) as [p|] eqn:Hp; [|done]. exfalso. apply Hk.
  apply list_elem_of_fmap. exists (k, p). split; [done|]. by apply t_entries_find.
Qed.

(** ** The white list *)
Lemma add_abs db clock ih name path len :
  reach db clock ->
  swarms_of (addTorrent (Some (Torrent_new ih name path len)) db)
  = a_add ih name path len (swarms_of db).
Proof.
  intros Hd. apply map_eq. intros k. unfold a_add.
  rewrite swarms_of_lookup, (addTorrent_spec minute junk o db clock _ k Ho Hd), lookup_union, swarms_of_lookup.
  destruct (lookup_torrent db k) as [t|]; simpl; [by rewrite union_Some_l|].
  rewrite lookup_singleton. unfold torrentKey; simpl. case_decide as Hk.
  - rewrite decide_True by done. simpl. by rewrite swarm_new_of.
  - by rewrite decide_False by done.
Qed.

Hypothesis parse_ok : forall path d, w_parseFile w path = Some d ->
  length (d_info_hash_v1 d) = 20%nat /\ length (d_info_hash_v2 d) = 32%nat.

Lemma scan_path_abs path db clock :
  reach db clock ->
  swarms_of (scan_path (w_is_torrent w) (w_parseFile w) path db) = a_scan_path w (swarms_of db) path.
Proof.
  intros Hd. unfold scan_path, a_scan_path. destruct (w_is_torrent w path); [|done].
  destruct (w_parseFile w path) as [d|] eqn:Ep; [|done]. apply parse_ok in Ep as [H1' H2'].
  rewrite (add_abs _ clock), (add_abs _ clock); [done|done|].
  apply dr_add; [done|]. apply InfoHash_new_ok; simpl; [done|lia].
Qed.

(** The counter of inodes stops the scan at its limit, and wraps below the
    largest one. *)
Lemma scan_loop_visited n paths db :
  0 <= n < 2 ^ 32 -> (MAX_SCAN_INODES o < 2 ^ 32 - 1 -> n <= Z.max 0 (MAX_SCAN_INODES o)) ->
  scan_loop o (w_is_torrent w) (w_parseFile w) n paths db =
    foldl (fun db p => scan_path (w_is_torrent w) (w_parseFile w) p db) db
      (if decide (MAX_SCAN_INODES o < 2 ^ 32 - 1)
       then take (Z.to_nat (MAX_SCAN_INODES o - n)) paths else paths).
Proof.
  revert n db. induction paths as [|p paths IH]; intros n db Hn Hm.
  { simpl. by destruct (decide _); rewrite ?take_nil. }
  cbn [scan_loop]. pose proof (wrap_range 32 (n + 1) ltac:(lia)) as Hw.
  destruct (decide (MAX_SCAN_INODES o < 2 ^ 32 - 1)) as [Hs|Hs].
  - rewrite wrap_small in * by lia. case_decide as Hd.
    + replace (Z.to_nat (MAX_SCAN_INODES o - n)) with 0%nat by lia. done.
    + rewrite IH by lia.
      replace (Z.to_nat (MAX_SCAN_INODES o - n)) with (S (Z.to_nat (MAX_SCAN_INODES o - (n + 1)))) by lia.
      done.
  - rewrite decide_False by lia. by rewrite IH by lia.
Qed.

Lemma scan_abs paths db clock :
  reach db clock ->
  swarms_of (scan o (w_is_torrent w) (w_parseFile w) paths db) = a_scan o w paths (swarms_of db).
Proof.
  intros Hd. unfold scan, a_scan. rewrite scan_loop_visited by lia. rewrite Z.sub_0_r.
  change (if decide (MAX_SCAN_INODES o < 2 ^ 32 - 1) then _ else paths) with (visited o paths).
  revert db Hd. induction (visited o paths) as [|p l IH]; intros db Hd; simpl; [done|].
  rewrite IH by (by apply scan_path_reachable). f_equal. by eapply scan_path_abs.
Qed.

Lemma check_abs db clock db' :
  reach db clock -> check (w_vanished w) (TORRENT_DIR o) db = Some db' ->
  swarms_of db' = a_check o w (swarms_of db).
Proof.
  intros Hd E. destruct (check_lookup minute junk o (w_vanished w) (TORRENT_DIR o) db clock Ho Hd)
    as (db2 & E2 & Hk). rewrite E in E2. simplify_eq. apply map_eq. intros k.
  unfold a_check. rewrite map_lookup_filter, !swarms_of_lookup, Hk.
  destruct (lookup_torrent db k) as [t|]; simpl; [|done].
  case_decide as Hc; case_guard as Hg; try done.
Qed.
End Database.

(** ** The pages *)
Section Pages.
Context {T L Q : Type} `{TrieLaws T} `{DListLaws L}.
Context (minute : Z) (o : Options) (w : World).
Hypothesis Ho : options_ok o.

Notation junk := (w_junk w).
Notation reach db clock := (db_reachable minute junk o db clock).

Implicit Types (db : TorrentDb T L).

Lemma sumZ_perm l l' : l ≡ₚ l' -> sumZ l = sumZ l'.
Proof. induction 1; simpl; try lia; congruence. Qed.

Lemma wrap_add_r n a b : 0 <= n -> wrap n (a + wrap n b) = wrap n (a + b).
Proof. intros Hn. unfold wrap. by rewrite Zplus_mod_idemp_r. Qed.
Lemma wrap_add_l n a b : 0 <= n -> wrap n (wrap n a + b) = wrap n (a + b).
Proof. intros Hn. unfold wrap. by rewrite Zplus_mod_idemp_l. Qed.

(** The torrents of a list of entries. *)
Definition torrents_at db (es : list (tkey * ptr)) : list (tkey * Torrent T L) :=
  omap (fun e => (fun t => (fst e, t)) <$> objects_ db !! snd e) es.

Lemma torrents_at_perm db clock :
  reach db clock ->
  map_to_list (swarms_of db) ≡ₚ prod_map id swarm_of <$> torrents_at db (t_entries (torrents_ db)).
Proof.
  intros Hd.
  assert (Hfst : forall es, ((torrents_at db es).*1) `sublist_of` es.*1).
  { induction es as [|[k p] es IH]; simpl; [done|].
    destruct (objects_ db !! p); simpl; by constructor. }
  apply NoDup_Permutation.
  - apply NoDup_map_to_list.
  - apply NoDup_fmap_1 with (f := fst). rewrite <- list_fmap_compose.
    apply (sublist_NoDup _ _ (t_entries_nodup (torrents_ db))), Hfst.
  - intros [k sw]. rewrite elem_of_map_to_list, swarms_of_lookup. split.
    + unfold lookup_torrent. destruct (t_find k (torrents_ db)) as [p|] eqn:Hk; simpl; [|done].
      destruct (objects_ db !! p) as [t|] eqn:Hp; simpl; [|done]. intros [= <-].
      apply list_elem_of_fmap. exists (k, t). split; [done|]. apply list_elem_of_omap.
      exists (k, p). rewrite t_entries_find. split; [done|]. simpl. by rewrite Hp.
    + intros ([k' t] & [= -> ->] & ([k1 p] & Hin & E)%list_elem_of_omap)%list_elem_of_fmap.
      simpl in E. apply t_entries_find in Hin. unfold lookup_torrent.
      destruct (objects_ db !! p) as [t1|] eqn:Hp; simpl in E; simplify_eq. rewrite Hin; simpl.
      by rewrite Hp.
Qed.

(** The totals as sums, each reduced once. *)
Definition totals_of (f : (Torrent T L -> Z) -> Z) : StatTotals :=
  {| total_leechers := wrap 64 (f leechers_); total_seeders := wrap 64 (f seeders_);
     total_length := wrap 64 (f length_); total_completed := wrap 64 (f completed_) |}.

Definition sum_at db es (f : Torrent T L -> Z) : Z := sumZ ((fun e => f (snd e)) <$> torrents_at db es).

Lemma stat_loop_sums es rows f db rows' a' :
  stat_loop o (w_to_base16 w) es rows (totals_of f) db = Some (rows', a') ->
  a' = totals_of (fun g => f g + sum_at db es g) /\
  rows' = rows ++ ((fun e => torrent_row o (w_to_base16 w) (snd e) (default 0 (version (snd e)))) <$> torrents_at db es).
Proof.
  revert rows f. induction es as [|[k p] es IH]; intros rows f E; cbn [stat_loop] in E.
  { simplify_eq. split; [|by rewrite app_nil_r]. unfold totals_of, sum_at; simpl. by rewrite !Z.add_0_r. }
  destruct (objects_ db !! p) as [t|] eqn:Hp; simpl in E; [|done].
  destruct (version t) as [v|] eqn:Hv; simpl in E; [|done].
  assert (Ha : add_totals t (totals_of f) = totals_of (fun g => f g + g t)).
  { unfold add_totals, totals_of; simpl. by rewrite !wrap_add_l. }
  rewrite Ha in E. apply IH in E as [-> ->]. unfold totals_of, sum_at; simpl. rewrite Hp; simpl. split.
  - by rewrite <- !Z.add_assoc.
  - rewrite Hv. simpl. by rewrite <- app_assoc.
Qed.

(** A sum over the torrents is the sum over their swarms. *)
Lemma sum_at_abs db clock (f : Torrent T L -> Z) (g : Swarm -> Z) :
  reach db clock ->
  (forall k t, lookup_torrent db k = Some t -> f t = g (swarm_of t)) ->
  sum_at db (t_entries (torrents_ db)) f = sum_of g (swarms_of db).
Proof.
  intros Hd Hfg. unfold sum_at, sum_of. symmetry.
  erewrite (sumZ_perm _ _ (fmap_Permutation _ _ _ (torrents_at_perm db clock Hd))).
  rewrite <- list_fmap_compose. f_equal. apply Forall_fmap_ext, Forall_forall.
  intros [k t] ([k1 p] & Hin & E)%list_elem_of_omap. simpl in E. apply t_entries_find in Hin.
  symmetry. apply (Hfg k1). unfold lookup_torrent. rewrite Hin; simpl.
  destruct (objects_ db !! p); simpl in E; [|done]. by simplify_eq.
Qed.

Lemma counters_abs db clock k t :
  reach db clock -> lookup_torrent db k = Some t ->
  leechers_ t = nb_leechers (sw_peers (swarm_of t)) /\ seeders_ t = nb_seeders (sw_peers (swarm_of t)).
Proof.
  intros Hd Hk. destruct (db_reachable_lookup minute junk o db clock _ t Ho Hd Hk) as (_ & ps & Hr & _).
  rewrite (swarm_represents t ps Hr). split; apply Hr.
Qed.

(** The row of a torrent is that of its swarm. *)
Lemma row_abs db clock k t :
  reach db clock -> lookup_torrent db k = Some t ->
  torrent_row o (w_to_base16 w) t (default 0 (version t)) = sw_row o w (swarm_of t).
Proof.
  intros Hd Hk. destruct (counters_abs db clock k t Hd Hk) as [El Es].
  destruct (db_reachable_lookup minute junk o db clock k t Ho Hd Hk) as ([Hn _] & _).
  unfold torrent_row, sw_row. rewrite El, Es. unfold version. simpl. by destruct (type_ (info_hash_ t)).
Qed.

Lemma rows_abs db clock :
  reach db clock ->
  ((fun e => torrent_row o (w_to_base16 w) (snd e) (default 0 (version (snd e)))) <$> torrents_at db (t_entries (torrents_ db)))
    ≡ₚ ((fun e => sw_row o w (snd e)) <$> map_to_list (swarms_of db)).
Proof.
  intros Hd. rewrite (torrents_at_perm db clock Hd), <- list_fmap_compose.
  apply Permutation_refl', Forall_fmap_ext, Forall_forall.
  intros [k t] ([k1 p] & Hin & E)%list_elem_of_omap. simpl in E. apply t_entries_find in Hin.
  apply (row_abs db clock k1); [done|]. unfold lookup_torrent. rewrite Hin; simpl.
  destruct (objects_ db !! p); simpl in E; [|done]. by simplify_eq.
Qed.

Lemma stat_abs db clock templates request :
  reach db clock ->
  exists page, stat_handle o (w_to_base16 w) (Some db) templates request =
      Some (fst (a_stat_handle o w templates request (swarms_of db)), page) /\
    option_Forall2 same_page page (snd (a_stat_handle o w templates request (swarms_of db))).
Proof.
  intros Hd. unfold stat_handle, a_stat_handle. destruct templates; simpl; [|exists None; by split; [|constructor]].
  pose proof (db_reachable_inv minute junk o db clock Ho Hd) as Hi.
  destruct (stat_loop_ok o w (t_entries (torrents_ db)) [] (totals_of (fun _ => 0)) db) as ([rows a] & E).
  { by eapply db_reachable_objects. }
  { intros k p Hin%t_entries_find. destruct (db_objects _ _ _ _ Hi _ _ Hin) as (t & Ht & _). eauto. }
  change {| total_leechers := 0; total_seeders := 0; total_length := 0; total_completed := 0 |}
    with (totals_of (fun _ => 0)). rewrite E; simpl. apply stat_loop_sums in E as [-> ->].
  eexists. split; [done|]. constructor. unfold same_page; simpl. split_and!; [done|done|by eapply rows_abs|].
  unfold totals_of, a_totals. rewrite !Z.add_0_l.
  f_equal; f_equal; eapply sum_at_abs; try done; intros k t Hk;
    destruct (counters_abs db clock k t Hd Hk); done.
Qed.

(** Every handler. *)
Lemma handle_abs now hd request templates db clock :
  reach db clock -> clock <= now ->
  exists db' out c, handle minute o w now hd request templates db = Some (db', out) /\
    same_out out (snd (a_handle minute o w now hd request templates (swarms_of db))) /\
    reach db' c /\ c <= now /\
    swarms_of db' = fst (a_handle minute o w now hd request templates (swarms_of db)).
Proof.
  intros Hd Hc.
  assert (Hsame : forall out aout, same_out out aout -> exists db' out' c, Some (db, out) = Some (db', out') /\
    same_out out' aout /\ reach db' c /\ c <= now /\ swarms_of db' = swarms_of db).
  { intros out aout Hout. by exists db, out, clock. }
  destruct hd; cbn [handle a_handle].
  - by apply Hsame.
  - unfold announce_handle, a_announce_handle. case_decide; [by apply Hsame|].
    destruct (announce_abs minute o w Ho db clock now (http_announce_request junk o (w_inet_pton4 w)
      (w_inet_pton6 w) junk request) Hd Hc) as (db' & -> & Hd' & E). simpl.
    eexists db', _, now. split; [done|]. rewrite E. destruct (a_announce _ _ _ _ _); simpl. auto with lia.
  - unfold scrape_handle. rewrite (scrape_abs minute o w Ho db clock) by done. by apply Hsame.
  - destruct (stat_abs db clock templates request Hd) as (page & -> & Hp). simpl in *.
    destruct (a_stat_handle o w templates request _). by apply Hsame.
  - unfold peers_handle, a_peers_handle. case_decide; [by apply Hsame|].
    destruct templates; simpl; [|by apply Hsame]. rewrite swarms_of_lookup.
    unfold lookup_torrent. destruct (t_find _ _) as [p|] eqn:Hk; simpl; [|by apply Hsame].
    pose proof (db_reachable_inv minute junk o db clock Ho Hd) as Hi.
    destruct (db_objects _ _ _ _ Hi _ _ Hk) as (t & -> & _). simpl. by apply Hsame.
  - rewrite (file_handle_never_serves minute junk o (w_base16 w) db clock request Ho Hd). by apply Hsame.
Qed.

(** ** The UDP server *)
Context `{SListLaws Q SendToBuffer}.

Implicit Types (s : UdpServer T L Q).

(** The server without the database. *)
Definition face_of s : UdpServer unit unit Q :=
  {| secrets_ := secrets_ s; sbufs_ := sbufs_ s; next_timeout_ := next_timeout_ s; tdb_ := None |}.

Lemma face_push mem addr d s : face_of (push_buffer mem addr d s) = push_buffer mem addr d (face_of s).
Proof. by destruct mem. Qed.

Lemma face_with_tdb s db : face_of (with_tdb s db) = face_of s.
Proof. done. Qed.

Lemma push_tdb mem addr d s : tdb_ (push_buffer mem addr d s) = tdb_ s.
Proof. by destruct mem. Qed.

(** A server on a reachable database, and the abstract server it stands for. *)
Definition udp_abs (now : Z) s (r : UdpServer unit unit Q * Swarms) : Prop :=
  exists db c, tdb_ s = Some db /\ reach db c /\ c <= now /\ face_of s = fst r /\ swarms_of db = snd r.

Lemma handleAnnounce_abs now ann size addr mem s u m :
  udp_abs now s (u, m) ->
  exists s', handleAnnounce minute junk o now ann size addr mem s = Some s' /\
    udp_abs now s' (a_handleAnnounce minute o w now ann size addr mem u m).
Proof.
  intros (db & c & Hs & Hd & Hc & Hu & Hm). simpl in Hu, Hm. subst u m.
  unfold handleAnnounce, a_handleAnnounce.
  case_decide; [by exists s; split; [|exists db, c]|].
  change (checkConnectionId (face_of s) (ann_connection_id_ ann) addr)
    with (checkConnectionId s (ann_connection_id_ ann) addr).
  destruct (checkConnectionId s _ _); simpl; [|by exists s; split; [|exists db, c]]. rewrite Hs.
  destruct (announce_abs minute o w Ho db c now (announce_request junk o ann addr) Hd Hc)
    as (db' & -> & Hd' & E). simpl.
  destruct (a_announce _ _ _ _ _) as [m' rp]; simpl in *. eexists. split; [done|].
  exists db', now. unfold sendFailure. destruct (error_ rp); rewrite push_tdb, face_push; simpl; done.
Qed.

Lemma handleScrape_abs now b size addr mem s u m :
  udp_abs now s (u, m) ->
  exists s', handleScrape o b size addr mem s = Some s' /\
    udp_abs now s' (a_handleScrape o b size addr mem u m, m).
Proof.
  intros (db & c & Hs & Hd & Hc & Hu & Hm). simpl in Hu, Hm. subst u m.
  unfold handleScrape, a_handleScrape.
  case_decide; [by exists s; split; [|exists db, c]|].
  change (checkConnectionId (face_of s) (conn_connection_id_ (view_conn b)) addr)
    with (checkConnectionId s (conn_connection_id_ (view_conn b)) addr).
  destruct (checkConnectionId s _ _); simpl; [|by exists s; split; [|exists db, c]]. rewrite Hs.
  rewrite (scrape_abs minute o w Ho db c) by done. simpl. eexists. split; [done|].
  exists db, c. rewrite push_tdb, face_push. done.
Qed.

Lemma dispatch_abs now addr b mem s u m :
  udp_abs now s (u, m) ->
  exists s', dispatch minute junk o now addr b mem s = Some s' /\
    udp_abs now s' (a_dispatch minute o w now addr b mem u m).
Proof.
  intros Hs. unfold dispatch, a_dispatch. case_decide; [|case_decide; [by apply handleAnnounce_abs|
    case_decide; [by apply handleScrape_abs|by exists s]]].
  eexists. split; [done|]. destruct Hs as (db & c & Hs & Hd & Hc & Hu & Hm). simpl in Hu, Hm. subst u m.
  exists db, c. unfold handleConnect. case_decide; [done|]. rewrite push_tdb, face_push. done.
Qed.

Lemma receive_abs now rs s u m :
  udp_abs now s (u, m) ->
  exists s', receive minute junk o now rs s = Some s' /\
    udp_abs now s' (a_receive minute o w now rs u m).
Proof.
  revert s u m. induction rs as [|r rs IH]; intros s u m Hs; simpl; [by exists s|].
  assert (Hq : sbufs_ u = sbufs_ s) by (destruct Hs as (? & ? & _ & _ & _ & Hu & _); simpl in Hu; by subst u).
  rewrite Hq. case_decide; [|by exists s]. destruct r as [|addr b mem]; [by exists s|].
  case_decide; [by apply IH|].
  destruct (dispatch_abs now addr (take sizeof_buffer b) mem s u m Hs) as (s1 & -> & Hs1). simpl.
  destruct (a_dispatch _ _ _ _ _ _ _ _ _) as [u1 m1]. by apply IH.
Qed.

Lemma face_send rs s out :
  face_of (fst (send rs s out)) = fst (send rs (face_of s) out) /\
  snd (send rs s out) = snd (send rs (face_of s) out).
Proof.
  revert s out. induction rs as [|r rs IH]; intros s out; simpl; [by destruct (q_items _)|].
  destruct (q_items _), r; simpl; try done; apply IH.
Qed.

Lemma run_turn_abs second millisecond now rnd p s u m :
  udp_abs now s (u, m) ->
  exists s', run_turn minute second junk o now millisecond rnd p s
    = Some (s', snd (a_run_turn minute second millisecond o w now rnd p u m)) /\
    udp_abs now s' (fst (a_run_turn minute second millisecond o w now rnd p u m)).
Proof.
  intros Hs. unfold run_turn, a_run_turn.
  pose proof Hs as (db & c & Hs1 & Hd & Hc & Hu & Hm). simpl in Hu, Hm. subst u m.
  change (next_timeout_ (face_of s)) with (next_timeout_ s).
  case_decide; [by eexists; split; [|exists db, c]|].
  destruct p as [| |rs|rs]; [by eexists; split; [|exists db, c]..| |].
  - pose proof (face_send rs s []) as [E1 E2]. pose proof (send_tdb rs s []) as Et.
    destruct (send rs s []) as [s' out], (send rs (face_of s) []) as [u' out']. simpl in *.
    exists s'. split; [by rewrite E2|]. exists db, c. rewrite Et. done.
  - destruct (receive_abs now rs s (face_of s) (swarms_of db) Hs) as (s' & -> & Hs'). simpl.
    exists s'. by destruct (a_receive _ _ _ _ _ _ _).
Qed.
End Pages.

(** ** The daemon *)
Section Daemon.
Context {T L Q : Type} `{TrieLaws T} `{DListLaws L} `{SListLaws Q SendToBuffer}.
Context (minute second millisecond : Z) (o : Options) (w : World).
Hypothesis Ho : options_ok o.
Hypothesis parse_ok : forall path d, w_parseFile w path = Some d ->
  length (d_info_hash_v1 d) = 20%nat /\ length (d_info_hash_v2 d) = 32%nat.

Notation reach db clock := (db_reachable minute (w_junk w) o db clock).
Notation step := (step minute second millisecond o w).
Notation run := (run minute second millisecond o w).
Notation Hefur_new := (Hefur_new second millisecond o w).
Notation a_step := (a_step minute second millisecond o w).
Notation a_run := (a_run minute second millisecond o w).

Implicit Types (h : Hefur T L Q).

Definition routes_of (srv : option HttpServer) : option (list (string * Handler)) :=
  mh_routes <$> (srv ≫= (fun s => snd (http_run_turn s))).

Definition server_face (u : UdpProc T L Q) : option (UdpServer unit unit Q) :=
  if udp_serves u then Some (face_of (udp u)) else None.

(** What a daemon is, seen from outside. *)
Definition tracker_of h : Tracker Q :=
  {| tr_swarms := swarms_of (hf_tdb h); tr_wl := hf_wl h; tr_http := routes_of (hf_http h);
     tr_https := routes_of (hf_https h); tr_udp := hf_udp h ≫= server_face |}.

Definition db_ok (clock : Z) h : Prop := exists c, c <= clock /\ reach (hf_tdb h) c.

Lemma tracker_of_new env : tracker_of (Hefur_new env) = tracker_new second o env.
Proof.
  unfold tracker_of, tracker_new, Tracker.Hefur_new. cbn. rewrite swarms_of_new. f_equal.
  - case_decide; [|done]. by destruct (http_listens env).
  - case_decide; [|done]. by destruct (https_listens env).
  - unfold udp_start. cbn. repeat case_decide; try done; try lia; cbn;
      destruct (env_bind (udp_env env)) eqn:Eb; cbn; try done; intuition congruence || lia.
Qed.

Lemma serve_abs clock now (tls : bool) path request templates h :
  db_ok clock h -> clock <= now ->
  let r := a_serve minute o w now (routes_of (if tls then hf_https h else hf_http h)) path request
             templates (tracker_of h) in
  exists h' out, serve minute o w now (if tls then hf_https h else hf_http h) path request templates h
    = Some (h', out) /\ option_Forall2 same_out out (snd r) /\ tracker_of h' = fst r /\ db_ok now h'.
Proof.
  intros (c & Hcc & Hd) Hc. unfold serve, a_serve, routes_of.
  assert (Hsame : db_ok now h) by (exists c; split; [lia|done]).
  destruct (_ ≫= _) as [mh|]; simpl; [|by exists h, None].
  destruct (w_route w _ path) as [hd|]; simpl; [|by exists h, (Some OutNoRoute)].
  destruct (handle_abs minute o w Ho now hd (logged o w request) templates (hf_tdb h) c Hd ltac:(lia))
    as (db' & out & c' & -> & Hout & Hd' & Hc' & E). simpl.
  destruct (a_handle _ _ _ _ _ _ _ _) as [m aout]; simpl in *.
  eexists _, _. split; [done|]. split; [by constructor|]. split; [|by exists c'].
  unfold tracker_of, with_swarms, set_db; simpl. by rewrite E.
Qed.

Lemma udp_turn_of clock now rnd p h :
  db_ok clock h -> clock <= now ->
  let r := a_udp_turn minute second millisecond o w now rnd p (tracker_of h) in
  exists h', udp_turn minute second millisecond o w now rnd p h = Some (h', snd r) /\
    tracker_of h' = fst r /\ db_ok now h'.
Proof.
  intros (c & Hcc & Hd) Hc. unfold udp_turn, a_udp_turn; simpl.
  assert (Hsame : db_ok now h) by (exists c; split; [lia|done]).
  destruct (hf_udp h) as [u|] eqn:Eu; simpl; [|by exists h].
  unfold server_face. destruct (udp_serves u) eqn:Es; [|by exists h].
  destruct (run_turn_abs minute o w Ho second millisecond now rnd p (with_tdb (udp u) (hf_tdb h))
    (face_of (udp u)) (swarms_of (hf_tdb h))) as (u' & -> & db' & c' & E1 & Hd' & Hc' & E2 & E3).
  { exists (hf_tdb h), c. split; [done|]. split; [done|]. split; [lia|done]. }
  simpl. destruct (a_run_turn _ _ _ _ _ _ _ _ _ _) as [[u2 m2] out]; simpl in *.
  eexists. split; [done|]. rewrite E1; simpl. split; [|by exists c'].
  unfold tracker_of; simpl. unfold server_face, udp_serves in *; simpl in *.
  rewrite Es. by rewrite E2, E3.
Qed.

Lemma step_abs clock now e h :
  db_ok clock h -> clock <= now ->
  exists h' out, step now e h = Some (h', out) /\ same_output out (snd (a_step now e (tracker_of h))) /\
    tracker_of h' = fst (a_step now e (tracker_of h)) /\ db_ok now h'.
Proof.
  intros Hh Hc. pose proof Hh as (c & Hcc & Hd). pose proof (Z.le_trans _ _ _ Hcc Hc) as Hcn.
  assert (Hsame : db_ok now h) by (by exists c).
  destruct e as [tls path request templates|rnd p| |paths|]; cbn [Tracker.step TrackerSpec.a_step].
  - destruct (serve_abs clock now tls path request templates h Hh Hc) as (h' & out & -> & Hout & E & Hh').
    exists h', (OutHttp out). simpl. destruct tls; simpl in *; destruct (a_serve _ _ _ _ _ _ _ _ _); simpl in *; done.
  - destruct (udp_turn_of clock now rnd p h Hh Hc) as (h' & -> & E & Hh'). eexists h', _. simpl. split; [done|].
    by destruct (a_udp_turn _ _ _ _ _ _ _ _ _).
  - destruct (db_cleanup_ok minute o c now (hf_tdb h) Ho ltac:(lia)
      (db_reachable_inv minute (w_junk w) o _ _ Ho Hd)) as (db' & E & _).
    rewrite E; simpl. eexists _, _. split; [done|]. split; [done|]. split.
    + unfold tracker_of, with_swarms; simpl. by rewrite (cleanup_abs minute o w Ho now _ c db' Hd Hcn E).
    + exists now. split; [lia|]. by eapply dr_cleanup; [exact Hd|lia|].
  - eexists _, _. split; [done|]. simpl. destruct (hf_wl h) eqn:Ew; [|done]. split; [done|]. split.
    + unfold tracker_of, with_swarms; simpl. by rewrite (scan_abs minute o w Ho parse_ok _ _ c Hd).
    + exists c. split; [lia|]. by apply scan_loop_reachable.
  - simpl. destruct (hf_wl h) eqn:Ew; [|by exists h, OutNothing].
    destruct (check_reachable minute (w_junk w) o (w_vanished w) (TORRENT_DIR o) (hf_tdb h) c Ho Hd)
      as (db' & E & Hd'). rewrite E; simpl. eexists _, _. split; [done|]. split; [done|]. split; [|by exists c].
    unfold tracker_of, with_swarms; simpl. by rewrite (check_abs minute o w Ho _ c db' Hd E).
Qed.

(** The date of the last event of a run. *)
Fixpoint last_date (clock : Z) (es : list (Z * Event_)) : Z :=
  match es with [] => clock | (now, _) :: es => last_date now es end.

Lemma run_abs clock es h :
  db_ok clock h -> dated clock es ->
  exists h' outs, run es h = Some (h', outs) /\ Forall2 same_output outs (snd (a_run es (tracker_of h))) /\
    tracker_of h' = fst (a_run es (tracker_of h)) /\ db_ok (last_date clock es) h'.
Proof.
  revert clock h. induction es as [|[now e] es IH]; intros clock h Hh Hes; simpl; [by exists h, []; split_and!|].
  destruct Hes as [Hc Hes].
  destruct (step_abs clock now e h Hh Hc) as (h1 & out & -> & Hout & E1 & Hh1). simpl.
  destruct (IH now h1 Hh1 Hes) as (h' & outs & -> & Houts & E2 & Hh'). simpl. rewrite E1 in *.
  destruct (a_step now e (tracker_of h)) as [t1 out1]; simpl in *.
  destruct (a_run es t1) as [t2 outs2]; simpl in *. exists h', (out :: outs). auto.
Qed.

Lemma new_abs env clock es :
  dated clock es ->
  exists h outs, run es (Hefur_new env) = Some (h, outs) /\
    Forall2 same_output outs (snd (a_run es (tracker_new second o env))) /\
    tracker_of h = fst (a_run es (tracker_new second o env)) /\ db_ok (last_date clock es) h.
Proof.
  intros Hes. rewrite <- (tracker_of_new env). apply run_abs; [|done].
  exists clock. split; [done|]. apply dr_new.
Qed.

(** C1. The daemon implements the abstract tracker: from its start, for every
    configuration with [0 <= MIN_NUMWANT <= MAX_NUMWANT < 2^31] and
    [0 <= MAX_PEERS < 2^32 - 1] ([options_ok]), whatever the outcome of the start,
    every sequence of HTTP requests, UDP turns, cleanups, scans and checks
    runs to its end, gives output for output (bodies, packets, the rows and
    links of the pages) what the total functions on the map from keys to
    swarms give, and leaves a daemon that stands for the map they leave.  The
    rows of the page of the torrents, which the code lists in the order of its
    trie, are those of the swarms in any order. *)
Theorem daemon_implements_tracker env clock es :
  dated clock es ->
  exists h outs, run es (Hefur_new env) = Some (h, outs) /\
    Forall2 same_output outs (snd (a_run es (tracker_new second o env))) /\
    tracker_of h = fst (a_run es (tracker_new second o env)).
Proof.
  intros Hes. destruct (new_abs env clock es Hes) as (h & outs & E & Ho' & Et & _). by exists h, outs.
Qed.
End Daemon.

(** ** Witnesses *)
Lemma daemon_implements_tracker_witness :
  exists h outs, run Demo.minute 1000 1 SessionDemo.options SessionDemo.world SessionDemo.events
      SessionDemo.start = Some (h, outs) /\
    Forall2 same_output outs (snd (a_run Demo.minute 1000 1 SessionDemo.options SessionDemo.world
      SessionDemo.events (tracker_new 1000 SessionDemo.options SessionDemo.env))).
Proof.
  destruct (daemon_implements_tracker (T := gmap tkey ptr) (L := list ptr) Demo.minute 1000 1
    SessionDemo.options SessionDemo.world SessionDemo.options_ok_ SessionDemo.parse_ok_ SessionDemo.env 0
    SessionDemo.events SessionDemo.dated_) as (h & outs & E & Ho & _).
  exists h, outs. split; [exact E|exact Ho].
Defined.
