(* ===== verification/TrackerClients.v ===== *)
(** What the clients of the tracker can rely on, over whole runs of the daemon:
    the addresses they get were announced, an announced peer stays, and
    nothing depends on the containers.  All of it is proved on the abstract
    tracker and carried to the daemon by the refinement. *)
From stdpp Require Import base list gmap strings.
From Stdlib Require Import ZArith Lia.
From S2P Require Import Prelude Containers Options Address InfoHash Announce Torrent TorrentSpec TorrentTheorems TorrentDb FsTreeWhiteList UdpServer UdpTheorems HttpHandlers HttpTheorems Lifecycle Tracker TrackerTheorems SessionTheorems TrackerSpec TrackerRefinement.

(** ** Where the peers come from *)
Section Origin.
Context {Q : Type} `{SList Q SendToBuffer}.
Context (minute second millisecond : Z) (o : Options) (w : World).

(** The announce of a packet: one with the action and the size. *)
Definition packet_announce (r : Received) : option AnnounceRequest :=
  match r with
  | RecvPacket addr b _ =>
      let b := take sizeof_buffer b in
      if decide (conn_action_ (view_conn b) = 1 /\ (sizeof_AnnounceRequest <= length b)%nat)
      then Some (announce_request (w_junk w) o (view_ann b) addr) else None
  | RecvError => None
  end.

Lemma packet_announce_some addr b mem : let b' := take sizeof_buffer b in
  conn_action_ (view_conn b') = 1 -> (sizeof_AnnounceRequest <= length b')%nat ->
  packet_announce (RecvPacket addr b mem) = Some (announce_request (w_junk w) o (view_ann b') addr).
Proof. intros b' Ha Hl. unfold packet_announce. fold b'. by rewrite decide_True. Qed.

(** The announces an event carries: a request routed to the announce handler
    with a peer id and an info hash of 20 bytes, or the packets of a batch with
    the action and the size of an announce. *)
Definition announces_of (e : Event_) : list AnnounceRequest :=
  match e with
  | EvHttp _ path request _ =>
      match w_route w (http_routes o) path with
      | Some AnnounceHandler =>
          if decide (length (queryGet request "peer_id") <> 20 \/ length (queryGet request "info_hash") <> 20)%nat
          then []
          else [http_announce_request (w_junk w) o (w_inet_pton4 w) (w_inet_pton6 w) (w_junk w)
                  (logged o w request)]
      | _ => []
      end
  | EvUdp _ (PollIn rs) => omap packet_announce rs
  | _ => []
  end.

(** The servers of a tracker have the daemon's routes. *)
Definition routed (t : Tracker Q) : Prop :=
  forall rs, tr_http t = Some rs \/ tr_https t = Some rs -> rs = http_routes o.

Lemma routed_new env : routed (tracker_new second o env).
Proof. intros rs. simpl. intros [E|E]; repeat case_decide; repeat case_match; by simplify_eq. Qed.

Lemma step_routed now e (t : Tracker Q) :
  routed t -> routed (fst (a_step minute second millisecond o w now e t)).
Proof.
  intros Ht. destruct e as [tls path request templates|rnd p| |paths|]; cbn [a_step]; [| |done..| |].
  - unfold a_serve. destruct (if tls then _ else _) as [rs|]; [|done].
    destruct (w_route w rs path); [|done]. by destruct (a_handle _ _ _ _ _ _ _ _).
  - unfold a_udp_turn. destruct (tr_udp t); [|done]. by destruct (a_run_turn _ _ _ _ _ _ _ _ _ _) as [[? ?] ?].
  - simpl. by destruct (tr_wl t).
  - simpl. by destruct (tr_wl t).
Qed.

Lemma run_routed es (t : Tracker Q) :
  routed t -> routed (fst (a_run minute second millisecond o w es t)).
Proof.
  revert t. induction es as [|[now e] es IH]; intros t Ht; simpl; [done|].
  pose proof (step_routed now e t Ht) as Ht1. destruct (a_step _ _ _ _ _ _ _ _) as [t1 out]; simpl in Ht1.
  specialize (IH t1 Ht1). by destruct (a_run _ _ _ _ _ _ _).
Qed.

Definition asks (e : Event_) (rq : AnnounceRequest) : Prop := rq ∈ announces_of e.

(** Every peer of every swarm is the peer some event announced. *)
Definition announced_in (es : list (Z * Event_)) (m : Swarms) : Prop :=
  forall k sw q, m !! k = Some sw -> q ∈ sw_peers sw ->
    exists now e rq, (now, e) ∈ es /\ asks e rq /\ rq_event_ rq <> kStopped /\
      bytes (rq_info_hash_ rq) = k /\ q = peer_of minute o now rq.

Lemma announced_mono es es' m : (forall x, x ∈ es -> x ∈ es') -> announced_in es m -> announced_in es' m.
Proof. intros He Hm k sw q Hk Hq. destruct (Hm k sw q Hk Hq) as (now & e & rq & Hin & Hr). eauto 10. Qed.

Lemma spec_peers_in now rq ps q :
  q ∈ spec_peers minute o now rq ps -> q ∈ ps \/ rq_event_ rq <> kStopped /\ q = peer_of minute o now rq.
Proof.
  assert (Ht : forall l : list Peer, q ∈ tail l -> q ∈ l) by (intros [|x l]; [done|by right]).
  unfold spec_peers, trim, announced, remove_key. case_decide as Hs.
  - intros [_ Hq]%list_elem_of_filter. by left.
  - intros Hq. assert (Hin : q ∈ filter (fun r => Peer_addr r <> Peer_addr (peer_of minute o now rq)) ps
      ++ [peer_of minute o now rq]) by (case_decide; auto).
    apply elem_of_app in Hin as [[_ Hin]%list_elem_of_filter|Hin]; [by left|].
    apply list_elem_of_singleton in Hin. by right.
Qed.

Lemma announce_origin es now e rq m :
  (now, e) ∈ es -> asks e rq -> announced_in es m -> announced_in es (fst (a_announce minute o now rq m)).
Proof.
  intros Hin Ha Hm. unfold a_announce. destruct (m !! _) as [sw|] eqn:Hsw; simpl; [|done].
  intros k sw' q Hk Hq. apply lookup_insert_Some in Hk as [[<- <-]|[_ Hk]]; [|by eapply Hm].
  simpl in Hq. apply spec_peers_in in Hq as [Hq|[He ->]]; [by eapply Hm|]. by exists now, e, rq.
Qed.

(** Operations that only lose peers. *)
Lemma announced_sub es m m' :
  announced_in es m ->
  (forall k sw, m' !! k = Some sw -> sw_peers sw = [] \/
    exists sw', m !! k = Some sw' /\ forall q, q ∈ sw_peers sw -> q ∈ sw_peers sw') ->
  announced_in es m'.
Proof.
  intros Hm Hs k sw q Hk Hq. destruct (Hs k sw Hk) as [E|(sw' & Hk' & Hsub)].
  - rewrite E in Hq. by apply not_elem_of_nil in Hq.
  - eapply Hm; [exact Hk'|]. by apply Hsub.
Qed.

Lemma add_origin es ih name path len m : announced_in es m -> announced_in es (a_add ih name path len m).
Proof.
  intros Hm. apply (announced_sub _ m); [done|]. unfold a_add. intros k sw.
  rewrite lookup_union_Some_raw. intros [Hk|[_ Hk]].
  - right. by exists sw.
  - apply lookup_singleton_Some in Hk as [_ <-]. by left.
Qed.

Lemma scan_origin es paths m : announced_in es m -> announced_in es (a_scan o w paths m).
Proof.
  unfold a_scan. revert m. induction (visited o paths) as [|p l IH]; intros m Hm; simpl; [done|].
  apply IH. unfold a_scan_path. destruct (w_is_torrent w p); [|done].
  destruct (w_parseFile w p); [|done]. by do 2 apply add_origin.
Qed.

Lemma check_origin es m : announced_in es m -> announced_in es (a_check o w m).
Proof.
  intros Hm. apply (announced_sub _ m); [done|]. intros k sw [Hk _]%map_lookup_filter_Some. right. eauto.
Qed.

Lemma cleanup_origin es now m : announced_in es m -> announced_in es (a_cleanup now m).
Proof.
  intros Hm. apply (announced_sub _ m); [done|]. intros k sw Hk. unfold a_cleanup in Hk.
  rewrite lookup_fmap_Some in Hk. destruct Hk as (sw' & <- & Hk). right. exists sw'. split; [done|].
  intros q. simpl. by intros [_ Hq]%list_elem_of_filter.
Qed.

Lemma receive_origin es now rnd rs0 rs (u : UdpServer unit unit Q) m :
  (now, EvUdp rnd (PollIn rs0)) ∈ es -> (forall r, r ∈ rs -> r ∈ rs0) -> announced_in es m ->
  announced_in es (snd (a_receive minute o w now rs u m)).
Proof.
  intros Hin. revert u m. induction rs as [|r rs IH]; intros u m Hrs Hm; simpl; [done|].
  case_decide; [|done]. destruct r as [|addr b mem]; [done|].
  assert (Hrs' : forall r, r ∈ rs -> r ∈ rs0) by (intros r Hr; apply Hrs; by right).
  pose proof (packet_announce_some addr b mem) as Hpa. cbv zeta in Hpa |- *. generalize dependent (take sizeof_buffer b).
  intros b' Hpa. case_decide; [by apply IH|].
  destruct (a_dispatch _ _ _ _ _ _ _ _ _) as [u1 m1] eqn:E. apply IH; [done|].
  unfold a_dispatch, a_handleAnnounce in E. repeat case_decide; simplify_eq; try done.
  destruct (negb _); simplify_eq; [done|].
  destruct (a_announce _ _ _ _ _) as [m2 rp] eqn:Ea; simplify_eq.
  replace m1 with (fst (a_announce minute o now (announce_request (w_junk w) o (view_ann b') addr) m))
    by (by rewrite Ea).
  eapply announce_origin; [exact Hin| |done]. unfold asks; simpl. apply list_elem_of_omap.
  exists (RecvPacket addr b mem). split; [apply Hrs; left|]. apply Hpa; [done|lia].
Qed.

Lemma step_origin es now e (t : Tracker Q) :
  routed t -> (now, e) ∈ es -> announced_in es (tr_swarms t) ->
  announced_in es (tr_swarms (fst (a_step minute second millisecond o w now e t))).
Proof.
  intros Hrt Hin Ht. destruct e as [tls path request templates|rnd p| |paths|]; cbn [a_step].
  - unfold a_serve. destruct (if tls then tr_https t else tr_http t) as [rs|] eqn:Ers; [|done].
    assert (rs = http_routes o) as -> by (apply Hrt; destruct tls; auto).
    destruct (w_route w _ path) as [hd|] eqn:Ert; [|done].
    destruct hd; simpl; try done.
    + unfold a_announce_handle. case_decide as Hg; [done|].
      assert (Ha : announces_of (EvHttp tls path request templates)
        = [http_announce_request (w_junk w) o (w_inet_pton4 w) (w_inet_pton6 w) (w_junk w) (logged o w request)]).
      { simpl. by rewrite Ert, decide_False. }
      pose proof (announce_origin es now (EvHttp tls path request templates) _ (tr_swarms t) Hin
        ltac:(unfold asks; rewrite Ha; left) Ht) as Ho.
      by destruct (a_announce _ _ _ _ _).
    + by destruct (a_stat_handle _ _ _ _ _).
    + by destruct (a_peers_handle _ _ _ _).
  - unfold a_udp_turn. destruct (tr_udp t) as [u|]; [|done]. unfold a_run_turn. case_decide; [done|].
    destruct p as [| |rs|rs]; [done..| |].
    + by destruct (send rs u []).
    + pose proof (receive_origin es now rnd rs rs u (tr_swarms t) Hin (fun _ => id) Ht) as Ho.
      by destruct (a_receive _ _ _ _ _ _ _).
  - simpl. by apply cleanup_origin.
  - simpl. destruct (tr_wl t); [by apply scan_origin|done].
  - simpl. destruct (tr_wl t); [by apply check_origin|done].
Qed.

Lemma run_origin es0 es (t : Tracker Q) :
  routed t -> (forall x, x ∈ es -> x ∈ es0) -> announced_in es0 (tr_swarms t) ->
  announced_in es0 (tr_swarms (fst (a_run minute second millisecond o w es t))).
Proof.
  revert t. induction es as [|[now e] es IH]; intros t Hrt Hes Ht; simpl; [done|].
  pose proof (step_origin es0 now e t Hrt ltac:(apply Hes; left) Ht) as H1.
  pose proof (step_routed now e t Hrt) as Hrt1.
  destruct (a_step _ _ _ _ _ _ _ _) as [t1 out]; simpl in H1, Hrt1.
  specialize (IH t1 Hrt1 ltac:(intros x Hx; apply Hes; by right) H1).
  by destruct (a_run _ _ _ _ _ _ _).
Qed.
End Origin.

(** ** How long a peer stays *)
Section Staying.
Context {Q : Type} `{SList Q SendToBuffer}.
Context (minute second millisecond : Z) (o : Options) (w : World).

Implicit Types (q : Peer).

(** [q] is in the swarm with [n] peers after it at most, and the file is there. *)
Definition stays (k : tkey) q (n : nat) (m : Swarms) : Prop :=
  exists sw l1 l2, m !! k = Some sw /\ sw_peers sw = l1 ++ q :: l2 /\ (length l2 <= n)%nat /\
    w_vanished w (sw_path sw) = false.

Lemma stays_le k q n n' m : (n <= n')%nat -> stays k q n m -> stays k q n' m.
Proof. intros Hn (sw & l1 & l2 & Hk & Hp & Hl & Hv). exists sw, l1, l2. split; [done|]. split; [done|]. split; [lia|done]. Qed.

(** Filtering the peers around it. *)
Lemma filter_around (P : Peer -> Prop) `{!forall x, Decision (P x)} l1 q l2 :
  P q -> filter P (l1 ++ q :: l2) = filter P l1 ++ q :: filter P l2 /\
    (length (filter P l2) <= length l2)%nat.
Proof. intros Hq. rewrite filter_app, filter_cons_True by done. split; [done|apply length_filter]. Qed.

Lemma announce_stays now rq k q n m :
  stays k q n m ->
  (bytes (rq_info_hash_ rq) = k ->
     Z.of_nat (S n) < MAX_PEERS o /\ Address.key (rq_addr_ rq) <> Peer_addr q) ->
  stays k q (if decide (bytes (rq_info_hash_ rq) = k) then S n else n) (fst (a_announce minute o now rq m)).
Proof.
  intros (sw & l1 & l2 & Hk & Hp & Hl & Hv) Hne. unfold a_announce.
  destruct (decide (bytes (rq_info_hash_ rq) = k)) as [Hb|Hb].
  2: { destruct (m !! bytes _); simpl; exists sw, l1, l2; [|done]. by rewrite lookup_insert_ne. }
  rewrite Hb, Hk; simpl. destruct (Hne Hb) as [Hmax Hne'].
  assert (Hq : Peer_addr q <> Peer_addr (peer_of minute o now rq)) by (intros E; by apply Hne').
  destruct (filter_around (fun x => Peer_addr x <> Peer_addr (peer_of minute o now rq)) l1 q l2 Hq) as [Ef Hlf].
  exists (sw_announce minute o now rq sw). unfold sw_announce, spec_peers; simpl.
  rewrite lookup_insert_eq, Hp. unfold trim, announced, remove_key. rewrite Ef.
  set (f1 := filter _ l1) in *. set (f2 := filter _ l2) in *. clearbody f1 f2.
  case_decide as Hs; [|case_decide as Ht].
  - exists f1, f2. split; [done|]. split; [done|]. split; [lia|done].
  - exists (tail f1), (f2 ++ [peer_of minute o now rq]).
    rewrite <- app_assoc in *; simpl in *. split; [done|]. split; [|split; [rewrite length_app; simpl; lia|done]].
    destruct f1; [|done]. exfalso. simpl in Ht. rewrite length_app in Ht. simpl in Ht. lia.
  - exists f1, (f2 ++ [peer_of minute o now rq]). rewrite <- app_assoc; simpl.
    split; [done|]. split; [done|]. split; [rewrite length_app; simpl; lia|done].
Qed.

Lemma cleanup_stays now k q n m : stays k q n m -> now < timeout_ts_ q -> stays k q n (a_cleanup now m).
Proof.
  intros (sw & l1 & l2 & Hk & Hp & Hl & Hv) Hq.
  destruct (filter_around (fun x => now < timeout_ts_ x) l1 q l2 Hq) as [Ef Hlf].
  exists (sw_cleanup now sw). unfold a_cleanup. rewrite lookup_fmap, Hk. unfold sw_cleanup; simpl.
  rewrite Hp, Ef. do 2 eexists. split; [done|]. split; [done|]. split; [lia|done].
Qed.

Lemma scan_stays paths k q n m : stays k q n m -> stays k q n (a_scan o w paths m).
Proof.
  assert (Hadd : forall ih name path len m, stays k q n m -> stays k q n (a_add ih name path len m)).
  { intros ih name path len m' (sw & l1 & l2 & Hk & Hr). exists sw, l1, l2. split; [|done].
    unfold a_add. by apply lookup_union_Some_l. }
  unfold a_scan. revert m. induction (visited o paths) as [|p l IH]; intros m Hm; simpl; [done|].
  apply IH. unfold a_scan_path. destruct (w_is_torrent w p); [|done]. destruct (w_parseFile w p); auto.
Qed.

Lemma check_stays k q n m : stays k q n m -> stays k q n (a_check o w m).
Proof.
  intros (sw & l1 & l2 & Hk & Hp & Hl & Hv). exists sw, l1, l2. split; [|done]. unfold a_check.
  apply map_lookup_filter_Some. split; [done|]. simpl. unfold sw_lost. rewrite Hv, andb_false_r. by intros [].
Qed.

(** Some announces for the key, of which the code serves a part. *)
Definition few (k : tkey) q (n : nat) (l : list AnnounceRequest) : Prop :=
  Z.of_nat (n + length (filter (fun rq => bytes (rq_info_hash_ rq) = k) l)) < MAX_PEERS o /\
  forall rq, rq ∈ l -> bytes (rq_info_hash_ rq) = k -> Address.key (rq_addr_ rq) <> Peer_addr q.

Definition count (k : tkey) (l : list AnnounceRequest) : nat :=
  length (filter (fun rq => bytes (rq_info_hash_ rq) = k) l).

Lemma few_app k q n l l' : few k q n (l ++ l') -> few k q n l /\ few k q (n + count k l) l'.
Proof.
  unfold few, count. rewrite filter_app, length_app. intros [Hn Hl].
  split; (split; [lia|]); intros rq Hrq; apply Hl, elem_of_app; auto.
Qed.

Lemma few_announce now rq k q n m :
  stays k q n m -> few k q n [rq] -> stays k q (n + count k [rq]) (fst (a_announce minute o now rq m)).
Proof.
  intros Hs [Hn Hl]. eapply stays_le; [|apply announce_stays; [exact Hs|]].
  - unfold count. rewrite filter_cons. case_decide; simpl; lia.
  - intros Hb. split; [|by apply Hl; [left|]]. rewrite filter_cons_True in Hn by done. simpl in Hn. lia.
Qed.

Lemma count_app k l l' : count k (l ++ l') = (count k l + count k l')%nat.
Proof. unfold count. by rewrite filter_app, length_app. Qed.

Lemma receive_stays now rnd rs (u : UdpServer unit unit Q) k q n m :
  stays k q n m -> few k q n (announces_of o w (EvUdp rnd (PollIn rs))) ->
  stays k q (n + count k (announces_of o w (EvUdp rnd (PollIn rs)))) (snd (a_receive minute o w now rs u m)).
Proof.
  revert u n m. induction rs as [|r rs IH]; intros u n m Hs Hf; cbn [a_receive].
  { eapply stays_le; [|exact Hs]. lia. }
  case_decide; [|eapply stays_le; [|exact Hs]; lia].
  destruct r as [|addr b mem]; [eapply stays_le; [|exact Hs]; lia|].
  set (l1 := match packet_announce o w (RecvPacket addr b mem) with Some rq => [rq] | None => [] end).
  assert (El : announces_of o w (EvUdp rnd (PollIn (RecvPacket addr b mem :: rs)))
    = l1 ++ announces_of o w (EvUdp rnd (PollIn rs))).
  { subst l1. cbn [announces_of omap list_omap]. by destruct (packet_announce o w _). }
  rewrite El in Hf |- *. apply few_app in Hf as [Hf1 Hf2]. rewrite count_app, Nat.add_assoc.
  assert (Hs1 : stays k q (n + count k l1) m) by (eapply stays_le; [|exact Hs]; lia).
  pose proof (packet_announce_some o w addr b mem) as Hpa. cbv zeta in Hpa |- *. generalize dependent (take sizeof_buffer b).
  intros b' Hpa. case_decide; [by apply IH|].
  destruct (a_dispatch _ _ _ _ _ _ _ _ _) as [u1 m1] eqn:E. apply IH; [|done].
  unfold a_dispatch, a_handleAnnounce in E. repeat case_decide; simplify_eq; try done.
  destruct (negb _); simplify_eq; [done|]. set (rq := announce_request _ _ _ _) in *.
  destruct (a_announce minute o now rq m) as [m2 rp] eqn:Ea; simplify_eq.
  replace m1 with (fst (a_announce minute o now rq m)) by (by rewrite Ea).
  assert (El1 : l1 = [rq]) by (subst l1; by rewrite Hpa by (done || lia)).
  rewrite El1 in *. by apply few_announce.
Qed.

Lemma step_stays now e k q n (t : Tracker Q) :
  routed o t -> stays k q n (tr_swarms t) -> now < timeout_ts_ q -> few k q n (announces_of o w e) ->
  stays k q (n + count k (announces_of o w e))
    (tr_swarms (fst (a_step minute second millisecond o w now e t))).
Proof.
  intros Hrt Hs Hq Hf.
  assert (Hsame : stays k q (n + count k (announces_of o w e)) (tr_swarms t))
    by (eapply stays_le; [|exact Hs]; lia).
  destruct e as [tls path request templates|rnd p| |paths|]; cbn [a_step].
  - unfold a_serve. destruct (if tls then tr_https t else tr_http t) as [rs|] eqn:Ers; [|done].
    assert (rs = http_routes o) as -> by (apply Hrt; destruct tls; auto).
    destruct (w_route w _ path) as [hd|] eqn:Ert; [|done].
    destruct hd; cbn [a_handle]; try exact Hsame.
    + unfold a_announce_handle. case_decide as Hg; [exact Hsame|].
      assert (Ha : announces_of o w (EvHttp tls path request templates)
        = [http_announce_request (w_junk w) o (w_inet_pton4 w) (w_inet_pton6 w) (w_junk w) (logged o w request)]).
      { simpl. by rewrite Ert, decide_False. }
      rewrite Ha in Hf |- *.
      pose proof (few_announce now _ k q n (tr_swarms t) Hs Hf) as Has.
      by destruct (a_announce _ _ _ _ _).
    + by destruct (a_stat_handle _ _ _ _ _).
    + by destruct (a_peers_handle _ _ _ _).
  - unfold a_udp_turn. destruct (tr_udp t) as [u|]; [|done]. unfold a_run_turn. case_decide; [done|].
    destruct p as [| |rs|rs]; [done..| |].
    + by destruct (send rs u []).
    + pose proof (receive_stays now rnd rs u k q n (tr_swarms t) Hs Hf) as Ha.
      by destruct (a_receive _ _ _ _ _ _ _).
  - simpl in *. rewrite Nat.add_0_r. by apply cleanup_stays.
  - simpl. destruct (tr_wl t); [by apply scan_stays|done].
  - simpl. destruct (tr_wl t); [by apply check_stays|done].
Qed.

Lemma run_stays es k q n (t : Tracker Q) :
  routed o t -> stays k q n (tr_swarms t) -> (forall now e, (now, e) ∈ es -> now < timeout_ts_ q) ->
  few k q n (es ≫= (fun e => announces_of o w (snd e))) ->
  stays k q (n + count k (es ≫= (fun e => announces_of o w (snd e))))
    (tr_swarms (fst (a_run minute second millisecond o w es t))).
Proof.
  revert n t. induction es as [|[now e] es IH]; intros n t Hrt Hs Hq Hf.
  { simpl. by rewrite Nat.add_0_r. }
  rewrite bind_cons in Hf |- *. apply few_app in Hf as [Hf1 Hf2]. cbn [snd] in *.
  pose proof (step_stays now e k q n t Hrt Hs (Hq now e ltac:(left)) Hf1) as H1. cbn [a_run].
  pose proof (step_routed minute second millisecond o w now e t Hrt) as Hrt1.
  destruct (a_step _ _ _ _ _ _ _ _) as [t1 out]; simpl in H1, Hrt1.
  specialize (IH _ t1 Hrt1 H1 (fun now e Hin => Hq now e ltac:(by right)) Hf2).
  destruct (a_run _ _ _ _ _ _ _) as [t2 outs]; simpl in *. eapply stays_le; [|exact IH].
  unfold count. rewrite filter_app, length_app. lia.
Qed.
End Staying.

(** ** What clients can rely on *)
Section Clients.
Context {T L Q : Type} `{TrieLaws T} `{DListLaws L} `{SListLaws Q SendToBuffer}.
Context (minute second millisecond : Z) (o : Options) (w : World).
Hypothesis Ho : options_ok o.
Hypothesis parse_ok : forall path d, w_parseFile w path = Some d ->
  length (d_info_hash_v1 d) = 20%nat /\ length (d_info_hash_v2 d) = 32%nat.

Notation run := (Tracker.run minute second millisecond o w).

(** C9. The containers show in the order of the rows of the page of the
    torrents only: the daemon over any other trie and any other list that obey
    the laws gives, for every sequence of events, the same bodies, packets and
    pages of peers, and pages of the torrents with the same totals and links and
    with the same rows, in another order maybe; and it ends in the same swarms. *)
Theorem containers_unobservable {T' L'} `{TrieLaws T'} `{DListLaws L'} env clock es :
  dated clock es ->
  exists h h' outs outs',
    run es (Hefur_new (T := T) (L := L) (Q := Q) second millisecond o w env) = Some (h, outs) /\
    run es (Hefur_new (T := T') (L := L') (Q := Q) second millisecond o w env) = Some (h', outs') /\
    Forall2 same_output outs outs' /\ tracker_of h = tracker_of h'.
Proof.
  intros Hes.
  destruct (new_abs (T := T) (L := L) (Q := Q) minute second millisecond o w Ho parse_ok env clock es Hes)
    as (h & outs & E & Hout & Et & _).
  destruct (new_abs (T := T') (L := L') (Q := Q) minute second millisecond o w Ho parse_ok env clock es Hes)
    as (h' & outs' & E' & Hout' & Et' & _).
  exists h, h', outs, outs'. split; [exact E|]. split; [exact E'|]. split; [by rewrite Hout, Hout'|congruence].
Qed.

(** The requester is never among the addresses of its own answer. *)
Lemma spec_addrs_in now rq ps a :
  a ∈ spec_addrs minute o now rq ps -> exists q, q ∈ ps /\ addr_ q = a.
Proof.
  unfold spec_addrs, selected. case_decide; [by intros ?%not_elem_of_nil|].
  intros Ha. apply elem_of_take in Ha as (i & Ha & _). apply list_elem_of_lookup_2 in Ha.
  apply list_elem_of_fmap in Ha as (q & -> & [Hs Hq]%list_elem_of_filter).
  rewrite elem_of_reverse in Hq. unfold announced, remove_key in Hq.
  apply elem_of_app in Hq as [[_ Hq]%list_elem_of_filter|Hq]; [by exists q|].
  apply list_elem_of_singleton in Hq as ->. unfold skip_peer in Hs. simpl in Hs.
  by rewrite (bool_decide_eq_true_2 (rq_peerid_ rq = _)), orb_true_r in Hs.
Qed.

(** C7. No client is invented: an address that the daemon, after any
    run, answers to an announce is the address of an announce of that run
    for the same info hash that was not a departure. *)
Theorem peers_were_announced env clock es (h : Hefur T L Q) outs now rq db' r a :
  dated clock es -> last_date clock es <= now ->
  run es (Hefur_new second millisecond o w env) = Some (h, outs) ->
  db_announce minute (w_junk w) o now rq (hf_tdb h) = Some (db', r) -> a ∈ addrs_ r ->
  exists t e rq', (t, e) ∈ es /\ asks o w e rq' /\ rq_event_ rq' <> kStopped /\
    bytes (rq_info_hash_ rq') = bytes (rq_info_hash_ rq) /\ rq_addr_ rq' = a.
Proof.
  intros Hes Hnow E Ea Ha.
  destruct (new_abs (T := T) (L := L) (Q := Q) minute second millisecond o w Ho parse_ok env clock es Hes)
    as (h' & outs' & E' & _ & Et & (c & Hc & Hd)). rewrite E in E'. simplify_eq.
  destruct (announce_abs minute o w Ho (hf_tdb h') c now rq Hd ltac:(lia)) as (db2 & E2 & _).
  rewrite Ea in E2. injection E2 as _ ->.
  assert (Hm : announced_in minute o w es (swarms_of (hf_tdb h'))).
  { change (swarms_of (hf_tdb h')) with (tr_swarms (tracker_of h')). rewrite Et.
    apply run_origin; [apply routed_new|done|]. intros k sw q. simpl. by rewrite lookup_empty. }
  unfold a_announce in Ha. destruct (swarms_of (hf_tdb h') !! _) as [sw|] eqn:Hk; simpl in Ha;
    [|by apply not_elem_of_nil in Ha].
  apply spec_addrs_in in Ha as (q & Hq & <-).
  destruct (Hm _ sw q Hk Hq) as (t & e & rq' & Hin & Has & Hev & Hb & ->).
  exists t, e, rq'. done.
Qed.

Lemma dated_app clock es1 es2 :
  dated clock (es1 ++ es2) -> dated clock es1 /\ dated (last_date clock es1) es2.
Proof.
  revert clock. induction es1 as [|[now e] es1 IH]; intros clock; simpl; [done|].
  intros [Hc Hes]. by destruct (IH now Hes).
Qed.

(** C8. An announced peer stays.  The latest announcer of a torrent whose
    file does not vanish is still among its peers after any events (scans,
    checks and cleanups included) that happen before its timeout, as long as it
    does not announce again itself and fewer than [MAX_PEERS] announces for
    the torrent are received meanwhile.  The file system is the same during the
    run: [w_vanished] tells which files are missing. *)
Theorem peers_stay env clock es1 es2 (h1 h2 : Hefur T L Q) outs1 outs2 k t1 q :
  dated clock (es1 ++ es2) ->
  run es1 (Hefur_new second millisecond o w env) = Some (h1, outs1) -> run es2 h1 = Some (h2, outs2) ->
  lookup_torrent (hf_tdb h1) k = Some t1 -> last (peer_list t1) = Some q ->
  w_vanished w (path_ t1) = false ->
  (forall now e, (now, e) ∈ es2 -> now < timeout_ts_ q) ->
  few o k q 0 (es2 ≫= (fun e => announces_of o w (snd e))) ->
  exists t2, lookup_torrent (hf_tdb h2) k = Some t2 /\ q ∈ peer_list t2.
Proof.
  intros [Hes1 Hes2]%dated_app E1 E2 Hk Hlast Hv Hq Hf.
  destruct (new_abs (T := T) (L := L) (Q := Q) minute second millisecond o w Ho parse_ok env clock es1 Hes1)
    as (h & outs & E & _ & Et1 & Hdb). rewrite E1 in E. simplify_eq.
  destruct (run_abs minute second millisecond o w Ho parse_ok _ es2 h Hdb Hes2) as (h' & outs' & E & _ & Et & _).
  rewrite E2 in E. simplify_eq. apply last_Some in Hlast as (l1 & Hl).
  assert (Hs : stays w k q 0 (tr_swarms (tracker_of h))).
  { exists (swarm_of t1), l1, []. simpl. by rewrite swarms_of_lookup, Hk. }
  assert (Hrt : routed o (tracker_of h)) by (rewrite Et1; apply run_routed, routed_new).
  apply (run_stays minute second millisecond o w es2 k q 0 _ Hrt) in Hs as (sw & l & l' & Hk' & Hp & _); [|done|done].
  rewrite <- Et in Hk'. simpl in Hk'. rewrite swarms_of_lookup in Hk'.
  destruct (lookup_torrent (hf_tdb h') k) as [t2|]; [|done]. exists t2. split; [done|].
  injection Hk' as <-. change (peer_list t2) with (sw_peers (swarm_of t2)). rewrite Hp.
  apply elem_of_app. right. left.
Qed.
End Clients.

(** ** Witnesses *)

(** Another trie, which keeps and enumerates its keys backwards. *)
Module BackwardTrie.
Record BTrie := { forward : gmap tkey ptr }.

#[global] Instance btrie : Trie BTrie := {
  t_empty := {| forward := ∅ |};
  t_find k t := forward t !! reverse k;
  t_insert k p t :=
    match forward t !! reverse k with
    | Some _ => t
    | None => {| forward := <[reverse k := p]> (forward t) |}
    end;
  t_erase k t := {| forward := delete (reverse k) (forward t) |};
  t_entries t := prod_map reverse id <$> map_to_list (forward t);
}.

#[global] Instance btrie_laws : TrieLaws BTrie.
Proof.
  assert (Hrev : forall k k' : tkey, reverse k = reverse k' <-> k = k').
  { intros k k'. split; [|by intros ->]. intros E. rewrite <- (reverse_involutive k), E.
    apply reverse_involutive. }
  split; simpl; intros.
  - apply lookup_empty.
  - by simplify_option_eq.
  - simplify_option_eq; rewrite lookup_insert; repeat case_decide; naive_solver.
  - rewrite lookup_delete. repeat case_decide; naive_solver.
  - rewrite <- elem_of_map_to_list, list_elem_of_fmap. split.
    + intros ([k' q] & [= -> ->] & Hin). by rewrite reverse_involutive.
    + intros Hin. exists (reverse k, p). unfold prod_map; simpl. by rewrite reverse_involutive.
  - rewrite <- list_fmap_compose.
    change (NoDup (reverse ∘ fst <$> map_to_list (forward t))). rewrite list_fmap_compose.
    apply NoDup_fmap_2; [|apply NoDup_fst_map_to_list].
    intros k k'. by rewrite Hrev.
Qed.
End BackwardTrie.

Lemma containers_unobservable_witness :
  exists h h' outs outs', run Demo.minute 1000 1 SessionDemo.options SessionDemo.world SessionDemo.events
    SessionDemo.start = Some (h, outs) /\
    run Demo.minute 1000 1 SessionDemo.options SessionDemo.world SessionDemo.events
      (Hefur_new (T := BackwardTrie.BTrie) (L := list ptr) (Q := list SendToBuffer) 1000 1
         SessionDemo.options SessionDemo.world SessionDemo.env) = Some (h', outs') /\
    Forall2 same_output outs outs'.
Proof.
  destruct (containers_unobservable (T := gmap tkey ptr) (L := list ptr) (Q := list SendToBuffer)
    (T' := BackwardTrie.BTrie) (L' := list ptr) Demo.minute 1000 1
    SessionDemo.options SessionDemo.world SessionDemo.options_ok_ SessionDemo.parse_ok_ SessionDemo.env 0
    SessionDemo.events SessionDemo.dated_) as (h & h' & outs & outs' & E & E' & Hout & _).
  exists h, h', outs, outs'. split; [exact E|]. split; [exact E'|exact Hout].
Defined.

(** A second client meets the first. *)
Module OriginDemo.
Definition other : HttpRequest := {|
  queryGet k := if decide (k = "peer_id"%string) then replicate 20 8
                else if decide (k = "info_hash"%string) then replicate 20 1 else [];
  query_values _ := []; remoteAddr := SaIn [10; 0; 0; 8] [26; 225]; unparsedHeaders _ := None; host := "tracker"; req_port := 6969 |}.
Definition rq : AnnounceRequest :=
  http_announce_request (w_junk SessionDemo.world) SessionDemo.options (w_inet_pton4 SessionDemo.world)
    (w_inet_pton6 SessionDemo.world) (w_junk SessionDemo.world) other.
Definition answers (h : Hefur (gmap tkey ptr) (list ptr) (list SendToBuffer)) : list Address :=
  from_option (fun p => addrs_ (snd p)) []
    (db_announce Demo.minute (w_junk SessionDemo.world) SessionDemo.options 8 rq (hf_tdb h)).
Lemma answered : exists h outs, run Demo.minute 1000 1 SessionDemo.options SessionDemo.world
    (take 2 SessionDemo.events) SessionDemo.start = Some (h, outs) /\ exists a l, answers h = a :: l.
Proof.
  assert (Hb : from_option (fun p => bool_decide (answers (fst p) <> [])) false
    (run Demo.minute 1000 1 SessionDemo.options SessionDemo.world (take 2 SessionDemo.events)
       SessionDemo.start) = true) by (vm_compute; reflexivity).
  destruct (run _ _ _ _ _ _ _) as [[h outs]|]; [|done]. exists h, outs. split; [done|].
  apply bool_decide_eq_true in Hb. simpl in Hb. destruct (answers h) as [|a l]; [done|]. eauto.
Defined.
End OriginDemo.

Lemma peers_were_announced_witness :
  exists h outs a t e rq', run Demo.minute 1000 1 SessionDemo.options SessionDemo.world
      (take 2 SessionDemo.events) SessionDemo.start = Some (h, outs) /\ a ∈ OriginDemo.answers h /\
    (t, e) ∈ take 2 SessionDemo.events /\ asks SessionDemo.options SessionDemo.world e rq' /\
    rq_addr_ rq' = a.
Proof.
  destruct OriginDemo.answered as (h & outs & E & a & l & Ea).
  assert (Ha : a ∈ OriginDemo.answers h) by (rewrite Ea; left).
  unfold OriginDemo.answers in Ha.
  destruct (db_announce _ _ _ _ _ _) as [[db' r]|] eqn:E2; [|by apply not_elem_of_nil in Ha].
  destruct (peers_were_announced Demo.minute 1000 1 SessionDemo.options SessionDemo.world
    SessionDemo.options_ok_ SessionDemo.parse_ok_ SessionDemo.env 0 (take 2 SessionDemo.events) h outs 8
    OriginDemo.rq db' r a ltac:(simpl; lia) ltac:(simpl; lia) E E2 Ha)
    as (t & e & rq' & Hin & Has & _ & _ & Er).
  exists h, outs, a, t, e, rq'. split; [done|]. split; [by rewrite Ea; left|]. done.
Defined.

(** The client of the second event is there at the end, after a cleanup, two
    pages, a UDP packet and a check. *)
Module StayDemo.
Definition later : list (Z * Event_) := drop 2 SessionDemo.events.
Definition key : tkey := replicate 20 1.
Abbreviation demo_run := (run (T := gmap tkey ptr) (L := list ptr) (Q := list SendToBuffer) Demo.minute 1000 1
  SessionDemo.options SessionDemo.world).

(** The torrent and its latest peer, with a timeout past the last event. *)
Definition announced_ok (h : Hefur (gmap tkey ptr) (list ptr) (list SendToBuffer)) : bool :=
  match lookup_torrent (hf_tdb h) key with
  | Some t => from_option (fun q => bool_decide (7 < timeout_ts_ q)) false (last (peer_list t))
  | None => false
  end.

Lemma announced_ok_ : exists h1 outs1 t1 q, demo_run (take 2 SessionDemo.events) SessionDemo.start
    = Some (h1, outs1) /\
  lookup_torrent (hf_tdb h1) key = Some t1 /\ last (peer_list t1) = Some q /\ 7 < timeout_ts_ q.
Proof.
  assert (Hb : from_option (fun p => announced_ok (fst p)) false
    (demo_run (take 2 SessionDemo.events) SessionDemo.start) = true) by (vm_compute; reflexivity).
  destruct (demo_run _ _) as [[h1 outs1]|]; [|done]. simpl in Hb. unfold announced_ok in Hb.
  destruct (lookup_torrent (hf_tdb h1) key) as [t1|] eqn:Et; [|done].
  destruct (last (peer_list t1)) as [q|] eqn:Eq; [|done]. apply bool_decide_eq_true in Hb.
  exists h1, outs1, t1, q. done.
Defined.

Lemma few_ q : few SessionDemo.options key q 0
  (later ≫= (fun e => announces_of SessionDemo.options SessionDemo.world (snd e))).
Proof.
  assert (Hb : filter (fun rq => bytes (rq_info_hash_ rq) = key)
    (later ≫= (fun e => announces_of SessionDemo.options SessionDemo.world (snd e))) = [])
    by (vm_compute; reflexivity).
  split; [rewrite Hb; vm_compute; reflexivity|]. intros rq Hin Hk.
  assert (Hf : rq ∈ filter (fun rq => bytes (rq_info_hash_ rq) = key)
    (later ≫= (fun e => announces_of SessionDemo.options SessionDemo.world (snd e))))
    by (by apply list_elem_of_filter).
  rewrite Hb in Hf. by apply not_elem_of_nil in Hf.
Defined.
End StayDemo.

Lemma peers_stay_witness :
  exists h1 outs1 h2 outs2 t2 q,
    StayDemo.demo_run (take 2 SessionDemo.events) SessionDemo.start = Some (h1, outs1) /\
    StayDemo.demo_run StayDemo.later h1 = Some (h2, outs2) /\
    lookup_torrent (hf_tdb h2) StayDemo.key = Some t2 /\ q ∈ peer_list t2.
Proof.
  destruct StayDemo.announced_ok_ as (h1 & outs1 & t1 & q & E1 & Ht & Hl & Hq).
  destruct (run_abs (T := gmap tkey ptr) (L := list ptr) Demo.minute 1000 1 SessionDemo.options
    SessionDemo.world SessionDemo.options_ok_ SessionDemo.parse_ok_ 2 StayDemo.later h1) as (h2 & outs2 & E2 & _).
  { destruct (new_abs (T := gmap tkey ptr) (L := list ptr) (Q := list SendToBuffer) Demo.minute 1000 1
      SessionDemo.options SessionDemo.world SessionDemo.options_ok_ SessionDemo.parse_ok_ SessionDemo.env 0
      (take 2 SessionDemo.events)) as (h & outs & E & _ & _ & Hdb); [simpl; lia|].
    unfold SessionDemo.start in E1. rewrite E1 in E. injection E as -> _. exact Hdb. }
  { simpl; lia. }
  destruct (peers_stay (T := gmap tkey ptr) (L := list ptr) Demo.minute 1000 1 SessionDemo.options
    SessionDemo.world SessionDemo.options_ok_ SessionDemo.parse_ok_ SessionDemo.env 0
    (take 2 SessionDemo.events) StayDemo.later h1 h2 outs1 outs2 StayDemo.key t1 q) as (t2 & Ht2 & Hin).
  - exact SessionDemo.dated_.
  - exact E1.
  - exact E2.
  - exact Ht.
  - exact Hl.
  - reflexivity.
  - intros now e Hin. assert (Hall : Forall (fun x => fst x <= 7) StayDemo.later)
      by (repeat constructor; simpl; lia).
    rewrite Forall_forall in Hall. specialize (Hall _ Hin). simpl in Hall. lia.
  - apply StayDemo.few_.
  - exists h1, outs1, h2, outs2, t2, q. split; [exact E1|]. split; [exact E2|]. split; [exact Ht2|exact Hin].
Defined.
