(* ===== verification/Threads.v ===== *)
(** The database under its locks ([torrent-db.cc], [torrent.cc],
    [peers-handler.cc]): threads that call it, one turn at a time.

    TorrentDb.v takes a call for one step.  Here a call takes [torrents_lock_]
    in the mode of the code, does its reads and writes in turns other threads
    may come between, and releases it.  [announce], [addTorrent],
    [removeTorrent] and the check of the white list hold it exclusively;
    [scrape], [cleanup] and the page of the peers share it, and of these only
    [cleanup] takes the lock of the torrent it works on.  The pages of the
    torrents and of a file share it too and read like a scrape: they are not
    threads here. *)
From stdpp Require Import base list gmap strings relations.
From Stdlib Require Import ZArith Lia.
From S2P Require Import Prelude Containers Options Address InfoHash Announce Torrent TorrentSpec TorrentTheorems TorrentDb FsTreeWhiteList HttpHandlers.

(** ** [m::SharedMutex], and [m::Mutex] which is only locked exclusively *)

Inductive Mode := Exclusive | Shared.
#[export] Instance Mode_eq_dec : EqDecision Mode.
Proof. solve_decision. Defined.

Class Lock (X : Type) := {
  lk_new : X;
  lk_holds : X -> nat -> option Mode;           (* how a thread holds it *)
  lk_lock : Mode -> nat -> X -> option X;       (* [None]: the thread waits *)
  lk_unlock : nat -> X -> X;
}.

(** Documented behaviour: shared holders exclude an exclusive one and an
    exclusive holder everyone; a lock nobody holds is taken, and shared with those
    who share it. *)
Class LockLaws (X : Type) `{Lock X} : Prop := {
  lk_holds_new i : lk_holds lk_new i = None;
  lk_excludes m i x x' j : lk_lock m i x = Some x' ->
    match m with Exclusive => lk_holds x j = None | Shared => lk_holds x j <> Some Exclusive end;
  lk_holds_lock m i x x' j : lk_lock m i x = Some x' ->
    lk_holds x' j = if decide (j = i) then Some m else lk_holds x j;
  lk_holds_unlock i x j : lk_holds (lk_unlock i x) j = if decide (j = i) then None else lk_holds x j;
  lk_free m i x : (forall j, lk_holds x j = None) -> is_Some (lk_lock m i x);
  lk_share i x : (forall j, lk_holds x j <> Some Exclusive) -> is_Some (lk_lock Shared i x);
}.

(** ** Calls, and how far they are *)
Section Threads.
Context {T L X : Type} `{Trie T} `{DList L} `{Lock X}.
Context (minute : Z) (junk : list Z) (o : Options) (vanished : string -> bool).

Inductive DbCall :=
| CallAnnounce (request : AnnounceRequest)
| CallScrape (info_hashs : list InfoHash)
| CallCleanup
| CallAdd (info_hash : InfoHash) (name path : string) (length : Z)
| CallRemove (info_hash : tkey)
| CallCheck (root : string)
| CallPeers (info_hash : tkey).

Inductive Reply :=
| ReplyAnnounce (r : AnnounceResponse)
| ReplyScrape (r : ScrapeResponse)
| ReplyPeers (rows : option (list PeerRow))     (* [None]: no such torrent *)
| ReplyNothing.

Definition call_mode (c : DbCall) : Mode :=
  match c with
  | CallAnnounce _ | CallAdd _ _ _ _ | CallRemove _ | CallCheck _ => Exclusive
  | CallScrape _ | CallCleanup | CallPeers _ => Shared
  end.

(** Where a thread is in its call; the constructors carry the local variables. *)
Inductive Pc :=
| PcLock                                        (* about to take [torrents_lock_] *)
| PcLocked                                      (* it is held *)
| PcScrape (hs : list InfoHash) (items : list ScrapeItem)
| PcLeechers (h : InfoHash) (p : ptr) (hs : list InfoHash) (items : list ScrapeItem)
| PcSeeders (h : InfoHash) (p : ptr) (le : Z) (hs : list InfoHash) (items : list ScrapeItem)
| PcCompleted (h : InfoHash) (p : ptr) (le se : Z) (hs : list InfoHash) (items : list ScrapeItem)
| PcForeach (es : list (tkey * ptr))            (* between two torrents *)
| PcCleanup (now : Z) (p : ptr) (es : list (tkey * ptr))   (* in the loop of [Torrent::cleanup] *)
| PcRow (p it : ptr) (rows : list PeerRow)      (* the body of the loop over the peers *)
| PcNext (p it : ptr) (rows : list PeerRow)     (* [++it] *)
| PcUnlock (r : Reply)                          (* about to release [torrents_lock_] *)
| PcFreed.                                      (* an object that was freed was read *)

Record Thread := MkThread {
  th_calls : list DbCall;                       (* the call under way, and the next ones *)
  th_pc : Pc;
  th_done : list (DbCall * Reply);
}.

Record Threads := MkThreads {
  st_db : TorrentDb T L;
  st_lock : X;                                  (* [torrents_lock_] *)
  st_locks : gmap ptr X;                        (* [lock_] of the torrents *)
  st_clock : Z;
  st_threads : gmap nat Thread;
}.

Implicit Types (s : Threads) (th : Thread).

Definition torrent_lock s (p : ptr) : X := default lk_new (st_locks s !! p).

Definition set_db s db : Threads := MkThreads db (st_lock s) (st_locks s) (st_clock s) (st_threads s).
Definition set_lock s x : Threads := MkThreads (st_db s) x (st_locks s) (st_clock s) (st_threads s).
Definition set_torrent_lock s p x : Threads :=
  MkThreads (st_db s) (st_lock s) (<[p := x]> (st_locks s)) (st_clock s) (st_threads s).
Definition set_clock s now : Threads := MkThreads (st_db s) (st_lock s) (st_locks s) now (st_threads s).
Definition set_thread s i th : Threads :=
  MkThreads (st_db s) (st_lock s) (st_locks s) (st_clock s) (<[i := th]> (st_threads s)).

(** What a sharing call does first. *)
Definition call_start s (c : DbCall) : Pc :=
  match c with
  | CallScrape hs => PcScrape hs []
  | CallCleanup => PcForeach (t_entries (torrents_ (st_db s)))
  | CallPeers k =>
      match t_find k (torrents_ (st_db s)) with
      | None => PcUnlock (ReplyPeers None)
      | Some p =>
          match objects_ (st_db s) !! p with
          | None => PcFreed
          | Some t => match head (l_list (timeouts_ t)) with
                      | None => PcUnlock (ReplyPeers (Some []))
                      | Some it => PcRow p it []
                      end
          end
      end
  | _ => PcLocked
  end.

(** What the exclusive calls do, at once: nobody else can take a turn with an
    effect in between. *)
Definition call_body (now : Z) (c : DbCall) (db : TorrentDb T L) : option (TorrentDb T L * Reply) :=
  match c with
  | CallAnnounce rq => '(db, r) ← db_announce minute junk o now rq db; Some (db, ReplyAnnounce r)
  | CallAdd ih name path len => Some (addTorrent (Some (Torrent_new ih name path len)) db, ReplyNothing)
  | CallRemove k => Some (removeTorrent k db, ReplyNothing)
  | CallCheck root => db ← check vanished root db; Some (db, ReplyNothing)
  | _ => None
  end.

(** [Torrent::announce] takes the lock of its torrent. *)
Definition body_waits (i : nat) s (c : DbCall) : bool :=
  match c with
  | CallAnnounce rq =>
      match t_find (bytes (rq_info_hash_ rq)) (torrents_ (st_db s)) with
      | Some p => match lk_lock Exclusive i (torrent_lock s p) with Some _ => false | None => true end
      | None => false
      end
  | _ => false
  end.

(** The peer after [p] in the list. *)
Fixpoint next_of (p : ptr) (l : list ptr) : option ptr :=
  match l with
  | [] => None
  | q :: l => if decide (q = p) then head l else next_of p l
  end.

(** A read through the pointer of a torrent; [PcFreed] when it leads nowhere. *)
Definition with_torrent s (p : ptr) (f : Torrent T L -> Threads * Pc) : Threads * Pc :=
  match objects_ (st_db s) !! p with Some t => f t | None => (s, PcFreed) end.
Definition with_peer s (t : Torrent T L) (it : ptr) (f : Peer -> Threads * Pc) : Threads * Pc :=
  match heap_ t !! it with Some peer => f peer | None => (s, PcFreed) end.

(** One round of the loop of [Torrent::cleanup]. *)
Definition cleanup_turn (i : nat) (now : Z) (p : ptr) (es : list (tkey * ptr)) s : Threads * Pc :=
  let leave := (set_torrent_lock s p (lk_unlock i (torrent_lock s p)), PcForeach es) in
  with_torrent s p (fun t =>
    match l_list (timeouts_ t) with
    | [] => leave
    | q :: _ =>
        with_peer s t q (fun peer =>
          if decide (now < timeout_ts_ peer) then leave
          else match removePeer q t with
               | Some t => (set_db s (with_object (st_db s) p t), PcCleanup now p es)
               | None => (s, PcFreed)
               end)
    end).

(** The next turn of a call of the thread [i]; [None]: it waits. *)
Definition advance (i : nat) (c : DbCall) (pc : Pc) s : option (Threads * Pc) :=
  match pc with
  | PcLock => x ← lk_lock (call_mode c) i (st_lock s); Some (set_lock s x, PcLocked)
  | PcLocked =>
      match call_mode c with
      | Shared => Some (s, call_start s c)
      | Exclusive =>
          if body_waits i s c then None
          else Some (match call_body (st_clock s) c (st_db s) with
                     | Some (db, r) => (set_db s db, PcUnlock r)
                     | None => (s, PcFreed)
                     end)
      end
  | PcScrape [] items =>
      Some (s, PcUnlock (ReplyScrape {| sc_error_ := false; sc_error_msg_ := "";
        sc_interval_ := wrap 32 (SCRAPE_INTERVAL o * 60); sc_items_ := items |}))
  | PcScrape (h :: hs) items =>
      Some (s, match t_find (bytes h) (torrents_ (st_db s)) with
               | None => PcScrape hs items
               | Some p => PcLeechers h p hs items
               end)
  | PcLeechers h p hs items => Some (with_torrent s p (fun t => (s, PcSeeders h p (leechers_ t) hs items)))
  | PcSeeders h p le hs items => Some (with_torrent s p (fun t => (s, PcCompleted h p le (seeders_ t) hs items)))
  | PcCompleted h p le se hs items =>
      Some (with_torrent s p (fun t => (s, PcScrape hs (items ++
        [{| it_info_hash_ := h; it_nleechers_ := le; it_nseeders_ := se; it_ndownloaded_ := completed_ t |}]))))
  | PcForeach [] => Some (s, PcUnlock ReplyNothing)
  | PcForeach ((_, p) :: es) =>
      x ← lk_lock Exclusive i (torrent_lock s p);
      Some (set_torrent_lock s p x, PcCleanup (st_clock s) p es)
  | PcCleanup now p es => Some (cleanup_turn i now p es s)
  | PcRow p it rows =>
      Some (with_torrent s p (fun t => with_peer s t it (fun peer => (s, PcNext p it (rows ++ [peer_row peer])))))
  | PcNext p it rows =>
      Some (with_torrent s p (fun t => with_peer s t it (fun _ =>
        (s, match next_of it (l_list (timeouts_ t)) with
            | Some it => PcRow p it rows
            | None => PcUnlock (ReplyPeers (Some rows))
            end))))
  | PcUnlock _ | PcFreed => None
  end.

(** A turn of the thread [i]; [None]: it waits or has nothing to do. *)
Definition turn (i : nat) s : option Threads :=
  th ← st_threads s !! i;
  match th_calls th with
  | [] => None
  | c :: cs =>
      match th_pc th with
      | PcUnlock r => Some (set_thread (set_lock s (lk_unlock i (st_lock s))) i
                              (MkThread cs PcLock (th_done th ++ [(c, r)])))
      | pc => '(s, pc) ← advance i c pc s; Some (set_thread s i (MkThread (c :: cs) pc (th_done th)))
      end
  end.

(** Time passes, and the threads take turns. *)
Inductive step : Threads -> Threads -> Prop :=
| step_turn i s s' : turn i s = Some s' -> step s s'
| step_tick s now : st_clock s <= now -> step s (set_clock s now).

(** Before the first turn. *)
Definition start (db : TorrentDb T L) (clock : Z) (calls : gmap nat (list DbCall)) : Threads :=
  MkThreads db lk_new ∅ clock ((fun cs => MkThread cs PcLock []) <$> calls).
End Threads.
Arguments Threads : clear implicits.
Arguments MkThreads {T L X}.
Arguments st_db {T L X}.
Arguments st_lock {T L X}.
Arguments st_locks {T L X}.
Arguments st_clock {T L X}.
Arguments st_threads {T L X}.

(** ** A lock by who holds it *)
#[export] Instance gmap_lock : Lock (gmap nat Mode) := {
  lk_new := ∅;
  lk_holds x i := x !! i;
  lk_lock m i x :=
    if (match m with Exclusive => bool_decide (x = ∅) | Shared => bool_decide (map_Forall (fun _ m => m = Shared) x) end)
    then Some (<[i := m]> x) else None;
  lk_unlock i x := delete i x;
}.

#[export] Instance gmap_lock_laws : LockLaws (gmap nat Mode).
Proof.
  split; simpl.
  - intros i. apply lookup_empty.
  - intros m i x x' j E. destruct m; case_bool_decide as Hx; simplify_eq.
    + apply lookup_empty.
    + intros Hj. by specialize (Hx _ _ Hj).
  - intros m i x x' j E. assert (x' = <[i := m]> x) as -> by (destruct m; case_bool_decide; congruence).
    destruct (decide (j = i)) as [-> |Hn]; [apply lookup_insert_eq|by apply lookup_insert_ne].
  - intros i x j. destruct (decide (j = i)) as [-> |Hn]; [apply lookup_delete_eq|by apply lookup_delete_ne].
  - intros m i x Hx. assert (x = ∅) as -> by (by apply map_empty).
    destruct m; [by eexists|]. rewrite bool_decide_eq_true_2 by (by intros ? ? ?%lookup_empty_Some). by eexists.
  - intros i x Hx. rewrite bool_decide_eq_true_2; [by eexists|].
    intros j [] Hj; [by destruct (Hx j)|done].
Qed.
