(* ===== verification/ThreadsTheorems.v ===== *)
(** What the locks of the database give its callers: whichever way the turns
    of the threads interleave, the calls that hold the lock exclusively are
    atomic, the cleanup of a torrent is, and no thread waits for ever; and what
    they do not give the page of the peers. *)
From stdpp Require Import base list gmap strings relations.
From Stdlib Require Import ZArith Lia.
From S2P Require Import Prelude Containers Options Address InfoHash Announce Torrent TorrentSpec TorrentTheorems TorrentDb FsTreeWhiteList HttpHandlers Threads.

(** ** Locks *)
Section LockFacts.
Context {X : Type} `{LockLaws X}.

(** Whoever holds a lock exclusively holds it alone. *)
Definition alone (x : X) : Prop := forall i j, lk_holds x i = Some Exclusive -> lk_holds x j <> None -> i = j.

Lemma alone_new : alone lk_new.
Proof. intros i j. by rewrite lk_holds_new. Qed.

Lemma alone_lock m i x x' : alone x -> lk_lock m i x = Some x' -> alone x'.
Proof.
  intros Ha E j k. rewrite !(lk_holds_lock m i x x') by done.
  pose proof (lk_excludes m i x x' j E) as Hj. pose proof (lk_excludes m i x x' k E) as Hk.
  destruct m; repeat case_decide; subst; try done; intros Hj' Hk'; try congruence.
Qed.

Lemma alone_unlock i x : alone x -> alone (lk_unlock i x).
Proof.
  intros Ha j k. rewrite !lk_holds_unlock. repeat case_decide; try done. apply Ha.
Qed.
End LockFacts.

(** ** The cleanup of a torrent, round by round *)
Section Rounds.
Context {T L : Type} `{TrieLaws T} `{DListLaws L}.
Implicit Types (t : Torrent T L).

Definition timeouts_length t : nat := length (l_list (timeouts_ t)).

Lemma removePeer_length q k t t' : l_list (timeouts_ t) = q :: k -> removePeer q t = Some t' ->
  (timeouts_length t' < timeouts_length t)%nat.
Proof.
  intros El E. unfold removePeer in E. destruct (heap_ t !! q) as [peer|]; simpl in E; [|done].
  destruct (count_out t peer) as [le se]. simplify_eq. unfold timeouts_length. simpl.
  rewrite l_list_erase, El, filter_cons_False by (intros []; done). simpl. pose proof (length_filter (.≠ q) k). lia.
Qed.

Lemma cleanup_loop_enough now fuel t : (timeouts_length t < fuel)%nat -> cleanup_loop fuel now t = cleanup now t.
Proof.
  unfold cleanup. fold (timeouts_length t). remember (timeouts_length t) as n eqn:En.
  revert t fuel En. induction n as [n IH] using lt_wf_ind. intros t fuel -> Hf.
  destruct fuel as [|fuel]; [lia|]. simpl.
  destruct (l_list (timeouts_ t)) as [|q k] eqn:El; [done|]. destruct (heap_ t !! q) as [peer|]; simpl; [|done].
  case_decide; [done|]. destruct (removePeer q t) as [t'|] eqn:E; simpl; [|done].
  pose proof (removePeer_length q k t t' El E) as Hlt.
  rewrite (IH _ Hlt t' fuel eq_refl) by lia. symmetry. apply (IH _ Hlt t' _ eq_refl). lia.
Qed.

Lemma cleanup_unfold now t :
  cleanup now t = match l_list (timeouts_ t) with
                  | [] => Some t
                  | q :: _ => peer ← heap_ t !! q;
                              if decide (now < timeout_ts_ peer) then Some t
                              else t ← removePeer q t; cleanup now t
                  end.
Proof.
  unfold cleanup at 1. fold (timeouts_length t). remember (timeouts_length t) as n eqn:En. cbn [cleanup_loop].
  destruct (l_list (timeouts_ t)) as [|q k] eqn:El; [done|].
  destruct (heap_ t !! q) as [peer|]; cbn [mbind option_bind]; [|done]. case_decide; [done|].
  destruct (removePeer q t) as [t'|] eqn:E; cbn [mbind option_bind]; [|done]. apply cleanup_loop_enough.
  pose proof (removePeer_length q k t t' El E) as Hlt. lia.
Qed.

(** A cleanup only frees peers, and the first one if its time has passed. *)
Lemma cleanup_frees now t t' : cleanup now t = Some t' -> heap_ t' ⊆ heap_ t.
Proof.
  remember (timeouts_length t) as n eqn:En. revert t En. induction n as [n IH] using lt_wf_ind. intros t -> E.
  rewrite cleanup_unfold in E. destruct (l_list (timeouts_ t)) as [|q k] eqn:El; [by simplify_eq|].
  destruct (heap_ t !! q) as [peer|] eqn:Eq; simpl in E; [|done]. case_decide; [by simplify_eq|].
  destruct (removePeer q t) as [t1|] eqn:Er; simpl in E; [|done].
  pose proof (IH _ (removePeer_length q k t t1 El Er) t1 eq_refl E) as Hsub. etrans; [exact Hsub|].
  unfold removePeer in Er. rewrite Eq in Er. simpl in Er. destruct (count_out t peer). simplify_eq. apply delete_subseteq.
Qed.

Lemma cleanup_front now t t' q k peer : cleanup now t = Some t' -> l_list (timeouts_ t) = q :: k ->
  heap_ t !! q = Some peer -> timeout_ts_ peer <= now -> heap_ t' !! q = None.
Proof.
  intros E El Eq Hlt. rewrite cleanup_unfold, El, Eq in E. simpl in E. rewrite decide_False in E by lia.
  destruct (removePeer q t) as [t1|] eqn:Er; simpl in E; [|done]. apply cleanup_frees in E.
  unfold removePeer in Er. rewrite Eq in Er. simpl in Er. destruct (count_out t peer). simplify_eq.
  eapply lookup_weaken_None; [|exact E]. apply lookup_delete_eq.
Qed.

(** The cleanup of all torrents reaches each of them. *)
Lemma cleanup_all_reaches now es db db' p t q k peer : cleanup_all now es db = Some db' ->
  l_list (timeouts_ t) = q :: k -> heap_ t !! q = Some peer -> timeout_ts_ peer <= now ->
  objects_ db !! p = Some t \/ (exists t', objects_ db !! p = Some t' /\ heap_ t' !! q = None) ->
  p ∈ es.*2 \/ (exists t', objects_ db !! p = Some t' /\ heap_ t' !! q = None) ->
  exists t', objects_ db' !! p = Some t' /\ heap_ t' !! q = None.
Proof.
  intros E El Eq Hlt. revert db E. induction es as [|[k1 r] es IH]; intros db E Hnow Hin; simpl in E.
  { simplify_eq. destruct Hin as [Hin|?]; [by apply not_elem_of_nil in Hin|done]. }
  destruct (objects_ db !! r) as [t1|] eqn:Er; simpl in E; [|done].
  destruct (cleanup now t1) as [t2|] eqn:Ec; simpl in E; [|done].
  apply (IH _ E); simpl; (destruct (decide (r = p)) as [-> |Hr]; [rewrite lookup_insert_eq|rewrite lookup_insert_ne by done]).
  - right. exists t2. split; [done|]. destruct Hnow as [Et|(t' & Et & Hq)]; simplify_eq; [by eapply cleanup_front|].
    eapply lookup_weaken_None; [exact Hq|by eapply cleanup_frees].
  - done.
  - right. exists t2. split; [done|]. destruct Hnow as [Et|(t' & Et & Hq)]; simplify_eq; [by eapply cleanup_front|].
    eapply lookup_weaken_None; [exact Hq|by eapply cleanup_frees].
  - destruct Hin as [Hin|?]; [|by right]. left. rewrite fmap_cons in Hin. apply elem_of_cons in Hin as [?|?]; [done|done].
Qed.
End Rounds.

(** ** The history of a database *)
Section History.
Context {T L : Type} `{TrieLaws T} `{DListLaws L}.
Context (minute : Z) (junk : list Z) (o : Options) (vanished : string -> bool).
Hypothesis Ho : options_ok o.
Implicit Types (db : TorrentDb T L).

(** What happens at once: an exclusive call with its reply, and the cleanup of
    a torrent. *)
Inductive DbEvent :=
| EvCall (i : nat) (now : Z) (c : DbCall) (r : Reply)
| EvClean (i : nat) (now : Z) (p : ptr).

(** [history db clock log db' now]: the events [log], one after the other and in
    the order of their times, take [db] to [db']. *)
Inductive history db (clock : Z) : list DbEvent -> TorrentDb T L -> Z -> Prop :=
| history_nil : history db clock [] db clock
| history_call log db1 clock1 i now c r db2 :
    history db clock log db1 clock1 -> clock1 <= now ->
    call_body minute junk o vanished now c db1 = Some (db2, r) ->
    history db clock (log ++ [EvCall i now c r]) db2 now
| history_clean log db1 clock1 i now p t t' :
    history db clock log db1 clock1 -> clock1 <= now ->
    objects_ db1 !! p = Some t -> cleanup now t = Some t' ->
    history db clock (log ++ [EvClean i now p]) (with_object db1 p t') now.

Lemma check_ok root clock db : db_inv minute o clock db ->
  exists db', check vanished root db = Some db' /\ db_inv minute o clock db'.
Proof.
  intros Hi. unfold check.
  destruct (check_keys_spec vanished root (t_entries (torrents_ db)) db []) as (ks & -> & _).
  { intros k p Hin%t_entries_find. destruct (db_objects _ _ _ _ Hi _ _ Hin) as (t & Ht & _). eauto. }
  simpl. eexists. split; [done|]. revert db Hi.
  induction ks as [|k ks IH]; intros db Hi; simpl; [done|]. apply IH. by apply db_inv_remove.
Qed.

(** An exclusive call always gets a reply. *)
Lemma call_body_ok now clock c db : call_mode c = Exclusive -> clock <= now -> db_inv minute o clock db ->
  exists db' r, call_body minute junk o vanished now c db = Some (db', r) /\ db_inv minute o now db'.
Proof.
  intros Hm Hc Hi. destruct c as [rq|hs| |ih name path len|k|root|k]; try done; cbn [call_body].
  - destruct (db_announce_ok minute junk o clock now rq db Ho Hc Hi) as (db' & r & -> & Hi'). simpl. eauto.
  - eexists _, _. split; [done|].
    eapply db_inv_add; [by eapply db_inv_later|apply represents_new|by apply inv_nil].
  - eexists _, _. split; [done|]. apply db_inv_remove. by eapply db_inv_later.
  - destruct (check_ok root clock db Hi) as (db' & -> & Hi'). simpl. eexists _, _. split; [done|].
    by eapply db_inv_later.
Qed.

Lemma clean_ok now db p t : db_inv minute o now db -> objects_ db !! p = Some t ->
  exists t', cleanup now t = Some t' /\ db_inv minute o now (with_object db p t').
Proof.
  intros Hi Hp. destruct (db_reach _ _ _ _ Hi p t Hp) as (ps & Hr & Hps).
  destruct (torrent_cleanup_ok minute o now t ps Ho Hr Hps) as (t' & E & (Eih & _) & Hr' & Hps').
  exists t'. split; [done|]. eapply db_inv_with_object; eauto.
Qed.

Lemma call_body_exclusive now c db r : call_body minute junk o vanished now c db = Some r -> call_mode c = Exclusive.
Proof. by destruct c. Qed.

Lemma history_inv db clock log db' now : db_inv minute o clock db -> history db clock log db' now ->
  db_inv minute o now db'.
Proof.
  intros Hi. induction 1 as [|log db1 clock1 i now c r db2 _ IH Hc E|log db1 clock1 i now p t t' _ IH Hc Hp E]; [done|..].
  - pose proof (call_body_exclusive now c db1 _ E) as Hm.
    destruct (call_body_ok now clock1 c db1 Hm Hc IH) as (db2' & r' & E' & Hi'). congruence.
  - destruct (clean_ok now db1 p t) as (t1 & E1 & Hi1); [by eapply db_inv_later|done|]. congruence.
Qed.

(** The exclusive calls of one thread, in order. *)
Definition calls_of (i : nat) (log : list DbEvent) : list (DbCall * Reply) :=
  omap (fun e => match e with
                 | EvCall j _ c r => if decide (j = i) then Some (c, r) else None
                 | EvClean _ _ _ => None
                 end) log.
End History.

(** ** Every schedule *)
Section Schedules.
Context {T L X : Type} `{TrieLaws T} `{DListLaws L} `{LockLaws X}.
Context (minute : Z) (junk : list Z) (o : Options) (vanished : string -> bool).
Hypothesis Ho : options_ok o.
Local Abbreviation Threads := (Threads T L X).
Implicit Types (s : Threads) (db : TorrentDb T L).

Local Abbreviation turn := (turn minute junk o vanished).
Local Abbreviation advance := (advance minute junk o vanished).
Local Abbreviation step := (step minute junk o vanished).
Local Abbreviation history := (history minute junk o vanished).

(** The call under way, and how far it is. *)
Definition at_pc s (i : nat) : option (DbCall * Pc) :=
  th ← st_threads s !! i; c ← head (th_calls th); Some (c, th_pc th).

Definition holding (c : DbCall) (pc : Pc) : option Mode :=
  match pc with PcLock => None | _ => Some (call_mode c) end.

Definition indexed db (p : ptr) : Prop := exists k, t_find k (torrents_ db) = Some p.

(** The local variables fit the call and the database. *)
Definition fits db (c : DbCall) (pc : Pc) : Prop :=
  match pc with
  | PcLock | PcLocked | PcUnlock _ => True
  | PcScrape _ _ => exists hs, c = CallScrape hs
  | PcLeechers _ p _ _ | PcSeeders _ p _ _ _ | PcCompleted _ p _ _ _ _ => (exists hs, c = CallScrape hs) /\ indexed db p
  | PcForeach es => c = CallCleanup /\ Forall (fun e => indexed db e.2) es
  | PcCleanup now p es => c = CallCleanup /\ indexed db p /\ Forall (fun e => indexed db e.2) es
  | PcRow p _ _ | PcNext p _ _ => (exists k, c = CallPeers k) /\ indexed db p
  | PcFreed => exists k, c = CallPeers k
  end.

Definition cleaning (cpc : option (DbCall * Pc)) (p : ptr) : bool :=
  match cpc with Some (_, PcCleanup _ q _) => bool_decide (q = p) | _ => false end.

(** The database of the history: that of the state, once the cleanups under way
    have ended. *)
Definition settled s db : Prop :=
  torrents_ db = torrents_ (st_db s) /\ next_ db = next_ (st_db s) /\
  forall p,
    (forall i c now es, at_pc s i = Some (c, PcCleanup now p es) -> exists t t',
       objects_ (st_db s) !! p = Some t /\ objects_ db !! p = Some t' /\ cleanup now t = Some t') /\
    (objects_ (st_db s) !! p = objects_ db !! p \/ exists i, cleaning (at_pc s i) p = true).

(** The exclusive calls a thread has had a reply to. *)
Definition is_exclusive (x : DbCall * Reply) : Prop := call_mode x.1 = Exclusive.
#[export] Instance is_exclusive_dec x : Decision (is_exclusive x).
Proof. unfold is_exclusive. apply _. Defined.
Definition answered (th : Thread) : list (DbCall * Reply) :=
  filter is_exclusive (th_done th ++
    match head (th_calls th), th_pc th with Some c, PcUnlock r => [(c, r)] | _, _ => [] end).

Record inv db0 clock0 s log db clock : Prop := {
  inv_lock i : lk_holds (st_lock s) i = at_pc s i ≫= (fun '(c, pc) => holding c pc);
  inv_locks p i : lk_holds (torrent_lock s p) i = if cleaning (at_pc s i) p then Some Exclusive else None;
  inv_alone : alone (st_lock s);
  inv_locks_alone p : alone (torrent_lock s p);
  inv_fits i c pc : at_pc s i = Some (c, pc) -> fits (st_db s) c pc;
  inv_history : history db0 clock0 log db clock;
  inv_clock : clock <= st_clock s;
  inv_settled : settled s db;
  inv_calls i th : st_threads s !! i = Some th -> calls_of i log = answered th;
}.

Lemma at_pc_set s i th j : at_pc (set_thread s i th) j =
  if decide (j = i) then c ← head (th_calls th); Some (c, th_pc th) else at_pc s j.
Proof.
  unfold at_pc. simpl. case_decide; [subst; by rewrite lookup_insert_eq|by rewrite lookup_insert_ne].
Qed.

Lemma inv_start db0 clock0 calls :
  inv db0 clock0 (start db0 clock0 calls) [] db0 clock0.
Proof.
  assert (Hpc : forall i, at_pc (start db0 clock0 calls) i = None \/ exists c, at_pc (start db0 clock0 calls) i = Some (c, PcLock)).
  { intros i. unfold at_pc. simpl. rewrite lookup_fmap. destruct (calls !! i) as [[|c cs]|]; simpl; eauto. }
  split.
  - intros i. simpl. rewrite lk_holds_new. by destruct (Hpc i) as [-> |[c ->]].
  - intros p i. unfold torrent_lock. simpl. rewrite lookup_empty. simpl. rewrite lk_holds_new.
    by destruct (Hpc i) as [-> |[c ->]].
  - apply alone_new.
  - intros p. unfold torrent_lock. simpl. rewrite lookup_empty. apply alone_new.
  - intros i c pc E. destruct (Hpc i) as [E'|[c' E']]; rewrite E' in E; [done|]. by simplify_eq.
  - constructor.
  - simpl. lia.
  - split; [done|]. split; [done|]. intros p. split; [|by left].
    intros i c now es E. destruct (Hpc i) as [E'|[c' E']]; rewrite E' in E; [done|]. by simplify_eq.
  - intros i th. simpl. rewrite lookup_fmap. intros (cs & _ & ->)%fmap_Some. unfold answered. simpl.
    by destruct (head cs).
Qed.

Section Turns.
Context (db0 : TorrentDb T L) (clock0 : Z).
Hypothesis Hdb0 : db_inv minute o clock0 db0.
Context (s : Threads) (log : list DbEvent) (db : TorrentDb T L) (clock : Z).
Hypothesis Hs : inv db0 clock0 s log db clock.
Context (i : nat) (c : DbCall) (cs : list DbCall) (done_ : list (DbCall * Reply)).

Local Abbreviation at_ pc := (st_threads s !! i = Some (MkThread (c :: cs) pc done_)).
Local Abbreviation go s1 pc := (set_thread s1 i (MkThread (c :: cs) pc done_)).

Lemma at_at_pc pc : at_ pc -> at_pc s i = Some (c, pc).
Proof. intros E. unfold at_pc. by rewrite E. Qed.

Lemma answered_shared pc : call_mode c = Shared -> answered (MkThread (c :: cs) pc done_) = filter is_exclusive done_.
Proof.
  intros Hm. unfold answered. simpl. rewrite filter_app.
  destruct pc; try apply app_nil_r. rewrite filter_cons_False, filter_nil; [apply app_nil_r|].
  unfold is_exclusive. simpl. by rewrite Hm.
Qed.

(** Turns of a thread leave the calls of the others. *)
Lemma calls_frame pc th' s1 (log' : list DbEvent) : at_ pc -> st_threads s1 = st_threads s ->
  calls_of i log' = answered th' -> (forall j, j <> i -> calls_of j log' = calls_of j log) ->
  forall j th, st_threads (set_thread s1 i th') !! j = Some th -> calls_of j log' = answered th.
Proof.
  intros E Es Hi Hj j th. simpl. rewrite Es. destruct (decide (j = i)) as [-> |Hn].
  - rewrite lookup_insert_eq. by intros [= <-].
  - rewrite lookup_insert_ne by done. rewrite Hj by done. apply (inv_calls _ _ _ _ _ _ Hs).
Qed.

(** A turn that only reads. *)
Lemma inv_read pc pc' : at_ pc -> call_mode c = Shared -> pc <> PcLock -> pc' <> PcLock ->
  (forall p, cleaning (Some (c, pc)) p = false) -> (forall p, cleaning (Some (c, pc')) p = false) ->
  fits (st_db s) c pc' -> inv db0 clock0 (go s pc') log db clock.
Proof.
  intros E Hm Hpc Hpc' Hcl Hcl' Hfit. pose proof (at_at_pc pc E) as Ei.
  assert (Hview : forall j, cleaning (at_pc (go s pc') j) = cleaning (at_pc s j) \/
    j = i /\ at_pc (go s pc') j = Some (c, pc')).
  { intros j. rewrite at_pc_set. case_decide; [by right|by left]. }
  assert (Hclean : forall j p, cleaning (at_pc (go s pc') j) p = cleaning (at_pc s j) p).
  { intros j p. destruct (Hview j) as [-> |[-> ->]]; [done|]. by rewrite Ei, Hcl, Hcl'. }
  destruct Hs as [Il Ik Ia Ika If Ih Ic Id Ir]. split; try done.
  - intros j. change (lk_holds (st_lock s) j = at_pc (go s pc') j ≫= (fun '(c, pc) => holding c pc)).
    rewrite Il, at_pc_set. case_decide; [subst|done]. rewrite Ei. simpl. by destruct pc, pc'.
  - intros p j. change (torrent_lock (go s pc') p) with (torrent_lock s p). by rewrite Ik, Hclean.
  - intros j c' pc1. rewrite at_pc_set. case_decide; [|apply If]. simpl. by intros [= <- <-].
  - destruct Id as (Ht & Hn & Hp). split; [done|]. split; [done|]. intros p. destruct (Hp p) as [Hp1 Hp2]. split.
    + intros j c' now es. rewrite at_pc_set. case_decide; [|apply Hp1]. simpl. intros [= <- ->].
      specialize (Hcl' p). simpl in Hcl'. by rewrite bool_decide_eq_true_2 in Hcl'.
    + destruct Hp2 as [Hp2|[j Hcj]]; [by left|right; exists j; by rewrite Hclean].
  - eapply calls_frame; [done|done| |done]. rewrite (Ir _ _ E). by rewrite !answered_shared.
Qed.

(** The lock is taken, and released. *)
Lemma inv_take x : at_ PcLock -> lk_lock (call_mode c) i (st_lock s) = Some x ->
  inv db0 clock0 (go (set_lock s x) PcLocked) log db clock.
Proof.
  intros E El. pose proof (at_at_pc _ E) as Ei.
  assert (Hclean : forall j p, cleaning (at_pc (go (set_lock s x) PcLocked) j) p = cleaning (at_pc s j) p).
  { intros j p. rewrite at_pc_set. case_decide; [subst; by rewrite Ei|done]. }
  destruct Hs as [Il Ik Ia Ika If Ih Ic Id Ir]. split; try done.
  - intros j. rewrite at_pc_set. cbn [st_lock set_lock set_thread]. rewrite (lk_holds_lock _ _ _ _ j El).
    case_decide; [done|apply Il].
  - intros p j. change (torrent_lock (go (set_lock s x) PcLocked) p) with (torrent_lock s p). by rewrite Ik, Hclean.
  - cbn [st_lock set_lock set_thread]. by eapply alone_lock.
  - intros j c' pc. rewrite at_pc_set. case_decide; [|apply If]. simpl. by intros [= <- <-].
  - destruct Id as (Ht & Hn & Hp). split; [done|]. split; [done|]. intros p. destruct (Hp p) as [Hp1 Hp2]. split.
    + intros j c' now es. rewrite at_pc_set. case_decide; [done|apply Hp1].
    + destruct Hp2 as [Hp2|[j Hcj]]; [by left|right; exists j; by rewrite Hclean].
  - eapply calls_frame; [exact E|done| |done]. by rewrite (Ir _ _ E).
Qed.

Lemma inv_release r : at_ (PcUnlock r) ->
  inv db0 clock0 (set_thread (set_lock s (lk_unlock i (st_lock s))) i (MkThread cs PcLock (done_ ++ [(c, r)]))) log db clock.
Proof.
  intros E. pose proof (at_at_pc _ E) as Ei. set (s' := set_thread _ _ _).
  assert (Hi : at_pc s' i = None \/ exists c', at_pc s' i = Some (c', PcLock)).
  { unfold s'. rewrite at_pc_set, decide_True by done. simpl. destruct cs; simpl; eauto. }
  assert (Hj : forall j, j <> i -> at_pc s' j = at_pc s j).
  { intros j Hn. unfold s'. by rewrite at_pc_set, decide_False. }
  assert (Hclean : forall j p, cleaning (at_pc s' j) p = cleaning (at_pc s j) p).
  { intros j p. destruct (decide (j = i)) as [-> |Hn]; [|by rewrite Hj]. rewrite Ei. by destruct Hi as [-> |[c' ->]]. }
  destruct Hs as [Il Ik Ia Ika If Ih Ic Id Ir]. split; try done.
  - intros j. change (st_lock s') with (lk_unlock i (st_lock s)). rewrite lk_holds_unlock.
    case_decide as Hn; [subst|by rewrite Hj]. by destruct Hi as [-> |[c' ->]].
  - intros p j. change (torrent_lock s' p) with (torrent_lock s p). by rewrite Ik, Hclean.
  - by apply alone_unlock.
  - intros j c' pc. destruct (decide (j = i)) as [-> |Hn]; [|rewrite Hj by done; apply If].
    destruct Hi as [-> |[c1 ->]]; [done|]. by intros [= <- <-].
  - destruct Id as (Ht & Hn & Hp). split; [done|]. split; [done|]. intros p. destruct (Hp p) as [Hp1 Hp2]. split.
    + intros j c' now es. destruct (decide (j = i)) as [-> |Hne]; [|rewrite Hj by done; apply Hp1].
      by destruct Hi as [-> |[c1 ->]].
    + destruct Hp2 as [Hp2|[j Hcj]]; [by left|right; exists j; by rewrite Hclean].
  - eapply calls_frame; [exact E|done| |done]. rewrite (Ir _ _ E). unfold answered. cbn [th_calls th_pc th_done].
    destruct (head cs); by rewrite app_nil_r.
Qed.

(** Beside an exclusive holder the other threads are outside. *)
Lemma others_outside pc j : at_ pc -> call_mode c = Exclusive -> pc <> PcLock -> j <> i ->
  at_pc s j = None \/ exists c', at_pc s j = Some (c', PcLock).
Proof.
  intros E Hm Hpc Hn. pose proof (inv_lock _ _ _ _ _ _ Hs i) as Hi. rewrite (at_at_pc _ E) in Hi. simpl in Hi.
  assert (Hi' : lk_holds (st_lock s) i = Some Exclusive) by (rewrite Hi; destruct pc; simpl; congruence).
  pose proof (inv_lock _ _ _ _ _ _ Hs j) as Hj. destruct (at_pc s j) as [[c' pc']|]; [|by left]. right. exists c'.
  simpl in Hj. destruct (decide (holding c' pc' = None)) as [E'|E'].
  - by destruct pc'.
  - exfalso. apply Hn. symmetry. apply (inv_alone _ _ _ _ _ _ Hs i j Hi'). by rewrite Hj.
Qed.

Lemma exclusive_settled : at_ PcLocked -> call_mode c = Exclusive -> st_db s = db.
Proof.
  intros E Hm. destruct (inv_settled _ _ _ _ _ _ Hs) as (Ht & Hn & Hp).
  assert (Ho' : objects_ (st_db s) = objects_ db).
  { apply map_eq. intros p. destruct (Hp p) as [_ [?|[j Hj]]]; [done|]. exfalso. revert Hj.
    destruct (decide (j = i)) as [-> |Hne]; [by rewrite (at_at_pc _ E)|].
    by destruct (others_outside _ j E Hm ltac:(done) Hne) as [-> |[c' ->]]. }
  destruct (st_db s), db; simpl in *; congruence.
Qed.

(** An exclusive call happens at once. *)
Lemma inv_body db2 r : at_ PcLocked -> call_body minute junk o vanished (st_clock s) c (st_db s) = Some (db2, r) ->
  inv db0 clock0 (go (set_db s db2) (PcUnlock r)) (log ++ [EvCall i (st_clock s) c r]) db2 (st_clock s).
Proof.
  intros E Eb. pose proof (at_at_pc _ E) as Ei. pose proof (call_body_exclusive _ _ _ _ _ _ _ _ Eb) as Hm.
  pose proof (exclusive_settled E Hm) as Edb.
  assert (Hout : forall j, j <> i -> at_pc s j = None \/ exists c', at_pc s j = Some (c', PcLock)).
  { intros j Hn. by eapply others_outside. }
  assert (Hno : forall j p, cleaning (at_pc (go (set_db s db2) (PcUnlock r)) j) p = false).
  { intros j p. rewrite at_pc_set. case_decide as Hn; [done|].
    change (at_pc (set_db s db2) j) with (at_pc s j). by destruct (Hout j Hn) as [-> |[c' ->]]. }
  destruct Hs as [Il Ik Ia Ika If Ih Ic Id Ir]. split; try done.
  - intros j. change (lk_holds (st_lock s) j = at_pc (go (set_db s db2) (PcUnlock r)) j ≫= (fun '(c, pc) => holding c pc)).
    rewrite Il, at_pc_set. case_decide; [subst; by rewrite Ei|done].
  - intros p j. change (torrent_lock (go (set_db s db2) (PcUnlock r)) p) with (torrent_lock s p). rewrite Ik, Hno.
    destruct (decide (j = i)) as [-> |Hn]; [by rewrite Ei|]. by destruct (Hout j Hn) as [-> |[c' ->]].
  - intros j c' pc. rewrite at_pc_set. case_decide as Hn; [simpl; by intros [= <- <-]|].
    change (at_pc (set_db s db2) j) with (at_pc s j). destruct (Hout j Hn) as [-> |[c1 ->]]; [done|]. by intros [= <- <-].
  - eapply history_call; [exact Ih|done|by rewrite <- Edb].
  - split; [done|]. split; [done|]. intros p. split; [|by left].
    intros j c' now es Ej. specialize (Hno j p). rewrite Ej in Hno. simpl in Hno. by rewrite bool_decide_eq_true_2 in Hno.
  - eapply calls_frame; [exact E|done|..].
    + unfold calls_of. rewrite omap_app. simpl. rewrite decide_True by done. fold (calls_of i log). rewrite (Ir _ _ E).
      unfold answered. simpl. rewrite app_nil_r, filter_app. f_equal. by rewrite filter_cons_True.
    + intros j Hn. unfold calls_of. rewrite omap_app. simpl. rewrite decide_False by done. apply app_nil_r.
Qed.

(** ** The turns of a cleanup *)

Lemma db_now : db_inv minute o (st_clock s) db.
Proof.
  eapply db_inv_later; [apply (inv_clock _ _ _ _ _ _ Hs)|].
  eapply history_inv; [exact Ho|exact Hdb0|apply (inv_history _ _ _ _ _ _ Hs)].
Qed.

(** An indexed torrent exists. *)
Lemma indexed_object p : indexed (st_db s) p -> exists t, objects_ (st_db s) !! p = Some t.
Proof.
  intros [k Hk]. destruct (inv_settled _ _ _ _ _ _ Hs) as (Et & _ & Hp). rewrite <- Et in Hk.
  destruct (db_objects _ _ _ _ db_now _ _ Hk) as (t & Ht & _). destruct (Hp p) as [Hp1 [->|[j Hj]]]; [eauto|].
  unfold cleaning in Hj. destruct (at_pc s j) as [[c' []]|] eqn:Ej; try done. apply bool_decide_eq_true in Hj as ->.
  destruct (Hp1 j c' _ _ Ej) as (t1 & _ & E & _). eauto.
Qed.

(** One cleaner per torrent. *)
Lemma cleaner_unique j p now es : at_pc s i = Some (c, PcCleanup now p es) -> cleaning (at_pc s j) p = true -> j = i.
Proof.
  intros Ei Hj. pose proof (inv_locks _ _ _ _ _ _ Hs p i) as Hi. rewrite Ei in Hi. simpl in Hi.
  rewrite bool_decide_eq_true_2 in Hi by done. pose proof (inv_locks _ _ _ _ _ _ Hs p j) as Hj'. rewrite Hj in Hj'.
  symmetry. apply (inv_locks_alone _ _ _ _ _ _ Hs p i j Hi). by rewrite Hj'.
Qed.

Lemma torrent_lock_set p x q : torrent_lock (set_torrent_lock s p x) q = if decide (q = p) then x else torrent_lock s q.
Proof.
  unfold torrent_lock. simpl. case_decide as Hq; [subst; by rewrite lookup_insert_eq|by rewrite lookup_insert_ne].
Qed.

Lemma no_calls_clean log1 now p j : calls_of j (log1 ++ [EvClean i now p]) = calls_of j log1.
Proof. unfold calls_of. rewrite omap_app. simpl. apply app_nil_r. Qed.

(** The lock of a torrent is taken: its cleanup happens now, whenever its
    rounds do. *)
Lemma inv_enter k p es x : at_ (PcForeach ((k, p) :: es)) -> lk_lock Exclusive i (torrent_lock s p) = Some x ->
  exists db', inv db0 clock0 (go (set_torrent_lock s p x) (PcCleanup (st_clock s) p es))
    (log ++ [EvClean i (st_clock s) p]) db' (st_clock s).
Proof.
  intros E Ex. pose proof (at_at_pc _ E) as Ei. set (s' := go _ _).
  destruct (inv_fits _ _ _ _ _ _ Hs i c _ Ei) as [Hc Hes]. apply Forall_cons in Hes as [Hp Hes]. simpl in Hp.
  destruct (indexed_object p Hp) as [t Ht].
  assert (Hfree : forall j, cleaning (at_pc s j) p = false).
  { intros j. pose proof (lk_excludes Exclusive i _ x j Ex) as Hj. simpl in Hj. rewrite (inv_locks _ _ _ _ _ _ Hs) in Hj.
    by destruct (cleaning _ _). }
  destruct (inv_settled _ _ _ _ _ _ Hs) as (Et & En & Hd).
  assert (Ht' : objects_ db !! p = Some t).
  { destruct (Hd p) as [_ [<-|[j Hj]]]; [done|]. by rewrite Hfree in Hj. }
  destruct (clean_ok minute o Ho _ db p t db_now Ht') as (t' & Ec & _). exists (with_object db p t').
  assert (Hat : forall j, at_pc s' j = if decide (j = i) then Some (c, PcCleanup (st_clock s) p es) else at_pc s j).
  { intros j. unfold s'. by rewrite at_pc_set. }
  assert (Hcl : forall j q, cleaning (at_pc s' j) q = bool_decide (j = i /\ p = q) || cleaning (at_pc s j) q).
  { intros j q. rewrite Hat. case_decide as Hj; [subst; rewrite Ei; simpl; rewrite orb_false_r|rewrite bool_decide_eq_false_2 by tauto; done].
    apply bool_decide_ext. tauto. }
  pose proof Hs as [Il Ik Ia Ika If Ih Ic Id Ir]. split; try done.
  - intros j. change (st_lock s') with (st_lock s). rewrite Il, Hat. case_decide; [subst; by rewrite Ei|done].
  - intros q j. change (torrent_lock s' q) with (torrent_lock (set_torrent_lock s p x) q). rewrite torrent_lock_set, Hcl.
    case_decide as Hq; [subst q; rewrite (lk_holds_lock _ _ _ _ j Ex), Ik, Hfree, orb_false_r|rewrite Ik].
    + case_decide; [by rewrite bool_decide_eq_true_2|by rewrite bool_decide_eq_false_2 by tauto].
    + by rewrite bool_decide_eq_false_2 by (intros [_ ?]; congruence).
  - intros q. change (torrent_lock s' q) with (torrent_lock (set_torrent_lock s p x) q). rewrite torrent_lock_set.
    case_decide as Hq; [subst q; apply (alone_lock Exclusive i (torrent_lock s p)); [apply Ika|done]|apply Ika].
  - intros j c' pc. rewrite Hat. case_decide; [|apply If]. by intros [= <- <-].
  - eapply history_clean; done.
  - split; [done|]. split; [done|]. intros q. destruct (Hd q) as [Hq1 Hq2]. simpl. split.
    + intros j c' now es'. rewrite Hat. case_decide as Hj.
      * intros [= <- <- <- <-]. exists t, t'. by rewrite lookup_insert_eq.
      * intros Ej. assert (q <> p) as Hq by (intros ->; specialize (Hfree j); rewrite Ej in Hfree; simpl in Hfree;
          by rewrite bool_decide_eq_true_2 in Hfree). rewrite lookup_insert_ne by done. by eapply Hq1.
    + destruct (decide (q = p)) as [-> |Hq]; [right; exists i; rewrite Hcl; by rewrite bool_decide_eq_true_2|].
      rewrite lookup_insert_ne by done. destruct Hq2 as [?|[j Hj]]; [by left|right; exists j].
      by rewrite Hcl, Hj, orb_true_r.
  - eapply calls_frame; [exact E|done| |intros j Hj; apply no_calls_clean].
    by rewrite no_calls_clean, (Ir _ _ E), !answered_shared by (by rewrite Hc).
Qed.

(** A round removes a peer, and the cleanup stays what it was. *)
Lemma inv_round now p es t t1 q k peer : at_ (PcCleanup now p es) -> objects_ (st_db s) !! p = Some t ->
  l_list (timeouts_ t) = q :: k -> heap_ t !! q = Some peer -> ~ now < timeout_ts_ peer -> removePeer q t = Some t1 ->
  inv db0 clock0 (go (set_db s (with_object (st_db s) p t1)) (PcCleanup now p es)) log db clock.
Proof.
  intros E Ht El Eq Hlt Er. pose proof (at_at_pc _ E) as Ei. set (s' := go _ _).
  assert (Hat : forall j, at_pc s' j = at_pc s j).
  { intros j. unfold s'. rewrite at_pc_set. case_decide; [subst; by rewrite Ei|done]. }
  pose proof Hs as [Il Ik Ia Ika If Ih Ic Id Ir]. split; try done.
  - intros j. change (st_lock s') with (st_lock s). by rewrite Il, Hat.
  - intros r j. change (torrent_lock s' r) with (torrent_lock s r). by rewrite Ik, Hat.
  - intros j c' pc. rewrite Hat. apply If.
  - destruct Id as (Et & En & Hd). split; [done|]. split; [done|]. intros r. destruct (Hd r) as [Hr1 Hr2].
    simpl. destruct (decide (r = p)) as [-> |Hr].
    + split; [|right; exists i; rewrite Hat, Ei; simpl; by rewrite bool_decide_eq_true_2].
      intros j c' now' es'. rewrite Hat. intros Ej.
      assert (j = i) as -> by (eapply cleaner_unique; [exact Ei|rewrite Ej; simpl; by rewrite bool_decide_eq_true_2]).
      rewrite Ei in Ej. injection Ej as <- <- <-. destruct (Hr1 i c now es Ei) as (t0 & t' & Et0 & Et' & Ec).
      rewrite Ht in Et0. injection Et0 as <-. exists t1, t'. rewrite lookup_insert_eq. split; [done|]. split; [done|].
      rewrite cleanup_unfold, El, Eq in Ec. simpl in Ec. rewrite decide_False, Er in Ec by done. exact Ec.
    + rewrite lookup_insert_ne by done. split; [intros j c' now' es'; rewrite Hat; apply Hr1|].
      destruct Hr2 as [?|[j Hj]]; [by left|right; exists j; by rewrite Hat].
  - eapply calls_frame; [exact E|done| |done]. by rewrite (Ir _ _ E).
Qed.

(** The lock of the torrent is released when its cleanup has ended. *)
Lemma inv_leave now p es t : at_ (PcCleanup now p es) -> objects_ (st_db s) !! p = Some t -> cleanup now t = Some t ->
  inv db0 clock0 (go (set_torrent_lock s p (lk_unlock i (torrent_lock s p))) (PcForeach es)) log db clock.
Proof.
  intros E Ht Ec. pose proof (at_at_pc _ E) as Ei. set (s' := go _ _).
  destruct (inv_fits _ _ _ _ _ _ Hs i c _ Ei) as (Hc & Hp & Hes).
  assert (Hat : forall j, at_pc s' j = if decide (j = i) then Some (c, PcForeach es) else at_pc s j).
  { intros j. unfold s'. by rewrite at_pc_set. }
  assert (Hcl : forall j q, cleaning (at_pc s' j) q = negb (bool_decide (j = i)) && cleaning (at_pc s j) q).
  { intros j q. rewrite Hat. case_decide; [by rewrite bool_decide_eq_true_2|by rewrite bool_decide_eq_false_2]. }
  assert (Hmine : forall q, cleaning (at_pc s i) q = bool_decide (p = q)) by (intros q; by rewrite Ei).
  pose proof Hs as [Il Ik Ia Ika If Ih Ic Id Ir]. split; try done.
  - intros j. change (st_lock s') with (st_lock s). rewrite Il, Hat. case_decide; [subst; by rewrite Ei|done].
  - intros q j. change (torrent_lock s' q) with (torrent_lock (set_torrent_lock s p (lk_unlock i (torrent_lock s p))) q).
    rewrite torrent_lock_set, Hcl. case_decide as Hq; [subst q; rewrite lk_holds_unlock|]; rewrite Ik;
      case_bool_decide as Hj; try case_decide; subst; try done.
    rewrite Hmine. by rewrite bool_decide_eq_false_2.
  - intros q. change (torrent_lock s' q) with (torrent_lock (set_torrent_lock s p (lk_unlock i (torrent_lock s p))) q).
    rewrite torrent_lock_set. case_decide; [apply alone_unlock, Ika|apply Ika].
  - intros j c' pc. rewrite Hat. case_decide; [|apply If]. by intros [= <- <-].
  - destruct Id as (Et & En & Hd). split; [done|]. split; [done|]. intros r. destruct (Hd r) as [Hr1 Hr2]. split.
    + intros j c' now' es'. rewrite Hat. case_decide; [done|]. apply Hr1.
    + destruct (decide (r = p)) as [-> |Hr].
      * left. destruct (Hr1 i _ now es Ei) as (t0 & t' & Et0 & Et' & Ec'). simpl. congruence.
      * destruct Hr2 as [?|[j Hj]]; [by left|right; exists j]. rewrite Hcl, Hj, andb_true_r.
        rewrite bool_decide_eq_false_2; [done|]. intros ->. rewrite Hmine in Hj. apply bool_decide_eq_true in Hj. by subst.
  - eapply calls_frame; [exact E|done| |done]. by rewrite (Ir _ _ E), !answered_shared by (by rewrite Hc).
Qed.

(** Neither outside nor in the cleanup of a torrent. *)
Definition quiet (pc : Pc) : Prop := match pc with PcLock | PcCleanup _ _ _ => False | _ => True end.

(** The state after a turn, with what it adds to the history. *)
Definition goes_on (s' : Threads) : Prop :=
  exists log' db' clock', inv db0 clock0 s' log' db' clock'.

Lemma read_on pc pc' : at_ pc -> call_mode c = Shared -> quiet pc -> quiet pc' -> fits (st_db s) c pc' ->
  goes_on (go s pc').
Proof.
  intros E Hm Hq Hq' Hf. exists log, db, clock. apply (inv_read pc); [done|done|by intros ->|by intros ->| | |done];
    intros p; [by destruct pc|by destruct pc'].
Qed.

(** A turn of the thread [i] keeps the invariant. *)
Lemma body_on s1 pc' : at_ PcLocked -> call_mode c = Exclusive -> advance i c PcLocked s = Some (s1, pc') ->
  goes_on (go s1 pc').
Proof.
  intros E Hm Ea. cbn [Threads.advance] in Ea. rewrite Hm in Ea. destruct (body_waits i s c); [done|].
  destruct (call_body_ok minute junk o vanished Ho (st_clock s) (st_clock s) c (st_db s) Hm) as (db' & r & Eb & _);
    [lia|rewrite (exclusive_settled E Hm); apply db_now|].
  rewrite Eb in Ea. injection Ea as <- <-. eexists _, _, _. by apply inv_body.
Qed.

Lemma clean_on now p es : at_ (PcCleanup now p es) ->
  goes_on (set_thread (cleanup_turn i now p es s).1 i (MkThread (c :: cs) (cleanup_turn i now p es s).2 done_)).
Proof.
  intros E. pose proof (at_at_pc _ E) as Ei. destruct (inv_settled _ _ _ _ _ _ Hs) as (_ & _ & Hd).
  destruct (proj1 (Hd p) i c now es Ei) as (t & t' & Ht & _ & Ec). unfold cleanup_turn, with_torrent. rewrite Ht.
  pose proof Ec as Eu. rewrite cleanup_unfold in Eu.
  destruct (l_list (timeouts_ t)) as [|q k] eqn:El.
  - injection Eu as <-. eexists _, _, _. by eapply inv_leave.
  - unfold with_peer. destruct (heap_ t !! q) as [peer|] eqn:Eq; [|done]. simpl in Eu.
    destruct (decide (now < timeout_ts_ peer)) as [Hlt|Hlt].
    + injection Eu as <-. eexists _, _, _. by eapply inv_leave.
    + destruct (removePeer q t) as [t1|] eqn:Er; [|done]. eexists _, _, _. by eapply inv_round.
Qed.
End Turns.

(** What a reading turn leads to. *)
Lemma start_fits s c : call_mode c = Shared -> quiet (call_start s c) /\ fits (st_db s) c (call_start s c).
Proof.
  destruct c as [rq|hs| |ih name path len|k|root|k]; intros Hm; try done; cbn [call_start].
  - split; [done|]. by exists hs.
  - split; [done|]. split; [done|]. apply Forall_forall. intros [k p] Hin%t_entries_find. by exists k.
  - destruct (t_find k _) as [p|] eqn:Ek; [|done]. destruct (objects_ _ !! p) as [t|]; [|split; [done|by exists k]].
    destruct (head _) as [it|]; [|done]. split; [done|]. split; [by exists k|by exists k].
Qed.

Lemma reads_fit s i c pc s1 pc' : (forall p, indexed (st_db s) p -> exists t, objects_ (st_db s) !! p = Some t) ->
  fits (st_db s) c pc -> match pc with PcLock | PcLocked | PcCleanup _ _ _ | PcForeach (_ :: _) => False | _ => True end ->
  advance i c pc s = Some (s1, pc') -> s1 = s /\ call_mode c = Shared /\ quiet pc' /\ fits (st_db s) c pc'.
Proof.
  intros Hobj Hf Hpc Ea.
  destruct pc as [| |[|h hs] items|h p hs items|h p le hs items|h p le se hs items|[|e es]|now p es|p it rows|p it rows|r|];
    try done; cbn [Threads.advance] in Ea.
  - destruct Hf as [hs ->]. by injection Ea as <- <-.
  - pose proof Hf as [hs' ->]. injection Ea as <- <-. split; [done|]. split; [done|].
    destruct (t_find (bytes h) _) as [p|] eqn:Ek; [|done]. split; [done|]. split; [done|by eexists].
  - destruct Hf as [[hs' ->] Hp]. destruct (Hobj p Hp) as [t Ht]. unfold with_torrent in Ea. rewrite Ht in Ea.
    injection Ea as <- <-. split; [done|]. split; [done|]. split; [done|]. split; [by eexists|done].
  - destruct Hf as [[hs' ->] Hp]. destruct (Hobj p Hp) as [t Ht]. unfold with_torrent in Ea. rewrite Ht in Ea.
    injection Ea as <- <-. split; [done|]. split; [done|]. split; [done|]. split; [by eexists|done].
  - destruct Hf as [[hs' ->] Hp]. destruct (Hobj p Hp) as [t Ht]. unfold with_torrent in Ea. rewrite Ht in Ea.
    injection Ea as <- <-. split; [done|]. split; [done|]. split; [done|]. by eexists.
  - destruct Hf as [-> _]. by injection Ea as <- <-.
  - destruct Hf as [[k ->] Hp]. destruct (Hobj p Hp) as [t Ht]. unfold with_torrent, with_peer in Ea. rewrite Ht in Ea.
    destruct (heap_ t !! it); injection Ea as <- <-; (split; [done|]); (split; [done|]); (split; [done|]);
      [split; [by exists k|done]|by exists k].
  - destruct Hf as [[k ->] Hp]. destruct (Hobj p Hp) as [t Ht]. unfold with_torrent, with_peer in Ea. rewrite Ht in Ea.
    destruct (heap_ t !! it); [destruct (next_of it _)|]; injection Ea as <- <-; (split; [done|]); (split; [done|]); (split; [done|]);
      [split; [by exists k|done]|done|by exists k].
Qed.

(** A turn, in full. *)
Lemma turn_inv i s s' : turn i s = Some s' -> exists c cs pc done_, st_threads s !! i = Some (MkThread (c :: cs) pc done_) /\
  ((exists r, pc = PcUnlock r /\
     s' = set_thread (set_lock s (lk_unlock i (st_lock s))) i (MkThread cs PcLock (done_ ++ [(c, r)]))) \/
   exists s1 pc', advance i c pc s = Some (s1, pc') /\ s' = set_thread s1 i (MkThread (c :: cs) pc' done_)).
Proof.
  unfold Threads.turn. destruct (st_threads s !! i) as [[[|c cs] pc done_]|]; [done| |done].
  cbn [mbind option_bind th_calls th_pc th_done]. intros E. exists c, cs, pc, done_. split; [done|].
  destruct (advance i c pc s) as [[s1 pc']|] eqn:Ea; destruct pc; rewrite ?Ea in E; try done;
    try (left; injection E as <-; by eexists); right; injection E as <-; by exists s1, pc'.
Qed.

Lemma turn_keeps db0 clock0 i s s' log db clock : db_inv minute o clock0 db0 -> inv db0 clock0 s log db clock ->
  turn i s = Some s' -> goes_on db0 clock0 s'.
Proof.
  intros Hdb0 Hs (c & cs & pc & done_ & E & [(r & -> & ->)|(s1 & pc' & Ea & ->)])%turn_inv.
  { exists log, db, clock. by apply inv_release. }
  pose proof (inv_fits _ _ _ _ _ _ Hs i c pc) as Hf. rewrite (at_at_pc s i c cs done_ pc E) in Hf. specialize (Hf eq_refl).
  assert (Hread : match pc with PcLock | PcLocked | PcCleanup _ _ _ | PcForeach (_ :: _) => False | _ => True end ->
    goes_on db0 clock0 (set_thread s1 i (MkThread (c :: cs) pc' done_))).
  { intros Hpc. destruct (reads_fit s i c pc s1 pc') as (-> & Hm & Hq & Hf'); [by eapply indexed_object|done|done|done|].
    eapply (read_on db0 clock0 s log db clock Hs i c cs done_ pc); try done. by destruct pc. }
  destruct pc as [| | | | | |[|[k p] es]|now p es| | | |]; try (by apply Hread); clear Hread.
  - cbn [Threads.advance] in Ea. apply bind_Some in Ea as (x & Ex & Ea). injection Ea as <- <-.
    exists log, db, clock. by apply inv_take.
  - destruct (call_mode c) eqn:Hm; [by eapply body_on|].
    cbn [Threads.advance] in Ea. rewrite Hm in Ea. injection Ea as <- <-. destruct (start_fits s c Hm) as [Hq Hf'].
    by eapply (read_on db0 clock0 s log db clock Hs i c cs done_ PcLocked).
  - cbn [Threads.advance] in Ea. apply bind_Some in Ea as (x & Ex & Ea). injection Ea as <- <-.
    destruct (inv_enter db0 clock0 Hdb0 s log db clock Hs i c cs done_ k p es x E Ex) as [db' Hi].
    by exists (log ++ [EvClean i (st_clock s) p]), db', (st_clock s).
  - cbn [Threads.advance] in Ea. injection Ea as Ea.
    pose proof (clean_on db0 clock0 s log db clock Hs i c cs done_ now p es E) as Hg. by rewrite Ea in Hg.
Qed.

Lemma tick_keeps db0 clock0 s now log db clock : inv db0 clock0 s log db clock -> st_clock s <= now ->
  inv db0 clock0 (set_clock s now) log db clock.
Proof. intros [Il Ik Ia Ika If Ih Ic Id Ir] Hn. split; try done. simpl. lia. Qed.

Lemma steps_keep db0 clock0 calls s : db_inv minute o clock0 db0 -> rtc step (start db0 clock0 calls) s ->
  goes_on db0 clock0 s.
Proof.
  intros Hdb0 Hsteps. refine (rtc_ind_r (goes_on db0 clock0) _ _ _ s Hsteps).
  - eexists _, _, _. apply inv_start.
  - intros s1 s2 _ [i s1' s2' Et|s1' now Hn] (log & db & clock & Hi); [by eapply turn_keeps|].
    exists log, db, clock. by apply tick_keeps.
Qed.

(** C3. The calls that hold the lock of the database exclusively are atomic.
    Whatever calls the threads make and however their turns interleave, there
    is a history of announces, additions, removals, checks and cleanups of
    single torrents, one after the other and in the order of their times, that
    gives every such call the reply it got, keeps the calls of each thread in
    their order, and leads to the database of the state, once the cleanups
    under way have ended; no scrape and no page changes anything. *)
Theorem calls_linearize db clock calls s :
  db_reachable minute junk o db clock -> rtc step (start db clock calls) s ->
  exists log db' now, history db clock log db' now /\ now <= st_clock s /\
    (forall i th, st_threads s !! i = Some th -> calls_of i log = answered th) /\
    settled s db' /\ ((forall i p, cleaning (at_pc s i) p = false) -> st_db s = db').
Proof.
  intros Hd%db_reachable_inv Hsteps; [|exact Ho].
  destruct (steps_keep db clock calls s Hd Hsteps) as (log & db' & now & [Il Ik Ia Ika If Ih Ic Id Ir]).
  exists log, db', now. do 4 (split; [done|]). intros Hno. destruct Id as (Et & En & Hp).
  assert (Eo : objects_ (st_db s) = objects_ db').
  { apply map_eq. intros p. destruct (Hp p) as [_ [?|[i Hi]]]; [done|]. by rewrite Hno in Hi. }
  destruct (st_db s), db'; simpl in *; congruence.
Qed.

(** Of all the calls, only a page can follow a pointer to a freed object: the
    announces, scrapes, cleanups, additions, removals and checks never do. *)
Theorem only_pages_fail db clock calls s i c :
  db_reachable minute junk o db clock -> rtc step (start db clock calls) s ->
  at_pc s i = Some (c, PcFreed) -> exists k, c = CallPeers k.
Proof.
  intros Hd%db_reachable_inv Hsteps; [|exact Ho]. intros Ei.
  destruct (steps_keep db clock calls s Hd Hsteps) as (log & db' & now & Hi).
  exact (inv_fits _ _ _ _ _ _ Hi i c _ Ei).
Qed.

(** ** No thread waits for ever *)

Lemma advance_turn s i c cs pc done_ s1 pc' : st_threads s !! i = Some (MkThread (c :: cs) pc done_) ->
  advance i c pc s = Some (s1, pc') -> turn i s = Some (set_thread s1 i (MkThread (c :: cs) pc' done_)).
Proof.
  intros E Ea. unfold Threads.turn. rewrite E. cbn [mbind option_bind th_calls th_pc]. destruct pc; try done; by rewrite Ea.
Qed.

Lemma at_pc_thread s i c pc : at_pc s i = Some (c, pc) -> exists cs done_, st_threads s !! i = Some (MkThread (c :: cs) pc done_).
Proof.
  unfold at_pc. destruct (st_threads s !! i) as [[[|c' cs] pc' done_]|]; simpl; try done. intros [= <- <-]. eauto.
Qed.

Lemma advance_moves s i c pc : at_pc s i = Some (c, pc) -> is_Some (advance i c pc s) -> exists s', turn i s = Some s'.
Proof.
  intros (cs & done_ & E)%at_pc_thread [[s1 pc'] Ea]. eexists. by eapply advance_turn.
Qed.

(** A thread that is neither outside nor about to take the lock of a torrent
    can take a turn. *)
Lemma inside_moves s i c pc : at_pc s i = Some (c, pc) -> pc <> PcLock -> pc <> PcFreed ->
  (forall p, is_Some (lk_lock Exclusive i (torrent_lock s p)) \/
     exists now es, pc = PcCleanup now p es) ->
  exists s', turn i s = Some s'.
Proof.
  intros Ei Hl Hf Hfree. pose proof (at_pc_thread _ _ _ _ Ei) as (cs & done_ & E).
  destruct pc as [| |[|h hs] items|h p hs items|h p le hs items|h p le se hs items|[|[k p] es]|now p es|p it rows|p it rows|r|];
    try done; try (by apply (advance_moves s i c _ Ei); eexists).
  - apply (advance_moves s i c _ Ei). cbn [Threads.advance]. destruct (call_mode c); [|by eexists].
    replace (body_waits i s c) with false; [by eexists|]. symmetry. unfold body_waits. destruct c as [rq| | | | | |]; try done.
    destruct (t_find _ _) as [p|]; [|done]. destruct (Hfree p) as [[x ->]|(now & es & ?)]; done.
  - destruct (Hfree p) as [[x Ex]|(now & es' & ?)]; [|done]. apply (advance_moves s i c _ Ei).
    cbn [Threads.advance]. rewrite Ex. by eexists.
  - unfold Threads.turn. rewrite E. by eexists.
Qed.

(** Whether a thread is in the cleanup of a torrent, or inside at all. *)
Definition in_clean (th : Thread) : bool :=
  match head (th_calls th), th_pc th with Some _, PcCleanup _ _ _ => true | _, _ => false end.
Definition inside (th : Thread) : bool :=
  match head (th_calls th), th_pc th with Some _, PcLock => false | Some _, _ => true | None, _ => false end.

Lemma threads_some (f : Thread -> bool) s :
  (exists i th, st_threads s !! i = Some th /\ f th = true) \/ forall i th, st_threads s !! i = Some th -> f th = false.
Proof.
  destruct (decide (map_Exists (fun _ th => f th = true) (st_threads s))) as [Hex|Hno].
  - left. destruct Hex as (i & th & ? & ?). eauto.
  - right. intros i th E. apply not_true_is_false. intros Hf. apply Hno. by exists i, th.
Qed.

Lemma not_in_clean s : (forall i th, st_threads s !! i = Some th -> in_clean th = false) ->
  forall i p, cleaning (at_pc s i) p = false.
Proof.
  intros Hno i p. unfold at_pc. destruct (st_threads s !! i) as [[cs pc done_]|] eqn:E; [|done].
  specialize (Hno i _ E). unfold in_clean in Hno. simpl in *. destruct (head cs); [|done]. by destruct pc.
Qed.

(** When nobody is inside, whoever has a call can take the lock. *)
Lemma outside_moves s i th c : (forall j, lk_holds (st_lock s) j = at_pc s j ≫= (fun '(c, pc) => holding c pc)) ->
  (forall j th, st_threads s !! j = Some th -> inside th = false) ->
  st_threads s !! i = Some th -> head (th_calls th) = Some c -> exists s', turn i s = Some s'.
Proof.
  intros Il Hout E Ec. pose proof (Hout i th E) as Hi. unfold inside in Hi. rewrite Ec in Hi.
  assert (Ei : at_pc s i = Some (c, PcLock)).
  { unfold at_pc. rewrite E. simpl. rewrite Ec. simpl. by destruct (th_pc th). }
  apply (advance_moves s i c _ Ei). cbn [Threads.advance].
  destruct (lk_free (call_mode c) i (st_lock s)) as [x ->]; [|by eexists].
  intros j. rewrite Il. unfold at_pc. destruct (st_threads s !! j) as [th'|] eqn:Ej; [|done].
  specialize (Hout j th' Ej). unfold inside in Hout. simpl. destruct (head (th_calls th')); [|done]. simpl. by destruct (th_pc th').
Qed.

(** C6. No deadlock: as long as a call is not answered, some thread can take a
    turn, unless a page has read a freed peer. *)
Theorem threads_progress db clock calls s :
  db_reachable minute junk o db clock -> rtc step (start db clock calls) s ->
  (exists i k, at_pc s i = Some (CallPeers k, PcFreed)) \/ (exists i s', turn i s = Some s') \/
  forall i, at_pc s i = None.
Proof.
  intros Hd%db_reachable_inv Hsteps; [|exact Ho].
  destruct (steps_keep db clock calls s Hd Hsteps) as (log & db' & now & [Il Ik Ia Ika If Ih Ic Id Ir]).
  assert (Hat : forall i th c, st_threads s !! i = Some th -> head (th_calls th) = Some c -> at_pc s i = Some (c, th_pc th)).
  { intros i th c E Ec. unfold at_pc. rewrite E. simpl. by rewrite Ec. }
  assert (Hgo : forall i th c, st_threads s !! i = Some th -> head (th_calls th) = Some c -> th_pc th <> PcLock ->
    (forall p, is_Some (lk_lock Exclusive i (torrent_lock s p)) \/ exists now es, th_pc th = PcCleanup now p es) ->
    (exists i k, at_pc s i = Some (CallPeers k, PcFreed)) \/ exists i s', turn i s = Some s').
  { intros i th c E Ec Hl Hfree. pose proof (Hat i th c E Ec) as Ei. destruct (th_pc th) eqn:Epc;
      try (right; exists i; eapply inside_moves; [exact Ei|done|done|done]).
    left. destruct (If i c _ Ei) as [k ->]. eauto. }
  destruct (threads_some in_clean s) as [(i & [[|c cs] pc done_] & E & Hi)|Hno]; [done| |].
  { unfold in_clean in Hi. destruct pc; try done. right. left. exists i.
    apply (advance_moves s i c _ (Hat i _ c E eq_refl)). by eexists. }
  assert (Hfree : forall i p, is_Some (lk_lock Exclusive i (torrent_lock s p))).
  { intros i p. apply lk_free. intros j. by rewrite Ik, not_in_clean. }
  destruct (threads_some inside s) as [(i & th & E & Hi)|Hout].
  { unfold inside in Hi. destruct (head (th_calls th)) as [c|] eqn:Ec; [|done].
    destruct (Hgo i th c E Ec) as [?|?]; [by intros Epc; rewrite Epc in Hi|by left|by left|by right; left]. }
  destruct (threads_some (fun th => bool_decide (is_Some (head (th_calls th)))) s) as [(i & th & E & Hi)|Hidle].
  - right. left. exists i. apply bool_decide_eq_true in Hi as [c Ec]. by eapply outside_moves.
  - right. right. intros i. unfold at_pc. destruct (st_threads s !! i) as [th|] eqn:E; [|done].
    specialize (Hidle i th E). apply bool_decide_eq_false in Hidle. simpl. destruct (head (th_calls th)); [|done]. by destruct Hidle.
Qed.

End Schedules.

(** ** Schedules as lists of threads *)
Section Run.
Context {T L X : Type} `{Trie T} `{DList L} `{Lock X}.
Context (minute : Z) (junk : list Z) (o : Options) (vanished : string -> bool).

Fixpoint run (schedule : list nat) (s : Threads T L X) : option (Threads T L X) :=
  match schedule with
  | [] => Some s
  | i :: schedule => s ← turn minute junk o vanished i s; run schedule s
  end.

Lemma run_steps schedule s s' : run schedule s = Some s' -> rtc (step minute junk o vanished) s s'.
Proof.
  revert s. induction schedule as [|i schedule IH]; intros s E; simpl in E; [by injection E as <-|].
  destruct (turn _ _ _ _ i s) as [s1|] eqn:Et; simpl in E; [|done]. eapply rtc_l; [by apply (step_turn _ _ _ _ i)|by apply IH].
Qed.
End Run.

(** ** A database and two threads *)
Module ThreadsDemo.
Definition junk : list Z := replicate 18 0.
Definition vanished (path : string) : bool := false.
Definition ih2 : InfoHash := InfoHash_new SHA1 (replicate 20 2).

(** An announce for the second torrent. *)
Definition rq2 : AnnounceRequest :=
  {| rq_peerid_ := replicate 20 2; rq_info_hash_ := ih2; rq_num_want_ := 10; rq_event_ := kStarted;
     rq_downloaded_ := 0; rq_uploaded_ := 0; rq_left_ := 5; rq_addr_ := Demo.addr 2; rq_skip_ipv6_ := false |}.

Abbreviation Db := (TorrentDb (gmap tkey ptr) (list ptr)).
Definition after (now : Z) (rq : AnnounceRequest) (db : Db) : Db :=
  match db_announce Demo.minute junk default_options now rq db with Some (db, _) => db | None => db end.

(** Two torrents with a leecher each; the last announce finds no torrent and
    only tells the time, long after both have timed out. *)
Definition db2 : Db := addTorrent (Some (Torrent_new ih2 "other" "/t/other.torrent" 9)) DbDemo.db.
Definition db4 : Db := after 10 rq2 (after 5 (Demo.rq 1 5 kStarted) db2).
Definition rq3 : AnnounceRequest :=
  {| rq_peerid_ := replicate 20 3; rq_info_hash_ := InfoHash_new SHA1 (replicate 20 3); rq_num_want_ := 10;
     rq_event_ := kStarted; rq_downloaded_ := 0; rq_uploaded_ := 0; rq_left_ := 5; rq_addr_ := Demo.addr 3;
     rq_skip_ipv6_ := false |}.

Lemma db4_reachable : db_reachable Demo.minute junk default_options db4 100000000.
Proof.
  eapply (dr_announce _ _ _ db4 10 100000000 rq3); [|lia|vm_compute; reflexivity].
  eapply (dr_announce _ _ _ (after 5 (Demo.rq 1 5 kStarted) db2) 5 10 rq2); [|lia|vm_compute; reflexivity].
  eapply (dr_announce _ _ _ db2 0 5 (Demo.rq 1 5 kStarted)); [|lia|vm_compute; reflexivity].
  apply dr_add; [apply DbDemo.db_reachable_|split; [discriminate|reflexivity]].
Defined.

Abbreviation St := (Threads (gmap tkey ptr) (list ptr) (gmap nat Mode)).
Definition begin (calls : gmap nat (list DbCall)) : St := start db4 100000000 calls.
Abbreviation go := (run (T := gmap tkey ptr) (L := list ptr) (X := gmap nat Mode) Demo.minute junk default_options vanished).

(** An announce and a cleanup. *)
Definition two : gmap nat (list DbCall) := <[1%nat := [CallAnnounce rq2]]> {[2%nat := [CallCleanup]]}.
Definition schedule : list nat := replicate 10 2%nat ++ replicate 3 1%nat.
Definition final : St := default (begin two) (go schedule (begin two)).
Lemma final_run : go schedule (begin two) = Some final.
Proof. vm_compute. reflexivity. Defined.
Definition thread1 : Thread := default (MkThread [] PcLock []) (st_threads final !! 1%nat).
Lemma final_thread : st_threads final !! 1%nat = Some thread1.
Proof. vm_compute. reflexivity. Defined.
Definition answers (s : option St) (i : nat) : option (list Reply) :=
  s ← s; th ← st_threads s !! i; Some (th_done th).*2.
End ThreadsDemo.

(** The cleanup has the lock; the announce is answered after it, as it is in the
    history. *)
Lemma calls_linearize_witness : exists log db' now,
  history Demo.minute ThreadsDemo.junk default_options ThreadsDemo.vanished ThreadsDemo.db4 100000000 log db' now /\
  length (calls_of 1 log) = 1%nat /\ now <= 100000000.
Proof.
  destruct (calls_linearize Demo.minute ThreadsDemo.junk default_options ThreadsDemo.vanished default_options_ok
    ThreadsDemo.db4 100000000 ThreadsDemo.two ThreadsDemo.final ThreadsDemo.db4_reachable
    (run_steps _ _ _ _ _ _ _ ThreadsDemo.final_run)) as (log & db' & now & Hh & Hn & Hc & _).
  exists log, db', now. split; [exact Hh|]. split.
  - rewrite (Hc 1%nat ThreadsDemo.thread1 ThreadsDemo.final_thread). vm_compute. reflexivity.
  - exact Hn.
Defined.

Lemma threads_progress_witness :
  (exists i k, at_pc ThreadsDemo.final i = Some (CallPeers k, PcFreed)) \/
  (exists i s', turn Demo.minute ThreadsDemo.junk default_options ThreadsDemo.vanished i ThreadsDemo.final = Some s') \/
  forall i, at_pc ThreadsDemo.final i = None.
Proof.
  exact (threads_progress Demo.minute ThreadsDemo.junk default_options ThreadsDemo.vanished default_options_ok
    ThreadsDemo.db4 100000000 ThreadsDemo.two ThreadsDemo.final ThreadsDemo.db4_reachable
    (run_steps _ _ _ _ _ _ _ ThreadsDemo.final_run)).
Defined.

(** A scrape between the cleanups of two torrents counts the peer of one and
    not that of the other, which no sequence of calls does. *)
Definition torn : gmap nat (list DbCall) :=
  <[1%nat := [CallScrape [DbDemo.ih; ThreadsDemo.ih2]]]> {[2%nat := [CallCleanup]]}.

Lemma scrape_torn : exists r,
  ThreadsDemo.answers (ThreadsDemo.go ([1; 1; 1; 1; 1; 1]%nat ++ replicate 10 2%nat ++ replicate 6 1%nat) (ThreadsDemo.begin torn)) 1
    = Some [ReplyScrape r] /\ it_nleechers_ <$> sc_items_ r = [1; 0].
Proof. eexists. split; [vm_compute; reflexivity|reflexivity]. Qed.
