(* ===== verification/ThreadsRuns.v ===== *)
(** Threads that run for a while: a call nobody interrupts, a schedule as a list
    of threads, and the page of the peers beside a cleanup. *)
From stdpp Require Import base list gmap strings relations.
From Stdlib Require Import ZArith Lia.
From S2P Require Import Prelude Containers Options Address InfoHash Announce Torrent TorrentSpec TorrentTheorems TorrentDb FsTreeWhiteList HttpHandlers Threads ThreadsTheorems.

Section Runs.
Context {T L X : Type} `{TrieLaws T} `{DListLaws L} `{LockLaws X}.
Context (minute : Z) (junk : list Z) (o : Options) (vanished : string -> bool).
Hypothesis Ho : options_ok o.
Local Abbreviation Threads := (Threads T L X).
Implicit Types (s : Threads) (db : TorrentDb T L).

Local Abbreviation turn := (turn minute junk o vanished).
Local Abbreviation advance := (advance minute junk o vanished).
Local Abbreviation step := (step minute junk o vanished).

(** ** One thread for a while *)

(** Only the thread [i], the database and the locks of torrents change. *)
Definition beside (i : nat) s s' : Prop :=
  st_clock s' = st_clock s /\ st_lock s' = st_lock s /\ forall j, j <> i -> st_threads s' !! j = st_threads s !! j.

Lemma beside_trans i s s' s'' : beside i s s' -> beside i s' s'' -> beside i s s''.
Proof.
  intros (Ha & Hb & Hc) (Hd & He & Hf). split; [congruence|]. split; [congruence|]. intros j Hj. by rewrite Hf, Hc.
Qed.

Lemma beside_set i s s1 th : st_clock s1 = st_clock s -> st_lock s1 = st_lock s -> st_threads s1 = st_threads s ->
  beside i s (set_thread s1 i th).
Proof. intros Ha Hb Hc. split; [done|]. split; [done|]. intros j Hj. simpl. by rewrite lookup_insert_ne, Hc. Qed.

Lemma turn_run s i c cs pc done_ s1 pc' : st_threads s !! i = Some (MkThread (c :: cs) pc done_) ->
  advance i c pc s = Some (s1, pc') -> rtc step s (set_thread s1 i (MkThread (c :: cs) pc' done_)).
Proof. intros E Ea. apply rtc_once. eapply step_turn. by eapply advance_turn. Qed.

(** The rounds of the cleanup of a torrent. *)
Lemma rounds_run i now p es cs done_ t t' s :
  st_threads s !! i = Some (MkThread (CallCleanup :: cs) (PcCleanup now p es) done_) ->
  objects_ (st_db s) !! p = Some t -> cleanup now t = Some t' ->
  exists s', rtc step s s' /\ st_threads s' !! i = Some (MkThread (CallCleanup :: cs) (PcForeach es) done_) /\
    st_db s' = with_object (st_db s) p t' /\ beside i s s' /\
    forall q, torrent_lock s' q = if decide (q = p) then lk_unlock i (torrent_lock s p) else torrent_lock s q.
Proof.
  remember (timeouts_length t) as n eqn:En. revert t s En. induction n as [n IH] using lt_wf_ind. intros t s -> E Ht Ec.
  assert (Eadv : advance i CallCleanup (PcCleanup now p es) s =
    Some ((cleanup_turn i now p es s).1, (cleanup_turn i now p es s).2))
    by (cbn [Threads.advance]; by destruct (cleanup_turn i now p es s)).
  pose proof (turn_run s i _ cs _ done_ _ _ E Eadv) as Hturn. clear Eadv.
  assert (Hleave : t' = t -> cleanup_turn i now p es s =
      (set_torrent_lock s p (lk_unlock i (torrent_lock s p)), PcForeach es) ->
    exists s', rtc step s s' /\ st_threads s' !! i = Some (MkThread (CallCleanup :: cs) (PcForeach es) done_) /\
      st_db s' = with_object (st_db s) p t' /\ beside i s s' /\
      forall q, torrent_lock s' q = if decide (q = p) then lk_unlock i (torrent_lock s p) else torrent_lock s q).
  { intros -> Eturn. rewrite Eturn in Hturn. eexists. split; [exact Hturn|]. split; [simpl; apply lookup_insert_eq|].
    split; [|split; [by apply beside_set|intros q; apply torrent_lock_set]].
    simpl. unfold with_object. rewrite insert_id by done. by destruct (st_db s). }
  rewrite cleanup_unfold in Ec. unfold cleanup_turn, with_torrent, with_peer in Hleave, Hturn. rewrite Ht in Hleave, Hturn.
  destruct (l_list (timeouts_ t)) as [|q k] eqn:El; [injection Ec as <-; by apply Hleave|].
  destruct (heap_ t !! q) as [peer|] eqn:Eq; [|done]. simpl in Ec.
  destruct (decide (now < timeout_ts_ peer)); [injection Ec as <-; by apply Hleave|]. clear Hleave.
  destruct (removePeer q t) as [t1|] eqn:Er; [|done]. simpl in Ec. cbn [fst snd] in Hturn.
  set (s1 := set_thread _ _ _) in Hturn.
  destruct (IH _ (removePeer_length q k t t1 El Er) t1 s1 eq_refl) as (s' & Hr & Es' & Edb & Hb & Hlk);
    [unfold s1; simpl; apply lookup_insert_eq|unfold s1; simpl; apply lookup_insert_eq|exact Ec|].
  exists s'. split; [by etrans|]. split; [done|]. split; [|split; [|exact Hlk]].
  - rewrite Edb. unfold s1, with_object. simpl. by rewrite insert_insert_eq.
  - eapply beside_trans; [|exact Hb]. by apply beside_set.
Qed.

(** A whole cleanup, one torrent after the other. *)
Lemma foreach_run i es cs done_ db' s :
  st_threads s !! i = Some (MkThread (CallCleanup :: cs) (PcForeach es) done_) ->
  (forall q j, lk_holds (torrent_lock s q) j = None) -> cleanup_all (st_clock s) es (st_db s) = Some db' ->
  exists s', rtc step s s' /\ st_threads s' !! i = Some (MkThread (CallCleanup :: cs) (PcForeach []) done_) /\
    st_db s' = db' /\ beside i s s'.
Proof.
  revert s. induction es as [|[k p] es IH]; intros s E Hfree Ea; simpl in Ea.
  { injection Ea as <-. exists s. split; [done|]. split; [done|]. by split. }
  destruct (objects_ (st_db s) !! p) as [t|] eqn:Ht; simpl in Ea; [|done].
  destruct (cleanup (st_clock s) t) as [t'|] eqn:Ec; simpl in Ea; [|done].
  destruct (lk_free Exclusive i (torrent_lock s p) (Hfree p)) as [x Ex].
  assert (Eadv : advance i CallCleanup (PcForeach ((k, p) :: es)) s =
    Some (set_torrent_lock s p x, PcCleanup (st_clock s) p es)) by (cbn [Threads.advance]; by rewrite Ex).
  pose proof (turn_run s i _ cs _ done_ _ _ E Eadv) as Hturn. set (s1 := set_thread _ _ _) in Hturn.
  destruct (rounds_run i (st_clock s) p es cs done_ t t' s1) as (s2 & Hr2 & E2 & Edb2 & (Hb1 & Hb2 & Hb3) & Hlk2);
    [unfold s1; simpl; apply lookup_insert_eq|exact Ht|exact Ec|].
  destruct (IH s2 E2) as (s3 & Hr3 & E3 & Edb3 & Hb').
  - intros q j. rewrite Hlk2. change (torrent_lock s1) with (torrent_lock (set_torrent_lock s p x)).
    assert (Hx : forall j, j <> i -> lk_holds x j = None).
    { intros j' Hj. rewrite (lk_holds_lock Exclusive i (torrent_lock s p) x j') by done. by rewrite decide_False. }
    case_decide as Hq; [rewrite torrent_lock_set, decide_True, lk_holds_unlock by done; case_decide; [done|by apply Hx]|].
    by rewrite torrent_lock_set, decide_False.
  - rewrite Hb1, Edb2. exact Ea.
  - exists s3. split; [by etrans; [exact Hturn|etrans]|]. split; [done|]. split; [done|].
    eapply beside_trans; [|exact Hb']. eapply beside_trans; [|split; [exact Hb1|split; [exact Hb2|exact Hb3]]].
    by apply beside_set.
Qed.









(** ** The page of the peers beside a cleanup *)
Local Abbreviation racing k := (<[1%nat := [CallPeers k]]> {[2%nat := [CallCleanup]]} : gmap nat (list DbCall)).

(** The page stops at the first peer; the cleanup shares the lock and gets to
    its first torrent. *)
Lemma race_start db clock k p t it l : t_find k (torrents_ db) = Some p -> objects_ db !! p = Some t ->
  l_list (timeouts_ t) = it :: l ->
  exists s, rtc step (start (X := X) db clock (racing k)) s /\ st_db s = db /\ st_clock s = clock /\
    st_threads s !! 1%nat = Some (MkThread [CallPeers k] (PcRow p it []) []) /\
    st_threads s !! 2%nat = Some (MkThread [CallCleanup] (PcForeach (t_entries (torrents_ db))) []) /\
    forall q j, lk_holds (torrent_lock s q) j = None.
Proof.
  intros Hk Ht El. set (s0 := start db clock (racing k)).
  assert (E1 : st_threads s0 !! 1%nat = Some (MkThread [CallPeers k] PcLock [])).
  { simpl. by rewrite lookup_fmap, lookup_insert_eq. }
  assert (E2 : st_threads s0 !! 2%nat = Some (MkThread [CallCleanup] PcLock [])).
  { simpl. by rewrite lookup_fmap, lookup_insert_ne, lookup_singleton_eq. }
  destruct (lk_share 1%nat (lk_new : X)) as [x Ex]; [intros j; by rewrite lk_holds_new|].
  assert (Hx : forall j, lk_holds x j <> Some Exclusive).
  { intros j. rewrite (lk_holds_lock Shared 1%nat _ x j Ex), lk_holds_new. by case_decide. }
  destruct (lk_share 2%nat x Hx) as [y Ey].
  assert (A1 : advance 1%nat (CallPeers k) PcLock s0 = Some (set_lock s0 x, PcLocked)).
  { cbn [Threads.advance call_mode]. simpl. by rewrite Ex. }
  pose proof (turn_run s0 1%nat _ [] _ [] _ _ E1 A1) as Hr1. set (s1 := set_thread _ 1%nat _) in Hr1.
  assert (A2 : advance 1%nat (CallPeers k) PcLocked s1 = Some (s1, PcRow p it [])).
  { cbn [Threads.advance call_mode call_start]. simpl. by rewrite Hk, Ht, El. }
  pose proof (turn_run s1 1%nat _ [] _ [] _ _ (lookup_insert_eq _ _ _) A2) as Hr2. set (s2 := set_thread s1 1%nat _) in Hr2.
  assert (A3 : advance 2%nat CallCleanup PcLock s2 = Some (set_lock s2 y, PcLocked)).
  { cbn [Threads.advance call_mode]. simpl. by rewrite Ey. }
  assert (E3 : st_threads s2 !! 2%nat = Some (MkThread [CallCleanup] PcLock [])).
  { unfold s2, s1. simpl. rewrite !lookup_insert_ne by done. exact E2. }
  pose proof (turn_run s2 2%nat _ [] _ [] _ _ E3 A3) as Hr3. set (s3 := set_thread _ 2%nat _) in Hr3.
  pose proof (turn_run s3 2%nat CallCleanup [] PcLocked [] _ _ (lookup_insert_eq _ _ _) eq_refl) as Hr4.
  eexists. split; [etrans; [exact Hr1|]; etrans; [exact Hr2|]; etrans; [exact Hr3|exact Hr4]|].
  split; [done|]. split; [done|]. split; [|split; [apply lookup_insert_eq|]].
  - simpl. rewrite !lookup_insert_ne by done. apply lookup_insert_eq.
  - intros q j. unfold torrent_lock. simpl. rewrite lookup_empty. apply lk_holds_new.
Qed.

(** C4. The page of the peers reads freed peers: it shares the lock of the
    database with the cleanup and does not take that of the torrent, so that,
    from every reachable database with a torrent whose oldest peer has timed
    out, some interleaving of one page and one cleanup makes the page follow a
    pointer to a peer that the cleanup has deleted. *)
Theorem page_reads_freed db clock k t peer ps :
  db_reachable minute junk o db clock -> lookup_torrent db k = Some t -> peer_list t = peer :: ps ->
  timeout_ts_ peer <= clock ->
  exists s, rtc step (start (X := X) db clock (racing k)) s /\ at_pc s 1%nat = Some (CallPeers k, PcFreed).
Proof.
  intros Hd%db_reachable_inv Hl Hps Hto; [|exact Ho]. unfold lookup_torrent in Hl.
  destruct (t_find k (torrents_ db)) as [p|] eqn:Hk; simpl in Hl; [|done].
  destruct (db_reach _ _ _ _ Hd p t Hl) as (ps' & Hr & _). rewrite (peer_list_represents t ps' Hr) in Hps. subst ps'.
  pose proof (r_list _ _ Hr) as Hlist. apply Forall2_cons_inv_r in Hlist as (it & l & Hit & _ & El).
  destruct (race_start db clock k p t it l Hk Hl El) as (s1 & Hr1 & Edb1 & Eclk1 & E1 & E2 & Hfree).
  destruct (db_cleanup_ok minute o clock clock db Ho) as (db' & Ec & _); [lia|done|].
  destruct (foreach_run 2%nat (t_entries (torrents_ db)) [] [] db' s1 E2 Hfree) as (s2 & Hr2 & _ & Edb2 & (_ & _ & Hb)).
  { by rewrite Eclk1, Edb1. }
  destruct (cleanup_all_reaches clock (t_entries (torrents_ db)) db db' p t it l peer Ec El Hit Hto) as (t' & Ht' & Hgone).
  { by left. }
  { left. apply t_entries_find in Hk. apply list_elem_of_fmap. by exists (k, p). }
  specialize (Hb 1%nat ltac:(done)). rewrite E1 in Hb.
  assert (Ea : advance 1%nat (CallPeers k) (PcRow p it []) s2 = Some (s2, PcFreed)).
  { cbn [Threads.advance]. unfold with_torrent, with_peer. by rewrite Edb2, Ht', Hgone. }
  eexists. split; [etrans; [exact Hr1|]; etrans; [exact Hr2|exact (turn_run s2 1%nat _ [] _ [] _ _ Hb Ea)]|].
  rewrite at_pc_set. by rewrite decide_True.
Qed.
End Runs.


(** The torrent of the first announce, whose only peer has timed out. *)
Definition old_torrent : Torrent (gmap tkey ptr) (list ptr) :=
  default (Torrent_new DbDemo.ih "" "" 0) (lookup_torrent ThreadsDemo.db4 (replicate 20 1)).
Definition old_peer : Peer := default (Peer_new ThreadsDemo.junk) (head (peer_list old_torrent)).

Lemma page_reads_freed_witness : exists s : Threads (gmap tkey ptr) (list ptr) (gmap nat Mode),
  at_pc s 1 = Some (CallPeers (replicate 20 1), PcFreed).
Proof.
  destruct (page_reads_freed (X := gmap nat Mode) Demo.minute ThreadsDemo.junk default_options ThreadsDemo.vanished
    default_options_ok ThreadsDemo.db4 100000000 (replicate 20 1) old_torrent old_peer [] ThreadsDemo.db4_reachable)
    as (s & _ & E).
  - vm_compute. reflexivity.
  - vm_compute. reflexivity.
  - vm_compute. discriminate.
  - exists s. exact E.
Defined.
