(* ===== verification/Js.v ===== *)
(** JavaScript numbers and strings: the parts of the language's standard
    library the scripts under src/www/js use.  A number is an exact rational
    ([Q]); where the rounding of a double is observable ([parseInt] of a
    product, decimal literals) [to_double] rounds to 53 bits.  [NaN] is [None].
    Strings are sequences of code units below 256. *)
From Stdlib Require Import ZArith QArith Qround Qabs Qminmax Lia Lqa String Ascii.
From stdpp Require Import base list strings pretty.
From S2P Require Import Prelude.

Local Open Scope Z_scope.

(** ** Characters and strings *)

Definition code (c : ascii) : Z := Z.of_nat (nat_of_ascii c).
Definition is_digit (c : ascii) : bool := (48 <=? code c) && (code c <=? 57).
Definition digit_val (c : ascii) : Z := code c - 48.

(** JavaScript white space, restricted to the code units below 256. *)
Definition is_white (c : ascii) : bool :=
  ((9 <=? code c) && (code c <=? 13)) || (code c =? 32) || (code c =? 160).

Fixpoint trim_start (s : string) : string :=
  match s with
  | String c s' => if is_white c then trim_start s' else s
  | EmptyString => s
  end.

Definition rev_string (s : string) : string :=
  string_of_list_ascii (rev (list_ascii_of_string s)).

(** [s.trim()] *)
Definition trim (s : string) : string := rev_string (trim_start (rev_string (trim_start s))).

(** [s.indexOf(p)], [s.replace(p, r)] for a string pattern (the first
    occurrence only), [s.split(c)] for a one-character separator. *)
Fixpoint strip_prefix (p s : string) : option string :=
  match p, s with
  | EmptyString, _ => Some s
  | String a p', String b s' => if Ascii.eqb a b then strip_prefix p' s' else None
  | _, EmptyString => None
  end.

Fixpoint replace (p r s : string) : string :=
  match strip_prefix p s with
  | Some rest => r ++ rest
  | None => match s with
            | EmptyString => EmptyString
            | String c s' => String c (replace p r s')
            end
  end%string.

Fixpoint split (sep : ascii) (s : string) : list string :=
  match s with
  | EmptyString => [EmptyString]
  | String c s' =>
      if Ascii.eqb c sep then EmptyString :: split sep s'
      else match split sep s' with
           | w :: ws => String c w :: ws
           | [] => [String c EmptyString]
           end
  end.

(** The order of [<] on strings: by code units. *)
Definition str_lt (a b : string) : bool :=
  match String.compare a b with Lt => true | _ => false end.

(** ** Numbers *)

(** A maximal prefix of decimal digits: its value, its length, the rest. *)
Fixpoint digits (acc : Z) (n : nat) (s : string) : Z * nat * string :=
  match s with
  | String c s' => if is_digit c then digits (acc * 10 + digit_val c) (S n) s' else (acc, n, s)
  | EmptyString => (acc, n, s)
  end.

(** [2 ^ e] and [10 ^ e] for any integer [e]. *)
Definition qpow (b e : Z) : Q := Qpower (inject_Z b) e.

(** Round half to even. *)
Definition round_even (q : Q) : Z :=
  let f := Qfloor q in
  let d := (q - inject_Z f)%Q in
  if Qle_bool (1 # 2) d then
    if Qle_bool d (1 # 2) then (if Z.even f then f else f + 1) else f + 1
  else f.

(** The exponent of the last place of the double nearest to a positive [q]. *)
Definition ulp_exp (q : Q) : Z :=
  let e := Z.log2 (Qnum q) - Z.log2 (Zpos (Qden q)) in
  (* 2 ^ (e - 1) < q < 2 ^ (e + 1) *)
  (if Qle_bool (qpow 2 e) q then e else e - 1) - 52.

(** The double nearest to [q] (subnormals and overflow apart). *)
Definition to_double (q : Q) : Q :=
  if (Qnum q =? 0)%Z then q
  else
    let a := Qabs q in
    let e := ulp_exp a in
    let r := Qred (inject_Z (round_even (a * qpow 2 (- e))) * qpow 2 e)%Q in
    if (Qnum q <? 0)%Z then Qopp r else r.

(** The optional sign of a numeric prefix. *)
Definition sign_of (s : string) : bool * string :=
  match s with
  | String "-" s' => (true, s')
  | String "+" s' => (false, s')
  | _ => (false, s)
  end%char.

Definition hex_val (c : ascii) : option Z :=
  let z := code c in
  if is_digit c then Some (z - 48)
  else if (97 <=? z) && (z <=? 102) then Some (z - 87)
  else if (65 <=? z) && (z <=? 70) then Some (z - 55)
  else None.

Fixpoint hex_digits (acc : Z) (n : nat) (s : string) : Z * nat :=
  match s with
  | String c s' => match hex_val c with
                   | Some d => hex_digits (acc * 16 + d) (S n) s'
                   | None => (acc, n)
                   end
  | EmptyString => (acc, n)
  end.

(** [parseInt(s)]: the longest integer prefix after white space, base 16
    behind [0x]; [None] is [NaN]. *)
Definition parseInt (s : string) : option Q :=
  let '(neg, r) := sign_of (trim_start s) in
  let '(z, n) :=
    match r with
    | String "0" (String "x" r') | String "0" (String "X" r') => hex_digits 0 0 r'
    | _ => let '(z, n, _) := digits 0 0 r in (z, n)
    end%char in
  if (n =? 0)%nat then None
  else Some (to_double (inject_Z (if neg then - z else z))).

(** [parseInt(s, 10)] *)
Definition parseInt10 (s : string) : option Q :=
  let '(neg, r) := sign_of (trim_start s) in
  let '(z, n, _) := digits 0 0 r in
  if (n =? 0)%nat then None
  else Some (to_double (inject_Z (if neg then - z else z))).

(** The exponent part of a decimal literal: its value, the rest. *)
Definition exponent (s : string) : Z * string :=
  match s with
  | String c s' =>
      if (Ascii.eqb c "e" || Ascii.eqb c "E")%char then
        let '(neg, r) := sign_of s' in
        let '(z, n, rest) := digits 0 0 r in
        if (n =? 0)%nat then (0, s) else (if neg then - z else z, rest)
      else (0, s)
  | EmptyString => (0, s)
  end.

(** An unsigned decimal literal prefix, [12], [12.5], [.5], [1e3]: its exact
    value and the rest of the string. *)
Definition decimal (s : string) : option (Q * string) :=
  let '(ip, n, s1) := digits 0 0 s in
  let '(m, k, s2) :=
    match s1 with
    | String "." s1' => let '(v, m, r) := digits ip 0 s1' in
                        if (n + m =? 0)%nat then (ip, 0%nat, s1) else (v, m, r)
    | _ => (ip, 0%nat, s1)
    end%char in
  if (n + k =? 0)%nat then None
  else let '(e, s3) := exponent s2 in
       Some ((inject_Z m * qpow 10 (e - Z.of_nat k))%Q, s3).

(** [parseFloat(s)]; the literal [Infinity] is not represented. *)
Definition parseFloat (s : string) : option Q :=
  let '(neg, r) := sign_of (trim_start s) in
  match decimal r with
  | Some (q, _) => Some (let d := Qred (to_double q) in if neg then Qopp d else d)
  | None => None
  end.

(** The decimal exponent [k] with [10 ^ k <= a < 10 ^ (k + 1)], for [0 < a]. *)
Definition log10 (a : Q) : Z :=
  let e := (Z.log2 (Qnum a) - Z.log2 (Zpos (Qden a))) * 30103 / 100000 in
  let cand := [e + 2; e + 1; e; e - 1; e - 2] in
  match filter (fun k => Qle_bool (qpow 10 k) a = true) cand with
  | k :: _ => k
  | [] => e - 3
  end.

(** The shortest decimal that rounds to the double of [a > 0]: its digits as an
    integer [s], their number [n] and the decimal exponent [k] of the first, so
    that [a] prints as [s * 10 ^ (k - n + 1)]. *)
Definition shortest (a : Q) : Z * Z * Z :=
  let a := to_double a in
  let k := log10 a in
  let try (n : Z) :=
    let s := round_even (a * qpow 10 (n - 1 - k)) in
    if Qeq_bool (to_double (inject_Z s * qpow 10 (k - n + 1))%Q) a then Some (s, n) else None in
  match omap try (seqZ 1 17) with
  | (s, n) :: _ => if s =? 10 ^ n then (1, 1, k + 1) else (s, n, k)
  | [] => (Qfloor (a * qpow 10 (16 - k)), 17, k)
  end.

(** The digit [ToString] prints before the point in exponent notation. *)
Definition lead_digit (a : Q) : Z := let '(s, n, _) := shortest a in s / 10 ^ (n - 1).

Fixpoint zeros (n : nat) : string :=
  match n with O => EmptyString | S n => String "0" (zeros n) end.

(** [String(x)] of a number. *)
Definition num_str (x : Q) : string :=
  let sign := if (Qnum x <? 0)%Z then "-"%string else EmptyString in
  if (Qnum x =? 0)%Z then "0"%string else
  let '(s, n, k) := shortest (Qabs x) in
  let p := k + 1 in
  let ds : string := pretty s in
  (sign ++
   if ((n <=? p) && (p <=? 21))%Z then ds ++ zeros (Z.to_nat (p - n)%Z)
   else if ((0 <? p) && (p <=? 21))%Z then
     String.substring 0 (Z.to_nat p) ds ++ "." ++ String.substring (Z.to_nat p) (Z.to_nat (n - p)%Z) ds
   else if ((-6 <? p) && (p <=? 0))%Z then "0." ++ zeros (Z.to_nat (- p)%Z) ++ ds
   else
     let e := (p - 1)%Z in
     String.substring 0 1 ds ++
     (if (n =? 1)%Z then EmptyString else "." ++ String.substring 1 (Z.to_nat (n - 1)%Z) ds) ++
     "e" ++ (if (0 <=? e)%Z then "+" else "-") ++ pretty (Z.abs e))%string.

(** [parseInt(x)] of a number: [x] is printed first, in exponent notation from
    [1e21] on and below [1e-6], and then read up to the exponent. *)
Definition parseInt_num (x : Q) : Q :=
  let a := Qabs x in
  let i :=
    if Qeq_bool a 0 then 0
    else if Qle_bool (qpow 10 21) a then lead_digit a
    else if Qle_bool (qpow 10 (-6)) a then Qfloor a
    else lead_digit a in
  inject_Z (if (Qnum x <? 0)%Z then - i else i).
