(* ===== verification/JsNum.v ===== *)
(** Lemmas on the numbers of Js.v: powers, the sign and the exactness of
    [to_double], reading digit strings. *)
From Stdlib Require Import ZArith QArith Qround Qabs Qpower Lia Lqa String Ascii.
From stdpp Require Import base list strings.
From S2P Require Import Prelude Js.

Local Open Scope Z_scope.

(** ** Powers *)

Lemma qpow_pos b e : 0 < b -> (0 < qpow b e)%Q.
Proof. intros. unfold qpow. apply Qpower_0_lt. unfold Qlt; simpl. lia. Qed.

Lemma qpow_plus b e f : 0 < b -> (qpow b (e + f) == qpow b e * qpow b f)%Q.
Proof. intros. unfold qpow. apply Qpower_plus. unfold Qeq; simpl. lia. Qed.

Lemma qpow_Z b e : 0 < b -> 0 <= e -> (qpow b e == inject_Z (b ^ e))%Q.
Proof. intros Hb He. unfold qpow. by rewrite Zpower_Qpower by done. Qed.

Lemma qpow_opp b e : 0 < b -> (qpow b e * qpow b (- e) == 1)%Q.
Proof. intros. rewrite <- qpow_plus by done. by rewrite Z.add_opp_diag_r. Qed.

Lemma qpow_mono b e f : 1 < b -> e <= f -> (qpow b e <= qpow b f)%Q.
Proof. intros. unfold qpow. apply Qpower_le_compat_l; [lia|]. unfold Qle; simpl. lia. Qed.

Lemma qpow_lt_inv b e f : 1 < b -> (qpow b e < qpow b f)%Q -> e < f.
Proof.
  intros Hb H. destruct (Z.lt_ge_cases e f) as [|Hle]; [done|].
  apply (qpow_mono b) in Hle; [|done]. lra.
Qed.

(** ** The exponent of the last place *)

Lemma num_den_pos q : (0 < q)%Q -> 0 < Qnum q.
Proof. unfold Qlt; simpl. lia. Qed.

Lemma q_lower q : (0 < q)%Q -> (qpow 2 (Z.log2 (Qnum q) - Z.log2 (Zpos (Qden q)) - 1) <= q)%Q.
Proof.
  intros Hq%num_den_pos.
  destruct (Z.log2_spec (Qnum q) Hq) as [Hn _].
  destruct (Z.log2_spec (Zpos (Qden q)) eq_refl) as [_ Hd].
  set (ln := Z.log2 (Qnum q)) in *. set (ld := Z.log2 (Zpos (Qden q))) in *.
  assert (0 <= ln) by apply Z.log2_nonneg. assert (0 <= ld) by apply Z.log2_nonneg.
  assert (E : (qpow 2 (ln - ld - 1) * qpow 2 (Z.succ ld) == qpow 2 ln)%Q).
  { rewrite <- qpow_plus by lia. replace (ln - ld - 1 + Z.succ ld) with ln by lia. reflexivity. }
  rewrite !(qpow_Z 2 ln), (qpow_Z 2 (Z.succ ld)) in E by lia.
  assert (E2 : (q * inject_Z (Zpos (Qden q)) == inject_Z (Qnum q))%Q)
    by (unfold Qeq; simpl; lia).
  assert (Hdp : (0 < inject_Z (2 ^ Z.succ ld))%Q) by (unfold Qlt; simpl; lia).
  assert (inject_Z (2 ^ ln) <= inject_Z (Qnum q))%Q by (rewrite <- Zle_Qle; lia).
  assert (inject_Z (Zpos (Qden q)) <= inject_Z (2 ^ Z.succ ld))%Q by (rewrite <- Zle_Qle; lia).
  assert (Hq0 : (0 <= q)%Q) by (unfold Qle; simpl; lia).
  apply (Qmult_le_r _ _ _ Hdp). nra.
Qed.

Lemma ulp_exp_spec q : (0 < q)%Q -> (qpow 2 (ulp_exp q + 52) <= q)%Q.
Proof.
  intros Hq. unfold ulp_exp. destruct (Qle_bool _ _) eqn:E.
  - apply Qle_bool_iff in E. rewrite Z.sub_add. done.
  - rewrite Z.sub_add. by apply q_lower.
Qed.

Lemma scaled_lower q : (0 < q)%Q -> (qpow 2 52 <= q * qpow 2 (- ulp_exp q))%Q.
Proof.
  intros Hq. pose proof (ulp_exp_spec q Hq) as H. rewrite Z.add_comm, qpow_plus in H by lia.
  pose proof (qpow_pos 2 (- ulp_exp q) eq_refl) as Hp.
  pose proof (qpow_opp 2 (ulp_exp q) eq_refl) as Ho.
  assert (qpow 2 52 * (qpow 2 (ulp_exp q) * qpow 2 (- ulp_exp q)) <= q * qpow 2 (- ulp_exp q))%Q.
  { rewrite Qmult_assoc. apply Qmult_le_compat_r; [done|lra]. }
  rewrite Ho in H0. lra.
Qed.

(** ** Rounding *)

Lemma Qfloor_inject_lower z q : (inject_Z z <= q)%Q -> z <= Qfloor q.
Proof. intros H%Qfloor_resp_le. by rewrite Qfloor_Z in H. Qed.

Lemma round_even_lower z q : (inject_Z z <= q)%Q -> z <= round_even q.
Proof.
  intros H%Qfloor_inject_lower. unfold round_even.
  destruct (Qle_bool (1 # 2) _); [destruct (Qle_bool _ (1 # 2)); [destruct (Z.even _)|]|]; lia.
Qed.

Lemma round_even_Z q z : (q == inject_Z z)%Q -> round_even q = z.
Proof.
  intros E. unfold round_even. rewrite (Qfloor_comp _ _ E), Qfloor_Z.
  replace (Qle_bool (1 # 2) (q - inject_Z z)) with false; [done|].
  symmetry. apply not_true_iff_false. rewrite Qle_bool_iff. lra.
Qed.

(** [to_double] keeps the sign. *)
Lemma rounded_pos a : (0 < a)%Q ->
  (0 < inject_Z (round_even (a * qpow 2 (- ulp_exp a))) * qpow 2 (ulp_exp a))%Q.
Proof.
  intros Ha. pose proof (scaled_lower a Ha) as H1. rewrite qpow_Z in H1 by lia.
  apply round_even_lower in H1. pose proof (qpow_pos 2 (ulp_exp a) eq_refl) as Hp.
  assert (H2 : (1 <= inject_Z (round_even (a * qpow 2 (- ulp_exp a))))%Q).
  { change 1%Q with (inject_Z 1). rewrite <- Zle_Qle. lia. }
  nra.
Qed.

Lemma Qabs_lt q : (q < 0 \/ 0 < q -> 0 < Qabs q)%Q.
Proof.
  intros [H|H]; [pose proof (Qabs_neg q) as E|pose proof (Qabs_pos q) as E]; rewrite E; lra.
Qed.

Lemma to_double_pos q : (0 < q)%Q -> (0 < to_double q)%Q.
Proof.
  intros Hq. pose proof (num_den_pos q Hq). unfold to_double.
  destruct (Z.eqb_spec (Qnum q) 0); [lia|]. destruct (Z.ltb_spec (Qnum q) 0); [lia|].
  rewrite Qred_correct. apply rounded_pos, Qabs_lt. by right.
Qed.

Lemma to_double_neg q : (q < 0)%Q -> (to_double q < 0)%Q.
Proof.
  intros Hq. assert (Qnum q < 0) by (unfold Qlt in Hq; simpl in Hq; lia). unfold to_double.
  destruct (Z.eqb_spec (Qnum q) 0); [lia|]. destruct (Z.ltb_spec (Qnum q) 0); [|lia].
  rewrite Qred_correct. pose proof (rounded_pos (Qabs q) (Qabs_lt q (or_introl Hq))). lra.
Qed.

Lemma to_double_nonpos q : (to_double q <= 0)%Q <-> (q <= 0)%Q.
Proof.
  split; intros H.
  - destruct (Qlt_le_dec 0 q) as [Hq|]; [|done]. apply to_double_pos in Hq. lra.
  - destruct (Qlt_le_dec q 0) as [Hq|]; [apply to_double_neg in Hq; lra|].
    assert (E : (q == 0)%Q) by lra. unfold to_double.
    assert (Qnum q = 0) as -> by (unfold Qeq in E; simpl in E; lia). simpl. lra.
Qed.

(** An integer multiple of a power of two below 53 bits is a double. *)
Lemma to_double_exact q m j : 0 < m < 2 ^ 53 -> (q == inject_Z m * qpow 2 j)%Q ->
  to_double q = Qred q.
Proof.
  intros Hm Eq. pose proof (qpow_pos 2 j eq_refl) as Hj.
  assert (Hq : (0 < q)%Q).
  { rewrite Eq. assert (0 < inject_Z m)%Q by (unfold Qlt; simpl; lia). nra. }
  pose proof (num_den_pos q Hq). unfold to_double.
  destruct (Z.eqb_spec (Qnum q) 0); [lia|]. destruct (Z.ltb_spec (Qnum q) 0); [lia|].
  assert (Ea : (Qabs q == q)%Q) by (apply Qabs_pos; lra).
  set (e := ulp_exp (Qabs q)).
  assert (He : e <= j).
  { assert (e + 52 < 53 + j); [|lia]. apply (qpow_lt_inv 2); [lia|].
    apply Qle_lt_trans with (Qabs q); [apply ulp_exp_spec; rewrite Ea; done|].
    rewrite Ea, Eq, qpow_plus by lia. rewrite (qpow_Z 2 53) by lia.
    apply Qmult_lt_compat_r; [done|]. rewrite <- Zlt_Qlt. lia. }
  apply Qred_complete.
  rewrite (round_even_Z _ (m * 2 ^ (j - e))).
  - rewrite inject_Z_mult, <- qpow_Z by lia. rewrite Eq, <- Qmult_assoc, <- qpow_plus by lia.
    by rewrite Z.sub_add.
  - rewrite Ea, Eq, <- Qmult_assoc, <- qpow_plus by lia. rewrite inject_Z_mult, <- qpow_Z by lia.
    reflexivity.
Qed.

(** ** Digit strings *)

Fixpoint all_digits (s : string) : bool :=
  match s with String c s' => is_digit c && all_digits s' | EmptyString => true end.

Definition dec_val (s : string) : Z := let '(z, _, _) := digits 0 0 s in z.

(** The first character of [s] satisfies [p] ([true] on the empty string). *)
Definition first_is (p : ascii -> bool) (s : string) : bool :=
  match s with String c _ => p c | EmptyString => true end.

(** [String.append] does not compute under [simpl]. *)
Lemma app_nil_s s : (EmptyString ++ s)%string = s.
Proof. reflexivity. Qed.

Lemma app_cons_s c s t : (String c s ++ t)%string = String c (s ++ t).
Proof. reflexivity. Qed.

Lemma digits_app acc n s r : all_digits s = true -> first_is (fun c => negb (is_digit c)) r = true ->
  exists z, digits acc n (s ++ r) = (z, (n + String.length s)%nat, r) /\
            digits acc n s = (z, (n + String.length s)%nat, EmptyString).
Proof.
  revert acc n. induction s as [|c s IH]; intros acc n; cbn [all_digits digits String.append String.length].
  - intros _ Hr. exists acc. rewrite Nat.add_0_r. split; [|done].
    destruct r as [|c r]; [done|]. apply negb_true_iff in Hr. rewrite app_nil_s. cbn [digits]. by rewrite Hr.
  - intros [Hc Hs]%andb_true_iff Hr. rewrite app_cons_s. cbn [digits]. rewrite Hc. destruct (IH (acc * 10 + digit_val c) (S n) Hs Hr) as (z & E1 & E2).
    exists z. by rewrite E1, E2, Nat.add_succ_r.
Qed.

Lemma dec_val_spec s : all_digits s = true -> digits 0 0 s = (dec_val s, String.length s, EmptyString).
Proof.
  intros H. destruct (digits_app 0 0 s EmptyString H eq_refl) as (z & _ & E).
  unfold dec_val. by rewrite E.
Qed.

Lemma replace_digits p r s u : first_is (fun c => negb (is_digit c)) p = true -> p <> EmptyString ->
  all_digits s = true -> replace p r (s ++ u) = (s ++ replace p r u)%string.
Proof.
  intros Hp Hne. destruct p as [|a p]; [done|]. simpl in Hp. induction s as [|c s IH]; [done|].
  rewrite !app_cons_s. simpl. intros [Hc Hs]%andb_true_iff. destruct (Ascii.eqb_spec a c) as [->|]; [by rewrite Hc in Hp|].
  by rewrite IH.
Qed.

Lemma split_digits s u sep : is_digit sep = false -> all_digits s = true ->
  split sep (s ++ String sep u) = s :: split sep u.
Proof.
  intros Hsep. induction s as [|c s IH];
    [rewrite app_nil_s; simpl; by rewrite Ascii.eqb_refl|].
  rewrite app_cons_s. simpl. intros [Hc Hs]%andb_true_iff. destruct (Ascii.eqb_spec c sep) as [->|]; [by rewrite Hc in Hsep|].
  by rewrite IH.
Qed.

(** ** Trimming *)

Lemma trim_start_id s : first_is (fun c => negb (is_white c)) s = true -> trim_start s = s.
Proof. destruct s as [|c s]; [done|]. simpl. intros H%negb_true_iff. by rewrite H. Qed.

Lemma rev_string_involutive s : rev_string (rev_string s) = s.
Proof.
  unfold rev_string. by rewrite list_ascii_of_string_of_list_ascii, rev_involutive,
    string_of_list_ascii_of_string.
Qed.

Lemma trim_id s : first_is (fun c => negb (is_white c)) s = true ->
  first_is (fun c => negb (is_white c)) (rev_string s) = true -> trim s = s.
Proof.
  intros H1 H2. unfold trim. rewrite (trim_start_id s), (trim_start_id (rev_string s)) by done.
  apply rev_string_involutive.
Qed.

Lemma list_ascii_app s t : list_ascii_of_string (s ++ t) = list_ascii_of_string s ++ list_ascii_of_string t.
Proof. induction s as [|c s IH]; [done|]. rewrite app_cons_s. simpl. by rewrite IH. Qed.

Lemma string_of_list_app l k : string_of_list_ascii (l ++ k) = (string_of_list_ascii l ++ string_of_list_ascii k)%string.
Proof. induction l as [|c l IH]; [done|]. simpl. by rewrite app_cons_s, IH. Qed.

Lemma rev_string_app s t : rev_string (s ++ t) = (rev_string t ++ rev_string s)%string.
Proof. unfold rev_string. by rewrite list_ascii_app, rev_app_distr, string_of_list_app. Qed.

Lemma first_is_app p s t : s <> EmptyString -> first_is p (s ++ t) = first_is p s.
Proof. by destruct s. Qed.

Lemma digit_not_white c : is_digit c = true -> is_white c = false.
Proof. unfold is_digit, is_white. lia. Qed.
