(* ===== verification/JsSort.v ===== *)
(** [Array.prototype.sort] and its theory: for a comparator the language
    accepts, the result is the stable sort of the array. *)
From Stdlib Require Import ZArith QArith Qround Qabs Lia Lqa Sorting.
From stdpp Require Import base list sorting gmap sets.
From S2P Require Import Prelude Js.

Local Open Scope Z_scope.

(** A comparator: a number ([None] inside is [NaN]), or an exception. *)
Definition comparator (A : Type) : Type := A -> A -> option (option Q).

(** ** [Array.prototype.sort]

    The language fixes the result for a consistent comparator (the stable sort
    of the array); insertion sort computes it.  [NaN] counts as zero. *)
Section array_sort.
Context {A : Type} (cmp : comparator A).

Definition after (v : option Q) : bool :=
  match v with Some q => negb (Qle_bool q 0) | None => false end.

Fixpoint sort_insert (x : A) (l : list A) : option (list A) :=
  match l with
  | [] => Some [x]
  | y :: l' =>
      match cmp y x with
      | None => None
      | Some v => if after v then Some (x :: y :: l')
                  else match sort_insert x l' with Some r => Some (y :: r) | None => None end
      end
  end.

Fixpoint sort_onto (acc l : list A) : option (list A) :=
  match l with
  | [] => Some acc
  | x :: l' => match sort_insert x acc with Some acc' => sort_onto acc' l' | None => None end
  end.

Definition array_sort (l : list A) : option (list A) := sort_onto [] l.
End array_sort.

(** ** The stable sort *)

Section sorting.
Context {A : Type} (cmp : comparator A).

(** [a] may stay before [b]. *)
Definition before (a b : A) : bool :=
  match cmp a b with Some v => negb (after v) | None => false end.

Definition cmp_le (a b : A) : Prop := before a b.

(** The comparator answers on the elements of [l], and its answers are a total
    preorder: what the language asks of the argument of [sort]. *)
Record consistent (l : list A) : Prop := {
  cmp_defined a b : a ∈ l -> b ∈ l -> is_Some (cmp a b);
  cmp_refl a : a ∈ l -> before a a;
  cmp_total a b : a ∈ l -> b ∈ l -> before a b \/ before b a;
  cmp_trans a b c : a ∈ l -> b ∈ l -> c ∈ l -> before a b -> before b c -> before a c
}.

(** Equal for the comparator. *)
Definition ties (a b : A) : bool := before a b && before b a.

Lemma consistent_perm l k : l ≡ₚ k -> consistent l -> consistent k.
Proof.
  intros P [H1 H2 H3 H4]; split.
  - intros a b; rewrite <- P; eauto.
  - intros a; rewrite <- P; eauto.
  - intros a b; rewrite <- P; eauto.
  - intros a b c; rewrite <- P; eauto.
Qed.

Lemma sort_insert_spec x l : consistent (x :: l) -> StronglySorted cmp_le l ->
  exists r, sort_insert cmp x l = Some r /\ r ≡ₚ x :: l /\ StronglySorted cmp_le r /\
    forall p : A -> bool, (forall y, y ∈ l -> p x = true -> p y = true -> before y x) ->
      filter (fun y => p y = true) r = filter (fun y => p y = true) l ++ filter (fun y => p y = true) [x].
Proof.
  intros Hc. induction l as [|y l IH]; intros Hs; cbn [sort_insert].
  { exists [x]. split_and!; [done|done|repeat constructor|done]. }
  destruct (cmp_defined _ Hc y x) as [v E]; [set_solver|set_solver|]. rewrite E.
  apply StronglySorted_inv in Hs as [Hs Hy].
  destruct (after v) eqn:Ea.
  - exists (x :: y :: l). assert (Hn : before y x = false) by (unfold before; by rewrite E, Ea).
    assert (Hxy : before x y).
    { destruct (cmp_total _ Hc x y) as [H|H]; [set_solver|set_solver|done|]. by rewrite Hn in H. }
    split_and!; [done|done| |].
    + constructor; [by constructor|]. constructor; [done|].
      rewrite List.Forall_forall in Hy |- *. intros z Hz.
      apply (cmp_trans _ Hc x y z); try apply Hy; try done; apply list_elem_of_In in Hz; set_solver.
    + intros p Hp. destruct (p x) eqn:Ex.
      * assert (Ny : forall z, z ∈ y :: l -> p z = false).
        { intros z Hz. destruct (p z) eqn:Ez; [|done]. exfalso.
          specialize (Hp z Hz eq_refl Ez). apply elem_of_cons in Hz as [->|Hz]; [by rewrite Hn in Hp|].
          assert (Hb : before y x); [|by rewrite Hn in Hb].
          apply (cmp_trans _ Hc y z x); try set_solver.
          rewrite List.Forall_forall in Hy. apply Hy. by apply list_elem_of_In. }
        rewrite filter_cons. rewrite (filter_none _ (y :: l)).
        { done. }
        { intros z Hz. rewrite (Ny z Hz). done. }
      * rewrite (filter_cons_False _ x) by (by rewrite Ex).
        rewrite (filter_cons_False _ x []) by (by rewrite Ex). by rewrite filter_nil, app_nil_r.
  - assert (Hyx : before y x) by (unfold before; by rewrite E, Ea).
    destruct IH as (r & Er & Pr & Sr & Fr); [|done|].
    { destruct Hc as [C1 C2 C3 C4]; split; intros; [apply C1|apply C2|apply C3|eapply C4]; eauto; set_solver. }
    rewrite Er. exists (y :: r). split_and!; [done|rewrite Pr; apply Permutation_swap| |].
    + constructor; [done|]. rewrite List.Forall_forall in Hy |- *. intros z Hz.
      apply list_elem_of_In in Hz. rewrite Pr in Hz. apply elem_of_cons in Hz as [->|Hz]; [done|].
      apply Hy. by apply list_elem_of_In.
    + intros p Hp. rewrite !(filter_cons _ y). destruct (decide (p y = true)).
      * simpl. f_equal. apply Fr. intros z Hz. apply Hp. set_solver.
      * apply Fr. intros z Hz. apply Hp. set_solver.
Qed.

Lemma sort_onto_spec l acc : consistent (acc ++ l) -> StronglySorted cmp_le acc ->
  exists r, sort_onto cmp acc l = Some r /\ r ≡ₚ acc ++ l /\ StronglySorted cmp_le r /\
    forall x, x ∈ acc ++ l ->
      filter (fun y => ties x y = true) r = filter (fun y => ties x y = true) (acc ++ l).
Proof.
  revert acc. induction l as [|a l IH]; intros acc Hc Hs; cbn [sort_onto].
  { exists acc. rewrite app_nil_r. done. }
  assert (Hc1 : consistent (a :: acc)).
  { destruct Hc as [C1 C2 C3 C4]; split; intros; [apply C1|apply C2|apply C3|eapply C4]; eauto; set_solver. }
  destruct (sort_insert_spec a acc Hc1 Hs) as (acc' & -> & P' & S' & F').
  destruct (IH acc') as (r & -> & Pr & Sr & Fr); [|done|].
  { apply (consistent_perm (acc ++ a :: l)); [|done]. rewrite P'. simpl. by rewrite Permutation_middle. }
  exists r. split_and!; [done| |done|].
  { rewrite Pr, P'. simpl. by rewrite Permutation_middle. }
  intros x Hx. rewrite Fr.
  - rewrite !filter_app, F'.
    + by rewrite <- app_assoc, <- filter_app.
    + intros y Hy [Hxa _]%andb_true_iff [_ Hyx]%andb_true_iff.
      apply (cmp_trans _ Hc y x a); [set_solver|done|set_solver|by rewrite Hyx|by rewrite Hxa].
  - rewrite P'. set_solver.
Qed.

Lemma array_sort_spec l : consistent l ->
  exists r, array_sort cmp l = Some r /\ r ≡ₚ l /\ StronglySorted cmp_le r /\
    forall x, x ∈ l -> filter (fun y => ties x y = true) r = filter (fun y => ties x y = true) l.
Proof. intros Hc. apply (sort_onto_spec l [] Hc). constructor. Qed.

Lemma sort_insert_last x l : consistent (x :: l) -> (forall y, y ∈ l -> cmp_le y x) ->
  sort_insert cmp x l = Some (l ++ [x]).
Proof.
  intros Hc Hl. induction l as [|y l IH]; [done|]. simpl.
  assert (Hy : cmp_le y x) by (apply Hl; set_solver). unfold cmp_le, before in Hy.
  destruct (cmp y x) as [v|]; [|done]. destruct (after v); [done|]. rewrite IH; [done| |set_solver].
  destruct Hc as [C1 C2 C3 C4]; split; intros; [apply C1|apply C2|apply C3|eapply C4]; eauto; set_solver.
Qed.

(** Sorting what is sorted changes nothing. *)
Lemma sort_onto_sorted l acc : consistent (acc ++ l) -> StronglySorted cmp_le (acc ++ l) ->
  sort_onto cmp acc l = Some (acc ++ l).
Proof.
  revert acc. induction l as [|x l IH]; intros acc Hc Hs; simpl; [by rewrite app_nil_r|].
  rewrite sort_insert_last.
  - rewrite IH; by rewrite <- app_assoc.
  - destruct Hc as [C1 C2 C3 C4]; split; intros; [apply C1|apply C2|apply C3|eapply C4]; eauto; set_solver.
  - intros y Hy. clear IH Hc. induction acc as [|z acc IH]; [by apply not_elem_of_nil in Hy|].
    simpl in Hs. apply StronglySorted_inv in Hs as [Hs Hz]. apply elem_of_cons in Hy as [->|Hy]; [|eauto].
    rewrite List.Forall_forall in Hz. apply Hz, list_elem_of_In. set_solver.
Qed.

Lemma array_sort_sorted l : consistent l -> StronglySorted cmp_le l -> array_sort cmp l = Some l.
Proof. apply (sort_onto_sorted l []). Qed.
End sorting.

(** A comparator whose sign is the order of a numeric key is consistent. *)
Lemma keyed_consistent {A} (cmp : comparator A) (key : A -> option Q) l :
  (forall a b x y, a ∈ l -> b ∈ l -> key a = Some x -> key b = Some y ->
     exists v, cmp a b = Some (Some v) /\ ((v <= 0)%Q <-> (x <= y)%Q)) ->
  (forall a, a ∈ l -> is_Some (key a)) ->
  consistent cmp l /\
  forall a b x y, a ∈ l -> b ∈ l -> key a = Some x -> key b = Some y ->
    (cmp_le cmp a b <-> (x <= y)%Q).
Proof.
  intros Hcmp Hkey.
  assert (Hle : forall a b x y, a ∈ l -> b ∈ l -> key a = Some x -> key b = Some y ->
            (cmp_le cmp a b <-> (x <= y)%Q)).
  { intros a b x y Ha Hb Ex Ey. destruct (Hcmp a b x y Ha Hb Ex Ey) as (v & E & Hv).
    unfold cmp_le, before. rewrite E. simpl. by rewrite negb_involutive, Is_true_true, Qle_bool_iff. }
  split; [|done]. split.
  - intros a b Ha Hb. destruct (Hkey a Ha) as [x Ex], (Hkey b Hb) as [y Ey].
    destruct (Hcmp a b x y Ha Hb Ex Ey) as (v & E & _). rewrite E. eauto.
  - intros a Ha. destruct (Hkey a Ha) as [x Ex]. apply (Hle a a x x); [done..|lra].
  - intros a b Ha Hb. destruct (Hkey a Ha) as [x Ex], (Hkey b Hb) as [y Ey].
    destruct (Qlt_le_dec y x); [right; apply (Hle b a y x)|left; apply (Hle a b x y)]; auto with qarith.
  - intros a b c Ha Hb Hc. destruct (Hkey a Ha) as [x Ex], (Hkey b Hb) as [y Ey], (Hkey c Hc) as [z Ez].
    intros H1%(Hle a b x y) H2%(Hle b c y z); try done. apply (Hle a c x z); [done..|lra].
Qed.

(** The head of a sorted list comes before every element. *)
Lemma sorted_head {A} (cmp : comparator A) x l y :
  StronglySorted (cmp_le cmp) (x :: l) -> y ∈ x :: l -> (forall a, a ∈ x :: l -> cmp_le cmp a a) -> cmp_le cmp x y.
Proof.
  intros [_ Hx]%StronglySorted_inv Hy Hr. apply elem_of_cons in Hy as [->|Hy]; [apply Hr; set_solver|].
  rewrite List.Forall_forall in Hx. by apply Hx, list_elem_of_In.
Qed.
