(* ===== verification/TableSorter.v ===== *)
(** src/www/js/table-sorter.js: the click-to-sort tables of the tracker's
    statistics pages.  A table body is its list of rows with the two expando
    properties the script keeps on it; [None] is a thrown exception. *)
From Stdlib Require Import ZArith QArith Qround Qabs Lia Lqa String Ascii Sorting.
From stdpp Require Import base list strings.
From S2P Require Import Prelude Js JsSort.

Local Open Scope Z_scope.

(** ** Sizes *)

(** [eval] on a product of decimal literals, the only programs the page's
    cells turn into: [Some None] is [undefined] (an empty program), [None] any
    other program, which throws or is not modelled.  A literal with a leading
    zero before a digit (an octal) is left out. *)
Definition literal (s : string) : option Q :=
  match s with
  | String "0" (String c _) => if is_digit c then None else
      match decimal s with Some (q, EmptyString) => Some (to_double q) | _ => None end
  | _ => match decimal s with Some (q, EmptyString) => Some (to_double q) | _ => None end
  end%char.

Definition eval (s : string) : option (option Q) :=
  match trim s with
  | EmptyString => Some None
  | s' => match mapM (fun f => literal (trim f)) (split "*"%char s') with
          | Some (q :: qs) => Some (Some (foldl (fun a b => to_double (a * b)%Q) q qs))
          | _ => None
          end
  end.

Definition parseByteSize (str : string) : option (option Q) :=
  let str := replace "YiB" "*1024*1024*1024*1024*1024*1024*1024*1024" str in
  let str := replace "ZiB" "*1024*1024*1024*1024*1024*1024*1024" str in
  let str := replace "EiB" "*1024*1024*1024*1024*1024*1024" str in
  let str := replace "PiB" "*1024*1024*1024*1024*1024" str in
  let str := replace "TiB" "*1024*1024*1024*1024" str in
  let str := replace "GiB" "*1024*1024*1024" str in
  let str := replace "MiB" "*1024*1024" str in
  let str := replace "KiB" "*1024" str in
  let str := replace "B" "" str in
  match eval str with
  | Some (Some q) => Some (Some (parseInt_num q))
  | Some None => Some None
  | None => None
  end.

(** ** Comparators: a number ([None] inside is [NaN]), or an exception *)

Definition num_sub (a b : option Q) : option Q :=
  match a, b with Some x, Some y => Some (to_double (x - y)%Q) | _, _ => None end.

Definition sortStr : comparator string := fun a b =>
  if str_lt b a then Some (Some 1%Q)
  else if String.eqb a b then Some (Some 0%Q)
  else Some (Some (-(1))%Q).

Definition sortInt : comparator string := fun a b => Some (num_sub (parseInt a) (parseInt b)).

Definition sortByte : comparator string := fun a b =>
  match parseByteSize a, parseByteSize b with
  | Some x, Some y => Some (num_sub x y)
  | _, _ => None
  end.

(** ** The table body *)

Record row := Row { row_id : nat; cells : list string }.

(** The property [tableSorterReverse]: [false], or the number [^] yields. *)
Inductive rev_flag := RFalse | RNum (z : Z).

Definition to_int32 (r : rev_flag) : Z := match r with RFalse => 0 | RNum z => z end.
Definition truthy_flag (r : rev_flag) : bool :=
  match r with RFalse => false | RNum z => negb (z =? 0) end.

Record tbody := Tbody {
  rows : list row;
  tableSorterCol : option nat;           (* [None] is [undefined] *)
  tableSorterReverse : rev_flag
}.

Definition cell_cmp (lt : comparator string) (col : nat) : comparator row := fun a b =>
  match cells a !! col, cells b !! col with
  | Some x, Some y => lt x y
  | _, _ => None
  end.

(** [while (tbody.rows.length > 0) tbody.deleteRow(0);] then the
    [appendChild] loop. *)
Fixpoint delete_rows (fuel : nat) (l : list row) : list row :=
  match fuel, l with
  | S n, _ :: l' => delete_rows n l'
  | _, _ => l
  end.

Definition append_rows (l rs : list row) : list row := foldl (fun acc r => acc ++ [r]) l rs.

Definition sortTbody2 (t : tbody) (col : nat) (lt : comparator string) (reverse : bool)
    : option (tbody * list row) :=
  match array_sort (cell_cmp lt col) (rows t) with
  | None => None
  | Some rs =>
      let rs := if reverse then rev rs else rs in
      let emptied := delete_rows (length (rows t)) (rows t) in
      Some (Tbody (append_rows emptied rs) (tableSorterCol t) (tableSorterReverse t), rs)
  end.

(** [src_el.cellIndex] is [col].  The two expandos are written before the
    sort, which may throw: the body is returned either way. *)
Definition sortTbody (t : tbody) (col : nat) (lt : comparator string) : tbody * option (list row) :=
  let reverse :=
    if decide (tableSorterCol t = Some col)
    then RNum (Z.lxor (to_int32 (tableSorterReverse t)) 1)
    else RFalse in
  let t := Tbody (rows t) (Some col) reverse in
  match sortTbody2 t col lt (truthy_flag reverse) with
  | Some (t', rs) => (t', Some rs)
  | None => (t, None)
  end.
