(* ===== verification/TableTheorems.v ===== *)
(** What the table sorter of TableSorter.v guarantees: the sort is the stable
    one, a second click reverses, sizes are ordered by their byte count. *)
From Stdlib Require Import ZArith QArith Qround Qabs Lia Lqa String Ascii Sorting.
From stdpp Require Import base list strings sorting gmap sets.
From S2P Require Import Prelude Js JsNum JsSort TableSorter.

Local Open Scope Z_scope.

(** ** The table body *)

Lemma delete_rows_all l : delete_rows (length l) l = [].
Proof. by induction l. Qed.

Lemma append_rows_nil rs : append_rows [] rs = rs.
Proof.
  unfold append_rows. enough (H : forall acc, foldl (fun a (r : row) => a ++ [r]) acc rs = acc ++ rs) by apply H.
  induction rs as [|r rs IH]; intros acc; simpl; [by rewrite app_nil_r|]. by rewrite IH, <- app_assoc.
Qed.

Lemma sortTbody2_eq t col lt reverse :
  sortTbody2 t col lt reverse =
    match array_sort (cell_cmp lt col) (rows t) with
    | Some rs => let rs := if reverse then rev rs else rs in
                 Some (Tbody rs (tableSorterCol t) (tableSorterReverse t), rs)
    | None => None
    end.
Proof.
  unfold sortTbody2. destruct (array_sort _ _) as [rs|]; [|done].
  by rewrite delete_rows_all, append_rows_nil.
Qed.

(** C39. When the comparator is consistent on the cells of column [col],
    [sortTbody2] succeeds: the body then holds exactly the old rows, in the
    order of the stable sort by that column (rows that tie keep their order),
    or in the exact reverse of it when [reverse] is set. *)
Theorem sortTbody2_spec t col lt reverse :
  consistent (cell_cmp lt col) (rows t) ->
  exists sorted, sortTbody2 t col lt reverse =
      Some (Tbody (if reverse then rev sorted else sorted) (tableSorterCol t) (tableSorterReverse t),
            if reverse then rev sorted else sorted) /\
    sorted ≡ₚ rows t /\ StronglySorted (cmp_le (cell_cmp lt col)) sorted /\
    forall r, r ∈ rows t ->
      filter (fun r' => ties (cell_cmp lt col) r r' = true) sorted
      = filter (fun r' => ties (cell_cmp lt col) r r' = true) (rows t).
Proof.
  intros Hc. destruct (array_sort_spec _ _ Hc) as (rs & E & HP & HS & HF).
  exists rs. rewrite sortTbody2_eq, E. by destruct reverse.
Qed.

(** Clicking a column header, then the same header again: the first click
    (on a column that is not the current one) sorts ascending, the second one
    shows the exact reverse of the first. *)
Theorem sortTbody_second_click t col lt :
  consistent (cell_cmp lt col) (rows t) -> tableSorterCol t <> Some col ->
  exists sorted t1 t2,
    sortTbody t col lt = (t1, Some sorted) /\ rows t1 = sorted /\
    StronglySorted (cmp_le (cell_cmp lt col)) sorted /\ sorted ≡ₚ rows t /\
    sortTbody t1 col lt = (t2, Some (rev sorted)) /\ rows t2 = rev sorted.
Proof.
  intros Hc Hn. destruct (array_sort_spec _ _ Hc) as (rs & E & HP & HS & _).
  assert (Hc' : consistent (cell_cmp lt col) rs) by (by apply (consistent_perm _ (rows t))).
  exists rs, (Tbody rs (Some col) RFalse), (Tbody (rev rs) (Some col) (RNum 1)).
  unfold sortTbody. rewrite decide_False, sortTbody2_eq by done. simpl. rewrite E.
  rewrite decide_True, sortTbody2_eq by done. simpl.
  rewrite (array_sort_sorted _ _ Hc' HS). done.
Qed.

(** ** The comparators *)

(** A comparator that subtracts numeric keys. *)
Lemma key_consistent {A} (cmp : comparator A) (key : A -> option Q) l :
  (forall a b, a ∈ l -> b ∈ l -> cmp a b = Some (num_sub (key a) (key b))) ->
  (forall a, a ∈ l -> is_Some (key a)) ->
  consistent cmp l /\
  forall a b x y, a ∈ l -> b ∈ l -> key a = Some x -> key b = Some y ->
    (cmp_le cmp a b <-> (x <= y)%Q).
Proof.
  intros Hcmp Hkey. apply keyed_consistent; [|done]. intros a b x y Ha Hb Ex Ey.
  exists (to_double (x - y)). rewrite Hcmp, Ex, Ey by done. split; [done|].
  rewrite to_double_nonpos. split; lra.
Qed.

Lemma cell_cmp_key lt key col rs :
  (forall a b, lt a b = Some (num_sub (key a) (key b))) ->
  (forall r, r ∈ rs -> exists s v, cells r !! col = Some s /\ key s = Some v) ->
  consistent (cell_cmp lt col) rs /\
  forall a b x y, a ∈ rs -> b ∈ rs ->
    cells a !! col ≫= key = Some x -> cells b !! col ≫= key = Some y ->
    (cmp_le (cell_cmp lt col) a b <-> (x <= y)%Q).
Proof.
  intros Hlt Hk. apply (key_consistent _ (fun r => cells r !! col ≫= key)).
  - intros a b Ha Hb. destruct (Hk a Ha) as (s & v & E & Ev), (Hk b Hb) as (s' & v' & E' & Ev').
    unfold cell_cmp. by rewrite E, E', Hlt.
  - intros a Ha. destruct (Hk a Ha) as (s & v & E & Ev). rewrite E. simpl. eauto.
Qed.

(** On a column whose cells all hold a number, [sortInt] is a comparator
    [sort] accepts and it orders the rows by that number. *)
Theorem sortInt_orders col rs :
  (forall r, r ∈ rs -> exists s v, cells r !! col = Some s /\ parseInt s = Some v) ->
  consistent (cell_cmp sortInt col) rs /\
  forall a b x y, a ∈ rs -> b ∈ rs ->
    cells a !! col ≫= parseInt = Some x -> cells b !! col ≫= parseInt = Some y ->
    (cmp_le (cell_cmp sortInt col) a b <-> (x <= y)%Q).
Proof. by apply cell_cmp_key. Qed.

Definition byte_size (s : string) : option Q := default None (parseByteSize s).

(** On a column whose cells are all sizes, [sortByte] is a comparator
    [sort] accepts and it orders the rows by the number of bytes. *)
Theorem sortByte_orders col rs :
  (forall r, r ∈ rs -> exists s v, cells r !! col = Some s /\ parseByteSize s = Some (Some v)) ->
  consistent (cell_cmp sortByte col) rs /\
  forall a b x y, a ∈ rs -> b ∈ rs ->
    cells a !! col ≫= byte_size = Some x -> cells b !! col ≫= byte_size = Some y ->
    (cmp_le (cell_cmp sortByte col) a b <-> (x <= y)%Q).
Proof.
  intros Hk. apply (key_consistent _ (fun r => cells r !! col ≫= byte_size)).
  - intros a b Ha Hb. destruct (Hk a Ha) as (s & v & E & Ev), (Hk b Hb) as (s' & v' & E' & Ev').
    unfold cell_cmp, sortByte, byte_size. rewrite E, E'. simpl. by rewrite Ev, Ev'.
  - intros a Ha. destruct (Hk a Ha) as (s & v & E & Ev). rewrite E. simpl. unfold byte_size.
    rewrite Ev. simpl. eauto.
Qed.

(** ** Sizes *)

Definition unit_name (k : nat) : string :=
  match k with
  | 0 => "B" | 1 => "KiB" | 2 => "MiB" | 3 => "GiB" | 4 => "TiB" | 5 => "PiB" | 6 => "EiB"
  | 7 => "ZiB" | _ => "YiB"
  end%nat%string.

Fixpoint times1024 (k : nat) : string :=
  match k with O => "" | S k => "*1024" ++ times1024 k end%string.

(** A printed natural number: digits, no leading zero. *)
Definition numeral (s : string) : bool :=
  all_digits s && match s with
                  | EmptyString => false
                  | String "0" (String _ _) => false
                  | _ => true
                  end%char.

Lemma replaced s k : all_digits s = true -> (k <= 8)%nat ->
  replace "B" "" (replace "KiB" "*1024" (replace "MiB" "*1024*1024"
    (replace "GiB" "*1024*1024*1024" (replace "TiB" "*1024*1024*1024*1024"
    (replace "PiB" "*1024*1024*1024*1024*1024" (replace "EiB" "*1024*1024*1024*1024*1024*1024"
    (replace "ZiB" "*1024*1024*1024*1024*1024*1024*1024"
    (replace "YiB" "*1024*1024*1024*1024*1024*1024*1024*1024" (s ++ unit_name k)))))))))%string
  = (s ++ times1024 k)%string.
Proof.
  intros Hs Hk. rewrite !replace_digits by done. f_equal.
  do 9 (destruct k as [|k]; [reflexivity|]). lia.
Qed.

Lemma literal_digits s : numeral s = true -> literal s = Some (to_double (inject_Z (dec_val s) * qpow 10 0)%Q).
Proof.
  intros [Hs Hn]%andb_true_iff.
  assert (E : match decimal s with Some (q, EmptyString) => Some (to_double q) | _ => None end
              = Some (to_double (inject_Z (dec_val s) * qpow 10 0)%Q)).
  { unfold decimal. rewrite dec_val_spec by done. destruct s as [|c s]; [done|]. done. }
  unfold literal. destruct s as [|c [|c' s]]; [done| |].
  - by destruct c as [[][][][][][][][]].
  - destruct c as [[][][][][][][][]]; done.
Qed.

Lemma forallb_first p l : forallb p l = true -> first_is p (string_of_list_ascii l) = true.
Proof. destruct l as [|c l]; [done|]. simpl. by intros [? _]%andb_true_iff. Qed.

Lemma trim_id_all s : forallb (fun c => negb (is_white c)) (list_ascii_of_string s) = true -> trim s = s.
Proof.
  intros H. apply trim_id.
  - rewrite <- (string_of_list_ascii_of_string s). by apply forallb_first.
  - unfold rev_string. apply forallb_first. rewrite forallb_forall in H |- *.
    intros c Hc. apply H. by apply in_rev.
Qed.

Lemma digits_nonwhite s : all_digits s = true ->
  forallb (fun c => negb (is_white c)) (list_ascii_of_string s) = true.
Proof.
  induction s as [|c s IH]; simpl; [done|]. intros [Hc Hs]%andb_true_iff.
  by rewrite digit_not_white, IH.
Qed.

Lemma times1024_S k : times1024 (S k) = String "*" ("1024" ++ times1024 k)%string.
Proof. reflexivity. Qed.

Lemma times1024_nonwhite k : forallb (fun c => negb (is_white c)) (list_ascii_of_string (times1024 k)) = true.
Proof.
  induction k as [|k IH]; [done|]. rewrite times1024_S.
  change (String "*" ("1024" ++ times1024 k))%string with ("*1024" ++ times1024 k)%string.
  by rewrite list_ascii_app, forallb_app, IH.
Qed.

Lemma split_times s k : all_digits s = true ->
  split "*" (s ++ times1024 k) = s :: replicate k "1024"%string.
Proof.
  revert s. induction k as [|k IH]; intros s Hs.
  - cbn [times1024 replicate]. induction s as [|c s IHs]; [done|].
    rewrite app_cons_s. simpl in Hs |- *. apply andb_true_iff in Hs as [Hc Hs].
    destruct (Ascii.eqb_spec c "*") as [->|]; [done|]. by rewrite IHs.
  - rewrite times1024_S, split_digits by done. by rewrite IH.
Qed.

Lemma to_double_id q m j : 0 <= m < 2 ^ 53 -> (q == inject_Z m * qpow 2 j)%Q -> (to_double q == q)%Q.
Proof.
  intros Hm E. destruct (Z.eq_dec m 0) as [->|].
  - assert (E0 : (q == 0)%Q) by (rewrite E; apply Qmult_0_l). unfold to_double.
    assert (Qnum q = 0) as -> by (unfold Qeq in E0; simpl in E0; lia). done.
  - rewrite (to_double_exact q m j) by (done || lia). apply Qred_correct.
Qed.

Lemma foldl_1024 n k j a : 0 <= n < 2 ^ 53 -> 0 <= j -> (a == inject_Z n * qpow 2 (10 * j))%Q ->
  (foldl (fun a b => to_double (a * b)) a (replicate k (to_double 1024)) ==
   inject_Z n * qpow 2 (10 * (j + Z.of_nat k)))%Q.
Proof.
  intros Hn. revert j a. induction k as [|k IH]; intros j a Hj E; simpl.
  { by rewrite Z.add_0_r. }
  replace (j + Z.of_nat (S k)) with (j + 1 + Z.of_nat k) by lia.
  apply IH; [lia|]. assert (E1 : (a * to_double 1024 == inject_Z n * qpow 2 (10 * (j + 1)))%Q).
  { rewrite E. replace (10 * (j + 1)) with (10 * j + 10) by lia. rewrite qpow_plus by done.
    assert (H1 : (to_double 1024 == 1024)%Q) by (by vm_compute). assert (H2 : (qpow 2 10 == 1024)%Q) by (by vm_compute).
    rewrite H1, H2. ring. }
  rewrite (to_double_id _ n (10 * (j + 1))); done.
Qed.

Lemma parseInt_num_Z x z : (x == inject_Z z)%Q -> 0 <= z < 10 ^ 21 -> parseInt_num x = inject_Z z.
Proof.
  intros E Hz. assert (Hx : (0 <= x)%Q) by (rewrite E; change 0%Q with (inject_Z 0); rewrite <- Zle_Qle; lia).
  assert (Ea : (Qabs x == inject_Z z)%Q) by (rewrite Qabs_pos by done; done).
  unfold parseInt_num. destruct (Z.ltb_spec (Qnum x) 0); [unfold Qle in Hx; simpl in Hx; lia|].
  destruct (Qeq_bool (Qabs x) 0) eqn:E0.
  { apply Qeq_bool_iff in E0. rewrite Ea in E0. change 0%Q with (inject_Z 0) in E0.
    apply (inject_Z_injective z 0) in E0. subst z. reflexivity. }
  assert (z <> 0) by (intros ->; apply Qeq_bool_neq in E0; done).
  destruct (Qle_bool (qpow 10 21) (Qabs x)) eqn:E1.
  { apply Qle_bool_iff in E1. rewrite Ea, qpow_Z, <- Zle_Qle in E1 by lia. lia. }
  destruct (Qle_bool (qpow 10 (-6)) (Qabs x)) eqn:E2.
  { by rewrite (Qfloor_comp _ _ Ea), Qfloor_Z. }
  exfalso. apply not_true_iff_false in E2. apply E2, Qle_bool_iff. rewrite Ea.
  apply Qle_trans with (inject_Z 1); [|rewrite <- Zle_Qle; lia]. unfold Qle; simpl. lia.
Qed.

Lemma mapM_units s k q : literal s = Some q -> trim s = s ->
  mapM (fun f => literal (trim f)) (s :: replicate k "1024"%string) = Some (q :: replicate k (to_double 1024)).
Proof.
  intros E T. simpl. rewrite T, E. simpl.
  assert (mapM (fun f => literal (trim f)) (replicate k "1024"%string) = Some (replicate k (to_double 1024))) as ->; [|done].
  induction k as [|k IH]; [done|]. simpl in IH |- *. by rewrite IH.
Qed.

(** [parseByteSize] reads a printed size: a numeral below [2^53] followed
    by [B], [KiB], ..., [YiB] is that number times the power of 1024, as long
    as the product stays below [10^21]. *)
Theorem parseByteSize_units s k :
  numeral s = true -> dec_val s < 2 ^ 53 -> (k <= 8)%nat -> dec_val s * 1024 ^ Z.of_nat k < 10 ^ 21 ->
  parseByteSize (s ++ unit_name k) = Some (Some (inject_Z (dec_val s * 1024 ^ Z.of_nat k))).
Proof.
  intros Hn Hv Hk Hb. pose proof Hn as [Hs Hne]%andb_true_iff.
  assert (H0 : 0 <= dec_val s).
  { clear -Hs. unfold dec_val. enough (H : forall s acc n, 0 <= acc -> 0 <= (digits acc n s).1.1).
    { specialize (H s 0 0%nat). destruct (digits 0 0 s) as [[z ?] ?]. apply H. lia. }
    clear. induction s as [|c s IH]; intros acc n Ha; cbn [digits]; [done|].
    destruct (is_digit c) eqn:E; [|done]. apply IH. unfold is_digit, digit_val in *. lia. }
  unfold parseByteSize. rewrite replaced by done. unfold eval.
  assert (Ht : trim (s ++ times1024 k) = (s ++ times1024 k)%string).
  { apply trim_id_all. by rewrite list_ascii_app, forallb_app, digits_nonwhite, times1024_nonwhite. }
  rewrite Ht. destruct (s ++ times1024 k)%string eqn:E; [by destruct s|]. rewrite <- E.
  rewrite split_times, (mapM_units _ _ _ (literal_digits s Hn) (trim_id_all _ (digits_nonwhite _ Hs))) by done.
  do 2 f_equal. apply parseInt_num_Z; [|nia].
  rewrite (foldl_1024 (dec_val s) k 0); [|lia|lia|].
  - rewrite Z.add_0_l, inject_Z_mult, <- (qpow_Z 1024) by lia. apply Qmult_comp; [done|].
    rewrite (qpow_Z 2), (qpow_Z 1024) by lia. by rewrite (Z.pow_mul_r 2 10) by lia.
  - rewrite (to_double_id _ (dec_val s) 0); [reflexivity|lia|]. reflexivity.
Qed.

(** From [10^21] bytes on the product is printed in exponent notation
    before [parseInt] reads it back, so the size is its leading digit: one
    zebibyte, and 900 exbibytes, count as one byte, less than a kibibyte. *)
Theorem parseByteSize_exponent :
  parseByteSize "1ZiB" = Some (Some 1%Q) /\ parseByteSize "900EiB" = Some (Some 1%Q) /\
  parseByteSize "2YiB" = Some (Some 2%Q) /\ parseByteSize "1KiB" = Some (Some 1024%Q) /\
  sortByte "1ZiB" "1KiB" = Some (Some (-(1023))%Q).
Proof. by vm_compute. Qed.

(** ** Examples *)

Module TableDemo.
Definition rs : list row :=
  [Row 0 ["c"; "2KiB"; "10"]; Row 1 ["a"; "512B"; "9"]; Row 2 ["b"; "2KiB"; "11"]]%string.
Definition t : tbody := Tbody rs None RFalse.

Lemma parses (f : string -> option Q) col :
  forallb (fun r => match cells r !! col with
                    | Some s => match f s with Some _ => true | None => false end
                    | None => false end) rs = true ->
  forall r, r ∈ rs -> exists s v, cells r !! col = Some s /\ f s = Some v.
Proof.
  intros H r Hr. rewrite forallb_forall in H. specialize (H r (proj1 (list_elem_of_In _ _) Hr)).
  destruct (cells r !! col) as [s|]; [|done]. exists s. destruct (f s) as [v|] eqn:E; [|done]. eauto.
Qed.

Lemma int_consistent : consistent (cell_cmp sortInt 2) rs.
Proof. apply (cell_cmp_key sortInt parseInt 2 rs); [done|]. by apply parses. Qed.
End TableDemo.

Lemma sortTbody2_spec_witness :
  exists sorted, sortTbody2 TableDemo.t 2 sortInt true = Some (Tbody (rev sorted) None RFalse, rev sorted).
Proof.
  destruct (sortTbody2_spec TableDemo.t 2 sortInt true TableDemo.int_consistent) as (s & E & _).
  exists s. exact E.
Defined.

Lemma sortTbody_second_click_witness :
  exists sorted t1 t2, sortTbody TableDemo.t 2 sortInt = (t1, Some sorted) /\
    sortTbody t1 2 sortInt = (t2, Some (rev sorted)).
Proof.
  destruct (sortTbody_second_click TableDemo.t 2 sortInt TableDemo.int_consistent) as (s & t1 & t2 & E1 & _ & _ & _ & E2 & _).
  - done.
  - exists s, t1, t2. split; [exact E1|exact E2].
Defined.

Lemma sortInt_orders_witness : consistent (cell_cmp sortInt 2) TableDemo.rs.
Proof. apply (sortInt_orders 2 TableDemo.rs). by apply TableDemo.parses. Defined.

Lemma sortByte_orders_witness : consistent (cell_cmp sortByte 1) TableDemo.rs.
Proof.
  apply (sortByte_orders 1 TableDemo.rs). intros r Hr.
  destruct (TableDemo.parses byte_size 1 ltac:(by vm_compute) r Hr) as (s & v & E & Ev).
  exists s, v. split; [done|]. revert Ev. unfold byte_size.
  destruct (parseByteSize s) as [[q|]|]; simpl; congruence.
Defined.

Lemma parseByteSize_units_witness : parseByteSize "640KiB" = Some (Some (inject_Z (640 * 1024 ^ 1))).
Proof. apply (parseByteSize_units "640" 1); (reflexivity || lia). Defined.
