(* ===== verification/JsDom.v ===== *)
(** The world the Bootstrap plugins of src/www/js/bootstrap.bundle.js run in.

    The document and jQuery are not part of the repository: they are the class
    [Dom] of operations with the laws [DomLaws] (the documented get/set
    behaviour).  Everything the plugins themselves own is concrete: their
    instances (a heap, since callbacks and [$(el).data] alias them), the
    callbacks they have pending (timers and one-shot listeners, as data), and
    exceptions. *)
From Stdlib Require Import ZArith QArith String Ascii.
From stdpp Require Import base list gmap strings.
From coqutil Require Import Datatypes.RecordSetters.
From S2P Require Import Prelude Js.
Export TriangleBracketNotations.
Global Open Scope record_set.

Local Open Scope Z_scope.

Abbreviation elem := nat.

(** ** Values of configuration objects and of DOM properties *)

Inductive jsval :=
  | VUndef | VNull
  | VBool (b : bool)
  | VNum (q : Q)
  | VStr (s : string)
  | VElem (e : elem)
  | VJq (l : list elem)                  (* a jQuery object *)
  | VArr (l : list jsval)
  | VFun (f : nat)
  | VObj (o : list (string * jsval))     (* an object of its own *)
  | VRef (r : nat).                      (* an object of the scripts, by its identity *)

Definition truthy (v : jsval) : bool :=
  match v with
  | VUndef | VNull => false
  | VBool b => b
  | VNum q => negb (Qeq_bool q 0)
  | VStr s => negb (String.eqb s "")
  | _ => true
  end.

Definition val_is_str (v : jsval) (s : string) : bool :=
  match v with VStr t => String.eqb s t | _ => false end.

Abbreviation config := (gmap string jsval).

(** A value in a string concatenation. *)
Fixpoint js_str (v : jsval) : string :=
  match v with
  | VUndef => "undefined"
  | VNull => "null"
  | VBool b => if b then "true" else "false"
  | VNum q => num_str q
  | VStr s => s
  | VArr [v] => js_str v
  | VArr [] => ""
  | _ => "[object Object]"
  end.

(** [v.k] of an object, [undefined] when absent. *)
Definition obj_field (v : jsval) (k : string) : jsval :=
  match v with
  | VObj l => match head (filter (fun p => p.1 = k) l) with Some p => p.2 | None => VUndef end
  | _ => VUndef
  end.

(** [cfg.k], [undefined] when absent. *)
Definition field (c : config) (k : string) : jsval := default VUndef (c !! k).

(** [_extends({}, a, b)]: the properties of [b] win. *)
Definition extends (a b : config) : config := b ∪ a.

(** The argument of a jQuery interface, [$(els).plugin(arg)]. *)
Inductive plugin_arg := ArgNone | ArgObject (c : config) | ArgString (s : string) | ArgNumber (q : Q).

(** ** The document *)

Record client_rect := ClientRect { cr_left : Q; cr_top : Q; cr_right : Q; cr_bottom : Q;
                                   cr_width : Q; cr_height : Q }.

Class Dom (D : Type) := {
  class_list : D -> elem -> list string;
  set_class_list : elem -> list string -> D -> D;
  attr : D -> elem -> string -> option string;
  set_attr : elem -> string -> option string -> D -> D;     (* [None] removes *)
  style : D -> elem -> string -> string;
  set_style : elem -> string -> string -> D -> D;
  computed : D -> elem -> string -> string;                 (* $(el).css(name) *)
  prop : D -> elem -> string -> jsval;                      (* el[name] *)
  set_prop : elem -> string -> jsval -> D -> D;
  query : D -> option elem -> string -> option (list elem); (* root [None]: document;
                                                               result [None]: a bad selector *)
  matches : D -> elem -> string -> bool;
  closest : D -> elem -> string -> option elem;
  parent : D -> elem -> option elem;
  children : D -> elem -> list elem;
  ancestors : D -> elem -> list elem;                       (* nearest first *)
  prev_sibling : D -> elem -> option elem;
  contains : D -> elem -> elem -> bool;
  bounding_rect : D -> elem -> client_rect;
  dataset : D -> elem -> config;                            (* $(el).data(), plugin data apart *)
  user_data : D -> elem -> string -> option string;         (* $(el).data(name) set by code *)
  set_user_data : elem -> string -> option string -> D -> D;
  remove_node : elem -> D -> D;
  append_child : elem -> elem -> D -> D;                    (* parent, child *)
  create_element : D -> elem * D;
  set_focus : elem -> D -> D;
  document_element : elem;
  body : elem
}.

(** What the documentation of the document promises for the pure accessors. *)
Class DomLaws (D : Type) `{Dom D} := {
  class_list_eq e l d : class_list (set_class_list e l d) e = l;
  class_list_ne e e' l d : e <> e' -> class_list (set_class_list e l d) e' = class_list d e';
  class_list_attr e e' k v d : class_list (set_attr e k v d) e' = class_list d e';
  class_list_style e e' k v d : class_list (set_style e k v d) e' = class_list d e';
  class_list_prop e e' k v d : class_list (set_prop e k v d) e' = class_list d e';
  attr_eq e k v d : attr (set_attr e k v d) e k = v;
  attr_ne e k v d e' k' : (e, k) <> (e', k') -> attr (set_attr e k v d) e' k' = attr d e' k';
  attr_class e l d e' k : attr (set_class_list e l d) e' k = attr d e' k;
  attr_style e k v d e' k' : attr (set_style e k v d) e' k' = attr d e' k';
  attr_prop e k v d e' k' : attr (set_prop e k v d) e' k' = attr d e' k';
  (* a value read from a style can be written back *)
  style_restore e k d d' : style (set_style e k (style d' e k) d) e k = style d' e k;
  style_ne e k v d e' k' : (e, k) <> (e', k') -> style (set_style e k v d) e' k' = style d e' k';
  style_class e l d e' k : style (set_class_list e l d) e' k = style d e' k;
  style_data e k v d e' k' : style (set_user_data e k v d) e' k' = style d e' k';
  user_data_eq e k v d : user_data (set_user_data e k v d) e k = v;
  user_data_ne e k v d e' k' : (e, k) <> (e', k') -> user_data (set_user_data e k v d) e' k' = user_data d e' k';
  user_data_style e k v d e' k' : user_data (set_style e k v d) e' k' = user_data d e' k';
  user_data_class e l d e' k : user_data (set_class_list e l d) e' k = user_data d e' k;
  class_list_data e e' k v d : class_list (set_user_data e k v d) e' = class_list d e';
  class_list_focus e e' d : class_list (set_focus e d) e' = class_list d e';
  attr_focus e d e' k : attr (set_focus e d) e' k = attr d e' k
}.

(** ** Class lists and jQuery's methods on a set of elements *)

Section classes.
Context {D : Type} `{Dom D}.

Definition has_class (d : D) (e : elem) (c : string) : bool :=
  bool_decide (c ∈ class_list d e).

Definition add_class (e : elem) (c : string) (d : D) : D :=
  if has_class d e c then d else set_class_list e (class_list d e ++ [c]) d.

Definition remove_class (e : elem) (c : string) (d : D) : D :=
  set_class_list e (filter (fun c' => c' <> c) (class_list d e)) d.

Definition toggle_class (e : elem) (c : string) (d : D) : D :=
  if has_class d e c then remove_class e c d else add_class e c d.

(** The words of a space separated class argument. *)
Definition words (s : string) : list string := filter (fun w => w <> ""%string) (split " "%char s).

(** [$(els).f(...)], an empty set for [null]. *)
Definition jq_each (f : elem -> D -> D) (els : list elem) (d : D) : D :=
  foldl (fun d e => f e d) d els.

Definition jq_add_class (els : list elem) (cs : string) (d : D) : D :=
  jq_each (fun e d => foldl (fun d c => add_class e c d) d (words cs)) els d.

Definition jq_remove_class (els : list elem) (cs : string) (d : D) : D :=
  jq_each (fun e d => foldl (fun d c => remove_class e c d) d (words cs)) els d.

Definition jq_toggle_class (els : list elem) (c : string) (on : bool) (d : D) : D :=
  if on then jq_add_class els c d else jq_remove_class els c d.

Definition jq_attr (els : list elem) (k v : string) (d : D) : D :=
  jq_each (fun e => set_attr e k (Some v)) els d.

(** [$(els).hasClass(c)]: some element has it. *)
Definition jq_has_class (d : D) (els : list elem) (c : string) : bool :=
  existsb (fun e => has_class d e c) els.

Definition bool_str (b : bool) : string := if b then "true" else "false".
End classes.

(** ** Worlds and the monad of plugin code *)

Inductive exn := TypeError | SyntaxError | RangeError | Error (msg : string).

(** A numeric property of an element. *)
Definition num_prop {D} `{Dom D} (d : D) (e : elem) (k : string) : Q :=
  match prop d e k with VNum q => q | _ => 0%Q end.

(** When a callback runs: after a delay, at every period, or at the next event
    of a name on an element ([.one]). *)
Inductive wait :=
  | Timeout (ms : Q)
  | Interval (ms : Q)
  | Once (el : elem) (ev : string).

(** A pending callback: one of the plugin's ([K] lists them with what they
    capture), or one of the two of [transitionEndEmulator]. *)
Inductive callback (K : Type) :=
  | EmuMark (cell : nat)
  | EmuFire (cell : nat) (els : list elem)
  | Call (k : K).
Arguments EmuMark {K}.
Arguments EmuFire {K}.
Arguments Call {K}.

Record task (K : Type) := Task { task_id : nat; task_when : wait; task_run : callback K }.
Arguments Task {K}.
Arguments task_id {K}.
Arguments task_when {K}.
Arguments task_run {K}.

(** [S]: the plugin's instances; [K]: its callbacks. *)
Record World (D S K : Type) := MkWorld {
  dom : D;
  heap : gmap nat S;
  data : gmap elem nat;                  (* $(el).data(DATA_KEY) *)
  tasks : list (task K);
  called : gset nat;                     (* the [called] cells that are true *)
  next_id : nat;                         (* fresh instances, tasks and cells *)
  prevented : bool                       (* preventDefault() of the event being handled *)
}.
Arguments MkWorld {D S K}.
Arguments dom {D S K}.
Arguments heap {D S K}.
Arguments data {D S K}.
Arguments tasks {D S K}.
Arguments called {D S K}.
Arguments next_id {D S K}.
Arguments prevented {D S K}.

Definition M (W A : Type) : Type := W -> W * (exn + A).

Global Instance M_ret W : MRet (M W) := fun A a w => (w, inr a).
Global Instance M_bind W : MBind (M W) := fun A B f m w =>
  match m w with
  | (w', inr a) => f a w'
  | (w', inl e) => (w', inl e)
  end.

(** An event as the plugins trigger it. *)
Record event := Event {
  ev_type : string;
  ev_related : option elem;
  ev_extra : list (string * jsval)
}.
Definition ev (t : string) : event := Event t None [].

(** What the browser passes to a listener. *)
Record dom_event := DomEvent {
  de_type : string;
  de_target : elem;
  de_currentTarget : elem;
  de_relatedTarget : option elem;
  de_which : Z;                          (* key code *)
  de_pointerType : string;
  de_clientX : Q;
  de_touches : option (list Q)           (* clientX of each touch *)
}.

Section effects.
Context {D S K : Type}.
Local Abbreviation W := (World D S K).

Definition skip : M W unit := mret tt.
Definition throw {A} (e : exn) : M W A := fun w => (w, inl e).
Definition get_dom : M W D := fun w => (w, inr (dom w)).
Definition mod_dom (f : D -> D) : M W unit := fun w => (w <| dom := f (dom w) |>, inr tt).
Definition when (b : bool) (m : M W unit) : M W unit := if b then m else skip.

Fixpoint for_each {A} (l : list A) (f : A -> M W unit) : M W unit :=
  match l with [] => skip | x :: l => f x ;; for_each l f end.

(** The object an expression yields; [null] has no properties. *)
Definition deref {A} (o : option A) : M W A :=
  match o with Some a => mret a | None => throw TypeError end.

(** [this]: the instance [o]. *)
Definition get (o : nat) : M W S := fun w =>
  (w, match heap w !! o with Some s => inr s | None => inl TypeError end).
Definition put (o : nat) (f : S -> S) : M W unit := fun w =>
  (w <| heap := alter f o (heap w) |>, inr tt).
Definition alloc (s : S) : M W nat := fun w =>
  (w <| heap := <[next_id w := s]> (heap w) |> <| next_id := (next_id w + 1)%nat |>, inr (next_id w)).

Definition get_data (el : elem) : M W (option nat) := fun w => (w, inr (data w !! el)).
Definition set_data (el : elem) (o : nat) : M W unit := fun w =>
  (w <| data := <[el := o]> (data w) |>, inr tt).
Definition remove_data (el : option elem) : M W unit := fun w =>
  (match el with Some e => w <| data := delete e (data w) |> | None => w end, inr tt).

Definition add_task (at_ : wait) (c : callback K) : M W nat := fun w =>
  (w <| tasks := tasks w ++ [Task (next_id w) at_ c] |> <| next_id := (next_id w + 1)%nat |>, inr (next_id w)).
Definition setTimeout (c : callback K) (ms : Q) : M W nat := add_task (Timeout ms) c.
Definition setInterval (c : callback K) (ms : Q) : M W nat := add_task (Interval ms) c.

(** [clearTimeout(id)], [clearInterval(id)]; nothing for [null]. *)
Definition clear_task (id : option nat) : M W unit := fun w =>
  (match id with
   | Some i => w <| tasks := filter (fun t => task_id t <> i) (tasks w) |>
   | None => w
   end, inr tt).

(** [$(els).one(ev, c)] *)
Definition jq_one (els : list elem) (e : string) (c : callback K) : M W unit :=
  for_each els (fun el => add_task (Once el e) c ;; skip).

(** [event.preventDefault()] of the event a data-api handler receives. *)
Definition prevent_default : M W unit := fun w => (w <| prevented := true |>, inr tt).

Definition fresh_cell : M W nat := fun w => (w <| next_id := (next_id w + 1)%nat |>, inr (next_id w)).

Context `{Dom D}.

(** [querySelectorAll], [querySelector] on [root]; [None] is the document. *)
Definition query_all (root : option elem) (sel : string) : M W (list elem) := fun w =>
  (w, match query (dom w) root sel with Some l => inr l | None => inl SyntaxError end).
Definition query_one (root : option elem) (sel : string) : M W (option elem) :=
  l ← query_all root sel; mret (head l).

(** [$(el).detach()] and [$(el).remove()]: the second also drops jQuery's data
    and listeners of the subtree. *)
Definition jq_detach (els : list elem) : M W unit := mod_dom (jq_each remove_node els).

Definition in_subtree (d : D) (root e : elem) : bool := (root =? e)%nat || contains d root e.

Definition jq_remove (els : list elem) : M W unit := fun w =>
  let gone e := existsb (fun r => in_subtree (dom w) r e) els in
  (w <| dom := jq_each remove_node els (dom w) |>
     <| data := filter (fun p => gone p.1 = false) (data w) |>
     <| tasks := filter (fun t => match task_when t with Once e _ => negb (gone e) | _ => true end = true) (tasks w) |>,
   inr tt).

(** Every instance of the plugin, for listeners all of them share. *)
Definition put_all (f : S -> S) : M W unit := fun w => (w <| heap := f <$> heap w |>, inr tt).

(** [$(els).off(e)] for the one-shot listeners of an event. *)
Definition off_once (els : list elem) (e : string) : M W unit := fun w =>
  (w <| tasks := filter (fun t => match task_when t with
                                  | Once el e' => negb (existsb (Nat.eqb el) els && String.eqb e e')
                                  | _ => true
                                  end = true) (tasks w) |>, inr tt).

(** [$(o).trigger(e)].  [fire] stands for the dispatch to every listener of the
    page, one-shot listeners of the plugin on its own events included: an
    arbitrary change of the world.  The result says whether one of them called
    [preventDefault]. *)
Definition trigger (fire : event -> elem -> M W bool) (o : option elem) (e : event) : M W bool :=
  match o with Some el => fire e el | None => mret false end.
End effects.

(** ** Running pending callbacks: the browser's event loop

    [plug] is the body of the plugin's callbacks.  A due timer is taken off the
    list and run; an event on [el] (the end of a transition, or one of the
    plugin's) takes its one-shot listeners off [el] first and then runs them in
    order. *)
Section loop.
Context {D S K : Type} (plug : K -> M (World D S K) unit).
Local Abbreviation W := (World D S K).

Definition run_mark_or_call (c : callback K) : M W unit :=
  match c with
  | EmuMark cell => fun w => (w <| called := {[cell]} ∪ called w |>, inr tt)
  | Call k => plug k
  | EmuFire _ _ => skip
  end.

Definition is_once (el : elem) (e : string) (t : task K) : bool :=
  match task_when t with Once el' e' => (el =? el')%nat && String.eqb e e' | _ => false end.

Definition deliver (el : elem) (e : string) : M W unit := fun w =>
  let due := filter (fun t => is_once el e t = true) (tasks w) in
  for_each (map task_run due) run_mark_or_call
    (w <| tasks := filter (fun t => is_once el e t = false) (tasks w) |>).

Definition run_callback (c : callback K) : M W unit :=
  match c with
  | EmuFire cell els => fun w =>
      if decide (cell ∈ called w) then skip w
      else for_each els (fun el => deliver el "bsTransitionEnd") w  (* triggerTransitionEnd *)
  | _ => run_mark_or_call c
  end.

Inductive loop_step : W -> W -> Prop :=
  | step_timeout w t ms w' r :
      t ∈ tasks w -> task_when t = Timeout ms ->
      run_callback (task_run t) (w <| tasks := filter (fun u => task_id u <> task_id t) (tasks w) |>) = (w', r) ->
      loop_step w w'
  | step_interval w t ms w' r :
      t ∈ tasks w -> task_when t = Interval ms ->
      run_callback (task_run t) w = (w', r) ->
      loop_step w w'
  | step_event w el e w' r :
      deliver el e w = (w', r) ->
      loop_step w w'.
End loop.
