(* ===== verification/BsUtil.v ===== *)
(** The [Util] object of bootstrap.bundle.js (lines 66-228): selectors,
    transition durations, configuration checking, the jQuery version gate and
    the emulation of [transitionend]. *)
From Stdlib Require Import ZArith QArith Qround Qminmax Lia String Ascii.
From stdpp Require Import base list gmap strings pretty.
From S2P Require Import Prelude Js JsDom.

Local Open Scope Z_scope.

Definition TRANSITION_END : string := "bsTransitionEnd".
Definition MAX_UID : Z := 1000000.
Definition MILLISECONDS_MULTIPLIER : Q := 1000.

(** ** Values *)

(** [toType]: the class name of [Object.prototype.toString] in lower case;
    [interface_name] is the document's for an element. *)
Definition toType (interface_name : elem -> string) (v : jsval) : string :=
  match v with
  | VUndef => "undefined"
  | VNull => "null"
  | VBool _ => "boolean"
  | VNum _ => "number"
  | VStr _ => "string"
  | VElem e => interface_name e
  | VJq _ | VObj _ | VRef _ => "object"
  | VArr _ => "array"
  | VFun _ => "function"
  end.

(** [v.nodeType]: 1 for an element; a plain object, such as a data attribute
    gives, may have a property of that name. *)
Definition nodeType (v : jsval) : jsval :=
  match v with VElem _ => VNum 1 | _ => obj_field v "nodeType" end.

(** [v[0]]; a form's first control is left out, it is an element as the form is. *)
Definition first_of (v : jsval) : jsval :=
  match v with
  | VJq (e :: _) => VElem e
  | VArr (x :: _) => x
  | VStr (String c _) => VStr (String c EmptyString)
  | _ => obj_field v "0"
  end.

(** [(obj[0] || obj).nodeType], as a condition; its callers do not give it
    [null] or [undefined], for which it throws. *)
Definition isElement (v : jsval) : bool :=
  truthy (nodeType (if truthy (first_of v) then first_of v else v)).

(** [new RegExp(expected).test(s)] for the patterns of the plugins: a word or
    [(w1|w2|...)]. *)
Fixpoint str_contains (p s : string) : bool :=
  match strip_prefix p s with
  | Some _ => true
  | None => match s with String _ s' => str_contains p s' | EmptyString => false end
  end.

Definition alternatives (p : string) : list string :=
  split "|" (replace ")" "" (replace "(" "" p)).

Definition regexp_test (p s : string) : bool := existsb (fun a => str_contains a s) (alternatives p).

Definition dquote : string := String "034" EmptyString.

Definition to_upper (c : ascii) : ascii :=
  if (97 <=? code c) && (code c <=? 122) then ascii_of_nat (nat_of_ascii c - 32) else c.

Definition toUpperCase (s : string) : string :=
  string_of_list_ascii (map to_upper (list_ascii_of_string s)).

Definition type_message (componentName property valueType expected : string) : string :=
  (toUpperCase componentName ++ ": Option " ++ dquote ++ property ++ dquote ++
   " provided type " ++ dquote ++ valueType ++ dquote ++ " but expected type " ++
   dquote ++ expected ++ dquote ++ ".")%string.

(** [typeCheckConfig]: the first property of a wrong type throws. *)
Fixpoint typeCheckConfig (interface_name : elem -> string) (componentName : string) (c : config)
    (configTypes : list (string * string)) : exn + unit :=
  match configTypes with
  | [] => inr tt
  | (property, expectedTypes) :: rest =>
      let value := field c property in
      let valueType := if truthy value && isElement value then "element"%string
                       else toType interface_name value in
      if regexp_test expectedTypes valueType
      then typeCheckConfig interface_name componentName c rest
      else inl (Error (type_message componentName property valueType expectedTypes))
  end.

(** ** The jQuery version gate *)

(** [Number(s)] of a version component. *)
Definition to_number (s : string) : option Q :=
  match trim s with
  | EmptyString => Some 0%Q
  | s' => let '(neg, r) := sign_of s' in
          match decimal r with
          | Some (q, EmptyString) => Some (if neg then Qopp q else q)
          | _ => None
          end
  end.

(** [a < b] and [a >= b] with a string (or [undefined]) on the left. *)
Definition num_lt (a : option string) (b : Q) : bool :=
  match a ≫= to_number with Some q => negb (Qle_bool b q) | None => false end.
Definition num_ge (a : option string) (b : Q) : bool :=
  match a ≫= to_number with Some q => Qle_bool b q | None => false end.

(** [===] between a string and a number is always false. *)
Definition strict_eq_str_num (a : option string) (b : Q) : bool := false.

(** [fn_jquery] is [$.fn.jquery], absent when jQuery is not loaded. *)
Definition jQueryDetection (fn_jquery : option string) : exn + unit :=
  match fn_jquery with
  | None => inl TypeError
  | Some s =>
      let version := match split " " s with w :: _ => split "." w | [] => [] end in
      if num_lt (version !! 0%nat) 2 && num_lt (version !! 1%nat) 9
         || strict_eq_str_num (version !! 0%nat) 1 && strict_eq_str_num (version !! 1%nat) 9
            && num_lt (version !! 2%nat) 1
         || num_ge (version !! 0%nat) 4
      then inl (Error "Bootstrap's JavaScript requires at least jQuery v1.9.1 but less than v4.0.0")
      else inr tt
  end.

(** ** Identifiers *)

(** [getUID]: [rnd i] is the [i]-th value of [Math.random()]; the prefix grows
    until no element has it as its id.  Fuel bounds the do-while loop. *)
Fixpoint getUID (fuel : nat) (has_id : string -> bool) (rnd : nat -> Q) (i : nat) (prefix : string)
    : option string :=
  match fuel with
  | O => None
  | S fuel =>
      let prefix := (prefix ++ pretty (Qfloor (rnd i * inject_Z MAX_UID)))%string in
      if has_id prefix then getUID fuel has_id rnd (S i) prefix else Some prefix
  end.

(** ** Reading the document *)

Section dom.
Context {D : Type} `{Dom D}.

(** [document.querySelector(sel)]; a bad selector throws. *)
Definition document_query (d : D) (sel : string) : option (option elem) :=
  match query d None sel with Some l => Some (head l) | None => None end.

(** [None] is [null]. *)
Definition getSelectorFromElement (d : D) (element : elem) : option string :=
  let data_target := attr d element "data-target" in
  let selector :=
    match data_target with
    | Some s => if negb (String.eqb s "") && negb (String.eqb s "#") then s
                else match attr d element "href" with
                     | Some h => if negb (String.eqb h "") && negb (String.eqb h "#") then trim h else ""%string
                     | None => ""%string
                     end
    | None => match attr d element "href" with
              | Some h => if negb (String.eqb h "") && negb (String.eqb h "#") then trim h else ""%string
              | None => ""%string
              end
    end in
  match document_query d selector with
  | Some (Some _) => Some selector
  | _ => None
  end.

Definition nan_or_zero (x : option Q) : bool :=
  match x with Some q => Qeq_bool q 0 | None => true end.

Definition num_add (a b : option Q) : option Q :=
  match a, b with Some x, Some y => Some (x + y)%Q | _, _ => None end.

(** In milliseconds; [None] is [NaN]. *)
Definition getTransitionDurationFromElement (d : D) (element : option elem) : option Q :=
  match element with
  | None => Some 0%Q
  | Some element =>
      let transitionDuration := computed d element "transition-duration" in
      let transitionDelay := computed d element "transition-delay" in
      if nan_or_zero (parseFloat transitionDuration) && nan_or_zero (parseFloat transitionDelay)
      then Some 0%Q
      else
        let first s := default ""%string (head (split "," s)) in
        match num_add (parseFloat (first transitionDuration)) (parseFloat (first transitionDelay)) with
        | Some s => Some (s * MILLISECONDS_MULTIPLIER)%Q
        | None => None
        end
  end.

(** [findShadowRoot]: [attachShadow] and [getRootNode] are what the browser
    supports; [is_shadow_root] is [instanceof ShadowRoot].  Fuel bounds the
    climb to the root. *)
Fixpoint findShadowRoot (fuel : nat) (attachShadow : bool) (getRootNode : option (elem -> elem))
    (is_shadow_root : elem -> bool) (d : D) (element : elem) : option (option elem) :=
  match fuel with
  | O => None
  | S fuel =>
      if negb attachShadow then Some None
      else match getRootNode with
           | Some f => let root := f element in Some (if is_shadow_root root then Some root else None)
           | None =>
               if is_shadow_root element then Some (Some element)
               else match parent d element with
                    | None => Some None
                    | Some p => findShadowRoot fuel attachShadow getRootNode is_shadow_root d p
                    end
           end
  end.

Section plugin.
Context {S K : Type}.
Local Abbreviation W := (World D S K).

(** [$(els).emulateTransitionEnd(duration)]; [setTimeout(f, NaN)] waits 0. *)
Definition transitionEndEmulator (els : list elem) (duration : option Q) : M W unit :=
  called ← fresh_cell;
  jq_one els TRANSITION_END (EmuMark called) ;;
  setTimeout (EmuFire called els) (default 0%Q duration) ;;
  skip.

(** [getSelectorFromElement] as an effect. *)
Definition selector_of (element : elem) : M W (option string) :=
  d ← get_dom; mret (getSelectorFromElement d element).

Definition lift_result {A} (r : exn + A) : M W A := fun w => (w, r).
End plugin.
End dom.
