(* ===== verification/BsUtilTheorems.v ===== *)
(** What [Util] guarantees: identifiers are fresh and found in bounded time, the
    jQuery versions the gate lets through, and that the callback of a transition
    runs exactly once. *)
From Stdlib Require Import ZArith QArith Qround Lia Lqa String Ascii.
From stdpp Require Import base list gmap strings pretty.
From coqutil Require Import Datatypes.RecordSetters.
From S2P Require Import Prelude Js JsNum JsDom BsUtil.

Local Open Scope Z_scope.

(** ** Identifiers *)

Lemma pretty_N_go_length x s : (String.length s <= String.length (pretty_N_go x s))%nat.
Proof.
  revert s. induction (N.lt_wf_0 x) as [x _ IH]; intros s. destruct (decide (x = 0%N)) as [->|Hx].
  - by rewrite pretty_N_go_0.
  - rewrite pretty_N_go_step by lia. etrans; [|apply IH; apply N.div_lt; lia]. simpl. lia.
Qed.

Lemma pretty_N_length (x : N) : (1 <= String.length (pretty x))%nat.
Proof.
  unfold pretty, pretty_N. case_decide as Hx; [simpl; lia|].
  rewrite pretty_N_go_step by lia. etrans; [|apply pretty_N_go_length]. simpl. lia.
Qed.

Lemma pretty_Z_length (z : Z) : (1 <= String.length (pretty z))%nat.
Proof.
  unfold pretty, pretty_Z. destruct z; [simpl; lia|apply pretty_N_length|].
  change (1 <= S (String.length (pretty (N.pos p))))%nat. lia.
Qed.

Lemma string_length_app s t : String.length (s ++ t) = (String.length s + String.length t)%nat.
Proof. induction s as [|c s IH]; [done|]. rewrite app_cons_s. simpl. by rewrite IH. Qed.

Lemma string_app_assoc s t u : (s ++ (t ++ u) = (s ++ t) ++ u)%string.
Proof. induction s as [|c s IH]; [done|]. rewrite !app_cons_s. by rewrite IH. Qed.

Definition longest (ids : list string) : nat := foldr (fun s n => Nat.max (String.length s) n) 0%nat ids.

Lemma longest_spec ids s : s ∈ ids -> (String.length s <= longest ids)%nat.
Proof. induction 1; simpl; lia. Qed.

Lemma getUID_fresh_ ids rnd fuel i prefix :
  (longest ids < fuel + String.length prefix)%nat -> (0 < fuel)%nat ->
  exists suffix, getUID fuel (fun s => bool_decide (s ∈ ids)) rnd i prefix = Some (prefix ++ suffix)%string /\
    (prefix ++ suffix)%string ∉ ids.
Proof.
  revert i prefix. induction fuel as [|fuel IH]; intros i prefix Hf H0; [lia|]. cbn [getUID].
  set (t := pretty (Qfloor (rnd i * inject_Z MAX_UID))).
  assert (Ht : (1 <= String.length t)%nat) by apply pretty_Z_length.
  case_bool_decide as Hin.
  - apply longest_spec in Hin as Hl. rewrite string_length_app in Hl.
    destruct (IH (S i) (prefix ++ t)%string) as (s & E & Hs).
    + rewrite string_length_app. lia.
    + lia.
    + exists (t ++ s)%string. rewrite string_app_assoc. done.
  - exists t. done.
Qed.

(** C40. [getUID] terminates: whatever [Math.random] yields, after at most one
    round more than the longest identifier of the page has characters it
    returns the prefix with something appended, and no element of the page has
    that identifier. *)
Theorem getUID_fresh ids rnd prefix :
  exists suffix, getUID (S (longest ids)) (fun s => bool_decide (s ∈ ids)) rnd 0 prefix = Some (prefix ++ suffix)%string /\
    (prefix ++ suffix)%string ∉ ids.
Proof. apply getUID_fresh_; lia. Qed.

(** ** The jQuery gate *)

Lemma to_number_digits s : all_digits s = true -> s <> EmptyString ->
  exists q, to_number s = Some q /\ (q == inject_Z (dec_val s))%Q.
Proof.
  intros Hs Hne. exists (inject_Z (dec_val s) * qpow 10 0)%Q. split; [|unfold qpow; simpl; lra].
  assert (Ht : trim s = s).
  { assert (Hall : forall s, all_digits s = true ->
      forallb (fun c => negb (is_white c)) (list_ascii_of_string s) = true).
    { clear. induction s as [|c s IH]; simpl; [done|]. intros [Hc Hs]%andb_true_iff.
      by rewrite digit_not_white, IH. }
    specialize (Hall s Hs). apply trim_id.
    - destruct s as [|c s]; [done|]. simpl in Hall |- *. by apply andb_true_iff in Hall as [? _].
    - unfold rev_string. destruct (rev (list_ascii_of_string s)) as [|c l] eqn:E; [done|].
      simpl. rewrite forallb_forall in Hall. apply (Hall c). apply in_rev. rewrite E. by left. }
  unfold to_number. rewrite Ht. destruct s as [|c s]; [done|].
  assert (E : decimal (String c s) = Some ((inject_Z (dec_val (String c s)) * qpow 10 0)%Q, EmptyString)).
  { unfold decimal. rewrite (dec_val_spec (String c s)) by done. done. }
  assert (Es : sign_of (String c s) = (false, String c s)).
  { simpl in Hs. apply andb_true_iff in Hs as [Hc _].
    destruct c as [[][][][][][][][]]; first [done|discriminate Hc]. }
  by rewrite Es, E.
Qed.

Lemma num_lt_digits s z : all_digits s = true -> s <> EmptyString ->
  num_lt (Some s) (inject_Z z) = (dec_val s <? z).
Proof.
  intros Hs Hne. destruct (to_number_digits s Hs Hne) as (q & E & Hq). unfold num_lt. simpl. rewrite E.
  apply eq_bool_prop_intro. rewrite Is_true_true, negb_true_iff, <- not_true_iff_false, Qle_bool_iff, Hq,
    <- Zle_Qle, Is_true_true, Z.ltb_lt. lia.
Qed.

Lemma num_ge_digits s z : all_digits s = true -> s <> EmptyString ->
  num_ge (Some s) (inject_Z z) = (z <=? dec_val s).
Proof.
  intros Hs Hne. destruct (to_number_digits s Hs Hne) as (q & E & Hq). unfold num_ge. simpl. rewrite E.
  apply eq_bool_prop_intro. by rewrite Is_true_true, Qle_bool_iff, Hq, <- Zle_Qle, Is_true_true, Z.leb_le.
Qed.

Lemma split_all_digits s sep : is_digit sep = false -> all_digits s = true -> split sep s = [s].
Proof.
  intros Hsep. induction s as [|c s IH]; simpl; [done|]. intros [Hc Hs]%andb_true_iff.
  destruct (Ascii.eqb_spec c sep) as [->|]; [by rewrite Hc in Hsep|]. by rewrite IH.
Qed.

Lemma split_no_sep s sep : ~ In sep (list_ascii_of_string s) -> split sep s = [s].
Proof.
  induction s as [|c s IH]; simpl; [done|]. intros Hn.
  destruct (Ascii.eqb_spec c sep) as [->|]; [tauto|]. rewrite IH by tauto. done.
Qed.

Lemma digits_no_space s : all_digits s = true -> ~ In " "%char (list_ascii_of_string s).
Proof.
  induction s as [|c s IH]; simpl; [tauto|]. intros [Hc Hs]%andb_true_iff [->|Hin]; [done|].
  by apply IH.
Qed.

(** The gate on a version [major.minor.patch]: it refuses the versions with
    a major below 2 and a minor below 9, and the majors from 4 on, whatever the
    patch: the clause for 1.9.0 compares strings with numbers by [===] and never
    holds, so 1.9.0 passes although the message asks for 1.9.1. *)
Theorem jQueryDetection_spec major minor patch :
  Forall (fun s => all_digits s = true /\ s <> EmptyString) [major; minor; patch] ->
  (jQueryDetection (Some (major ++ "." ++ minor ++ "." ++ patch)%string) = inr tt <->
     ~ (dec_val major < 2 /\ dec_val minor < 9) /\ dec_val major < 4) /\
  jQueryDetection (Some "1.9.0"%string) = inr tt.
Proof.
  intros Hall. split; [|done].
  apply Forall_cons in Hall as [[HM HM0] Hall]. apply Forall_cons in Hall as [[Hm Hm0] Hall].
  apply Forall_cons in Hall as [[Hp Hp0] _]. unfold jQueryDetection.
  rewrite split_no_sep.
  2: { rewrite !list_ascii_app. intros Hin. repeat (apply in_app_or in Hin as [Hin|Hin]);
       try (by apply digits_no_space in Hin); simpl in Hin; destruct Hin as [Hin|[]]; done. }
  change ("." ++ minor ++ "." ++ patch)%string with (String "." (minor ++ String "." patch)).
  rewrite (split_digits major), (split_digits minor), (split_all_digits patch) by done. cbn [lookup list_lookup].
  change 2%Q with (inject_Z 2). change 9%Q with (inject_Z 9). change 4%Q with (inject_Z 4).
  rewrite !num_lt_digits, num_ge_digits by done. simpl. rewrite orb_false_r.
  destruct (Z.ltb_spec (dec_val major) 2), (Z.ltb_spec (dec_val minor) 9), (Z.leb_spec 4 (dec_val major));
    simpl; split; intros; try done; try lia.
Qed.

Lemma jQueryDetection_spec_witness : jQueryDetection (Some "3.5.1"%string) = inr tt.
Proof.
  destruct (jQueryDetection_spec "3" "5" "1") as [H _]; [repeat constructor; done|].
  apply H. split; [intros [Hlt _]; by vm_compute in Hlt|by vm_compute].
Defined.

(** ** The types of options *)

(** The patterns of the plugins' types: a word, or words between bars in
    parentheses. *)
Definition type_pattern (ws : list string) : string :=
  match ws with [w] => w | _ => ("(" ++ String.concat "|" ws ++ ")")%string end.

Definition plain_word (w : string) : Prop :=
  Forall (fun c => c <> "("%char /\ c <> ")"%char /\ c <> "|"%char) (list_ascii_of_string w).

(** [w] occurs in [t]. *)
Definition occurs (w t : string) : Prop := exists a b, t = (a ++ w ++ b)%string.

Lemma strip_prefix_spec p s r : strip_prefix p s = Some r <-> s = (p ++ r)%string.
Proof.
  revert s. induction p as [|c p IH]; intros s; cbn [strip_prefix].
  - split; [by intros [= ->]|by intros ->].
  - destruct s as [|c' s]; [by split|]. destruct (Ascii.eqb_spec c c') as [->|Hne].
    + rewrite IH. split; [by intros ->|by intros [= ->]].
    + split; [done|]. intros [= -> _]. done.
Qed.

Lemma str_contains_spec p s : str_contains p s = true <-> occurs p s.
Proof.
  unfold occurs. induction s as [|c s IH].
  - change (str_contains p "") with (match strip_prefix p "" with Some _ => true | None => false end).
    destruct (strip_prefix p "") as [r|] eqn:E.
    + split; [|done]. intros _. exists ""%string, r. exact (proj1 (strip_prefix_spec _ _ _) E).
    + split; [done|]. intros ([|] & b & E'); [|done].
      pose proof (proj2 (strip_prefix_spec p "" b) E'). congruence.
  - cbn [str_contains]. destruct (strip_prefix p (String c s)) as [r|] eqn:E.
    + split; [|done]. intros _. exists ""%string, r. exact (proj1 (strip_prefix_spec _ _ _) E).
    + rewrite IH. split.
      * intros (a & b & ->). by exists (String c a), b.
      * intros ([|c' a] & b & E'); [|injection E' as -> ->; by exists a, b].
        pose proof (proj2 (strip_prefix_spec p _ b) E'). congruence.
Qed.

Lemma replace_absent c s : Forall (fun x => x <> c) (list_ascii_of_string s) ->
  replace (String c EmptyString) "" s = s.
Proof.
  induction s as [|x s IH]; [done|]. intros [Hx Hs]%Forall_cons. cbn [replace strip_prefix].
  destruct (Ascii.eqb_spec c x) as [->|_]; [done|]. by rewrite IH.
Qed.

Lemma replace_end c s : Forall (fun x => x <> c) (list_ascii_of_string s) ->
  replace (String c EmptyString) "" (s ++ String c EmptyString) = s.
Proof.
  induction s as [|x s IH]; intros Hs.
  - change (replace (String c "") "" (String c "") = ""%string). cbn [replace strip_prefix].
    rewrite (proj2 (Ascii.eqb_eq c c) eq_refl). done.
  - change ((String x s ++ String c "")%string) with (String x (s ++ String c "")). cbn [replace strip_prefix].
    apply Forall_cons in Hs as [Hx Hs]. destruct (Ascii.eqb_spec c x) as [->|_]; [done|]. by rewrite IH.
Qed.

Lemma split_bar w s : Forall (fun x => x <> "|"%char) (list_ascii_of_string w) ->
  split "|" (w ++ String "|" s) = w :: split "|" s.
Proof.
  induction w as [|x w IH]; intros Hw.
  - change (split "|" (String "|" s) = ""%string :: split "|" s). cbn [split].
    by rewrite (proj2 (Ascii.eqb_eq _ _) eq_refl).
  - change ((String x w ++ String "|" s)%string) with (String x (w ++ String "|" s)). cbn [split].
    apply Forall_cons in Hw as [Hx Hw]. destruct (Ascii.eqb_spec x "|"%char) as [->|_]; [done|]. by rewrite IH.
Qed.

Lemma alternatives_pattern ws : ws <> [] -> Forall plain_word ws -> alternatives (type_pattern ws) = ws.
Proof.
  intros Hne Hp. assert (Hpar : forall c, c = "("%char \/ c = ")"%char ->
    Forall (fun x => x <> c) (list_ascii_of_string (String.concat "|" ws))).
  { intros c Hc. clear Hne. induction Hp as [|w ws Hw Hws IH]; [constructor|]. cbn [String.concat].
    assert (Hwc : Forall (fun x => x <> c) (list_ascii_of_string w)).
    { eapply Forall_impl; [apply Hw|]. intros x (? & ? & ?). by destruct Hc as [-> | ->]. }
    destruct ws; [done|]. rewrite !list_ascii_app. apply Forall_app. split; [done|].
    apply Forall_cons. split; [by destruct Hc as [-> | ->]|done]. }
  assert (Hsplit : split "|" (String.concat "|" ws) = ws).
  { clear Hpar. induction Hp as [|w ws Hw Hws IH]; [done|]. cbn [String.concat].
    assert (Hwc : Forall (fun x => x <> "|"%char) (list_ascii_of_string w)).
    { eapply Forall_impl; [apply Hw|]. intros x (? & ? & ?). done. }
    destruct ws as [|w' ws].
    - apply split_no_sep. intros Hin%list_elem_of_In. rewrite Forall_forall in Hwc. by apply (Hwc _ Hin).
    - change (split "|" (w ++ String "|" (String.concat "|" (w' :: ws))) = w :: w' :: ws).
      rewrite (split_bar w) by done. f_equal. by apply IH. }
  unfold alternatives, type_pattern. destruct ws as [|w [|w' ws]]; [done| |].
  - rewrite (replace_absent "("), (replace_absent ")") by (apply (Hpar _); auto). exact Hsplit.
  - change (replace "(" "" ("(" ++ String.concat "|" (w :: w' :: ws) ++ ")"))
      with (String.concat "|" (w :: w' :: ws) ++ ")")%string.
    rewrite (replace_end ")") by (apply Hpar; by right). exact Hsplit.
Qed.

Lemma regexp_test_pattern ws t : ws <> [] -> Forall plain_word ws ->
  regexp_test (type_pattern ws) t = true <-> exists w, w ∈ ws /\ occurs w t.
Proof.
  intros Hne Hp. unfold regexp_test. rewrite alternatives_pattern by done. rewrite existsb_exists.
  split; intros (w & Hw & Ht).
  - exists w. split; [by apply list_elem_of_In|]. by apply str_contains_spec.
  - exists w. split; [by apply list_elem_of_In|]. by apply str_contains_spec.
Qed.

(** What counts as an element: an element; an object with a [nodeType]; a jQuery
    object, an array or an object whose entry 0 is one of these. *)
Inductive node_like : jsval -> Prop :=
  | node_elem e : node_like (VElem e)
  | node_forged l : truthy (obj_field (VObj l) "nodeType") = true -> node_like (VObj l).

Inductive element_like : jsval -> Prop :=
  | el_node e : element_like (VElem e)
  | el_jquery e l : element_like (VJq (e :: l))
  | el_array v l : node_like v -> element_like (VArr (v :: l))
  | el_entry l : node_like (obj_field (VObj l) "0") -> element_like (VObj l)
  | el_forged l : truthy (obj_field (VObj l) "0") = false -> node_like (VObj l) -> element_like (VObj l).

(** The name of a value's type, by the kinds of values. *)
Inductive has_type : jsval -> string -> Prop :=
  | ty_element v : element_like v -> has_type v "element"
  | ty_undefined : has_type VUndef "undefined"
  | ty_null : has_type VNull "null"
  | ty_boolean b : has_type (VBool b) "boolean"
  | ty_number q : has_type (VNum q) "number"
  | ty_string s : has_type (VStr s) "string"
  | ty_function f : has_type (VFun f) "function"
  | ty_array l : ~ element_like (VArr l) -> has_type (VArr l) "array"
  | ty_jquery l : ~ element_like (VJq l) -> has_type (VJq l) "object"
  | ty_object l : ~ element_like (VObj l) -> has_type (VObj l) "object"
  | ty_ref r : has_type (VRef r) "object".

Lemma node_like_spec v : truthy (nodeType v) = true <-> node_like v.
Proof.
  split.
  - destruct v; try done; intros H; [apply node_elem|by apply node_forged].
  - intros [e|l Hl]; [done|exact Hl].
Qed.

Lemma isElement_spec v : isElement v = true <-> element_like v.
Proof.
  unfold isElement. split.
  - destruct v as [| | |q|s|e|l|l|f|l|r]; try done.
    + destruct s; done.
    + intros _. apply el_node.
    + destruct l; [done|]. intros _. apply el_jquery.
    + destruct l as [|v l]; [done|]. cbn [first_of]. destruct (truthy v) eqn:E; [|done].
      intros Hv%node_like_spec. by apply el_array.
    + cbn [first_of]. destruct (truthy (obj_field (VObj l) "0")) eqn:E; intros Hv%node_like_spec.
      * by apply el_entry.
      * by apply el_forged.
  - assert (Ht : forall v, node_like v -> truthy v = true) by (by intros ? []).
    intros [e|e l|v' l Hv|l Hv|l E Hv]; [done|done| | |].
    + cbn [first_of]. rewrite (Ht _ Hv). by apply node_like_spec.
    + cbn [first_of]. rewrite (Ht _ Hv). by apply node_like_spec.
    + cbn [first_of]. rewrite E. by apply node_like_spec.
Qed.

(** The type the check sees. *)
Definition value_type (i : elem -> string) (v : jsval) : string :=
  if truthy v && isElement v then "element"%string else toType i v.

Lemma value_type_spec i v t : value_type i v = t <-> has_type v t.
Proof.
  assert (He : forall v, element_like v -> truthy v = true) by (by intros ? []).
  unfold value_type. destruct (isElement v) eqn:E.
  - pose proof (proj1 (isElement_spec v) E) as Hv. rewrite (He v Hv). cbn. split; [intros <-; by apply ty_element|].
    destruct 1; try done; by inversion Hv.
  - rewrite andb_false_r. assert (Hn : ~ element_like v) by (rewrite <- isElement_spec; congruence).
    split.
    + intros <-. destruct v; try constructor; try done.
    + by destruct 1.
Qed.

Lemma typeCheck_member i name c types p e :
  typeCheckConfig i name c types = inr tt -> (p, e) ∈ types -> regexp_test e (value_type i (field c p)) = true.
Proof.
  induction types as [|[p' e'] types IH]; intros E Hin; [by apply not_elem_of_nil in Hin|].
  cbn [typeCheckConfig] in E. fold (value_type i (field c p')) in E.
  destruct (regexp_test e' (value_type i (field c p'))) eqn:Et; [|done].
  apply elem_of_cons in Hin as [[= -> ->]|Hin]; [done|by apply IH].
Qed.

(** ** The end of a transition *)

Section emulate.
Context {K : Type} (k : K) (el : elem) (d : option Q).

(** The callback of interest only records that it ran. *)
Definition record_plug (c : K) : M (World (list K) unit K) unit := mod_dom (fun log => log ++ [c]).

Definition start (w : World (list K) unit K) : World (list K) unit K :=
  ((jq_one [el] TRANSITION_END (Call k) ;; transitionEndEmulator [el] d) w).1.

(** What the browser may do next: the timer is due, or the transition ends. *)
Inductive browser := BrTimer | BrTransitionEnd.

Definition is_timeout (t : task K) : bool := match task_when t with Timeout _ => true | _ => false end.

Definition browser_step (w : World (list K) unit K) (b : browser) : World (list K) unit K :=
  match b with
  | BrTransitionEnd => (deliver record_plug el TRANSITION_END w).1
  | BrTimer =>
      match head (filter (fun t => is_timeout t = true) (tasks w)) with
      | Some t => (run_callback record_plug (task_run t)
                     (w <| tasks := filter (fun u => task_id u <> task_id t) (tasks w) |>)).1
      | None => w
      end
  end.

Definition fresh_world : World (list K) unit K := MkWorld [] ∅ ∅ [] ∅ 0%nat false.

Definition timer_task : task K := Task 3 (Timeout (default 0%Q d)) (EmuFire 1 [el]).

Lemma start_tasks : start fresh_world =
  MkWorld [] ∅ ∅ [Task 0 (Once el TRANSITION_END) (Call k); Task 2 (Once el TRANSITION_END) (EmuMark 1); timer_task]
    ∅ 4%nat false.
Proof. reflexivity. Qed.

(** The state after the callback has run: at most the spent timer is left. *)
Definition finished (w : World (list K) unit K) : Prop :=
  dom w = [k] /\ 1%nat ∈ called w /\ (tasks w = [] \/ tasks w = [timer_task]).

Lemma bind_skip (m : M (World (list K) unit K) unit) w : ((m ≫= fun _ => skip) w).1 = (m w).1.
Proof. unfold mbind, M_bind. by destruct (m w) as [w' [e|u]]. Qed.

Lemma is_once_el c i : is_once el TRANSITION_END (Task i (Once el TRANSITION_END) c : task K) = true.
Proof. unfold is_once. simpl. by rewrite Nat.eqb_refl. Qed.

Lemma deliver_start w : dom w = [] -> tasks w = [Task 0 (Once el TRANSITION_END) (Call k);
    Task 2 (Once el TRANSITION_END) (EmuMark 1)] \/ tasks w = tasks (start fresh_world) ->
  let w' := (deliver record_plug el TRANSITION_END w).1 in
  dom w' = [k] /\ 1%nat ∈ called w' /\ (tasks w' = [] \/ tasks w' = [timer_task]).
Proof.
  rewrite start_tasks. destruct w as [dm hp dt ts cl ni pv]. simpl. intros -> Ht. unfold deliver.
  assert (Hn : is_once el TRANSITION_END timer_task = false) by done.
  destruct Ht as [E|E]; rewrite E; simpl tasks; rewrite !filter_cons, ?is_once_el, ?Hn, filter_nil; simpl;
    unfold constant; (split; [done|]); (split; [set_solver|]); [by left|by right].
Qed.

Lemma start_step b : finished (browser_step (start fresh_world) b).
Proof.
  destruct b; unfold browser_step.
  - rewrite start_tasks. simpl. rewrite decide_False by set_solver.
    rewrite bind_skip. by apply deliver_start; [|left].
  - apply deliver_start; [by rewrite start_tasks|by right].
Qed.

Lemma finished_step w b : finished w -> finished (browser_step w b).
Proof.
  destruct w as [dm hp dt ts cl ni pv]. intros (Hd & Hc & Ht). simpl in *.
  unfold finished, browser_step. destruct b; simpl.
  - destruct Ht as [E|E]; rewrite E; simpl; [by auto|]. rewrite decide_True by done. simpl. auto.
  - assert (Hn : is_once el TRANSITION_END timer_task = false) by done.
    destruct Ht as [-> | ->]; vm_compute; auto.
Qed.

(** C35. [$(el).one(TRANSITION_END, complete).emulateTransitionEnd(d)]: however
    the browser schedules the timer and any number of [transitionend] events,
    as soon as one of them has happened [complete] has run, exactly once, and it
    never runs again. *)
Theorem transition_complete_once (b : browser) (schedule : list browser) :
  dom (foldl browser_step (start fresh_world) (b :: schedule)) = [k].
Proof.
  simpl. pose proof (start_step b) as Hf. revert Hf. generalize (browser_step (start fresh_world) b) as w.
  induction schedule as [|b' l IH]; intros w Hf; simpl; [apply Hf|]. by apply IH, finished_step.
Qed.
End emulate.
