(* ===== verification/BsAlertButton.v ===== *)
(** The Alert (lines 236-363) and Button (392-564) plugins of
    bootstrap.bundle.js. *)
From Stdlib Require Import ZArith QArith String Ascii.
From stdpp Require Import base list gmap strings.
From coqutil Require Import Datatypes.RecordSetters.
From S2P Require Import Prelude Js JsDom BsUtil.

Local Open Scope Z_scope.

(** ** Alert *)

Record Alert := { alert_element : option elem }.

(** The callback of [_removeElement] captures the alert it closes. *)
Inductive alert_cb := AlertDestroy (element : elem).

Section alert.
Context {D : Type} `{Dom D}.
Local Abbreviation W := (World D Alert alert_cb).
Context (fire : event -> elem -> M W bool).

Definition alert_getRootElement (element : elem) : M W (option elem) :=
  selector ← selector_of element;
  parent ← (match selector with
            | Some s => if String.eqb s "" then mret None else query_one None s
            | None => mret None
            end);
  match parent with
  | Some p => mret (Some p)
  | None => d ← get_dom; mret (closest d element ".alert")
  end.

Definition alert_triggerCloseEvent (element : option elem) : M W bool :=
  trigger fire element (ev "close.bs.alert").

Definition alert_destroyElement (element : elem) : M W unit :=
  jq_detach [element] ;;
  trigger fire (Some element) (ev "closed.bs.alert") ;;
  jq_remove [element].

Definition alert_removeElement (element : option elem) : M W unit :=
  mod_dom (jq_remove_class (option_list element) "show") ;;
  d ← get_dom;
  match element with
  | None => skip                          (* an empty set: nothing to destroy *)
  | Some element =>
      if negb (jq_has_class d [element] "fade") then alert_destroyElement element
      else
        let transitionDuration := getTransitionDurationFromElement d (Some element) in
        jq_one [element] TRANSITION_END (Call (AlertDestroy element)) ;;
        transitionEndEmulator [element] transitionDuration
  end.

Definition alert_close (o : nat) (element : option elem) : M W unit :=
  this ← get o;
  rootElement ← (match element with
                 | Some e => alert_getRootElement e
                 | None => mret (alert_element this)
                 end);
  isDefaultPrevented ← alert_triggerCloseEvent rootElement;
  if (isDefaultPrevented : bool) then skip else alert_removeElement rootElement.

Definition alert_dispose (o : nat) : M W unit :=
  this ← get o;
  remove_data (alert_element this) ;;
  put o (fun _ => {| alert_element := None |}).

Definition alert_plug (k : alert_cb) : M W unit :=
  match k with AlertDestroy element => alert_destroyElement element end.

(** [$(els).alert(config)] *)
Definition alert_jQueryInterface (els : list elem) (config : option string) : M W unit :=
  for_each els (fun el =>
    data ← get_data el;
    o ← (match data with
         | Some o => mret o
         | None => o ← alloc {| alert_element := Some el |}; set_data el o ;; mret o
         end);
    if decide (config = Some "close"%string) then alert_close o (Some el) else skip).

(** The click handler of [[data-dismiss=alert]]; [alertInstance] is the shared
    [new Alert()] of the data API. *)
Definition alert_handleDismiss (alertInstance : nat) (target : elem) : M W unit :=
  prevent_default ;;
  alert_close alertInstance (Some target).
End alert.

(** ** Button *)

Record Button := { button_element : option elem }.

Section button.
Context {D : Type} `{Dom D}.
Local Abbreviation W := (World D Button Empty_set).
Context (fire : event -> elem -> M W bool).

Definition SELECTOR_DATA_TOGGLES : string := "[data-toggle=buttons]".
Definition SELECTOR_INPUT : string := "input:not([type=hidden])".

Definition is_disabled (d : D) (e : elem) : bool :=
  match attr d e "disabled" with Some _ => true | None => false end || has_class d e "disabled".

(** The part of [toggle] under [if (rootElement) ... if (input)]: it returns
    whether the change event is to be triggered. *)
Definition button_toggle_input (el rootElement input : elem) : M W bool :=
  d ← get_dom;
  let type := prop d input "type" in
  triggerChangeEvent ← (
    if val_is_str type "radio" then
      if truthy (prop d input "checked") && has_class d el "active" then mret false
      else
        activeElement ← query_one (Some rootElement) ".active";
        match activeElement with
        | Some a => mod_dom (jq_remove_class [a] "active") ;; mret true
        | None => mret true
        end
    else mret true);
  (if (triggerChangeEvent : bool) then
     d ← get_dom;
     when (val_is_str type "checkbox" || val_is_str type "radio")
       (mod_dom (set_prop input "checked" (VBool (negb (has_class d el "active"))))) ;;
     trigger fire (Some input) (ev "change") ;;
     skip
   else skip) ;;
  mod_dom (set_focus input) ;;
  mret triggerChangeEvent.

Definition button_toggle (o : nat) : M W unit :=
  this ← get o;
  d ← get_dom;
  let rootElement := button_element this ≫= (fun e => closest d e SELECTOR_DATA_TOGGLES) in
  el ← deref (button_element this);
  flags ← (match rootElement with
           | None => mret (true, true)
           | Some rootElement =>
               input ← query_one (Some el) SELECTOR_INPUT;
               match input with
               | None => mret (true, true)
               | Some input =>
                   triggerChangeEvent ← button_toggle_input el rootElement input;
                   mret (triggerChangeEvent, false)
               end
           end);
  let triggerChangeEvent : bool := flags.1 in
  let addAriaPressed : bool := flags.2 in
  d ← get_dom;
  if is_disabled d el then skip
  else
    when addAriaPressed
      (mod_dom (set_attr el "aria-pressed" (Some (bool_str (negb (has_class d el "active")))))) ;;
    when triggerChangeEvent (mod_dom (toggle_class el "active")).

Definition button_dispose (o : nat) : M W unit :=
  this ← get o;
  remove_data (button_element this) ;;
  put o (fun _ => {| button_element := None |}).

Definition button_jQueryInterface (els : list elem) (config : option string) : M W unit :=
  for_each els (fun el =>
    data ← get_data el;
    o ← (match data with
         | Some o => mret o
         | None => o ← alloc {| button_element := Some el |}; set_data el o ;; mret o
         end);
    if decide (config = Some "toggle"%string) then button_toggle o else skip).

(** The click handler of [[data-toggle^=button]]. *)
Definition button_click (target : elem) : M W unit :=
  d ← get_dom;
  let button := if negb (jq_has_class d [target] "btn") then closest d target ".btn" else Some target in
  match button with
  | None => prevent_default
  | Some button =>
      if is_disabled d button then prevent_default
      else
        inputBtn ← query_one (Some button) SELECTOR_INPUT;
        if match inputBtn with Some i => is_disabled d i | None => false end then prevent_default
        else if negb (val_is_str (prop d target "tagName") "LABEL")
                || match inputBtn with Some i => negb (val_is_str (prop d i "type") "checkbox") | None => false end
             then button_jQueryInterface [button] (Some "toggle"%string)
             else skip
  end.

(** The focus and blur handler. *)
Definition button_focus_blur (target : elem) (event_type : string) : M W unit :=
  d ← get_dom;
  let button := closest d target ".btn" in
  mod_dom (jq_toggle_class (option_list button) "focus"
             (String.eqb event_type "focus" || String.eqb event_type "focusin")).

(** The load handler: the [active] class of the initial toggles. *)
Definition button_load : M W unit :=
  buttons ← query_all None "[data-toggle=buttons] .btn";
  for_each buttons (fun button =>
    input ← query_one (Some button) SELECTOR_INPUT;
    input ← deref input;
    d ← get_dom;
    if truthy (prop d input "checked") || match attr d input "checked" with Some _ => true | None => false end
    then mod_dom (add_class button "active")
    else mod_dom (remove_class button "active")) ;;
  buttons ← query_all None "[data-toggle=button]";
  for_each buttons (fun button =>
    d ← get_dom;
    if decide (attr d button "aria-pressed" = Some "true"%string)
    then mod_dom (add_class button "active")
    else mod_dom (remove_class button "active")).
End button.
