(* ===== verification/BsCarousel.v ===== *)
(** The Carousel plugin (lines 585-1164 of bootstrap.bundle.js). *)
From Stdlib Require Import ZArith QArith Qabs String Ascii.
From stdpp Require Import base list gmap strings pretty.
From coqutil Require Import Datatypes.RecordSetters.
From S2P Require Import Prelude Js JsDom BsUtil.

Local Open Scope Z_scope.

Definition ARROW_LEFT_KEYCODE : Z := 37.
Definition ARROW_RIGHT_KEYCODE : Z := 39.
Definition TOUCHEVENT_COMPAT_WAIT : Q := 500.
Definition SWIPE_THRESHOLD : Q := 40.

Definition carousel_Default : config := {[
  "interval" := VNum 5000; "keyboard" := VBool true; "slide" := VBool false;
  "pause" := VStr "hover"; "wrap" := VBool true; "touch" := VBool true ]}%string.

Definition carousel_DefaultType : list (string * string) := [
  ("interval", "(number|boolean)"); ("keyboard", "boolean"); ("slide", "(boolean|string)");
  ("pause", "(string|boolean)"); ("wrap", "boolean"); ("touch", "boolean")]%string.

Inductive direction := DIRECTION_NEXT | DIRECTION_PREV.

Definition SELECTOR_ACTIVE_ITEM : string := ".active.carousel-item".
Definition SELECTOR_ITEM : string := ".carousel-item".
Definition SELECTOR_NEXT_PREV : string := ".carousel-item-next, .carousel-item-prev".

(** Listeners the plugin attaches to its element. *)
Inductive carousel_listener := LKeydown | LPause | LCycle | LStart | LMove | LEnd.

Record Carousel := {
  _items : list elem;                    (* [null] is [[]] *)
  _interval : option nat;
  _activeElement : option elem;
  _isPaused : bool;                      (* [null] after [dispose] is [false] *)
  _isSliding : bool;
  touchTimeout : option nat;
  touchStartX : Q;
  touchDeltaX : Q;
  _config : option config;
  _element : option elem;
  _indicatorsElement : option elem;
  _touchSupported : bool;
  _pointerEvent : bool;
  listeners : list (string * carousel_listener)
}.

(** The callbacks: the two targets of [setInterval], the end of the slide
    transition with what it captures, the event it triggers afterwards, the
    postponed [to], the cycle after a touch. *)
Inductive carousel_cb :=
  | CNextWhenVisible (o : nat)
  | CNext (o : nat)
  | CSlideEnd (o : nat) (nextElement activeElement : elem)
      (directionalClassName orderClassName : string) (slidEvent : event)
  | CTriggerSlid (o : nat) (slidEvent : event)
  | CTo (o : nat) (index : jsval)
  | CTouchCycle (o : nat).

Section carousel.
Context {D : Type} `{Dom D}.
Local Abbreviation W := (World D Carousel carousel_cb).
Context (fire : event -> elem -> M W bool).
(** The page: [document.hidden], [document.visibilityState]; the browser:
    touch and pointer events. *)
Context (document_hidden visibilityState : D -> bool) (touch_supported pointer_event : bool).

(** ** Indices *)

(** [items.indexOf(element)] *)
Fixpoint indexOf (element : elem) (items : list elem) : Z :=
  match items with
  | [] => -1
  | x :: items => if (x =? element)%nat then 0
                  else let i := indexOf element items in if i =? -1 then -1 else i + 1
  end.

(** [items[i]] *)
Definition item_at (items : list elem) (i : Z) : option elem :=
  if i <? 0 then None else items !! Z.to_nat i.

Definition _getItemIndex (o : nat) (element : option elem) : M W Z :=
  d ← get_dom;
  items ← (match element ≫= parent d with
           | Some p => query_all (Some p) SELECTOR_ITEM
           | None => mret []
           end);
  put o (fun this => this <| _items := items |>) ;;
  mret (match element with Some e => indexOf e items | None => -1 end).

(** The body of [_getItemByDirection] after [_items] is refreshed. *)
Definition itemByDirection (d : direction) (wrap : bool) (items : list elem) (activeElement : elem)
    (activeIndex : Z) : option elem :=
  let isNextDirection := match d with DIRECTION_NEXT => true | _ => false end in
  let isPrevDirection := match d with DIRECTION_PREV => true | _ => false end in
  let len := Z.of_nat (length items) in
  let lastItemIndex := len - 1 in
  let isGoingToWrap := isPrevDirection && (activeIndex =? 0)
                       || isNextDirection && (activeIndex =? lastItemIndex) in
  if isGoingToWrap && negb wrap then Some activeElement
  else if len =? 0 then None             (* % 0 is NaN *)
  else
    let delta := match d with DIRECTION_PREV => -1 | DIRECTION_NEXT => 1 end in
    let itemIndex := Z.rem (activeIndex + delta) len in
    if itemIndex =? -1 then item_at items (len - 1) else item_at items itemIndex.

Definition _getItemByDirection (o : nat) (d : direction) (activeElement : elem) : M W (option elem) :=
  activeIndex ← _getItemIndex o (Some activeElement);
  this ← get o;
  cfg ← deref (_config this);
  mret (itemByDirection d (truthy (field cfg "wrap")) (_items this) activeElement activeIndex).

(** ** Timers *)

(** A delay argument as a number. *)
Definition to_ms (v : jsval) : Q :=
  match v with VNum q => q | VBool true => 1 | VStr s => default 0%Q (to_number s) | _ => 0 end.

Definition cycle (o : nat) (event_given : bool) : M W unit :=
  when (negb event_given) (put o (fun this => this <| _isPaused := false |>)) ;;
  this ← get o;
  when (bool_decide (is_Some (_interval this)))
    (clear_task (_interval this) ;; put o (fun this => this <| _interval := None |>)) ;;
  cfg ← deref (_config this);
  this ← get o;
  d ← get_dom;
  if truthy (field cfg "interval") && negb (_isPaused this) then
    id ← setInterval (Call (if visibilityState d then CNextWhenVisible o else CNext o))
           (to_ms (field cfg "interval"));
    put o (fun this => this <| _interval := Some id |>)
  else skip.

Definition pause (o : nat) (event_given : bool) : M W unit :=
  when (negb event_given) (put o (fun this => this <| _isPaused := true |>)) ;;
  this ← get o;
  el ← deref (_element this);
  moving ← query_one (Some el) SELECTOR_NEXT_PREV;
  (match moving with
   | Some _ => fire (ev "transitionend") el ;; cycle o true
   | None => skip
   end) ;;
  this ← get o;
  clear_task (_interval this) ;;
  put o (fun this => this <| _interval := None |>).

(** ** Sliding *)

Definition _triggerSlideEvent (o : nat) (relatedTarget : option elem) (eventDirectionName : string) : M W bool :=
  targetIndex ← _getItemIndex o relatedTarget;
  this ← get o;
  el ← deref (_element this);
  active ← query_one (Some el) SELECTOR_ACTIVE_ITEM;
  fromIndex ← _getItemIndex o active;
  trigger fire (Some el) (Event "slide.bs.carousel" relatedTarget
    [("direction", VStr eventDirectionName); ("from", VNum (inject_Z fromIndex));
     ("to", VNum (inject_Z targetIndex))])%string.

Definition _setActiveIndicatorElement (o : nat) (element : elem) : M W unit :=
  this ← get o;
  match _indicatorsElement this with
  | None => skip
  | Some ind =>
      indicators ← query_all (Some ind) ".active";
      mod_dom (jq_remove_class indicators "active") ;;
      i ← _getItemIndex o (Some element);
      d ← get_dom;
      mod_dom (jq_add_class (option_list (item_at (children d ind) i)) "active")
  end.

(** The directional class, the order class and the event's direction. *)
Definition slide_classes (d : direction) : string * string * string :=
  match d with
  | DIRECTION_NEXT => ("carousel-item-left", "carousel-item-next", "left")
  | DIRECTION_PREV => ("carousel-item-right", "carousel-item-prev", "right")
  end%string.

(** [interval] and [defaultInterval] after the item's own [data-interval]. *)
Definition or_else (a b : jsval) : jsval := if truthy a then a else b.

Definition slide_interval (cfg : config) (own : option string) : config :=
  let defaultInterval := or_else (field cfg "defaultInterval") (field cfg "interval") in
  match own ≫= parseInt10 with
  | Some n => if Qeq_bool n 0 then <["interval" := defaultInterval]> cfg
              else <["interval" := VNum n]> (<["defaultInterval" := defaultInterval]> cfg)
  | None => <["interval" := defaultInterval]> cfg
  end%string.

(** What [_slide] does once the slide event was not prevented: with the
    [slide] class the transition, without it the switch at once. *)
Definition slide_to (o : nat) (nextElement activeElement : elem) (d : direction) (slidEvent : event) : M W unit :=
  let '(directionalClassName, orderClassName, _) := slide_classes d in
  this ← get o;
  dm ← get_dom;
  if jq_has_class dm (option_list (_element this)) "slide" then
    mod_dom (jq_add_class [nextElement] orderClassName) ;;
    mod_dom (jq_add_class [activeElement] directionalClassName) ;;
    mod_dom (jq_add_class [nextElement] directionalClassName) ;;
    dm ← get_dom;
    this ← get o;
    cfg ← deref (_config this);
    put o (fun this => this <| _config := Some (slide_interval cfg (attr dm nextElement "data-interval")) |>) ;;
    jq_one [activeElement] TRANSITION_END
      (Call (CSlideEnd o nextElement activeElement directionalClassName orderClassName slidEvent)) ;;
    transitionEndEmulator [activeElement] (getTransitionDurationFromElement dm (Some activeElement))
  else
    mod_dom (jq_remove_class [activeElement] "active") ;;
    mod_dom (jq_add_class [nextElement] "active") ;;
    put o (fun this => this <| _isSliding := false |>) ;;
    trigger fire (_element this) slidEvent ;;
    skip.

Definition _slide (o : nat) (d : direction) (element : option elem) : M W unit :=
  this ← get o;
  el ← deref (_element this);
  activeElement ← query_one (Some el) SELECTOR_ACTIVE_ITEM;
  activeElementIndex ← _getItemIndex o activeElement;
  nextElement ← (match element, activeElement with
                 | Some e, _ => mret (Some e)
                 | None, Some a => _getItemByDirection o d a
                 | None, None => mret None
                 end);
  nextElementIndex ← _getItemIndex o nextElement;
  this ← get o;
  let isCycling := bool_decide (is_Some (_interval this)) in
  let '(directionalClassName, orderClassName, eventDirectionName) := slide_classes d in
  dm ← get_dom;
  if match nextElement with Some n => jq_has_class dm [n] "active" | None => false end
  then put o (fun this => this <| _isSliding := false |>)
  else
    isDefaultPrevented ← _triggerSlideEvent o nextElement eventDirectionName;
    if (isDefaultPrevented : bool) then skip
    else match activeElement, nextElement with
         | Some activeElement, Some nextElement =>
             put o (fun this => this <| _isSliding := true |>) ;;
             when isCycling (pause o false) ;;
             _setActiveIndicatorElement o nextElement ;;
             let slidEvent := Event "slid.bs.carousel" (Some nextElement)
               [("direction", VStr eventDirectionName); ("from", VNum (inject_Z activeElementIndex));
                ("to", VNum (inject_Z nextElementIndex))]%string in
             slide_to o nextElement activeElement d slidEvent ;;
             when isCycling (cycle o false)
         | _, _ => skip
         end.

(** The callback of the transition. *)
Definition slide_end (o : nat) (nextElement activeElement : elem)
    (directionalClassName orderClassName : string) (slidEvent : event) : M W unit :=
  mod_dom (jq_remove_class [nextElement] (directionalClassName ++ " " ++ orderClassName)) ;;
  mod_dom (jq_add_class [nextElement] "active") ;;
  mod_dom (jq_remove_class [activeElement] ("active " ++ orderClassName ++ " " ++ directionalClassName)) ;;
  put o (fun this => this <| _isSliding := false |>) ;;
  setTimeout (Call (CTriggerSlid o slidEvent)) 0 ;;
  skip.

Definition next (o : nat) : M W unit :=
  this ← get o; if _isSliding this then skip else _slide o DIRECTION_NEXT None.

Definition prev (o : nat) : M W unit :=
  this ← get o; if _isSliding this then skip else _slide o DIRECTION_PREV None.

Definition nextWhenVisible (o : nat) : M W unit :=
  this ← get o;
  d ← get_dom;
  if negb (document_hidden d)
     && match _element this with
        | Some el => matches d el ":visible" && negb (String.eqb (computed d el "visibility") "hidden")
        | None => false
        end
  then next o else skip.

(** [index] of [to]: a number, or the text of [data-slide-to]. *)
Definition index_num (v : jsval) : option Q :=
  match v with VNum q => Some q | VStr s => to_number s | VBool b => Some (if b then 1 else 0)%Q
             | VNull => Some 0%Q | _ => None end.
Definition index_gt (v : jsval) (z : Z) : bool :=
  match index_num v with Some q => negb (Qle_bool q (inject_Z z)) | None => false end.
Definition index_lt (v : jsval) (z : Z) : bool :=
  match index_num v with Some q => negb (Qle_bool (inject_Z z) q) | None => false end.
Definition index_strict_eq (v : jsval) (z : Z) : bool :=
  match v with VNum q => Qeq_bool q (inject_Z z) | _ => false end.

(** [items[index]]: an integer, or its canonical text. *)
Definition item_of (items : list elem) (v : jsval) : option elem :=
  let keys := imap (fun i e => (i, e)) items in
  snd <$> head (filter (fun p : nat * elem =>
    match v with
    | VNum q => Qeq_bool q (inject_Z (Z.of_nat p.1))
    | VStr s => String.eqb s (pretty p.1)
    | _ => false
    end = true) keys).

Definition to (o : nat) (index : jsval) : M W unit :=
  this ← get o;
  el ← deref (_element this);
  active ← query_one (Some el) SELECTOR_ACTIVE_ITEM;
  put o (fun this => this <| _activeElement := active |>) ;;
  activeIndex ← _getItemIndex o active;
  this ← get o;
  let len := Z.of_nat (length (_items this)) in
  if index_gt index (len - 1) || index_lt index 0 then skip
  else if _isSliding this then jq_one [el] "slid.bs.carousel" (Call (CTo o index))
  else if index_strict_eq index activeIndex then pause o false ;; cycle o false
  else
    let d := if index_gt index activeIndex then DIRECTION_NEXT else DIRECTION_PREV in
    _slide o d (item_of (_items this) index).

(** ** Gestures and keys *)

Definition _handleSwipe (o : nat) : M W unit :=
  this ← get o;
  let absDeltax := Qabs (touchDeltaX this) in
  if Qle_bool absDeltax SWIPE_THRESHOLD then skip
  else
    let direction := (absDeltax / touchDeltaX this)%Q in
    put o (fun this => this <| touchDeltaX := 0%Q |>) ;;
    when (negb (Qle_bool direction 0)) (prev o) ;;
    when (negb (Qle_bool 0 direction)) (next o).

(** [PointerType[t.toUpperCase()]] *)
Definition is_pointer_type (t : string) : bool :=
  let u := toUpperCase t in String.eqb u "TOUCH" || String.eqb u "PEN".

Definition first_touch (e : dom_event) : option Q :=
  match de_touches e with Some (x :: _) => Some x | _ => None end.

Definition touch_start (o : nat) (e : dom_event) : M W unit :=
  this ← get o;
  if _pointerEvent this && is_pointer_type (de_pointerType e)
  then put o (fun this => this <| touchStartX := de_clientX e |>)
  else if negb (_pointerEvent this)
       then x ← deref (first_touch e); put o (fun this => this <| touchStartX := x |>)
       else skip.

Definition touch_move (o : nat) (e : dom_event) : M W unit :=
  if match de_touches e with Some (_ :: _ :: _) => true | _ => false end
  then put o (fun this => this <| touchDeltaX := 0%Q |>)
  else x ← deref (first_touch e);
       put o (fun this => this <| touchDeltaX := (x - touchStartX this)%Q |>).

Definition touch_end (o : nat) (e : dom_event) : M W unit :=
  this ← get o;
  when (_pointerEvent this && is_pointer_type (de_pointerType e))
    (put o (fun this => this <| touchDeltaX := (de_clientX e - touchStartX this)%Q |>)) ;;
  _handleSwipe o ;;
  this ← get o;
  cfg ← deref (_config this);
  if val_is_str (field cfg "pause") "hover" then
    pause o false ;;
    this ← get o;
    clear_task (touchTimeout this) ;;
    cfg ← deref (_config this);
    id ← setTimeout (Call (CTouchCycle o)) (TOUCHEVENT_COMPAT_WAIT + to_ms (field cfg "interval"))%Q;
    put o (fun this => this <| touchTimeout := Some id |>)
  else skip.

Definition tag_is_text (v : jsval) : bool :=
  match v with
  | VStr s => let u := toUpperCase s in str_contains "INPUT" u || str_contains "TEXTAREA" u
  | _ => false
  end.

Definition _keydown (o : nat) (e : dom_event) : M W unit :=
  d ← get_dom;
  if tag_is_text (prop d (de_target e) "tagName") then skip
  else if de_which e =? ARROW_LEFT_KEYCODE then prevent_default ;; prev o
  else if de_which e =? ARROW_RIGHT_KEYCODE then prevent_default ;; next o
  else skip.

(** ** Construction *)

Definition _getConfig (c : config) : exn + config :=
  let c := extends carousel_Default c in
  match typeCheckConfig (fun _ => "element"%string) "carousel" c carousel_DefaultType with
  | inr _ => inr c
  | inl e => inl e
  end.

Definition listen (o : nat) (name : string) (l : carousel_listener) : M W unit :=
  put o (fun this => this <| listeners ::= fun ls => ls ++ [(name, l)] |>).

Definition _addTouchEventListeners (o : nat) : M W unit :=
  this ← get o;
  if negb (_touchSupported this) then skip
  else
    el ← deref (_element this);
    query_all (Some el) ".carousel-item img" ;;   (* dragstart is prevented on them *)
    if _pointerEvent this then
      listen o "pointerdown.bs.carousel" LStart ;;
      listen o "pointerup.bs.carousel" LEnd ;;
      mod_dom (add_class el "pointer-event")
    else
      listen o "touchstart.bs.carousel" LStart ;;
      listen o "touchmove.bs.carousel" LMove ;;
      listen o "touchend.bs.carousel" LEnd.

Definition _addEventListeners (o : nat) : M W unit :=
  this ← get o;
  cfg ← deref (_config this);
  when (truthy (field cfg "keyboard")) (listen o "keydown.bs.carousel" LKeydown) ;;
  when (val_is_str (field cfg "pause") "hover")
    (listen o "mouseenter.bs.carousel" LPause ;; listen o "mouseleave.bs.carousel" LCycle) ;;
  when (truthy (field cfg "touch")) (_addTouchEventListeners o).

Definition run_listener (o : nat) (l : carousel_listener) (e : dom_event) : M W unit :=
  match l with
  | LKeydown => _keydown o e
  | LPause => pause o true
  | LCycle => cycle o true
  | LStart => touch_start o e
  | LMove => touch_move o e
  | LEnd => touch_end o e
  end.

(** An event of the browser on the element: its listeners in order. *)
Definition dispatch_event (o : nat) (e : dom_event) : M W unit :=
  this ← get o;
  for_each (listeners this) (fun p => if String.eqb p.1 (de_type e) then run_listener o p.2 e else skip).

Definition Carousel_new (el : elem) (c : config) : M W nat :=
  cfg ← lift_result (_getConfig c);
  ind ← query_one (Some el) ".carousel-indicators";
  o ← alloc {| _items := []; _interval := None; _activeElement := None; _isPaused := false;
               _isSliding := false; touchTimeout := None; touchStartX := 0; touchDeltaX := 0;
               _config := Some cfg; _element := Some el; _indicatorsElement := ind;
               _touchSupported := touch_supported; _pointerEvent := pointer_event; listeners := [] |};
  _addEventListeners o ;;
  mret o.

Definition carousel_dispose (o : nat) : M W unit :=
  this ← get o;
  off_once (option_list (_element this)) "slid.bs.carousel" ;;
  remove_data (_element this) ;;
  put o (fun this => this <| listeners := [] |> <| _items := [] |> <| _config := None |>
    <| _element := None |> <| _interval := None |> <| _isPaused := false |> <| _isSliding := false |>
    <| _activeElement := None |> <| _indicatorsElement := None |>).

Definition carousel_plug (k : carousel_cb) : M W unit :=
  match k with
  | CNextWhenVisible o => nextWhenVisible o
  | CNext o => next o
  | CSlideEnd o n a dc oc e => slide_end o n a dc oc e
  | CTriggerSlid o e => this ← get o; trigger fire (_element this) e ;; skip
  | CTo o index => to o index
  | CTouchCycle o => cycle o false
  end.

(** ** The jQuery interface *)

(** [data[action]()] for the public methods; another name has no method. *)
Definition carousel_method (action : string) (o : nat) : M W unit :=
  if String.eqb action "next" then next o
  else if String.eqb action "nextWhenVisible" then nextWhenVisible o
  else if String.eqb action "prev" then prev o
  else if String.eqb action "pause" then pause o false
  else if String.eqb action "cycle" then cycle o false
  else if String.eqb action "to" then to o VUndef
  else if String.eqb action "dispose" then carousel_dispose o
  else throw TypeError.

Definition carousel_jQueryInterface (els : list elem) (arg : plugin_arg) : M W unit :=
  for_each els (fun el =>
    data ← get_data el;
    d ← get_dom;
    let _cfg := extends carousel_Default (dataset d el) in
    let _cfg := match arg with ArgObject c => extends _cfg c | _ => _cfg end in
    let action := match arg with ArgString s => VStr s | _ => field _cfg "slide" end in
    o ← (match data with
         | Some o => mret o
         | None => o ← Carousel_new el _cfg; set_data el o ;; mret o
         end);
    match arg, action with
    | ArgNumber q, _ => to o (VNum q)
    | _, VStr s => carousel_method s o
    | _, _ => if truthy (field _cfg "interval") && truthy (field _cfg "ride")
              then pause o false ;; cycle o false else skip
    end).

(** The click handler of [[data-slide], [data-slide-to]]. *)
Definition _dataApiClickHandler (this : elem) : M W unit :=
  selector ← selector_of this;
  match selector with
  | None => skip
  | Some selector =>
      if String.eqb selector "" then skip else
      targets ← query_all None selector;
      d ← get_dom;
      match head targets with
      | Some target =>
          if negb (jq_has_class d [target] "carousel") then skip
          else
            let cfg := extends (dataset d target) (dataset d this) in
            let slideIndex := attr d this "data-slide-to" in
            let has_index := match slideIndex with Some s => negb (String.eqb s "") | None => false end in
            let cfg := if has_index then <["interval"%string := VBool false]> cfg else cfg in
            carousel_jQueryInterface [target] (ArgObject cfg) ;;
            (if has_index then
               data ← get_data target; o ← deref data; to o (VStr (default ""%string slideIndex))
             else skip) ;;
            prevent_default
      | None => skip
      end
  end.

(** The load handler: every [[data-ride=carousel]] starts. *)
Definition carousel_load : M W unit :=
  carousels ← query_all None "[data-ride=carousel]";
  for_each carousels (fun el => d ← get_dom; carousel_jQueryInterface [el] (ArgObject (dataset d el))).
End carousel.
