(* ===== verification/BsCollapse.v ===== *)
(** The Collapse plugin (lines 1172-1513 of bootstrap.bundle.js). *)
From Stdlib Require Import ZArith QArith String Ascii.
From stdpp Require Import base list gmap strings.
From coqutil Require Import Datatypes.RecordSetters.
From S2P Require Import Prelude Js JsDom BsUtil.

Local Open Scope Z_scope.

Definition collapse_Default : config := {[ "toggle" := VBool true; "parent" := VStr "" ]}%string.
Definition collapse_DefaultType : list (string * string) :=
  [("toggle", "boolean"); ("parent", "(string|element)")]%string.

Record Collapse := {
  c_isTransitioning : bool;
  c_element : option elem;
  c_config : option config;
  c_triggerArray : option (list elem);
  c_selector : option string;
  c_parent : option elem
}.

(** [complete] of [show] (it captures the dimension) and of [hide]. *)
Inductive collapse_cb := CShown (o : nat) (dimension : string) | CHidden (o : nat).

Section collapse.
Context {D : Type} `{Dom D}.
Local Abbreviation W := (World D Collapse collapse_cb).
Context (fire : event -> elem -> M W bool).

Definition collapse_getConfig (c : config) : exn + config :=
  let c := extends collapse_Default c in
  let c := <["toggle"%string := VBool (truthy (field c "toggle"))]> c in
  match typeCheckConfig (fun _ => "element"%string) "collapse" c collapse_DefaultType with
  | inr _ => inr c
  | inl e => inl e
  end.

Definition _getDimension (d : D) (el : option elem) : string :=
  if jq_has_class d (option_list el) "width" then "width" else "height".

Definition _addAriaAndCollapsedClass (element : option elem) (triggerArray : list elem) : M W unit :=
  d ← get_dom;
  let isOpen := jq_has_class d (option_list element) "show" in
  mod_dom (fun d => jq_attr triggerArray "aria-expanded" (bool_str isOpen)
                      (jq_toggle_class triggerArray "collapsed" (negb isOpen) d)).

Definition _getTargetFromElement (element : elem) : M W (option elem) :=
  selector ← selector_of element;
  match selector with
  | Some s => if String.eqb s "" then mret None else query_one None s
  | None => mret None
  end.

Definition attr_selector (name value : string) : string :=
  ("[" ++ name ++ "=" ++ dquote ++ value ++ dquote ++ "]")%string.

Definition _getParent (o : nat) (config_parent : jsval) : M W elem :=
  parent ← (match config_parent with
            | VElem e => mret (Some e)
            | VJq l => if isElement config_parent then mret (head l) else query_one None (js_str config_parent)
            | VArr _ | VObj _ => if isElement config_parent then throw TypeError
                        else query_one None (js_str config_parent)
            | _ => query_one None (js_str config_parent)
            end);
  parent ← deref parent;
  children ← query_all (Some parent)
    ("[data-toggle=collapse]" ++ attr_selector "data-parent" (js_str config_parent));
  for_each children (fun element =>
    target ← _getTargetFromElement element;
    _addAriaAndCollapsedClass target [element]) ;;
  mret parent.

(** The loop of the constructor over all toggles: those whose selector finds
    [element] are triggers; the last such selector is kept. *)
Fixpoint collapse_toggles (element : elem) (toggleList : list elem) (triggers : list elem)
    (sel : option string) : M W (list elem * option string) :=
  match toggleList with
  | [] => mret (triggers, sel)
  | e :: rest =>
      selector ← selector_of e;
      found ← query_all None (default "null"%string selector);
      match selector with
      | Some s => if existsb (fun f => (f =? element)%nat) found
                  then collapse_toggles element rest (triggers ++ [e]) (Some s)
                  else collapse_toggles element rest triggers sel
      | None => collapse_toggles element rest triggers sel
      end
  end.

(** The constructor up to its last statement. *)
Definition collapse_construct (element : elem) (c : config) : M W (nat * config) :=
  cfg ← lift_result (collapse_getConfig c);
  d ← get_dom;
  let id := js_str (prop d element "id") in
  triggers ← query_all None
    ("[data-toggle=collapse]" ++ attr_selector "href" ("#" ++ id) ++ "," ++
     "[data-toggle=collapse]" ++ attr_selector "data-target" ("#" ++ id));
  toggleList ← query_all None "[data-toggle=collapse]";
  r ← collapse_toggles element toggleList triggers None;
  o ← alloc {| c_isTransitioning := false; c_element := Some element; c_config := Some cfg;
               c_triggerArray := Some r.1; c_selector := r.2; c_parent := None |};
  (if truthy (field cfg "parent") then
     parent ← _getParent o (field cfg "parent");
     put o (fun this => this <| c_parent := Some parent |>)
   else _addAriaAndCollapsedClass (Some element) r.1) ;;
  mret (o, cfg).

Definition setTransitioning (o : nat) (b : bool) : M W unit :=
  put o (fun this => this <| c_isTransitioning := b |>).

Definition collapse_transition (els : list elem) (complete : collapse_cb) : M W unit :=
  d ← get_dom;
  let transitionDuration := getTransitionDurationFromElement d (head els) in
  jq_one els TRANSITION_END (Call complete) ;;
  transitionEndEmulator els transitionDuration.

(** The loop of [hide] over the triggers: one whose targets are all hidden is
    marked collapsed. *)
Definition collapse_trigger (trigger : elem) : M W unit :=
  selector ← selector_of trigger;
  match selector with
  | None => skip
  | Some s =>
      found ← query_all None s;
      d ← get_dom;
      if jq_has_class d found "show" then skip
      else mod_dom (fun d => jq_attr [trigger] "aria-expanded" "false" (jq_add_class [trigger] "collapsed" d))
  end.

Definition hide (o : nat) : M W unit :=
  this ← get o;
  d ← get_dom;
  if c_isTransitioning this || negb (jq_has_class d (option_list (c_element this)) "show") then skip
  else
    isDefaultPrevented ← trigger fire (c_element this) (ev "hide.bs.collapse");
    if (isDefaultPrevented : bool) then skip
    else
      this ← get o;
      d ← get_dom;
      let dimension := _getDimension d (c_element this) in
      el ← deref (c_element this);
      let r := bounding_rect d el in
      mod_dom (set_style el dimension
        (num_str (if String.eqb dimension "width" then cr_width r else cr_height r) ++ "px")) ;;
      mod_dom (fun d => jq_remove_class [el] "collapse show" (jq_add_class [el] "collapsing" d)) ;;
      triggers ← deref (c_triggerArray this);
      for_each triggers collapse_trigger ;;
      setTransitioning o true ;;
      mod_dom (set_style el dimension "") ;;
      collapse_transition [el] (CHidden o).

(** [Collapse._jQueryInterface.call(els, 'hide')] *)
Definition hide_all (els : list elem) : M W unit :=
  for_each els (fun el =>
    data ← get_data el;
    d ← get_dom;
    o ← (match data with
         | Some o => mret o
         | None =>
             let cfg := extends collapse_Default (dataset d el) in
             let cfg := if truthy (field cfg "toggle") then <["toggle"%string := VBool false]> cfg else cfg in
             r ← collapse_construct el cfg; set_data el r.1 ;; mret r.1
         end);
    hide o).

(** [$(els).not(sel)] *)
Definition jq_not (d : D) (els : list elem) (sel : option string) : list elem :=
  match sel with
  | Some s => filter (fun e => matches d e s = false) els
  | None => els
  end.

(** The open or moving elements under the parent. *)
Definition collapse_actives (this : Collapse) : M W (list elem) :=
  match c_parent this with
  | None => mret []
  | Some p =>
      found ← query_all (Some p) ".show, .collapsing";
      d ← get_dom;
      cfg ← deref (c_config this);
      mret (filter (fun e =>
        match field cfg "parent" with
        | VStr s => bool_decide (attr d e "data-parent" = Some s)
        | _ => has_class d e "collapse"
        end = true) found)
  end.

(** The instance of the first of them other than this one. *)
Definition actives_data (others : list elem) : M W (option nat) :=
  match others with [] => mret None | e :: _ => get_data e end.

Definition capitalize (s : string) : string :=
  match s with String c s => String (to_upper c) s | EmptyString => EmptyString end.

Definition show (o : nat) : M W unit :=
  this ← get o;
  d ← get_dom;
  if c_isTransitioning this || jq_has_class d (option_list (c_element this)) "show" then skip
  else
    actives ← collapse_actives this;
    d ← get_dom;
    let others := jq_not d actives (c_selector this) in
    activesData ← actives_data others;
    busy ← (match activesData with Some a => s ← get a; mret (c_isTransitioning s) | None => mret false end);
    if (busy : bool) then skip
    else
      isDefaultPrevented ← trigger fire (c_element this) (ev "show.bs.collapse");
      if (isDefaultPrevented : bool) then skip
      else
        (match actives with
         | [] => skip
         | _ =>
             this ← get o;
             d ← get_dom;
             hide_all (jq_not d actives (c_selector this)) ;;
             (match activesData with
              | None => for_each actives (fun e => remove_data (Some e))
              | Some _ => skip
              end)
         end) ;;
        this ← get o;
        d ← get_dom;
        let dimension := _getDimension d (c_element this) in
        el ← deref (c_element this);
        mod_dom (fun d => jq_add_class [el] "collapsing" (jq_remove_class [el] "collapse" d)) ;;
        mod_dom (set_style el dimension "0") ;;
        triggers ← deref (c_triggerArray this);
        (match triggers with
         | [] => skip
         | _ => mod_dom (fun d => jq_attr triggers "aria-expanded" "true" (jq_remove_class triggers "collapsed" d))
         end) ;;
        setTransitioning o true ;;
        let scrollSize := ("scroll" ++ capitalize dimension)%string in
        collapse_transition [el] (CShown o dimension) ;;
        mod_dom (fun d => set_style el dimension (js_str (prop d el scrollSize) ++ "px") d).

Definition shown (o : nat) (dimension : string) : M W unit :=
  this ← get o;
  mod_dom (fun d => jq_add_class (option_list (c_element this)) "collapse show"
                      (jq_remove_class (option_list (c_element this)) "collapsing" d)) ;;
  el ← deref (c_element this);
  mod_dom (set_style el dimension "") ;;
  setTransitioning o false ;;
  trigger fire (Some el) (ev "shown.bs.collapse") ;;
  skip.

Definition hidden (o : nat) : M W unit :=
  setTransitioning o false ;;
  this ← get o;
  mod_dom (fun d => jq_add_class (option_list (c_element this)) "collapse"
                      (jq_remove_class (option_list (c_element this)) "collapsing" d)) ;;
  trigger fire (c_element this) (ev "hidden.bs.collapse") ;;
  skip.

Definition toggle (o : nat) : M W unit :=
  this ← get o;
  d ← get_dom;
  if jq_has_class d (option_list (c_element this)) "show" then hide o else show o.

Definition Collapse_new (element : elem) (c : config) : M W nat :=
  r ← collapse_construct element c;
  when (truthy (field r.2 "toggle")) (toggle r.1) ;;
  mret r.1.

Definition collapse_dispose (o : nat) : M W unit :=
  this ← get o;
  remove_data (c_element this) ;;
  put o (fun this => this <| c_config := None |> <| c_parent := None |> <| c_element := None |>
           <| c_triggerArray := None |> <| c_isTransitioning := false |>).

Definition collapse_plug (k : collapse_cb) : M W unit :=
  match k with
  | CShown o dimension => shown o dimension
  | CHidden o => hidden o
  end.

Definition collapse_method (s : string) (o : nat) : M W unit :=
  if String.eqb s "toggle" then toggle o
  else if String.eqb s "show" then show o
  else if String.eqb s "hide" then hide o
  else if String.eqb s "setTransitioning" then setTransitioning o false
  else if String.eqb s "dispose" then collapse_dispose o
  else throw TypeError.

Definition collapse_jQueryInterface (els : list elem) (arg : plugin_arg) : M W unit :=
  for_each els (fun el =>
    data ← get_data el;
    d ← get_dom;
    let cfg := extends collapse_Default (dataset d el) in
    let cfg := match arg with ArgObject c => extends cfg c | _ => cfg end in
    let showhide := match arg with ArgString s => str_contains "show" s || str_contains "hide" s | _ => false end in
    let cfg := if bool_decide (data = None) && truthy (field cfg "toggle") && showhide
               then <["toggle"%string := VBool false]> cfg else cfg in
    o ← (match data with
         | Some o => mret o
         | None => o ← Collapse_new el cfg; set_data el o ;; mret o
         end);
    match arg with
    | ArgString s => collapse_method s o
    | _ => skip
    end).

(** The click handler of [[data-toggle=collapse]]. *)
Definition collapse_click (this : elem) : M W unit :=
  d ← get_dom;
  when (val_is_str (prop d this "tagName") "A") prevent_default ;;
  selector ← selector_of this;
  selectors ← query_all None (default "null"%string selector);
  for_each selectors (fun target =>
    data ← get_data target;
    d ← get_dom;
    collapse_jQueryInterface [target]
      (match data with Some _ => ArgString "toggle" | None => ArgObject (dataset d this) end)).
End collapse.
