(* ===== verification/PopperDom.v ===== *)
(** Popper 1.16, as bundled in bootstrap.bundle.js: the functions that read the
    document (lines 1598-2290 and 2361-2380).

    Lengths are exact rationals.  The document is the class [Page]: one
    snapshot of the tree and of its layout; Popper only reads it while it
    computes.  The climbs of the tree take fuel from the page ([None] is out
    of fuel, or a property of [null]); [climb_fuel] bounds the height of the
    tree. *)
From Stdlib Require Import ZArith QArith Qminmax String Ascii.
From stdpp Require Import base list gmap strings.
From coqutil Require Import Datatypes.RecordSetters.
From S2P Require Import Prelude Js JsDom BsUtil.

Local Open Scope Z_scope.

Record rect := Rect {
  r_left : Q; r_top : Q; r_right : Q; r_bottom : Q; r_width : Q; r_height : Q;
  r_marginTop : Q; r_marginLeft : Q      (* absent is 0 *)
}.

Class Page := {
  climb_fuel : nat;
  nodeName : elem -> string;
  is_element_node : elem -> bool;        (* nodeType === 1 *)
  parentNode : elem -> option elem;
  shadow_host : elem -> option elem;     (* .host *)
  parentElement : elem -> option elem;
  offsetParent : elem -> option elem;
  nextElementSibling : elem -> option elem;
  firstElementChild : elem -> option elem;
  node_contains : elem -> elem -> bool;
  precedes : elem -> elem -> bool;       (* compareDocumentPosition & FOLLOWING *)
  commonAncestor : elem -> elem -> elem; (* of a range *)
  css : elem -> string -> string;        (* computed style *)
  num : elem -> string -> Q;             (* offsetWidth, clientHeight, scrollTop, ... *)
  client_rect_of : elem -> rect;         (* getBoundingClientRect *)
  doc_body : elem;
  doc_html : elem;
  scrollingElement : option elem;
  innerWidth : Q;
  innerHeight : Q;
  isIE10 : bool;
  isIE11 : bool;
  query_in : elem -> string -> option elem;   (* querySelector *)
  supported_style : string -> bool;      (* document.body.style has the property *)
  devicePixelRatio : Q;
  isFirefox : bool
}.

Section page.
Context `{Page}.

(** [isIE(10)], [isIE()] *)
Definition isIE_any : bool := isIE11 || isIE10.

(** A property of the computed style; a node that is no element has none. *)
Definition getStyleComputedProperty (element : elem) (property : string) : string :=
  if is_element_node element then css element property else "undefined".

(** A computed length in pixels. *)
Definition css_px (element : elem) (property : string) : Q :=
  default 0%Q (parseFloat (getStyleComputedProperty element property)).

Definition getParentNode (element : elem) : option elem :=
  if String.eqb (nodeName element) "HTML" then Some element
  else match parentNode element with Some p => Some p | None => shadow_host element end.

Definition scrolls (s : string) : bool :=
  str_contains "auto" s || str_contains "scroll" s || str_contains "overlay" s.

Fixpoint getScrollParent_ (fuel : nat) (element : option elem) : option elem :=
  match fuel with
  | O => None
  | S fuel =>
      match element with
      | None => Some doc_body
      | Some e =>
          if String.eqb (nodeName e) "HTML" || String.eqb (nodeName e) "BODY"
             || String.eqb (nodeName e) "#document" then Some doc_body
          else if scrolls (getStyleComputedProperty e "overflow" ++ getStyleComputedProperty e "overflowY"
                           ++ getStyleComputedProperty e "overflowX") then Some e
          else getScrollParent_ fuel (getParentNode e)
      end
  end.

Definition getScrollParent (element : option elem) : option elem := getScrollParent_ climb_fuel element.

(** The [while] over the siblings of [getOffsetParent]: the element reached and
    its offset parent. *)
Fixpoint sibling_offset_parent (fuel : nat) (noOffsetParent : option elem) (element : elem)
    (offset : option elem) : option (elem * option elem) :=
  match fuel with
  | O => None
  | S fuel =>
      match nextElementSibling element with
      | Some s => if decide (offset = noOffsetParent)
                  then sibling_offset_parent fuel noOffsetParent s (offsetParent s)
                  else Some (element, offset)
      | None => Some (element, offset)
      end
  end.

Definition is_table_part (n : string) : bool :=
  String.eqb n "TH" || String.eqb n "TD" || String.eqb n "TABLE".

Fixpoint getOffsetParent_ (fuel : nat) (element : option elem) : option elem :=
  match fuel with
  | O => None
  | S fuel' =>
      match element with
      | None => Some doc_html
      | Some element =>
          let noOffsetParent := if isIE10 then Some doc_body else None in
          p ← sibling_offset_parent fuel noOffsetParent element (offsetParent element);
          match p.2 with
          | None => Some doc_html
          | Some op =>
              if String.eqb (nodeName op) "BODY" || String.eqb (nodeName op) "HTML" then Some doc_html
              else if is_table_part (nodeName op)
                      && String.eqb (getStyleComputedProperty op "position") "static"
              then getOffsetParent_ fuel' (Some op)
              else Some op
          end
      end
  end.

Definition getOffsetParent (element : option elem) : option elem := getOffsetParent_ climb_fuel element.

Definition isOffsetContainer (element : elem) : option bool :=
  if String.eqb (nodeName element) "BODY" then Some false
  else if String.eqb (nodeName element) "HTML" then Some true
  else p ← getOffsetParent (firstElementChild element); Some (bool_decide (p = element)).

Fixpoint getRoot_ (fuel : nat) (node : elem) : option elem :=
  match fuel with
  | O => None
  | S fuel => match parentNode node with Some p => getRoot_ fuel p | None => Some node end
  end.

Definition getRoot (node : elem) : option elem := getRoot_ climb_fuel node.

Fixpoint findCommonOffsetParent_ (fuel : nat) (element1 element2 : option elem) : option elem :=
  match fuel with
  | O => None
  | S fuel =>
      match element1, element2 with
      | Some e1, Some e2 =>
          let order := precedes e1 e2 in
          let start := if order then e1 else e2 in
          let end_ := if order then e2 else e1 in
          let commonAncestorContainer := commonAncestor start end_ in
          if bool_decide (e1 <> commonAncestorContainer) && bool_decide (e2 <> commonAncestorContainer)
             || node_contains start end_
          then
            c ← isOffsetContainer commonAncestorContainer;
            if (c : bool) then Some commonAncestorContainer
            else getOffsetParent (Some commonAncestorContainer)
          else
            element1root ← getRoot e1;
            match shadow_host element1root with
            | Some h => findCommonOffsetParent_ fuel (Some h) element2
            | None => element2root ← getRoot e2;
                      findCommonOffsetParent_ fuel element1 (shadow_host element2root)
            end
      | _, _ => Some doc_html
      end
  end.

Definition findCommonOffsetParent (element1 element2 : option elem) : option elem :=
  findCommonOffsetParent_ climb_fuel element1 element2.

Inductive side := STop | SLeft.

Definition getScroll (element : elem) (s : side) : Q :=
  let upperSide := match s with STop => "scrollTop" | SLeft => "scrollLeft" end%string in
  if String.eqb (nodeName element) "BODY" || String.eqb (nodeName element) "HTML"
  then num (default doc_html scrollingElement) upperSide
  else num element upperSide.

Definition includeScroll (r : rect) (element : elem) (subtract : bool) : rect :=
  let scrollTop := getScroll element STop in
  let scrollLeft := getScroll element SLeft in
  let modifier := if subtract then (-(1))%Q else 1%Q in
  r <| r_top := (r_top r + scrollTop * modifier)%Q |>
    <| r_bottom := (r_bottom r + scrollTop * modifier)%Q |>
    <| r_left := (r_left r + scrollLeft * modifier)%Q |>
    <| r_right := (r_right r + scrollLeft * modifier)%Q |>.

Inductive axis := AxisX | AxisY.

Definition getBordersSize (element : elem) (a : axis) : Q :=
  match a with
  | AxisX => css_px element "borderLeftWidth" + css_px element "borderRightWidth"
  | AxisY => css_px element "borderTopWidth" + css_px element "borderBottomWidth"
  end.

(** [axis] is [Height] ([AxisY]) or [Width] ([AxisX]). *)
Definition getSize (a : axis) (body html : elem) : Q :=
  let name := match a with AxisY => "Height" | AxisX => "Width" end%string in
  let ie :=
    if isIE10 then
      let m := match a with AxisY => ("marginTop", "marginBottom") | AxisX => ("marginLeft", "marginRight") end%string in
      let px p := default 0%Q (parseInt (css html p)) in
      (num html ("offset" ++ name) + px m.1 + px m.2)%Q
    else 0%Q in
  Qmax (num body ("offset" ++ name)) (Qmax (num body ("scroll" ++ name))
    (Qmax (num html ("client" ++ name)) (Qmax (num html ("offset" ++ name))
      (Qmax (num html ("scroll" ++ name)) ie)))).

(** Height and width. *)
Definition getWindowSizes : Q * Q := (getSize AxisY doc_body doc_html, getSize AxisX doc_body doc_html).

Definition getClientRect (r : rect) : rect :=
  r <| r_right := (r_left r + r_width r)%Q |> <| r_bottom := (r_top r + r_height r)%Q |>.

(** [a || b || c] on numbers, [None] is [undefined]. *)
Definition or_num (a : option Q) (b : Q) : Q :=
  match a with Some q => if Qeq_bool q 0 then b else q | None => b end.

Definition getBoundingClientRect (element : elem) : rect :=
  let r := client_rect_of element in
  let r := if isIE10 then includeScroll r element false else r in
  let result := Rect (r_left r) (r_top r) 0 0 (r_right r - r_left r) (r_bottom r - r_top r) 0 0 in
  let sizes := if String.eqb (nodeName element) "HTML" then Some getWindowSizes else None in
  let width := or_num (snd <$> sizes) (or_num (Some (num element "clientWidth")) (r_width result)) in
  let height := or_num (fst <$> sizes) (or_num (Some (num element "clientHeight")) (r_height result)) in
  let horizScrollbar := (num element "offsetWidth" - width)%Q in
  let vertScrollbar := (num element "offsetHeight" - height)%Q in
  let result :=
    if negb (Qeq_bool horizScrollbar 0) || negb (Qeq_bool vertScrollbar 0) then
      result <| r_width := (r_width result - (horizScrollbar - getBordersSize element AxisX))%Q |>
             <| r_height := (r_height result - (vertScrollbar - getBordersSize element AxisY))%Q |>
    else result in
  getClientRect result.

Definition getOffsetRectRelativeToArbitraryNode (children parent : elem) (fixedPosition : bool) : option rect :=
  let isHTML := String.eqb (nodeName parent) "HTML" in
  let childrenRect := getBoundingClientRect children in
  let parentRect := getBoundingClientRect parent in
  scrollParent ← getScrollParent (Some children);
  let borderTopWidth := css_px parent "borderTopWidth" in
  let borderLeftWidth := css_px parent "borderLeftWidth" in
  let parentTop := if fixedPosition && isHTML then Qmax (r_top parentRect) 0 else r_top parentRect in
  let parentLeft := if fixedPosition && isHTML then Qmax (r_left parentRect) 0 else r_left parentRect in
  let offsets := getClientRect
    (Rect (r_left childrenRect - parentLeft - borderLeftWidth) (r_top childrenRect - parentTop - borderTopWidth)
          0 0 (r_width childrenRect) (r_height childrenRect) 0 0) in
  let offsets :=
    if negb isIE10 && isHTML then
      let marginTop := css_px parent "marginTop" in
      let marginLeft := css_px parent "marginLeft" in
      offsets <| r_top := (r_top offsets - (borderTopWidth - marginTop))%Q |>
              <| r_bottom := (r_bottom offsets - (borderTopWidth - marginTop))%Q |>
              <| r_left := (r_left offsets - (borderLeftWidth - marginLeft))%Q |>
              <| r_right := (r_right offsets - (borderLeftWidth - marginLeft))%Q |>
              <| r_marginTop := marginTop |> <| r_marginLeft := marginLeft |>
    else offsets in
  if (if isIE10 && negb fixedPosition then node_contains parent scrollParent
      else bool_decide (parent = scrollParent) && negb (String.eqb (nodeName scrollParent) "BODY"))
  then Some (includeScroll offsets parent false)
  else Some offsets.

Definition getViewportOffsetRectRelativeToArtbitraryNode (element : elem) (excludeScroll : bool) : option rect :=
  let html := doc_html in
  relativeOffset ← getOffsetRectRelativeToArbitraryNode element html false;
  let width := Qmax (num html "clientWidth") innerWidth in
  let height := Qmax (num html "clientHeight") innerHeight in
  let scrollTop := if excludeScroll then 0%Q else getScroll html STop in
  let scrollLeft := if excludeScroll then 0%Q else getScroll html SLeft in
  Some (getClientRect (Rect (scrollLeft - r_left relativeOffset + r_marginLeft relativeOffset)
    (scrollTop - r_top relativeOffset + r_marginTop relativeOffset) 0 0 width height 0 0)).

Fixpoint isFixed_ (fuel : nat) (element : elem) : option bool :=
  match fuel with
  | O => None
  | S fuel =>
      if String.eqb (nodeName element) "BODY" || String.eqb (nodeName element) "HTML" then Some false
      else if String.eqb (getStyleComputedProperty element "position") "fixed" then Some true
      else match getParentNode element with
           | None => Some false
           | Some p => isFixed_ fuel p
           end
  end.

Definition isFixed (element : elem) : option bool := isFixed_ climb_fuel element.

Fixpoint climb_transform (fuel : nat) (el : option elem) : option (option elem) :=
  match fuel with
  | O => None
  | S fuel =>
      match el with
      | Some e => if String.eqb (getStyleComputedProperty e "transform") "none"
                  then climb_transform fuel (parentElement e) else Some (Some e)
      | None => Some None
      end
  end.

Definition getFixedPositionOffsetParent (element : elem) : option elem :=
  match parentElement element with
  | Some p => if isIE_any then Some doc_html
              else el ← climb_transform climb_fuel (Some p); Some (default doc_html el)
  | None => Some doc_html
  end.

(** ** Boundaries *)

(** Four edges; the boundaries of the whole document have no size. *)
Record bounds := Bounds {
  b_left : Q; b_top : Q; b_right : Q; b_bottom : Q; b_width : option Q; b_height : option Q }.

Inductive boundaries_element := BViewport | BScrollParent | BWindow | BNode (e : elem).

(** A padding: one number, or one for some of the sides. *)
Inductive padding := PNum (q : Q) | PSides (left top right bottom : option Q).

Definition pad_left (p : padding) : Q := match p with PNum q => q | PSides l _ _ _ => default 0%Q l end.
Definition pad_top (p : padding) : Q := match p with PNum q => q | PSides _ t _ _ => default 0%Q t end.
Definition pad_right (p : padding) : Q := match p with PNum q => q | PSides _ _ r _ => default 0%Q r end.
Definition pad_bottom (p : padding) : Q := match p with PNum q => q | PSides _ _ _ b => default 0%Q b end.

Definition of_rect (r : rect) : bounds :=
  Bounds (r_left r) (r_top r) (r_right r) (r_bottom r) (Some (r_width r)) (Some (r_height r)).

Definition pad (p : padding) (b : bounds) : bounds :=
  b <| b_left := (b_left b + pad_left p)%Q |> <| b_top := (b_top b + pad_top p)%Q |>
    <| b_right := (b_right b - pad_right p)%Q |> <| b_bottom := (b_bottom b - pad_bottom p)%Q |>.

(** The node whose rectangle bounds the popper. *)
Definition boundaries_node (reference : option elem) (be : boundaries_element) : option elem :=
  match be with
  | BScrollParent =>
      n ← getScrollParent (reference ≫= getParentNode);
      Some (if String.eqb (nodeName n) "BODY" then doc_html else n)
  | BNode e => Some e
  | _ => Some doc_html
  end.

Definition getBoundaries (popper : elem) (reference : option elem) (p : padding)
    (be : boundaries_element) (fixedPosition : bool) : option bounds :=
  offsetParent ← (if fixedPosition then getFixedPositionOffsetParent popper
                  else findCommonOffsetParent (Some popper) reference);
  match be with
  | BViewport =>
      r ← getViewportOffsetRectRelativeToArtbitraryNode offsetParent fixedPosition;
      Some (pad p (of_rect r))
  | _ =>
      boundariesNode ← boundaries_node reference be;
      offsets ← getOffsetRectRelativeToArbitraryNode boundariesNode offsetParent fixedPosition;
      fixed ← isFixed offsetParent;
      if String.eqb (nodeName boundariesNode) "HTML" && negb fixed then
        let '(height, width) := getWindowSizes in
        Some (pad p (Bounds (0 + (r_left offsets - r_marginLeft offsets)) (0 + (r_top offsets - r_marginTop offsets))
                       (width + r_left offsets) (height + r_top offsets) None None))
      else Some (pad p (of_rect offsets))
  end.

Definition getReferenceOffsets (popper reference : elem) (fixedPosition : bool) : option rect :=
  commonOffsetParent ← (if fixedPosition then getFixedPositionOffsetParent popper
                        else findCommonOffsetParent (Some popper) (Some reference));
  getOffsetRectRelativeToArbitraryNode reference commonOffsetParent fixedPosition.

(** Width and height with the margins. *)
Definition getOuterSizes (element : elem) : Q * Q :=
  let px p := default 0%Q (parseFloat (css element p)) in
  let x := (px "marginTop"%string + px "marginBottom"%string)%Q in
  let y := (px "marginLeft"%string + px "marginRight"%string)%Q in
  ((num element "offsetWidth" + y)%Q, (num element "offsetHeight" + x)%Q).
End page.
