(* ===== verification/PopperPlacement.v ===== *)
(** Popper: placements and offsets (lines 2189-2254, 2299-2390, 2636-2639,
    2753-2781, 3000-3061 and 3207-3324 of bootstrap.bundle.js). *)
From Stdlib Require Import ZArith QArith Qround Qminmax String Ascii.
From stdpp Require Import base list gmap strings.
From coqutil Require Import Datatypes.RecordSetters.
From S2P Require Import Prelude Js JsSort JsDom BsUtil PopperDom.

Local Open Scope Z_scope.

(** ** Sides *)

Inductive sd := SdLeft | SdTop | SdRight | SdBottom.
Inductive meas := MWidth | MHeight.

Global Instance sd_eq_dec : EqDecision sd.
Proof. solve_decision. Defined.

Definition get_side (s : sd) (r : rect) : Q :=
  match s with SdLeft => r_left r | SdTop => r_top r | SdRight => r_right r | SdBottom => r_bottom r end.
Definition set_side (s : sd) (v : Q) (r : rect) : rect :=
  match s with
  | SdLeft => r <| r_left := v |> | SdTop => r <| r_top := v |>
  | SdRight => r <| r_right := v |> | SdBottom => r <| r_bottom := v |>
  end.
Definition get_bound (s : sd) (b : bounds) : Q :=
  match s with SdLeft => b_left b | SdTop => b_top b | SdRight => b_right b | SdBottom => b_bottom b end.
Definition get_len (m : meas) (r : rect) : Q := match m with MWidth => r_width r | MHeight => r_height r end.

Definition side_name (s : sd) : string :=
  match s with SdLeft => "left" | SdTop => "top" | SdRight => "right" | SdBottom => "bottom" end.

Definition side_of (s : string) : option sd :=
  if String.eqb s "left" then Some SdLeft else if String.eqb s "top" then Some SdTop
  else if String.eqb s "right" then Some SdRight else if String.eqb s "bottom" then Some SdBottom else None.

(** ** Placements: strings [base] or [base-variation] *)

(** [s.replace(/left|right|bottom|top/g, f)]: [skip] characters of the last
    match are still to be passed over. *)
Fixpoint replace_sides (skip : nat) (s : string) : string :=
  match s with
  | EmptyString => EmptyString
  | String c s' =>
      match skip with
      | S skip => replace_sides skip s'
      | O => match strip_prefix "left" s, strip_prefix "right" s, strip_prefix "bottom" s, strip_prefix "top" s with
             | Some _, _, _, _ => "right" ++ replace_sides 3 s'
             | _, Some _, _, _ => "left" ++ replace_sides 4 s'
             | _, _, Some _, _ => "top" ++ replace_sides 5 s'
             | _, _, _, Some _ => "bottom" ++ replace_sides 2 s'
             | _, _, _, _ => String c (replace_sides 0 s')
             end
      end
  end%string.

Definition getOppositePlacement (placement : string) : string := replace_sides 0 placement.

Definition base_of (placement : string) : string := default ""%string (split "-" placement !! 0%nat).
Definition variation_of (placement : string) : option string := split "-" placement !! 1%nat.

(** [placement + (variation ? '-' + variation : '')] *)
Definition with_variation (placement : string) (variation : option string) : string :=
  match variation with
  | Some v => if String.eqb v "" then placement else placement ++ "-" ++ v
  | None => placement
  end%string.

Definition getOppositeVariation (variation : string) : string :=
  if String.eqb variation "end" then "start"
  else if String.eqb variation "start" then "end" else variation.

Definition placements : list string :=
  ["auto-start"; "auto"; "auto-end"; "top-start"; "top"; "top-end"; "right-start"; "right"; "right-end";
   "bottom-end"; "bottom"; "bottom-start"; "left-end"; "left"; "left-start"]%string.

Definition validPlacements : list string := drop 3 placements.

Fixpoint index_of_str (s : string) (l : list string) : Z :=
  match l with
  | [] => -1
  | x :: l => if String.eqb x s then 0 else let i := index_of_str s l in if i =? -1 then -1 else i + 1
  end.

(** [arr.slice(0, index)] for an [index] that may be [-1]. *)
Definition slice_to {A} (l : list A) (index : Z) : list A :=
  if index <? 0 then take (length l - Z.to_nat (- index)) l else take (Z.to_nat index) l.

Definition clockwise (placement : string) (counter : bool) : list string :=
  let index := index_of_str placement validPlacements in
  let arr := drop (Z.to_nat (index + 1)) validPlacements ++ slice_to validPlacements index in
  if counter then rev arr else arr.

(** ** The popper's position next to its reference *)

(** The fields [getPopperOffsets] computes, over the rectangle [base]. *)
Definition getPopperOffsets (popperSize : Q * Q) (referenceOffsets : rect) (placement : string) (base : rect) : rect :=
  let placement := base_of placement in
  let size m := match m with MWidth => popperSize.1 | MHeight => popperSize.2 end in
  let isHoriz := String.eqb placement "right" || String.eqb placement "left" in
  let mainSide := if isHoriz then SdTop else SdLeft in
  let secondarySide := if isHoriz then SdLeft else SdTop in
  let measurement := if isHoriz then MHeight else MWidth in
  let secondaryMeasurement := if isHoriz then MWidth else MHeight in
  let opposite := if isHoriz then SdRight else SdBottom in
  let main := (get_side mainSide referenceOffsets + get_len measurement referenceOffsets / 2 - size measurement / 2)%Q in
  let secondary :=
    if String.eqb placement (side_name secondarySide)
    then (get_side secondarySide referenceOffsets - size secondaryMeasurement)%Q
    else get_side opposite referenceOffsets in
  set_side secondarySide secondary (set_side mainSide main
    (base <| r_width := popperSize.1 |> <| r_height := popperSize.2 |>)).

(** ** Automatic placement *)

Record area_entry := AreaEntry { a_key : string; a_width : option Q; a_height : option Q }.

(** [getArea]; [None] is [NaN]. *)
Definition getArea (e : area_entry) : option Q :=
  match a_width e, a_height e with Some w, Some h => Some (w * h)%Q | _, _ => None end.

Definition auto_rects (boundaries : bounds) (refRect : rect) : list area_entry := [
  AreaEntry "top" (b_width boundaries) (Some (r_top refRect - b_top boundaries)%Q);
  AreaEntry "right" (Some (b_right boundaries - r_right refRect)%Q) (b_height boundaries);
  AreaEntry "bottom" (b_width boundaries) (Some (b_bottom boundaries - r_bottom refRect)%Q);
  AreaEntry "left" (Some (r_left refRect - b_left boundaries)%Q) (b_height boundaries)].

(** [b.area - a.area] *)
Definition area_cmp : comparator area_entry := fun a b =>
  Some (match getArea b, getArea a with Some x, Some y => Some (x - y)%Q | _, _ => None end).

Definition area_fits (clientWidth clientHeight : Q) (e : area_entry) : bool :=
  match a_width e, a_height e with
  | Some w, Some h => Qle_bool clientWidth w && Qle_bool clientHeight h
  | _, _ => false
  end.

(** The part of [computeAutoPlacement] after the boundaries are known: the
    roomiest side among those the popper fits, else the roomiest. *)
Definition auto_side (boundaries : bounds) (refRect : rect) (clientWidth clientHeight : Q) : option string :=
  sortedAreas ← array_sort area_cmp (auto_rects boundaries refRect);
  let filteredAreas := filter (fun e => area_fits clientWidth clientHeight e = true) sortedAreas in
  match filteredAreas, sortedAreas with
  | e :: _, _ => Some (a_key e)
  | [], e :: _ => Some (a_key e)
  | [], [] => None
  end.

Definition computeAutoPlacement `{Page} (placement : string) (refRect : rect) (popper : elem)
    (reference : option elem) (be : boundaries_element) (p : padding) : option string :=
  if negb (str_contains "auto" placement) then Some placement
  else
    boundaries ← getBoundaries popper reference p be false;
    computedPlacement ← auto_side boundaries refRect (num popper "clientWidth") (num popper "clientHeight");
    Some (with_variation computedPlacement (variation_of placement)).

(** ** Rounding *)

(** [Math.round] *)
Definition math_round (q : Q) : Q := inject_Z (Qfloor (q + (1 # 2))).
Definition math_floor (q : Q) : Q := inject_Z (Qfloor q).

(** Left, top, bottom, right. *)
Record edges := Edges { e_left : Q; e_top : Q; e_bottom : Q; e_right : Q }.

Definition getRoundedOffsets (popper reference : rect) (placement : string) (shouldRound : bool) : edges :=
  let round q := Qfloor (q + (1 # 2)) in
  let referenceWidth := round (r_width reference) in
  let popperWidth := round (r_width popper) in
  let isVertical := String.eqb placement "left" || String.eqb placement "right" in
  let isVariation := str_contains "-" placement in
  let sameWidthParity := Z.rem referenceWidth 2 =? Z.rem popperWidth 2 in
  let bothOddWidth := (Z.rem referenceWidth 2 =? 1) && (Z.rem popperWidth 2 =? 1) in
  let horizontalToInteger q :=
    if negb shouldRound then q
    else if isVertical || isVariation || sameWidthParity then math_round q else math_floor q in
  let verticalToInteger q := if negb shouldRound then q else math_round q in
  Edges (horizontalToInteger (if bothOddWidth && negb isVariation && shouldRound
                              then (r_left popper - 1)%Q else r_left popper))
        (verticalToInteger (r_top popper)) (verticalToInteger (r_bottom popper))
        (horizontalToInteger (r_right popper)).

(** ** The [offset] option *)

(** A fragment of an offset: a number, or text [toValue] leaves alone. *)
Inductive fragment := FNum (q : Q) | FStr (s : string).

(** The two groups of the regular expression of [toValue]: an optional sign,
    digits, an optional point, digits; and the rest. *)
Fixpoint take_digits (s : string) : string * string :=
  match s with
  | String c s' => if is_digit c then let '(d, r) := take_digits s' in (String c d, r) else (EmptyString, s)
  | EmptyString => (EmptyString, EmptyString)
  end.

Definition split_unit (s : string) : string * string :=
  let '(sign, r) := match s with
                    | String "-" r => ("-"%string, r)
                    | String "+" r => ("+"%string, r)
                    | _ => (EmptyString, s)
                    end%char in
  let '(d1, r) := take_digits r in
  match r with
  | String "." r => let '(d2, r) := take_digits r in ((sign ++ d1 ++ "." ++ d2)%string, r)
  | _ => ((sign ++ d1)%string, r)
  end%char.

Definition starts_with (p s : string) : bool := match strip_prefix p s with Some _ => true | None => false end.

Definition toValue `{Page} (str : string) (m : meas) (popperOffsets referenceOffsets : rect) : fragment :=
  let '(v, unit) := split_unit str in
  match to_number v with
  | Some value =>
      if Qeq_bool value 0 then FStr str
      else if starts_with "%" unit then
        let element := if String.eqb unit "%p" then popperOffsets else referenceOffsets in
        FNum (get_len m (getClientRect element) / 100 * value)%Q
      else if String.eqb unit "vh" then FNum (Qmax (num doc_html "clientHeight") innerHeight / 100 * value)%Q
      else if String.eqb unit "vw" then FNum (Qmax (num doc_html "clientWidth") innerWidth / 100 * value)%Q
      else FNum value
  | None => FStr str
  end.

(** [isNumeric] of a fragment, with the number it stands for. *)
Definition numeric_value (f : fragment) : option Q :=
  match f with
  | FNum q => Some q
  | FStr s => if String.eqb s "" then None
              else match parseFloat s, to_number s with Some _, Some q => Some q | _, _ => None end
  end.

(** [offset] split at every sign, the signs included. *)
Fixpoint split_signs (s : string) : list string :=
  match s with
  | EmptyString => [EmptyString]
  | String c s' =>
      if (Ascii.eqb c "+" || Ascii.eqb c "-")%char
      then EmptyString :: String c EmptyString :: split_signs s'
      else match split_signs s' with w :: ws => String c w :: ws | [] => [String c EmptyString] end
  end.

(** A separator at the front, a comma with the white space around it or white
    space alone: what follows it. *)
Definition sep_at (s : string) : option string :=
  match trim_start s with
  | String "," r => Some (trim_start r)
  | _ => match s with String c _ => if is_white c then Some (trim_start s) else None | EmptyString => None end
  end%char.

Fixpoint split_sep (fuel : nat) (s : string) : list string :=
  match fuel with
  | O => [s]
  | S fuel =>
      match s with
      | EmptyString => [EmptyString]
      | String c s' =>
          match sep_at s with
          | Some r => EmptyString :: split_sep fuel r
          | None => match split_sep fuel s' with w :: ws => String c w :: ws | [] => [String c EmptyString] end
          end
      end
  end.

(** The fragment holds a comma or white space. *)
Fixpoint has_sep (s : string) : bool :=
  match s with String c s' => Ascii.eqb c ","%char || is_white c || has_sep s' | EmptyString => false end.

Fixpoint find_index {A} (p : A -> bool) (l : list A) : option nat :=
  match l with [] => None | x :: l => if p x then Some 0%nat else S <$> find_index p l end.

(** The two operands of the offset: along the reference, and away from it. *)
Definition offset_ops (fragments : list string) : list (list string) :=
  match find_index has_sep fragments with
  | Some divider =>
      let parts := split_sep (S (String.length (default ""%string (fragments !! divider))))
                     (default ""%string (fragments !! divider)) in
      [take divider fragments ++ [default ""%string (parts !! 0%nat)];
       default ""%string (parts !! 1%nat) :: drop (S divider) fragments]
  | None => [fragments]
  end.

(** The [reduce]: a sign after an empty fragment is merged with what follows. *)
Definition merge_step (st : list string * bool) (b : string) : list string * bool :=
  let '(a, mergeWithPrevious) := st in
  if bool_decide (last a = Some ""%string) && (String.eqb b "+" || String.eqb b "-")
  then (take (length a - 1) a ++ [b], true)
  else if (mergeWithPrevious : bool)
       then (take (length a - 1) a ++ [(default "" (last a) ++ b)%string], false)
       else (a ++ [b], false).

Definition merge_signs (op : list string) : list string := (foldl merge_step ([], false) op).1.

(** The sum of the numeric fragments; one behind a lone minus counts negative. *)
Fixpoint sum_fragments (prev : option fragment) (l : list fragment) : Q :=
  match l with
  | [] => 0
  | f :: l =>
      let neg := match prev with Some (FStr s) => String.eqb s "-" | _ => false end in
      (match numeric_value f with
       | Some q => q * (if neg then -(1) else 1)
       | None => 0
       end + sum_fragments (Some f) l)%Q
  end.

Definition parseOffset `{Page} (offset : string) (popperOffsets referenceOffsets : rect) (basePlacement : string) : Q * Q :=
  let useHeight := String.eqb basePlacement "right" || String.eqb basePlacement "left" in
  let fragments := map trim (split_signs offset) in
  let ops := imap (fun index op =>
    let m := if (if (index =? 1)%nat then negb useHeight else useHeight) then MHeight else MWidth in
    map (fun s => toValue s m popperOffsets referenceOffsets) (merge_signs op)) (offset_ops fragments) in
  let value index := match ops !! index with Some op => sum_fragments None op | None => 0%Q end in
  (value 0%nat, value 1%nat).
