(* ===== verification/PopperModifiers.v ===== *)
(** Popper's modifiers and how they run (lines 2354-2419, 2480-2507 and
    2636-3535 of bootstrap.bundle.js). *)
From Stdlib Require Import ZArith QArith Qround Qminmax String Ascii.
From stdpp Require Import base list gmap strings.
From coqutil Require Import Datatypes.RecordSetters.
From S2P Require Import Prelude Js JsSort JsDom BsUtil PopperDom PopperPlacement.

Local Open Scope Z_scope.

Definition qlt (a b : Q) : bool := negb (Qle_bool b a).

(** ** Modifiers and the data they pass on *)

Inductive modifier_fn :=
  | FnShift | FnOffset | FnPreventOverflow | FnKeepTogether | FnArrow | FnFlip | FnInner | FnHide
  | FnComputeStyle | FnApplyStyle
  | FnCustom (f : nat)                   (* a function of the user *)
  | FnNone.                              (* not a function *)

Inductive flip_behavior := BehFlip | BehClockwise | BehCounterclockwise | BehList (l : list string).

Inductive arrow_option := ArrowSelector (s : string) | ArrowElement (e : elem).

(** One entry of [this.modifiers]: every option any of them reads. *)
Record modifier := Modifier {
  m_name : string;
  m_order : option Q;
  m_enabled : bool;
  m_fn : modifier_fn;
  m_offset : jsval;
  m_priority : list string;
  m_padding : padding;
  m_boundariesElement : option boundaries_element;
  m_escapeWithReference : bool;
  m_boundaries : option bounds;          (* left by preventOverflow for hide *)
  m_element : arrow_option;
  m_behavior : flip_behavior;
  m_flipVariations : bool;
  m_flipVariationsByContent : bool;
  m_gpuAcceleration : option bool;
  m_x : string;
  m_y : string;
  m_onLoad : bool                        (* applyStyleOnLoad *)
}.

(** What a modifier does to the page. *)
Inductive write :=
  | WStyle (el : elem) (property value : string)
  | WAttr (el : elem) (name value : string)
  | WRemoveAttr (el : elem) (name : string).

Record popper_data := PopperData {
  d_popperElement : elem;                (* data.instance.popper *)
  d_referenceElement : elem;             (* data.instance.reference *)
  d_modifiers : list modifier;           (* data.instance.modifiers *)
  d_placement : string;
  d_originalPlacement : string;
  d_flipped : bool;
  d_positionFixed : bool;
  d_popper : rect;                       (* data.offsets *)
  d_reference : rect;
  d_arrow : config;
  d_position : string;                   (* data.offsets.popper.position *)
  d_arrowElement : option elem;
  d_hide : option bool;
  d_styles : config;
  d_attributes : config;
  d_arrowStyles : config;
  d_writes : list write
}.

Definition find_modifier (l : list modifier) (name : string) : option modifier :=
  head (filter (fun m => m_name m = name) l).

Definition isModifierEnabled (l : list modifier) (name : string) : bool :=
  existsb (fun m => m_enabled m && String.eqb name (m_name m)) l.

Definition order_lt (a b : option Q) : bool :=
  match a, b with Some x, Some y => qlt x y | _, _ => false end.

Definition isModifierRequired (l : list modifier) (requestingName requestedName : string) : bool :=
  match find_modifier l requestingName with
  | Some requesting => existsb (fun m => String.eqb (m_name m) requestedName && m_enabled m
                                         && order_lt (m_order m) (m_order requesting)) l
  | None => false
  end.

(** ** The modifiers that move the popper *)

(** [start] and [end] align the popper with an edge of the reference. *)
Definition shift (data : popper_data) : popper_data :=
  let basePlacement := base_of (d_placement data) in
  let reference := d_reference data in
  let popper := d_popper data in
  let isVertical := String.eqb basePlacement "bottom" || String.eqb basePlacement "top" in
  let side := if isVertical then SdLeft else SdTop in
  let measurement := if isVertical then MWidth else MHeight in
  match variation_of (d_placement data) with
  | Some shiftvariation =>
      if String.eqb shiftvariation "start" then
        data <| d_popper := set_side side (get_side side reference) popper |>
      else if String.eqb shiftvariation "end" then
        data <| d_popper := set_side side
          (get_side side reference + get_len measurement reference - get_len measurement popper)%Q popper |>
      else data
  | None => data
  end.

Definition to_num (v : jsval) : option Q :=
  match v with VNum q => Some q | VStr s => to_number s | VBool b => Some (if b then 1 else 0)%Q
             | VNull => Some 0%Q | _ => None end.

Section modifiers.
Context `{Page}.

Definition offset (data : popper_data) (options : modifier) : option popper_data :=
  let popper := d_popper data in
  let basePlacement := base_of (d_placement data) in
  offsets ← (match to_num (m_offset options), m_offset options with
             | Some q, _ => Some (q, 0%Q)
             | None, VStr s => Some (parseOffset s popper (d_reference data) basePlacement)
             | None, _ => None
             end);
  let '(o0, o1) := offsets in
  let popper :=
    if String.eqb basePlacement "left" then
      popper <| r_top := (r_top popper + o0)%Q |> <| r_left := (r_left popper - o1)%Q |>
    else if String.eqb basePlacement "right" then
      popper <| r_top := (r_top popper + o0)%Q |> <| r_left := (r_left popper + o1)%Q |>
    else if String.eqb basePlacement "top" then
      popper <| r_left := (r_left popper + o0)%Q |> <| r_top := (r_top popper - o1)%Q |>
    else if String.eqb basePlacement "bottom" then
      popper <| r_left := (r_left popper + o0)%Q |> <| r_top := (r_top popper + o1)%Q |>
    else popper in
  Some (data <| d_popper := popper |>).

(** One step of the loop of [preventOverflow]: [check.primary] for [left] and
    [top], [check.secondary] for the others. *)
Definition overflow_step (escapeWithReference : bool) (boundaries : bounds) (popper : rect) (placement : sd) : rect :=
  match placement with
  | SdLeft | SdTop =>
      let value := if qlt (get_side placement popper) (get_bound placement boundaries) && negb escapeWithReference
                   then Qmax (get_side placement popper) (get_bound placement boundaries)
                   else get_side placement popper in
      set_side placement value popper
  | SdRight | SdBottom =>
      let mainSide := match placement with SdRight => SdLeft | _ => SdTop end in
      let value := if qlt (get_bound placement boundaries) (get_side placement popper) && negb escapeWithReference
                   then Qmin (get_side mainSide popper)
                          (get_bound placement boundaries
                           - (match placement with SdRight => r_width popper | _ => r_height popper end))
                   else get_side mainSide popper in
      set_side mainSide value popper
  end.

(** [boundaries_of] is [getBoundaries] on the page whose popper has its [top],
    [left] and [transform] styles cleared, as the code does around the call. *)
Definition preventOverflow
    (boundaries_of : elem -> option elem -> padding -> boundaries_element -> bool -> option bounds)
    (data : popper_data) (options : modifier) : option popper_data :=
  be ← (match m_boundariesElement options with
        | Some be => Some be
        | None => p ← getOffsetParent (Some (d_popperElement data)); Some (BNode p)
        end);
  be ← (match be with
        | BNode e => if decide (e = d_referenceElement data)
                     then p ← getOffsetParent (Some e); Some (BNode p) else Some be
        | _ => Some be
        end);
  boundaries ← boundaries_of (d_popperElement data) (Some (d_referenceElement data)) (m_padding options) be
                 (d_positionFixed data);
  let popper := foldl (overflow_step (m_escapeWithReference options) boundaries) (d_popper data)
                  (omap side_of (m_priority options)) in
  Some (data <| d_modifiers ::= map (fun m => if String.eqb (m_name m) (m_name options)
                                              then m <| m_boundaries := Some boundaries |> else m) |>
             <| d_popper := popper |>).

Definition keepTogether (data : popper_data) : popper_data :=
  let reference := d_reference data in
  let placement := base_of (d_placement data) in
  let isVertical := String.eqb placement "top" || String.eqb placement "bottom" in
  let side := if isVertical then SdRight else SdBottom in
  let opSide := if isVertical then SdLeft else SdTop in
  let measurement := if isVertical then MWidth else MHeight in
  let popper := d_popper data in
  let popper := if qlt (get_side side popper) (math_floor (get_side opSide reference))
                then set_side opSide (math_floor (get_side opSide reference) - get_len measurement popper)%Q popper
                else popper in
  let popper := if qlt (math_floor (get_side side reference)) (get_side opSide popper)
                then set_side opSide (math_floor (get_side side reference)) popper
                else popper in
  data <| d_popper := popper |>.

(** The arithmetic of [arrow]: the popper moved so that the arrow can point at
    the reference, and the arrow's offset along its side. *)
Definition arrow_move (side opSide : sd) (arrowElementSize : Q) (popper reference : rect) : rect :=
  let popper1 :=
    if qlt (get_side opSide reference - arrowElementSize) (get_side side popper)
    then set_side side (get_side side popper
                        - (get_side side popper - (get_side opSide reference - arrowElementSize)))%Q popper
    else popper in
  let popper2 :=
    if qlt (get_side opSide popper1) (get_side side reference + arrowElementSize)
    then set_side side (get_side side popper1
                        + (get_side side reference + arrowElementSize - get_side opSide popper1))%Q popper1
    else popper1 in
  getClientRect popper2.

Definition arrow_value (side : sd) (len : meas) (arrowElementSize margin border : Q) (popper reference : rect) : Q :=
  let center := (get_side side reference + get_len len reference / 2 - arrowElementSize / 2)%Q in
  let sideValue := (center - get_side side popper - margin - border)%Q in
  Qmax (Qmin (get_len len popper - arrowElementSize) sideValue) 0.

Definition arrow (data : popper_data) (options : modifier) : popper_data :=
  if negb (isModifierRequired (d_modifiers data) "arrow" "keepTogether") then data
  else
    let arrowElement :=
      match m_element options with
      | ArrowSelector s => query_in (d_popperElement data) s
      | ArrowElement e => if node_contains (d_popperElement data) e then Some e else None
      end in
    match arrowElement with
    | None => data
    | Some arrowElement =>
        let placement := base_of (d_placement data) in
        let isVertical := String.eqb placement "left" || String.eqb placement "right" in
        let len := if isVertical then MHeight else MWidth in
        let sideCapitalized := if isVertical then "Top" else "Left" in
        let side := if isVertical then SdTop else SdLeft in
        let altSide := if isVertical then "left" else "top" in
        let opSide := if isVertical then SdBottom else SdRight in
        let sizes := getOuterSizes arrowElement in
        let arrowElementSize := match len with MWidth => sizes.1 | MHeight => sizes.2 end in
        let popper := arrow_move side opSide arrowElementSize (d_popper data) (d_reference data) in
        let sideValue := arrow_value side len arrowElementSize
          (css_px (d_popperElement data) ("margin" ++ sideCapitalized))
          (css_px (d_popperElement data) ("border" ++ sideCapitalized ++ "Width"))
          popper (d_reference data) in
        data <| d_popper := popper |> <| d_arrowElement := Some arrowElement |>
             <| d_arrow := {[ side_name side := VNum (math_round sideValue); altSide := VStr "" ]} |>
    end%string.

Definition inner (data : popper_data) : option popper_data :=
  let basePlacement := base_of (d_placement data) in
  let popper := d_popper data in
  let isHoriz := String.eqb basePlacement "left" || String.eqb basePlacement "right" in
  let subtractLength := negb (String.eqb basePlacement "top" || String.eqb basePlacement "left") in
  s ← side_of basePlacement;
  let v := (get_side s (d_reference data)
            - (if subtractLength then get_len (if isHoriz then MWidth else MHeight) popper else 0))%Q in
  let popper := set_side (if isHoriz then SdLeft else SdTop) v popper in
  Some (data <| d_placement := getOppositePlacement (d_placement data) |> <| d_popper := getClientRect popper |>).

Definition hide_out_of (refRect : rect) (bound : bounds) : bool :=
  qlt (r_bottom refRect) (b_top bound) || qlt (b_right bound) (r_left refRect)
  || qlt (b_bottom bound) (r_top refRect) || qlt (r_right refRect) (b_left bound).

(** [None]: the boundaries preventOverflow leaves are missing. *)
Definition popper_hide (data : popper_data) : option popper_data :=
  if negb (isModifierRequired (d_modifiers data) "hide" "preventOverflow") then Some data
  else
    m ← find_modifier (d_modifiers data) "preventOverflow";
    bound ← m_boundaries m;
    if hide_out_of (d_reference data) bound then
      if decide (d_hide data = Some true) then Some data
      else Some (data <| d_hide := Some true |> <| d_attributes ::= insert "x-out-of-boundaries"%string (VStr "") |>)
    else
      if decide (d_hide data = Some false) then Some data
      else Some (data <| d_hide := Some false |> <| d_attributes ::= insert "x-out-of-boundaries"%string (VBool false) |>).

(** ** Styles *)

Definition getSupportedPropertyName (property : string) : option string :=
  let upperProp := match property with String c s => String (to_upper c) s | EmptyString => EmptyString end in
  head (filter (fun p => supported_style p = true)
    (property :: map (fun prefix => (prefix ++ upperProp)%string) ["ms"; "Webkit"; "Moz"; "O"]%string)).

Definition computeStyle (data : popper_data) (options : modifier) : option popper_data :=
  legacy ← find_modifier (d_modifiers data) "applyStyle";
  let gpuAcceleration := match m_gpuAcceleration legacy with
                         | Some b => b
                         | None => default false (m_gpuAcceleration options)
                         end in
  offsetParent ← getOffsetParent (Some (d_popperElement data));
  let offsetParentRect := getBoundingClientRect offsetParent in
  let styles : config := {[ "position"%string := VStr (d_position data) ]} in
  let offsets := getRoundedOffsets (d_popper data) (d_reference data) (d_placement data)
                   (qlt devicePixelRatio 2 || negb isFirefox) in
  let sideA := if String.eqb (m_x options) "bottom" then "top" else "bottom" in
  let sideB := if String.eqb (m_y options) "right" then "left" else "right" in
  let prefixedProperty := getSupportedPropertyName "transform" in
  let isHTML := String.eqb (nodeName offsetParent) "HTML" in
  let top := if String.eqb sideA "bottom"
             then if isHTML then (- num offsetParent "clientHeight" + e_bottom offsets)%Q
                  else (- r_height offsetParentRect + e_bottom offsets)%Q
             else e_top offsets in
  let left := if String.eqb sideB "right"
              then if isHTML then (- num offsetParent "clientWidth" + e_right offsets)%Q
                   else (- r_width offsetParentRect + e_right offsets)%Q
              else e_left offsets in
  let styles :=
    match gpuAcceleration, prefixedProperty with
    | true, Some prop =>
        <["willChange" := VStr "transform"]> (<[sideB := VNum 0]> (<[sideA := VNum 0]>
          (<[prop := VStr ("translate3d(" ++ num_str left ++ "px, " ++ num_str top ++ "px, 0)")]> styles)))
    | _, _ =>
        let invertTop := if String.eqb sideA "bottom" then (-(1))%Q else 1%Q in
        let invertLeft := if String.eqb sideB "right" then (-(1))%Q else 1%Q in
        <["willChange" := VStr (sideA ++ ", " ++ sideB)]> (<[sideB := VNum (left * invertLeft)%Q]>
          (<[sideA := VNum (top * invertTop)%Q]> styles))
    end in
  Some (data <| d_attributes := extends {[ "x-placement" := VStr (d_placement data) ]} (d_attributes data) |>
             <| d_styles := extends styles (d_styles data) |>
             <| d_arrowStyles := extends (d_arrow data) (d_arrowStyles data) |>)%string.

Definition isNumeric (v : jsval) : bool :=
  match v with
  | VNum _ => true
  | VStr s => negb (String.eqb s "") && bool_decide (is_Some (parseFloat s)) && bool_decide (is_Some (to_number s))
  | _ => false
  end.

Definition setStyles (element : elem) (styles : config) : list write :=
  map (fun p =>
    let unit := if existsb (String.eqb p.1) ["width"; "height"; "top"; "right"; "bottom"; "left"]%string && isNumeric p.2
                then "px"%string else ""%string in
    WStyle element p.1 (js_str p.2 ++ unit)) (map_to_list styles).

Definition setAttributes (element : elem) (attributes : config) : list write :=
  map (fun p => match p.2 with
                | VBool false => WRemoveAttr element p.1
                | v => WAttr element p.1 (js_str v)
                end) (map_to_list attributes).

Definition applyStyle (data : popper_data) : popper_data :=
  let ws := setStyles (d_popperElement data) (d_styles data)
            ++ setAttributes (d_popperElement data) (d_attributes data)
            ++ match d_arrowElement data with
               | Some a => setStyles a (d_arrowStyles data)
               | None => []
               end in
  data <| d_writes ::= fun w => w ++ ws |>.

(** ** Running them *)

Context (boundaries_of : elem -> option elem -> padding -> boundaries_element -> bool -> option bounds)
        (custom : nat -> popper_data -> modifier -> option popper_data).

Definition refresh (data : popper_data) : popper_data :=
  data <| d_popper ::= getClientRect |> <| d_reference ::= getClientRect |>.

Fixpoint run_list (fn : popper_data -> modifier -> option popper_data) (l : list modifier) (data : popper_data)
    : option popper_data :=
  match l with
  | [] => Some data
  | m :: l =>
      if m_enabled m && match m_fn m with FnNone => false | _ => true end
      then data' ← fn (refresh data) m; run_list fn l data'
      else run_list fn l data
  end.

Fixpoint findIndex (l : list modifier) (name : string) : Z :=
  match l with
  | [] => -1
  | m :: l => if String.eqb (m_name m) name then 0
              else let i := findIndex l name in if i =? -1 then -1 else i + 1
  end.

Definition runModifiers (fn : popper_data -> modifier -> option popper_data) (l : list modifier)
    (data : popper_data) (ends : option string) : option popper_data :=
  let modifiersToRun := match ends with Some name => slice_to l (findIndex l name) | None => l end in
  run_list fn modifiersToRun data.

(** Every modifier but [flip], which runs the ones before it again. *)
Definition basic_fn (data : popper_data) (m : modifier) : option popper_data :=
  match m_fn m with
  | FnShift => Some (shift data)
  | FnOffset => offset data m
  | FnPreventOverflow => preventOverflow boundaries_of data m
  | FnKeepTogether => Some (keepTogether data)
  | FnArrow => Some (arrow data m)
  | FnInner => inner data
  | FnHide => popper_hide data
  | FnComputeStyle => computeStyle data m
  | FnApplyStyle => Some (applyStyle data)
  | FnCustom f => custom f data m
  | FnFlip => None                       (* no second flip runs inside the first *)
  | FnNone => Some data
  end.

(** *** [flip] *)

Record overlaps := Overlaps { ov_ref : bool; ov_boundaries : bool; ov_variation : bool }.

Definition flip_checks (options : modifier) (placement variation : string) (popperOffsets refOffsets : rect)
    (boundaries : bounds) : overlaps :=
  let fl q := Qfloor q in
  let overlapsRef :=
    String.eqb placement "left" && (fl (r_left refOffsets) <? fl (r_right popperOffsets))
    || String.eqb placement "right" && (fl (r_left popperOffsets) <? fl (r_right refOffsets))
    || String.eqb placement "top" && (fl (r_top refOffsets) <? fl (r_bottom popperOffsets))
    || String.eqb placement "bottom" && (fl (r_top popperOffsets) <? fl (r_bottom refOffsets)) in
  let overflowsLeft := fl (r_left popperOffsets) <? fl (b_left boundaries) in
  let overflowsRight := fl (b_right boundaries) <? fl (r_right popperOffsets) in
  let overflowsTop := fl (r_top popperOffsets) <? fl (b_top boundaries) in
  let overflowsBottom := fl (b_bottom boundaries) <? fl (r_bottom popperOffsets) in
  let overflowsBoundaries :=
    String.eqb placement "left" && overflowsLeft || String.eqb placement "right" && overflowsRight
    || String.eqb placement "top" && overflowsTop || String.eqb placement "bottom" && overflowsBottom in
  let isVertical := String.eqb placement "top" || String.eqb placement "bottom" in
  let start := String.eqb variation "start" in
  let end_ := String.eqb variation "end" in
  let flippedVariationByRef := m_flipVariations options &&
    (isVertical && start && overflowsLeft || isVertical && end_ && overflowsRight
     || negb isVertical && start && overflowsTop || negb isVertical && end_ && overflowsBottom) in
  let flippedVariationByContent := m_flipVariationsByContent options &&
    (isVertical && start && overflowsRight || isVertical && end_ && overflowsLeft
     || negb isVertical && start && overflowsBottom || negb isVertical && end_ && overflowsTop) in
  Overlaps overlapsRef overflowsBoundaries (flippedVariationByRef || flippedVariationByContent).

(** The body of the loop; the closure's variables are [placement] and
    [variation]. *)
Definition flip_step (options : modifier) (boundaries : bounds) (flipOrder : list string)
    (index : nat) (step : string) (st : string * string * popper_data) : option (string * string * popper_data) :=
  let '(placement, variation, data) := st in
  if negb (String.eqb placement step) || (length flipOrder =? index + 1)%nat then Some st
  else
    let placement := base_of (d_placement data) in
    let c := flip_checks options placement variation (d_popper data) (d_reference data) boundaries in
    if ov_ref c || ov_boundaries c || ov_variation c then
      let placement := if ov_ref c || ov_boundaries c then default ""%string (flipOrder !! (index + 1)%nat)
                       else placement in
      let variation := if ov_variation c then getOppositeVariation variation else variation in
      let data := data <| d_flipped := true |> <| d_placement := with_variation placement (Some variation) |> in
      let data := data <| d_popper := getPopperOffsets (getOuterSizes (d_popperElement data)) (d_reference data)
                                        (d_placement data) (d_popper data) |> in
      data ← runModifiers basic_fn (d_modifiers data) data (Some "flip"%string);
      Some (placement, variation, data)
    else Some (placement, variation, data).

Fixpoint flip_loop (options : modifier) (boundaries : bounds) (flipOrder : list string)
    (index : nat) (steps : list string) (st : string * string * popper_data) : option (string * string * popper_data) :=
  match steps with
  | [] => Some st
  | s :: steps => st ← flip_step options boundaries flipOrder index s st;
                  flip_loop options boundaries flipOrder (S index) steps st
  end.

Definition flip_order (b : flip_behavior) (placement : string) : list string :=
  match b with
  | BehFlip => [placement; getOppositePlacement placement]
  | BehClockwise => clockwise placement false
  | BehCounterclockwise => clockwise placement true
  | BehList l => l
  end.

Definition flip (data : popper_data) (options : modifier) : option popper_data :=
  if isModifierEnabled (d_modifiers data) "inner" then Some data
  else if d_flipped data && String.eqb (d_placement data) (d_originalPlacement data) then Some data
  else
    be ← m_boundariesElement options;
    boundaries ← getBoundaries (d_popperElement data) (Some (d_referenceElement data)) (m_padding options)
                   be (d_positionFixed data);
    let placement := base_of (d_placement data) in
    let variation := default ""%string (variation_of (d_placement data)) in
    let flipOrder := flip_order (m_behavior options) placement in
    st ← flip_loop options boundaries flipOrder 0 flipOrder (placement, variation, data);
    Some st.2.

Definition modifier_run (data : popper_data) (m : modifier) : option popper_data :=
  match m_fn m with FnFlip => flip data m | _ => basic_fn data m end.
End modifiers.
