(* ===== verification/PopperClass.v ===== *)
(** The [Popper] class (lines 1551-1576, 2428-2473, 2514-2627, 2716-2732 and
    3558-4102 of bootstrap.bundle.js): construction, debounced updates,
    listeners, destruction. *)
From Stdlib Require Import ZArith QArith Qround Qminmax String Ascii.
From stdpp Require Import base list gmap strings.
From coqutil Require Import Datatypes.RecordSetters.
From S2P Require Import Prelude Js JsSort JsDom BsUtil PopperDom PopperPlacement PopperModifiers.

Local Open Scope Z_scope.

(** ** Debouncing: [microtaskDebounce] and [taskDebounce] differ in the queue
    they use only.  [pending] counts the queued tasks. *)

Record debounced := Debounced { scheduled : bool; pending : nat }.

Definition debounce_call (d : debounced) : debounced :=
  if scheduled d then d else Debounced true (S (pending d)).

(** A queued task runs: the flag is cleared, then [fn] is called. *)
Definition debounce_run {A} (fn : A -> A) (d : debounced) (a : A) : debounced * A :=
  match pending d with
  | O => (d, a)
  | S n => (Debounced false n, fn a)
  end.

(** ** Defaults *)

Definition blank (name : string) : modifier :=
  Modifier name None false FnNone VUndef [] (PNum 0) None false None (ArrowSelector "") BehFlip false false None "" "" false.

Definition default_modifiers : list modifier := [
  (blank "shift") <| m_order := Some 100%Q |> <| m_enabled := true |> <| m_fn := FnShift |>;
  (blank "offset") <| m_order := Some 200%Q |> <| m_enabled := true |> <| m_fn := FnOffset |> <| m_offset := VNum 0 |>;
  (blank "preventOverflow") <| m_order := Some 300%Q |> <| m_enabled := true |> <| m_fn := FnPreventOverflow |>
    <| m_priority := ["left"; "right"; "top"; "bottom"] |> <| m_padding := PNum 5 |>
    <| m_boundariesElement := Some BScrollParent |>;
  (blank "keepTogether") <| m_order := Some 400%Q |> <| m_enabled := true |> <| m_fn := FnKeepTogether |>;
  (blank "arrow") <| m_order := Some 500%Q |> <| m_enabled := true |> <| m_fn := FnArrow |>
    <| m_element := ArrowSelector "[x-arrow]" |>;
  (blank "flip") <| m_order := Some 600%Q |> <| m_enabled := true |> <| m_fn := FnFlip |>
    <| m_behavior := BehFlip |> <| m_padding := PNum 5 |> <| m_boundariesElement := Some BViewport |>;
  (blank "inner") <| m_order := Some 700%Q |> <| m_fn := FnInner |>;
  (blank "hide") <| m_order := Some 800%Q |> <| m_enabled := true |> <| m_fn := FnHide |>;
  (blank "computeStyle") <| m_order := Some 850%Q |> <| m_enabled := true |> <| m_fn := FnComputeStyle |>
    <| m_gpuAcceleration := Some true |> <| m_x := "bottom" |> <| m_y := "right" |>;
  (blank "applyStyle") <| m_order := Some 900%Q |> <| m_enabled := true |> <| m_fn := FnApplyStyle |>
    <| m_onLoad := true |>]%string.

(** The user's options of a modifier, as an update of its record. *)
Abbreviation overrides := (list (string * (modifier -> modifier))).

Definition override (o : overrides) (m : modifier) : modifier :=
  match head (filter (fun p => p.1 = m_name m) o) with
  | Some p => (p.2 m) <| m_name := m_name m |>
  | None => m
  end.

(** [this.options.modifiers]: the defaults, then the user's new names. *)
Definition merged_modifiers (o : overrides) : list modifier :=
  map (override o)
    (default_modifiers
     ++ map blank (filter (fun n => existsb (fun m => String.eqb (m_name m) n) default_modifiers = false)
                     (map fst o))).

Definition order_cmp : comparator modifier := fun a b =>
  Some (match m_order a, m_order b with Some x, Some y => Some (x - y)%Q | _, _ => None end).

(** [this.modifiers]: sorted by [order]. *)
Definition sorted_modifiers (o : overrides) : option (list modifier) :=
  array_sort order_cmp (merged_modifiers o).

Record popper_options := PopperOptions {
  o_placement : string;
  o_positionFixed : bool;
  o_eventsEnabled : bool;
  o_removeOnDestroy : bool;
  o_overrides : overrides
}.

Definition default_options : popper_options := PopperOptions "bottom" false true false [].

(** ** Instances *)

(** Where the listeners of an instance are attached. *)
Inductive target := TWindow | TElem (e : elem).

Global Instance target_eq_dec : EqDecision target.
Proof. solve_decision. Defined.

Record Popper := MkPopper {
  p_reference : elem;
  p_popper : elem;
  p_options : popper_options;
  p_modifiers : list modifier;
  p_isDestroyed : bool;
  p_isCreated : bool;
  p_eventsEnabled : bool;
  p_scrollParents : list target;
  p_scrollElement : option elem;
  p_listening : list (target * string);  (* what addEventListener has attached *)
  p_removed : bool;                      (* the popper node was removed *)
  p_debounce : debounced;
  p_writes : list write
}.

Section popper.
Context `{Page}
        (boundaries_of : elem -> option elem -> padding -> boundaries_element -> bool -> option bounds)
        (custom : nat -> popper_data -> modifier -> option popper_data).

Definition flip_modifier (l : list modifier) : option modifier := find_modifier l "flip".

(** The data [update] starts from. *)
Definition initial_data (p : Popper) : option popper_data :=
  let o := p_options p in
  reference ← getReferenceOffsets (p_popper p) (p_reference p) (o_positionFixed o);
  fm ← flip_modifier (p_modifiers p);
  be ← m_boundariesElement fm;
  placement ← computeAutoPlacement (o_placement o) reference (p_popper p) (Some (p_reference p)) be (m_padding fm);
  let popper := getPopperOffsets (getOuterSizes (p_popper p)) reference placement (Rect 0 0 0 0 0 0 0 0) in
  Some (PopperData (p_popper p) (p_reference p) (p_modifiers p) placement placement false (o_positionFixed o)
          popper reference ∅ (if o_positionFixed o then "fixed" else "absolute") None None ∅ ∅ ∅ []).

(** [onCreate] and [onUpdate] receive the final data. *)
Inductive notified := NotNotified | NotifiedCreate (d : popper_data) | NotifiedUpdate (d : popper_data).

Definition update (p : Popper) : option (Popper * notified) :=
  if p_isDestroyed p then Some (p, NotNotified)
  else
    data ← initial_data p;
    data ← runModifiers (modifier_run boundaries_of custom) (p_modifiers p) data None;
    let p := p <| p_modifiers := d_modifiers data |> <| p_writes ::= fun w => w ++ d_writes data |> in
    if p_isCreated p then Some (p, NotifiedUpdate data)
    else Some (p <| p_isCreated := true |>, NotifiedCreate data).

(** *** Listeners *)

Fixpoint attachToScrollParents_ (fuel : nat) (scrollParent : elem) : option (list target) :=
  match fuel with
  | O => None
  | S fuel =>
      if String.eqb (nodeName scrollParent) "BODY" then Some [TWindow]
      else
        next ← getScrollParent (parentNode scrollParent);
        ts ← attachToScrollParents_ fuel next;
        Some (ts ++ [TElem scrollParent])
  end.

Definition setupEventListeners (p : Popper) : option Popper :=
  scrollElement ← getScrollParent (Some (p_reference p));
  targets ← attachToScrollParents_ climb_fuel scrollElement;
  Some (p <| p_listening ::= fun l => l ++ (TWindow, "resize"%string) :: map (fun t => (t, "scroll"%string)) targets |>
          <| p_scrollParents ::= fun l => l ++ targets |>
          <| p_scrollElement := Some scrollElement |>
          <| p_eventsEnabled := true |>).

Definition enableEventListeners (p : Popper) : option Popper :=
  if p_eventsEnabled p then Some p else setupEventListeners p.

(** [target.removeEventListener(event, updateBound)] *)
Definition unlisten (t : target) (e : string) (l : list (target * string)) : list (target * string) :=
  filter (fun x => x <> (t, e)) l.

Definition removeEventListeners (p : Popper) : Popper :=
  let l := unlisten TWindow "resize" (p_listening p) in
  let l := foldl (fun l t => unlisten t "scroll" l) l (p_scrollParents p) in
  p <| p_listening := l |> <| p_scrollParents := [] |> <| p_scrollElement := None |> <| p_eventsEnabled := false |>.

Definition disableEventListeners (p : Popper) : Popper :=
  if p_eventsEnabled p then removeEventListeners p else p.

(** *** Destruction *)

Definition cleared_styles (p : Popper) : list write :=
  if isModifierEnabled (p_modifiers p) "applyStyle" then
    WRemoveAttr (p_popper p) "x-placement"
    :: map (fun s => WStyle (p_popper p) s "")
         (["position"; "top"; "left"; "right"; "bottom"; "willChange"]%string
          ++ option_list (getSupportedPropertyName "transform"))
  else [].

(** The instance it leaves and how it ends: a popper that is in no document any
    more cannot be removed. *)
Definition destroy (p : Popper) : Popper * (exn + unit) :=
  let p := p <| p_isDestroyed := true |> in
  let p := p <| p_writes ::= fun w => w ++ cleared_styles p |> in
  let p := disableEventListeners p in
  if o_removeOnDestroy (p_options p) then
    if p_removed p || bool_decide (parentNode (p_popper p) = None) then (p, inl TypeError)
    else (p <| p_removed := true |>, inr tt)
  else (p, inr tt).

(** *** Construction *)

Definition applyStyleOnLoad (reference popper : elem) (o : popper_options) (mods : list modifier) : option (list write) :=
  referenceOffsets ← getReferenceOffsets popper reference (o_positionFixed o);
  fm ← flip_modifier mods;
  be ← m_boundariesElement fm;
  placement ← computeAutoPlacement (o_placement o) referenceOffsets popper (Some reference) be (m_padding fm);
  Some (WAttr popper "x-placement" placement
        :: setStyles popper {[ "position"%string := VStr (if o_positionFixed o then "fixed" else "absolute") ]}).

Fixpoint run_onLoad (reference popper : elem) (o : popper_options) (all l : list modifier) : option (list write) :=
  match l with
  | [] => Some []
  | m :: l =>
      ws ← (if m_enabled m && m_onLoad m then applyStyleOnLoad reference popper o all else Some []);
      rest ← run_onLoad reference popper o all l;
      Some (ws ++ rest)
  end.

(** [new Popper(reference, popper, options)]; the first update is queued. *)
Definition new_Popper (reference popper : elem) (o : popper_options) : option Popper :=
  mods ← sorted_modifiers (o_overrides o);
  ws ← run_onLoad reference popper o mods mods;
  let p := MkPopper reference popper o mods false false false [] None [] false
             (debounce_call (Debounced false 0)) ws in
  p ← (if o_eventsEnabled o then enableEventListeners p else Some p);
  Some (p <| p_eventsEnabled := o_eventsEnabled o |>).

(** [scheduleUpdate] asks for a frame, whose callback calls the debounced
    [update]; a queued task then runs the update itself. *)
Definition scheduleUpdate (p : Popper) : Popper := p <| p_debounce ::= debounce_call |>.

Definition run_update (p : Popper) : option (Popper * notified) :=
  match pending (p_debounce p) with
  | O => Some (p, NotNotified)
  | S n => update (p <| p_debounce := Debounced false n |>)
  end.
End popper.
