(* ===== verification/BsDropdown.v ===== *)
(** The Dropdown plugin (lines 4135-4641 of bootstrap.bundle.js), and the
    interface through which the plugins use Popper. *)
From Stdlib Require Import ZArith QArith String Ascii.
From stdpp Require Import base list gmap strings pretty.
From coqutil Require Import Datatypes.RecordSetters.
From S2P Require Import Prelude Js JsDom BsUtil PopperDom PopperModifiers PopperClass.

Local Open Scope Z_scope.

(** ** The interface to Popper *)

(** What the plugins ask of Popper: construction (which may throw), the
    destruction, a scheduled update; [papi_alive] tells whether the instance
    can still write styles. *)
Class PopperApi (P : Type) := {
  papi_new : elem -> elem -> popper_options -> option P;
  papi_destroy : P -> P;
  papi_schedule : P -> P;
  papi_alive : P -> bool
}.

Class PopperLaws (P : Type) `{PopperApi P} := {
  papi_destroyed p : papi_alive (papi_destroy p) = false;
  papi_schedule_alive p : papi_alive (papi_schedule p) = papi_alive p
}.

(** The class of PopperClass.v implements it; the error of [destroy] concerns an
    option the drop-downs and tips leave at its default. *)
Global Instance Popper_api `{Page} : PopperApi Popper := {
  papi_new := new_Popper;
  papi_destroy p := (destroy p).1;
  papi_schedule := scheduleUpdate;
  papi_alive p := negb (p_isDestroyed p)
}.

Global Instance Popper_laws `{Page} : PopperLaws Popper.
Proof.
  split; [|done]. intros p. cbn. unfold destroy, disableEventListeners, removeEventListeners.
  by destruct (p_eventsEnabled _), (o_removeOnDestroy _); [destruct (_ || _)| |destruct (_ || _)|].
Qed.

(** ** Dropdown *)

Definition ESCAPE_KEYCODE : Z := 27.
Definition SPACE_KEYCODE : Z := 32.
Definition TAB_KEYCODE : Z := 9.
Definition ARROW_UP_KEYCODE : Z := 38.
Definition ARROW_DOWN_KEYCODE : Z := 40.
Definition RIGHT_MOUSE_BUTTON_WHICH : Z := 3.

Definition dropdown_Default : config := {[
  "offset" := VNum 0; "flip" := VBool true; "boundary" := VStr "scrollParent";
  "reference" := VStr "toggle"; "display" := VStr "dynamic"; "popperConfig" := VNull ]}%string.

Definition dropdown_DefaultType : list (string * string) := [
  ("offset", "(number|string|function)"); ("flip", "boolean"); ("boundary", "(string|element)");
  ("reference", "(string|element)"); ("display", "string"); ("popperConfig", "(null|object)")]%string.

Definition SELECTOR_TOGGLE : string := "[data-toggle=dropdown]".
Definition SELECTOR_MENU : string := ".dropdown-menu".
Definition SELECTOR_VISIBLE_ITEMS : string := ".dropdown-menu .dropdown-item:not(.disabled):not(:disabled)".

Record Dropdown (P : Type) := {
  dd_element : option elem;
  dd_popper : option P;
  dd_config : config;
  dd_menu : option elem;
  dd_inNavbar : bool
}.
Arguments dd_element {P}.
Arguments dd_popper {P}.
Arguments dd_config {P}.
Arguments dd_menu {P}.
Arguments dd_inNavbar {P}.

(** [/input|textarea/i.test(tagName)] *)
Definition is_text_tag (v : jsval) : bool :=
  match v with
  | VStr s => let u := toUpperCase s in str_contains "INPUT" u || str_contains "TEXTAREA" u
  | _ => false
  end.

(** [REGEXP_KEYDOWN.test(which)]: the pattern [38|40|27] anywhere in the text
    of the number. *)
Definition regexp_keydown (which : Z) : bool :=
  let s : string := pretty which in str_contains "38" s || str_contains "40" s || str_contains "27" s.

(** The index of the item the arrow keys move to, among [len] items. *)
Definition next_item_index (which index len : Z) : Z :=
  let index := if (which =? ARROW_UP_KEYCODE) && (0 <? index) then index - 1 else index in
  let index := if (which =? ARROW_DOWN_KEYCODE) && (index <? len - 1) then index + 1 else index in
  if index <? 0 then 0 else index.

Section dropdown.
Context {D : Type} `{Dom D} {P : Type} `{PopperApi P}.
Local Abbreviation W := (World D (Dropdown P) Empty_set).
Context (fire : event -> elem -> M W bool).
(** Touch devices; the user's [popperConfig] object. *)
Context (ontouchstart : bool) (user_popper_config : list (string * jsval) -> popper_options -> popper_options).

Definition dd_disabled (d : D) (el : elem) : bool :=
  truthy (prop d el "disabled") || jq_has_class d [el] "disabled".

Definition _getParentFromElement (element : elem) : M W (option elem) :=
  selector ← selector_of element;
  p ← (match selector with
       | Some s => if String.eqb s "" then mret None else query_one None s
       | None => mret None
       end);
  d ← get_dom;
  mret (match p with Some p => Some p | None => parent d element end).

Definition related (name : string) (el : elem) : event := Event name (Some el) [].

(** *** Options for Popper *)

Definition _getPlacement (d : D) (el : elem) (menu : option elem) : string :=
  let parentDropdown := option_list (parent d el) in
  let menuright := jq_has_class d (option_list menu) "dropdown-menu-right" in
  if jq_has_class d parentDropdown "dropup" then (if menuright then "top-end" else "top-start")
  else if jq_has_class d parentDropdown "dropright" then "right-start"
  else if jq_has_class d parentDropdown "dropleft" then "left-start"
  else if menuright then "bottom-end" else "bottom-start".

Definition boundary_of (v : jsval) : option boundaries_element :=
  match v with
  | VStr s => if String.eqb s "viewport" then Some BViewport
              else if String.eqb s "window" then Some BWindow
              else if String.eqb s "scrollParent" then Some BScrollParent else None
  | VElem e => Some (BNode e)
  | _ => None
  end.

Definition offset_override (v : jsval) : modifier -> modifier :=
  match v with
  | VFun f => fun m => m <| m_fn := FnCustom f |>
  | v => fun m => m <| m_offset := v |>
  end.

Definition _getPopperConfig (d : D) (el : elem) (menu : option elem) (cfg : config) : popper_options :=
  let mods : overrides :=
    [("offset"%string, offset_override (field cfg "offset"));
     ("flip"%string, fun m => m <| m_enabled := truthy (field cfg "flip") |>);
     ("preventOverflow"%string, fun m => m <| m_boundariesElement := boundary_of (field cfg "boundary") |>)]
    ++ (if val_is_str (field cfg "display") "static"
        then [("applyStyle"%string, fun m => m <| m_enabled := false |>)] else []) in
  let o := default_options <| o_placement := _getPlacement d el menu |> <| o_overrides := mods |> in
  match field cfg "popperConfig" with VObj u => user_popper_config u o | _ => o end.

(** *** Showing and hiding *)

(** An object that only has an element's [nodeType] cannot be measured: [None],
    and the popper throws. *)
Definition reference_element (cfg : config) (el : elem) (p : option elem) : option elem :=
  match field cfg "reference" with
  | VStr s => if String.eqb s "parent" then p else Some el
  | VElem e => Some e
  | VJq l => head l
  | v => if isElement v then None else Some el
  end.

Definition dd_show (o : nat) (usePopper : bool) : M W unit :=
  this ← get o;
  el ← deref (dd_element this);
  d ← get_dom;
  if dd_disabled d el || jq_has_class d (option_list (dd_menu this)) "show" then skip
  else
    parent ← _getParentFromElement el;
    isDefaultPrevented ← trigger fire parent (related "show.bs.dropdown" el);
    if (isDefaultPrevented : bool) then skip
    else
      this ← get o;
      (if negb (dd_inNavbar this) && usePopper then
         when (negb (val_is_str (field (dd_config this) "boundary") "scrollParent"))
           (mod_dom (jq_add_class (option_list parent) "position-static")) ;;
         referenceElement ← deref (reference_element (dd_config this) el parent);
         menu ← deref (dd_menu this);
         d ← get_dom;
         p ← deref (papi_new referenceElement menu (_getPopperConfig d el (Some menu) (dd_config this)));
         put o (fun this => this <| dd_popper := Some p |>)
       else skip) ;;
      mod_dom (set_focus el) ;;
      mod_dom (set_attr el "aria-expanded" (Some "true"%string)) ;;
      this ← get o;
      mod_dom (jq_each (fun e => toggle_class e "show") (option_list (dd_menu this))) ;;
      mod_dom (jq_each (fun e => toggle_class e "show") (option_list parent)) ;;
      trigger fire parent (related "shown.bs.dropdown" el) ;;
      skip.

Definition dd_hide (o : nat) : M W unit :=
  this ← get o;
  el ← deref (dd_element this);
  d ← get_dom;
  if dd_disabled d el || negb (jq_has_class d (option_list (dd_menu this)) "show") then skip
  else
    parent ← _getParentFromElement el;
    isDefaultPrevented ← trigger fire parent (related "hide.bs.dropdown" el);
    if (isDefaultPrevented : bool) then skip
    else
      put o (fun this => this <| dd_popper ::= option_map papi_destroy |>) ;;
      this ← get o;
      mod_dom (jq_each (fun e => toggle_class e "show") (option_list (dd_menu this))) ;;
      mod_dom (jq_each (fun e => toggle_class e "show") (option_list parent)) ;;
      trigger fire parent (related "hidden.bs.dropdown" el) ;;
      skip.

(** The body of the loop of [_clearMenus]. *)
Definition clear_menu (e : option dom_event) (t : elem) : M W unit :=
  parent ← _getParentFromElement t;
  context ← get_data t;
  d ← get_dom;
  match context with
  | None => skip
  | Some context =>
      if negb (jq_has_class d (option_list parent) "show") then skip
      else if match e, parent with
              | Some e, Some p =>
                  (String.eqb (de_type e) "click" && is_text_tag (prop d (de_target e) "tagName")
                   || String.eqb (de_type e) "keyup" && (de_which e =? TAB_KEYCODE))
                  && contains d p (de_target e)
              | _, _ => false
              end then skip
      else
        s ← get context;
        isDefaultPrevented ← trigger fire parent (related "hide.bs.dropdown" t);
        if (isDefaultPrevented : bool) then skip
        else
          mod_dom (set_attr t "aria-expanded" (Some "false"%string)) ;;
          put context (fun this => this <| dd_popper ::= option_map papi_destroy |>) ;;
          mod_dom (jq_remove_class (option_list (dd_menu s)) "show") ;;
          mod_dom (jq_remove_class (option_list parent) "show") ;;
          trigger fire parent (related "hidden.bs.dropdown" t) ;;
          skip
  end.

Definition _clearMenus (e : option dom_event) : M W unit :=
  if match e with
     | Some e => (de_which e =? RIGHT_MOUSE_BUTTON_WHICH)
                 || String.eqb (de_type e) "keyup" && negb (de_which e =? TAB_KEYCODE)
     | None => false
     end then skip
  else
    toggles ← query_all None SELECTOR_TOGGLE;
    for_each toggles (clear_menu e).

Definition dd_toggle (o : nat) : M W unit :=
  this ← get o;
  el ← deref (dd_element this);
  d ← get_dom;
  if dd_disabled d el then skip
  else
    let isActive := jq_has_class d (option_list (dd_menu this)) "show" in
    _clearMenus None ;;
    if isActive then skip else dd_show o true.

Definition dd_dispose (o : nat) : M W unit :=
  this ← get o;
  remove_data (dd_element this) ;;
  put o (fun this => this <| dd_element := None |> <| dd_menu := None |> <| dd_popper := None |>).

Definition detectNavbar (d : D) (el : option elem) : bool :=
  match el ≫= (fun e => closest d e ".navbar") with Some _ => true | None => false end.

Definition dd_update (o : nat) : M W unit :=
  this ← get o;
  d ← get_dom;
  put o (fun this => this <| dd_inNavbar := detectNavbar d (dd_element this) |>
                          <| dd_popper ::= option_map papi_schedule |>).

(** *** Construction and the jQuery interface *)

Definition dropdown_getConfig (d : D) (el : elem) (c : config) : exn + config :=
  let c := extends (extends dropdown_Default (dataset d el)) c in
  match typeCheckConfig (fun _ => "element"%string) "dropdown" c dropdown_DefaultType with
  | inr _ => inr c
  | inl e => inl e
  end.

Definition _getMenuElement (el : elem) : M W (option elem) :=
  parent ← _getParentFromElement el;
  match parent with
  | Some p => query_one (Some p) SELECTOR_MENU
  | None => mret None
  end.

Definition Dropdown_new (el : elem) (c : config) : M W nat :=
  d ← get_dom;
  cfg ← lift_result (dropdown_getConfig d el c);
  menu ← _getMenuElement el;
  alloc {| dd_element := Some el; dd_popper := None; dd_config := cfg; dd_menu := menu;
           dd_inNavbar := detectNavbar d (Some el) |}.

(** The click listener of the constructor. *)
Definition dd_click (o : nat) : M W unit := prevent_default ;; dd_toggle o.

Definition dropdown_method (s : string) (o : nat) : M W unit :=
  if String.eqb s "toggle" then dd_toggle o
  else if String.eqb s "show" then dd_show o false
  else if String.eqb s "hide" then dd_hide o
  else if String.eqb s "update" then dd_update o
  else if String.eqb s "dispose" then dd_dispose o
  else throw TypeError.

Definition dropdown_jQueryInterface (els : list elem) (arg : plugin_arg) : M W unit :=
  for_each els (fun el =>
    data ← get_data el;
    o ← (match data with
         | Some o => mret o
         | None => o ← Dropdown_new el (match arg with ArgObject c => c | _ => ∅ end);
                   set_data el o ;; mret o
         end);
    match arg with
    | ArgString s => dropdown_method s o
    | _ => skip
    end).

(** The handler of keydown on the toggles and the menus. *)
Definition dd_keydown_ignored (d : D) (e : dom_event) : bool :=
  if is_text_tag (prop d (de_target e) "tagName") then
    (de_which e =? SPACE_KEYCODE)
    || negb (de_which e =? ESCAPE_KEYCODE)
       && (negb (de_which e =? ARROW_DOWN_KEYCODE) && negb (de_which e =? ARROW_UP_KEYCODE)
           || match closest d (de_target e) SELECTOR_MENU with Some _ => true | None => false end)
  else negb (regexp_keydown (de_which e)).

Fixpoint index_in (e : elem) (l : list elem) : Z :=
  match l with
  | [] => -1
  | x :: l => if (x =? e)%nat then 0 else let i := index_in e l in if i =? -1 then -1 else i + 1
  end.

Definition _dataApiKeydownHandler (this : elem) (e : dom_event) : M W unit :=
  d ← get_dom;
  if dd_keydown_ignored d e || dd_disabled d this then skip
  else
    parent ← _getParentFromElement this;
    let isActive := jq_has_class d (option_list parent) "show" in
    if negb isActive && (de_which e =? ESCAPE_KEYCODE) then skip
    else
      prevent_default ;;
      if negb isActive || (de_which e =? ESCAPE_KEYCODE) || (de_which e =? SPACE_KEYCODE) then
        (if de_which e =? ESCAPE_KEYCODE then
           p ← deref parent;
           t ← query_one (Some p) SELECTOR_TOGGLE;
           trigger fire t (ev "focus") ;; skip
         else skip) ;;
        trigger fire (Some this) (ev "click") ;;
        skip
      else
        p ← deref parent;
        found ← query_all (Some p) SELECTOR_VISIBLE_ITEMS;
        let items := filter (fun i => matches d i ":visible" = true) found in
        match items with
        | [] => skip
        | _ =>
            let index := next_item_index (de_which e) (index_in (de_target e) items) (Z.of_nat (length items)) in
            item ← deref (items !! Z.to_nat index);
            mod_dom (set_focus item)
        end.

(** The click handler of [[data-toggle=dropdown]]. *)
Definition dropdown_click (this : elem) : M W unit :=
  prevent_default ;; dropdown_jQueryInterface [this] (ArgString "toggle").
End dropdown.
