(* ===== verification/BsModal.v ===== *)
(** The Modal plugin (lines 4649-5256 of bootstrap.bundle.js). *)
From Stdlib Require Import ZArith QArith Qround String Ascii.
From stdpp Require Import base list gmap strings.
From coqutil Require Import Datatypes.RecordSetters.
From S2P Require Import Prelude Js JsDom BsUtil.

Local Open Scope Z_scope.

Definition modal_Default : config := {[
  "backdrop" := VBool true; "keyboard" := VBool true; "focus" := VBool true; "show" := VBool true ]}%string.

Definition modal_DefaultType : list (string * string) := [
  ("backdrop", "(boolean|string)"); ("keyboard", "boolean"); ("focus", "boolean"); ("show", "boolean")]%string.

Definition MODAL_ESCAPE_KEYCODE : Z := 27.
Definition SELECTOR_FIXED_CONTENT : string := ".fixed-top, .fixed-bottom, .is-fixed, .sticky-top".
Definition SELECTOR_STICKY_CONTENT : string := ".sticky-top".

(** Listeners a shown modal has attached: two for [click.dismiss], one each for
    the other events.  Those of the window and of the document are shared: one
    [off] removes them for every modal. *)
Inductive modal_listener := LDismissClick | LBackdropClick | LKeydownDismiss | LMousedownDismiss
                          | LResize | LFocusin.

Global Instance modal_listener_eq_dec : EqDecision modal_listener.
Proof. solve_decision. Defined.

Definition listener_event (l : modal_listener) : string :=
  match l with
  | LDismissClick | LBackdropClick => "click.dismiss"
  | LKeydownDismiss => "keydown.dismiss"
  | LMousedownDismiss => "mousedown.dismiss"
  | LResize => "resize"
  | LFocusin => "focusin"
  end.

Record Modal := {
  m_config : option config;
  m_el : option elem;
  m_dialog : option elem;
  m_backdrop : option elem;
  m_isShown : bool;
  m_isBodyOverflowing : bool;
  m_ignoreBackdropClick : bool;
  m_isTransitioning : bool;
  m_scrollbarWidth : Q;
  m_listeners : list modal_listener
}.

(** The functions passed to [_showBackdrop]. *)
Inductive backdrop_cb := BackdropShowElement (relatedTarget : option elem) | BackdropHidden.

Inductive modal_cb :=
  | MBackdrop (o : nat) (c : backdrop_cb)                (* after the backdrop has appeared *)
  | MBackdropRemove (o : nat) (c : backdrop_cb)          (* callbackRemove *)
  | MTransitionComplete (o : nat) (relatedTarget : option elem)
  | MHideModal (o : nat)
  | MStaticEnd (o : nat) (isModalOverflowing : bool)     (* static backdrop: first bounce *)
  | MStaticOverflow (o : nat)                            (* and its nested callback *)
  | MMouseup (o : nat)                                   (* mouseup after mousedown in the dialog *)
  | MApiShow (trigger_el target : elem)                  (* data API: one(show), not prevented *)
  | MApiHidden (trigger_el : elem).                      (* data API: one(hidden) *)

Section modal.
Context {D : Type} `{Dom D}.
Local Abbreviation W := (World D Modal modal_cb).
Context (fire : event -> elem -> M W bool) (window_innerWidth : D -> Q).

Definition m_getConfig (c : config) : exn + config :=
  let c := extends modal_Default c in
  match typeCheckConfig (fun _ => "element"%string) "modal" c modal_DefaultType with
  | inr _ => inr c
  | inl e => inl e
  end.

Definition m_on (o : nat) (l : modal_listener) : M W unit :=
  put o (fun this => this <| m_listeners ::= fun ls => ls ++ [l] |>).

Definition drop_listeners (e : string) (this : Modal) : Modal :=
  this <| m_listeners ::= filter (fun l => listener_event l <> e) |>.

Definition m_off (o : nat) (e : string) : M W unit := put o (drop_listeners e).
Definition m_off_shared (e : string) : M W unit := put_all (drop_listeners e).

Definition is_fade (d : D) (this : Modal) : bool := jq_has_class d (option_list (m_el this)) "fade".

(** ** The dialog and the scrollbar *)

Definition overflowing (d : D) (el : elem) : bool :=
  negb (Qle_bool (num_prop d el "scrollHeight") (num_prop d document_element "clientHeight")).

Definition _adjustDialog (o : nat) : M W unit :=
  this ← get o;
  el ← deref (m_el this);
  d ← get_dom;
  let isModalOverflowing := overflowing d el in
  when (negb (m_isBodyOverflowing this) && isModalOverflowing)
    (mod_dom (set_style el "paddingLeft" (num_str (m_scrollbarWidth this) ++ "px"))) ;;
  when (m_isBodyOverflowing this && negb isModalOverflowing)
    (mod_dom (set_style el "paddingRight" (num_str (m_scrollbarWidth this) ++ "px"))).

Definition _resetAdjustments (o : nat) : M W unit :=
  this ← get o;
  el ← deref (m_el this);
  mod_dom (fun d => set_style el "paddingRight" "" (set_style el "paddingLeft" "" d)).

Definition _getScrollbarWidth : M W Q := fun w =>
  let '(div, d) := create_element (dom w) in
  let d := append_child body div (set_class_list div ["modal-scrollbar-measure"%string] d) in
  let width := (cr_width (bounding_rect d div) - num_prop d div "clientWidth")%Q in
  (w <| dom := remove_node div d |>, inr width).

Definition _checkScrollbar (o : nat) : M W unit :=
  d ← get_dom;
  let r := bounding_rect d body in
  let overflow := negb (Qle_bool (window_innerWidth d)
                          (inject_Z (Qfloor (cr_left r + cr_right r + (1 # 2))))) in
  put o (fun this => this <| m_isBodyOverflowing := overflow |>) ;;
  width ← _getScrollbarWidth;
  put o (fun this => this <| m_scrollbarWidth := width |>).

(** [parseFloat(v) + w + 'px'] *)
Definition plus_px (v : string) (w : Q) : string :=
  (match parseFloat v with Some q => num_str (q + w) | None => "NaN" end ++ "px")%string.

(** The inline value is kept in the data before it is replaced. *)
Definition save_style (e : elem) (data_name style_name css_name : string) (w : Q) (d : D) : D :=
  let actual := style d e style_name in
  let calculated := computed d e css_name in
  set_style e style_name (plus_px calculated w) (set_user_data e data_name (Some actual) d).

Definition _setScrollbar (o : nat) : M W unit :=
  this ← get o;
  (if m_isBodyOverflowing this then
     fixedContent ← query_all None SELECTOR_FIXED_CONTENT;
     stickyContent ← query_all None SELECTOR_STICKY_CONTENT;
     mod_dom (jq_each (fun e => save_style e "padding-right" "paddingRight" "padding-right"
                                  (m_scrollbarWidth this)) fixedContent) ;;
     mod_dom (jq_each (fun e => save_style e "margin-right" "marginRight" "margin-right"
                                  (- m_scrollbarWidth this)) stickyContent) ;;
     mod_dom (save_style body "padding-right" "paddingRight" "padding-right" (m_scrollbarWidth this))
   else skip) ;;
  mod_dom (jq_add_class [body] "modal-open").

(** [padding ? padding : ''] of the saved value, which is dropped. *)
Definition restore_padding (e : elem) (d : D) : D :=
  let padding := default ""%string (user_data d e "padding-right") in
  set_style e "paddingRight" padding (set_user_data e "padding-right" None d).

Definition restore_margin (e : elem) (d : D) : D :=
  match user_data d e "margin-right" with
  | Some margin => set_user_data e "margin-right" None (set_style e "marginRight" margin d)
  | None => d
  end.

Definition _resetScrollbar : M W unit :=
  fixedContent ← query_all None SELECTOR_FIXED_CONTENT;
  mod_dom (jq_each restore_padding fixedContent) ;;
  elements ← query_all None SELECTOR_STICKY_CONTENT;
  mod_dom (jq_each restore_margin elements) ;;
  mod_dom (restore_padding body).

(** ** Listeners *)

Definition _setEscapeEvent (o : nat) : M W unit :=
  this ← get o;
  if m_isShown this then m_on o LKeydownDismiss else m_off o "keydown.dismiss".

Definition _setResizeEvent (o : nat) : M W unit :=
  this ← get o;
  if m_isShown this then m_on o LResize else m_off_shared "resize".

Definition _enforceFocus (o : nat) : M W unit := m_off_shared "focusin" ;; m_on o LFocusin.

(** ** Showing the element *)

Definition transitionComplete (o : nat) (relatedTarget : option elem) : M W unit :=
  this ← get o;
  cfg ← deref (m_config this);
  (if truthy (field cfg "focus") then el ← deref (m_el this); mod_dom (set_focus el) else skip) ;;
  put o (fun this => this <| m_isTransitioning := false |>) ;;
  this ← get o;
  trigger fire (m_el this) (Event "shown.bs.modal" relatedTarget []) ;;
  skip.

Definition _showElement (o : nat) (relatedTarget : option elem) : M W unit :=
  this ← get o;
  d ← get_dom;
  let transition := is_fade d this in
  modalBody ← (match m_dialog this with
               | Some dlg => query_one (Some dlg) ".modal-body"
               | None => mret None
               end);
  el ← deref (m_el this);
  when (match parent d el with Some p => negb (Qeq_bool (num_prop d p "nodeType") 1) | None => true end)
    (mod_dom (append_child body el)) ;;
  mod_dom (set_style el "display" "block") ;;
  mod_dom (set_attr el "aria-hidden" None) ;;
  mod_dom (set_attr el "aria-modal" (Some "true"%string)) ;;
  mod_dom (set_attr el "role" (Some "dialog"%string)) ;;
  d ← get_dom;
  (match jq_has_class d (option_list (m_dialog this)) "modal-dialog-scrollable", modalBody with
   | true, Some b => mod_dom (set_prop b "scrollTop" (VNum 0))
   | _, _ => mod_dom (set_prop el "scrollTop" (VNum 0))
   end) ;;
  mod_dom (jq_add_class [el] "show") ;;
  cfg ← deref (m_config this);
  when (truthy (field cfg "focus")) (_enforceFocus o) ;;
  if transition then
    d ← get_dom;
    let transitionDuration := getTransitionDurationFromElement d (m_dialog this) in
    jq_one (option_list (m_dialog this)) TRANSITION_END (Call (MTransitionComplete o relatedTarget)) ;;
    transitionEndEmulator (option_list (m_dialog this)) transitionDuration
  else transitionComplete o relatedTarget.

(** ** The backdrop *)

Definition after_hidden (o : nat) : M W unit :=
  mod_dom (jq_remove_class [body] "modal-open") ;;
  _resetAdjustments o ;;
  _resetScrollbar ;;
  this ← get o;
  trigger fire (m_el this) (ev "hidden.bs.modal") ;;
  skip.

Definition run_backdrop_cb (o : nat) (c : backdrop_cb) : M W unit :=
  match c with
  | BackdropShowElement relatedTarget => _showElement o relatedTarget
  | BackdropHidden => after_hidden o
  end.

Definition _removeBackdrop (o : nat) : M W unit :=
  this ← get o;
  match m_backdrop this with
  | Some b => jq_remove [b] ;; put o (fun this => this <| m_backdrop := None |>)
  | None => skip
  end.

Definition callbackRemove (o : nat) (c : backdrop_cb) : M W unit :=
  _removeBackdrop o ;; run_backdrop_cb o c.

Definition new_backdrop (animate : bool) : M W elem := fun w =>
  let '(div, d) := create_element (dom w) in
  let d := set_class_list div ["modal-backdrop"%string] d in
  let d := if animate then add_class div "fade" d else d in
  (w <| dom := append_child body div d |>, inr div).

Definition _showBackdrop (o : nat) (callback : backdrop_cb) : M W unit :=
  this ← get o;
  d ← get_dom;
  let animate := is_fade d this in
  cfg ← (if m_isShown this then deref (m_config this) else mret (default ∅ (m_config this)));
  if m_isShown this && truthy (field cfg "backdrop") then
    b ← new_backdrop animate;
    put o (fun this => this <| m_backdrop := Some b |>) ;;
    m_on o LBackdropClick ;;
    mod_dom (jq_add_class [b] "show") ;;
    if negb animate then run_backdrop_cb o callback
    else
      d ← get_dom;
      jq_one [b] TRANSITION_END (Call (MBackdrop o callback)) ;;
      transitionEndEmulator [b] (getTransitionDurationFromElement d (Some b))
  else match m_isShown this, m_backdrop this with
       | false, Some b =>
           mod_dom (jq_remove_class [b] "show") ;;
           d ← get_dom;
           if is_fade d this then
             jq_one [b] TRANSITION_END (Call (MBackdropRemove o callback)) ;;
             transitionEndEmulator [b] (getTransitionDurationFromElement d (Some b))
           else callbackRemove o callback
       | _, _ => run_backdrop_cb o callback
       end.

(** ** show and hide *)

Definition m_show (o : nat) (relatedTarget : option elem) : M W unit :=
  this ← get o;
  if m_isShown this || m_isTransitioning this then skip
  else
    d ← get_dom;
    when (is_fade d this) (put o (fun this => this <| m_isTransitioning := true |>)) ;;
    isDefaultPrevented ← trigger fire (m_el this) (Event "show.bs.modal" relatedTarget []);
    this ← get o;
    if m_isShown this || isDefaultPrevented then skip
    else
      put o (fun this => this <| m_isShown := true |>) ;;
      _checkScrollbar o ;;
      _setScrollbar o ;;
      _adjustDialog o ;;
      _setEscapeEvent o ;;
      _setResizeEvent o ;;
      m_on o LDismissClick ;;
      m_on o LMousedownDismiss ;;
      _showBackdrop o (BackdropShowElement relatedTarget).

Definition _hideModal (o : nat) : M W unit :=
  this ← get o;
  el ← deref (m_el this);
  mod_dom (set_style el "display" "none") ;;
  mod_dom (set_attr el "aria-hidden" (Some "true"%string)) ;;
  mod_dom (set_attr el "aria-modal" None) ;;
  mod_dom (set_attr el "role" None) ;;
  put o (fun this => this <| m_isTransitioning := false |>) ;;
  _showBackdrop o BackdropHidden.

Definition m_hide (o : nat) (event_given : bool) : M W unit :=
  when event_given prevent_default ;;
  this ← get o;
  if negb (m_isShown this) || m_isTransitioning this then skip
  else
    isDefaultPrevented ← trigger fire (m_el this) (ev "hide.bs.modal");
    this ← get o;
    if negb (m_isShown this) || isDefaultPrevented then skip
    else
      put o (fun this => this <| m_isShown := false |>) ;;
      d ← get_dom;
      let transition := is_fade d this in
      when transition (put o (fun this => this <| m_isTransitioning := true |>)) ;;
      _setEscapeEvent o ;;
      _setResizeEvent o ;;
      m_off_shared "focusin" ;;
      mod_dom (jq_remove_class (option_list (m_el this)) "show") ;;
      m_off o "click.dismiss" ;;
      m_off o "mousedown.dismiss" ;;
      if transition then
        d ← get_dom;
        let transitionDuration := getTransitionDurationFromElement d (m_el this) in
        jq_one (option_list (m_el this)) TRANSITION_END (Call (MHideModal o)) ;;
        transitionEndEmulator (option_list (m_el this)) transitionDuration
      else _hideModal o.

Definition m_toggle (o : nat) (relatedTarget : option elem) : M W unit :=
  this ← get o;
  if m_isShown this then m_hide o false else m_show o relatedTarget.

(** A click on a static backdrop: the modal bounces. *)
Definition _triggerBackdropTransition (o : nat) : M W unit :=
  this ← get o;
  cfg ← deref (m_config this);
  if val_is_str (field cfg "backdrop") "static" then
    isDefaultPrevented ← trigger fire (m_el this) (ev "hidePrevented.bs.modal");
    if (isDefaultPrevented : bool) then skip
    else
      this ← get o;
      el ← deref (m_el this);
      d ← get_dom;
      let isModalOverflowing := overflowing d el in
      when (negb isModalOverflowing) (mod_dom (set_style el "overflowY" "hidden")) ;;
      mod_dom (add_class el "modal-static") ;;
      d ← get_dom;
      let modalTransitionDuration := getTransitionDurationFromElement d (m_dialog this) in
      off_once [el] TRANSITION_END ;;
      jq_one [el] TRANSITION_END (Call (MStaticEnd o isModalOverflowing)) ;;
      transitionEndEmulator [el] modalTransitionDuration ;;
      mod_dom (set_focus el)
  else m_hide o false.

(** The nested emulation receives the element as its duration: [setTimeout]
    reads it as zero. *)
Definition static_end (o : nat) (isModalOverflowing : bool) : M W unit :=
  this ← get o;
  el ← deref (m_el this);
  mod_dom (remove_class el "modal-static") ;;
  if isModalOverflowing then skip
  else
    jq_one [el] TRANSITION_END (Call (MStaticOverflow o)) ;;
    transitionEndEmulator [el] None.

Definition modal_dispose (o : nat) : M W unit :=
  this ← get o;
  m_off_shared "resize" ;;
  m_off_shared "focusin" ;;
  off_once (option_list (m_el this)) "mouseup.dismiss.bs.modal" ;;
  off_once (option_list (m_el this)) "show.bs.modal" ;;
  off_once (option_list (m_el this)) "hidden.bs.modal" ;;
  remove_data (m_el this) ;;
  put o (fun _ => {| m_config := None; m_el := None; m_dialog := None; m_backdrop := None;
                     m_isShown := false; m_isBodyOverflowing := false; m_ignoreBackdropClick := false;
                     m_isTransitioning := false; m_scrollbarWidth := 0; m_listeners := [] |}).

Definition handleUpdate (o : nat) : M W unit := _adjustDialog o.

(** ** Events *)

(** [event_target] is the target of the event that is being delivered. *)
Definition modal_mouseup (event_target : D -> elem) (o : nat) : M W unit :=
  this ← get o;
  d ← get_dom;
  when (bool_decide (m_el this = Some (event_target d))) (put o (fun this => this <| m_ignoreBackdropClick := true |>)).

Definition modal_plug (event_target : D -> elem) (k : modal_cb) : M W unit :=
  match k with
  | MBackdrop o c => run_backdrop_cb o c
  | MBackdropRemove o c => callbackRemove o c
  | MTransitionComplete o relatedTarget => transitionComplete o relatedTarget
  | MHideModal o => _hideModal o
  | MStaticEnd o b => static_end o b
  | MStaticOverflow o => this ← get o; el ← deref (m_el this); mod_dom (set_style el "overflowY" "")
  | MMouseup o => modal_mouseup event_target o
  | MApiShow t target => jq_one [target] "hidden.bs.modal" (Call (MApiHidden t))
  | MApiHidden t => d ← get_dom; when (matches d t ":visible") (mod_dom (set_focus t))
  end.

(** A listener of the modal receives an event. *)
Definition run_modal_listener (o : nat) (l : modal_listener) (e : dom_event) : M W unit :=
  this ← get o;
  match l with
  | LDismissClick =>
      d ← get_dom;
      match closest d (de_target e) "[data-dismiss=modal]" with
      | Some _ => m_hide o true
      | None => skip
      end
  | LBackdropClick =>
      if m_ignoreBackdropClick this then put o (fun this => this <| m_ignoreBackdropClick := false |>)
      else if (de_target e =? de_currentTarget e)%nat then _triggerBackdropTransition o else skip
  | LKeydownDismiss =>
      cfg ← deref (m_config this);
      if truthy (field cfg "keyboard") && (de_which e =? MODAL_ESCAPE_KEYCODE) then
        prevent_default ;; m_hide o false
      else if negb (truthy (field cfg "keyboard")) && (de_which e =? MODAL_ESCAPE_KEYCODE) then
        _triggerBackdropTransition o
      else skip
  | LMousedownDismiss => jq_one (option_list (m_el this)) "mouseup.dismiss.bs.modal" (Call (MMouseup o))
  | LResize => handleUpdate o
  | LFocusin =>
      el ← deref (m_el this);
      d ← get_dom;
      if negb (de_target e =? el)%nat && negb (contains d el (de_target e)) then mod_dom (set_focus el) else skip
  end.

(** An event of the browser, under the namespaced name it was registered with:
    the listeners attached when it arrives. *)
Definition modal_event (o : nat) (e : dom_event) : M W unit :=
  this ← get o;
  for_each (filter (fun l => listener_event l = de_type e) (m_listeners this))
    (fun l => run_modal_listener o l e).

(** ** Construction and the jQuery interface *)

Definition Modal_new (el : elem) (c : config) : M W nat :=
  cfg ← lift_result (m_getConfig c);
  dialog ← query_one (Some el) ".modal-dialog";
  alloc {| m_config := Some cfg; m_el := Some el; m_dialog := dialog; m_backdrop := None;
           m_isShown := false; m_isBodyOverflowing := false; m_ignoreBackdropClick := false;
           m_isTransitioning := false; m_scrollbarWidth := 0; m_listeners := [] |}.

Definition modal_method (s : string) (o : nat) (relatedTarget : option elem) : M W unit :=
  if String.eqb s "toggle" then m_toggle o relatedTarget
  else if String.eqb s "show" then m_show o relatedTarget
  else if String.eqb s "hide" then
    match relatedTarget with
    | Some _ => throw TypeError            (* an element has no preventDefault *)
    | None => m_hide o false
    end
  else if String.eqb s "handleUpdate" then handleUpdate o
  else if String.eqb s "dispose" then modal_dispose o
  else throw TypeError.

Definition modal_jQueryInterface (els : list elem) (arg : plugin_arg) (relatedTarget : option elem) : M W unit :=
  for_each els (fun el =>
    data ← get_data el;
    d ← get_dom;
    let cfg := extends modal_Default (dataset d el) in
    let cfg := match arg with ArgObject c => extends cfg c | _ => cfg end in
    o ← (match data with
         | Some o => mret o
         | None => o ← Modal_new el cfg; set_data el o ;; mret o
         end);
    match arg with
    | ArgString s => modal_method s o relatedTarget
    | _ => if truthy (field cfg "show") then m_show o relatedTarget else skip
    end).

(** The click handler of [[data-toggle=modal]]. *)
Definition modal_click (this : elem) : M W unit :=
  selector ← selector_of this;
  target ← (match selector with
            | Some s => if String.eqb s "" then mret None else query_one None s
            | None => mret None
            end);
  d ← get_dom;
  when (val_is_str (prop d this "tagName") "A" || val_is_str (prop d this "tagName") "AREA") prevent_default ;;
  match target with
  | None => skip
  | Some target =>
      data ← get_data target;
      let arg := match data with
                 | Some _ => ArgString "toggle"
                 | None => ArgObject (extends (dataset d target) (dataset d this))
                 end in
      jq_one [target] "show.bs.modal" (Call (MApiShow this target)) ;;
      modal_jQueryInterface [target] arg (Some this)
  end.
End modal.
