(* ===== verification/BsSanitizer.v ===== *)
(** The HTML sanitizer of bootstrap.bundle.js (lines 5264-5377), which guards
    the content of tooltips and popovers.

    The parser and the printer of HTML are the browser's: [sanitizeHtml] takes
    them as parameters and works on the tree. *)
From Stdlib Require Import ZArith String Ascii.
From stdpp Require Import base list gmap strings.
From S2P Require Import Prelude Js JsDom BsUtil.

Local Open Scope Z_scope.

(** ** Regular expressions *)

Definition to_lower (c : ascii) : ascii :=
  if (65 <=? code c) && (code c <=? 90) then ascii_of_nat (nat_of_ascii c + 32) else c.

Definition toLowerCase (s : string) : string :=
  string_of_list_ascii (map to_lower (list_ascii_of_string s)).

Fixpoint all_chars (p : ascii -> bool) (s : string) : bool :=
  match s with String c s' => p c && all_chars p s' | EmptyString => true end.

(** [[\w-]] *)
Definition is_word_or_dash (c : ascii) : bool :=
  is_digit c || ((97 <=? code c) && (code c <=? 122)) || ((65 <=? code c) && (code c <=? 90))
  || (code c =? 95) || (code c =? 45).

(** [ARIA_ATTRIBUTE_PATTERN]: [aria-] and word characters or dashes. *)
Definition ARIA_ATTRIBUTE_PATTERN (s : string) : bool :=
  match strip_prefix "aria-" (toLowerCase s) with
  | Some r => all_chars is_word_or_dash r
  | None => false
  end.

(** The characters [[#&/:?]] and, among them, the ones that end a relative URL's
    first segment. *)
Definition url_special (c : ascii) : bool :=
  existsb (Ascii.eqb c) ["#"; "&"; "/"; ":"; "?"]%char.
Definition url_end (c : ascii) : bool := existsb (Ascii.eqb c) ["#"; "/"; "?"]%char.

Fixpoint relative_url (s : string) : bool :=
  match s with
  | EmptyString => true
  | String c s' => if url_special c then url_end c else relative_url s'
  end.

Definition safe_schemes : list string := ["http:"; "https:"; "mailto:"; "ftp:"; "tel:"; "file:"]%string.

(** [SAFE_URL_PATTERN]: a harmless scheme, or no scheme. *)
Definition SAFE_URL_PATTERN (s : string) : bool :=
  existsb (fun p => match strip_prefix p (toLowerCase s) with Some _ => true | None => false end) safe_schemes
  || relative_url s.

Definition data_types : list string :=
  ["image/bmp"; "image/gif"; "image/jpeg"; "image/jpg"; "image/png"; "image/tiff"; "image/webp";
   "video/mpeg"; "video/mp4"; "video/ogg"; "video/webm"; "audio/mp3"; "audio/oga"; "audio/ogg"; "audio/opus"]%string.

Definition is_base64 (c : ascii) : bool :=
  is_digit c || (code c =? 43) || (code c =? 47) || ((97 <=? code c) && (code c <=? 122)).

(** One or more base64 characters, then equals signs. *)
Fixpoint base64_tail (s : string) : bool :=
  match s with
  | String c s' => if is_base64 c then base64_tail s' else all_chars (fun c => code c =? 61) s
  | EmptyString => true
  end.

Definition base64_body (s : string) : bool :=
  match s with String c s' => is_base64 c && base64_tail s' | EmptyString => false end.

(** [DATA_URL_PATTERN]: an image, video or sound in base64. *)
Definition DATA_URL_PATTERN (s : string) : bool :=
  match strip_prefix "data:" (toLowerCase s) with
  | Some r => existsb (fun t => match strip_prefix (t ++ ";base64,") r with
                                | Some b => base64_body b
                                | None => false
                                end) data_types
  | None => false
  end.

(** ** Attributes *)

Definition uriAttrs : list string :=
  ["background"; "cite"; "href"; "itemtype"; "longdesc"; "poster"; "src"; "xlink:href"]%string.

(** An entry of a white list: a name, or a regular expression. *)
Inductive allowed := AName (s : string) | APattern (p : string -> bool).

Definition is_name (n : string) (a : allowed) : bool :=
  match a with AName s => String.eqb s n | APattern _ => false end.
Definition is_match (n : string) (a : allowed) : bool :=
  match a with AName _ => false | APattern p => p n end.

Record attribute := Attr { nodeName : string; nodeValue : string }.

Definition allowedAttribute (attr : attribute) (allowedAttributeList : list allowed) : bool :=
  let attrName := toLowerCase (nodeName attr) in
  if existsb (is_name attrName) allowedAttributeList then
    if existsb (String.eqb attrName) uriAttrs
    then SAFE_URL_PATTERN (nodeValue attr) || DATA_URL_PATTERN (nodeValue attr)
    else true
  else existsb (is_match attrName) allowedAttributeList.

(** ** Elements *)

Abbreviation whitelist := (list (string * list allowed)).

Definition names (l : list string) : list allowed := map AName l.

Definition plain (l : list string) : whitelist := map (fun n => (n, [])) l.

Definition DefaultWhitelist : whitelist :=
  [("*"%string, names ["class"; "dir"; "id"; "lang"; "role"]%string ++ [APattern ARIA_ATTRIBUTE_PATTERN]);
   ("a"%string, names ["target"; "href"; "title"; "rel"]%string)]
  ++ plain ["area"; "b"; "br"; "col"; "code"; "div"; "em"; "hr"; "h1"; "h2"; "h3"; "h4"; "h5"; "h6"; "i"]%string
  ++ [("img"%string, names ["src"; "srcset"; "alt"; "title"; "width"; "height"]%string)]
  ++ plain ["li"; "ol"; "p"; "pre"; "s"; "small"; "span"; "sub"; "sup"; "strong"; "u"; "ul"]%string.

Definition white_find (wl : whitelist) (n : string) : option (list allowed) :=
  snd <$> head (filter (fun p => p.1 = n) wl).

(** The tree below [body]. *)
Inductive node :=
  | Element (name : string) (attributes : list attribute) (children : list node)
  | Text (s : string).

(** The attributes [_loop] keeps on an element of the (lower case) name. *)
Definition keep_attributes (wl : whitelist) (elName : string) (l : list attribute) : list attribute :=
  let whitelistedAttributes := default [] (white_find wl "*") ++ default [] (white_find wl elName) in
  filter (fun a => allowedAttribute a whitelistedAttributes = true) l.

(** The loop over all elements in document order: one whose name is not listed
    is taken out of its parent with everything below it; of the others the
    attributes that are not allowed are removed. *)
Fixpoint sanitize_node (wl : whitelist) (n : node) : list node :=
  match n with
  | Text s => [Text s]
  | Element name attrs children =>
      let elName := toLowerCase name in
      if existsb (fun p => String.eqb p.1 elName) wl
      then [Element name (keep_attributes wl elName attrs) (flat_map (sanitize_node wl) children)]
      else []
  end.

Definition sanitize_tree (wl : whitelist) (l : list node) : list node := flat_map (sanitize_node wl) l.

Definition sanitizeHtml (parse : string -> list node) (print : list node -> string)
    (unsafeHtml : string) (wl : whitelist) (sanitizeFn : option (string -> string)) : string :=
  if (String.length unsafeHtml =? 0)%nat then unsafeHtml
  else match sanitizeFn with
       | Some f => f unsafeHtml
       | None => print (sanitize_tree wl (parse unsafeHtml))
       end.
