(* ===== verification/BsTabToast.v ===== *)
(** The Tab (lines 6569-6787) and Toast (6795-7005) plugins of
    bootstrap.bundle.js. *)
From Stdlib Require Import ZArith QArith String Ascii.
From stdpp Require Import base list gmap strings.
From coqutil Require Import Datatypes.RecordSetters.
From S2P Require Import Prelude Js JsDom BsUtil.

Local Open Scope Z_scope.

(** ** Tab *)

Record Tab := { tab_element : option elem }.

(** The callback [show] gives to [_activate]: it captures the previous tab. *)
Record tab_complete := TabComplete { tc_this : nat; tc_previous : option elem }.

(** The end of the fade of the pane that leaves. *)
Inductive tab_cb := TabTransition (element : elem) (active : option elem) (callback : option tab_complete).

Section tab.
Context {D : Type} `{Dom D}.
Local Abbreviation W := (World D Tab tab_cb).
Context (fire : event -> elem -> M W bool).

Definition is_list (d : D) (e : elem) : bool :=
  val_is_str (prop d e "nodeName") "UL" || val_is_str (prop d e "nodeName") "OL".

Definition tab_finish (c : tab_complete) : M W unit :=
  this ← get (tc_this c);
  trigger fire (tc_previous c) (Event "hidden.bs.tab" (tab_element this) []) ;;
  trigger fire (tab_element this) (Event "shown.bs.tab" (tc_previous c) []) ;;
  skip.

Definition tab_transitionComplete (element : elem) (active : option elem) (callback : option tab_complete) : M W unit :=
  (match active with
   | Some active =>
       mod_dom (jq_remove_class [active] "active") ;;
       d ← get_dom;
       dropdownChild ← (match parent d active with
                        | Some p => query_one (Some p) "> .dropdown-menu .active"
                        | None => mret None
                        end);
       mod_dom (jq_remove_class (option_list dropdownChild) "active") ;;
       when (bool_decide (attr d active "role" = Some "tab"%string))
         (mod_dom (set_attr active "aria-selected" (Some "false"%string)))
   | None => skip
   end) ;;
  mod_dom (jq_add_class [element] "active") ;;
  d ← get_dom;
  when (bool_decide (attr d element "role" = Some "tab"%string))
    (mod_dom (set_attr element "aria-selected" (Some "true"%string))) ;;
  when (has_class d element "fade") (mod_dom (add_class element "show")) ;;
  (match parent d element with
   | Some p =>
       if jq_has_class d [p] "dropdown-menu" then
         (match closest d element ".dropdown" with
          | Some dropdownElement =>
              toggles ← query_all (Some dropdownElement) ".dropdown-toggle";
              mod_dom (jq_add_class toggles "active")
          | None => skip
          end) ;;
         mod_dom (set_attr element "aria-expanded" (Some "true"%string))
       else skip
   | None => skip
   end) ;;
  match callback with Some c => tab_finish c | None => skip end.

Definition tab_activate (element : elem) (container : option elem) (callback : option tab_complete) : M W unit :=
  d ← get_dom;
  activeElements ← (match container with
                    | Some c => if is_list d c then query_all (Some c) "> li > .active"
                                else mret (filter (fun e => matches d e ".active" = true) (children d c))
                    | None => mret []
                    end);
  let active := head activeElements in
  let isTransitioning := bool_decide (is_Some callback) && jq_has_class d (option_list active) "fade" in
  match active with
  | Some a =>
      if isTransitioning then
        let transitionDuration := getTransitionDurationFromElement d (Some a) in
        mod_dom (jq_remove_class [a] "show") ;;
        jq_one [a] TRANSITION_END (Call (TabTransition element active callback)) ;;
        transitionEndEmulator [a] transitionDuration
      else tab_transitionComplete element active callback
  | None => tab_transitionComplete element active callback
  end.

(** The last active entry of the list the tab belongs to. *)
Definition tab_previous (d : D) (listElement : option elem) : M W (option elem) :=
  match listElement with
  | Some l =>
      found ← query_all (Some l) (if is_list d l then "> li > .active" else ".active");
      mret (last found)
  | None => mret None
  end.

Definition tab_show (o : nat) : M W unit :=
  this ← get o;
  el ← deref (tab_element this);
  d ← get_dom;
  if match parent d el with Some p => Qeq_bool (num_prop d p "nodeType") 1 | None => false end
       && has_class d el "active"
     || has_class d el "disabled" then skip
  else
    let listElement := closest d el ".nav, .list-group" in
    selector ← selector_of el;
    previous ← tab_previous d listElement;
    hidePrevented ← trigger fire previous (Event "hide.bs.tab" (Some el) []);
    showPrevented ← trigger fire (Some el) (Event "show.bs.tab" previous []);
    if (showPrevented || hidePrevented : bool) then skip
    else
      target ← (match selector with
                | Some s => if String.eqb s "" then mret None else query_one None s
                | None => mret None
                end);
      tab_activate el listElement None ;;
      match target with
      | Some target =>
          d ← get_dom;
          tab_activate target (parent d target) (Some (TabComplete o previous))
      | None => tab_finish (TabComplete o previous)
      end.

Definition tab_dispose (o : nat) : M W unit :=
  this ← get o;
  remove_data (tab_element this) ;;
  put o (fun _ => {| tab_element := None |}).

Definition tab_plug (k : tab_cb) : M W unit :=
  match k with TabTransition e a c => tab_transitionComplete e a c end.

Definition tab_method (s : string) (o : nat) : M W unit :=
  if String.eqb s "show" then tab_show o
  else if String.eqb s "dispose" then tab_dispose o
  else throw TypeError.

Definition tab_jQueryInterface (els : list elem) (arg : plugin_arg) : M W unit :=
  for_each els (fun el =>
    data ← get_data el;
    o ← (match data with
         | Some o => mret o
         | None => o ← alloc {| tab_element := Some el |}; set_data el o ;; mret o
         end);
    match arg with ArgString s => tab_method s o | _ => skip end).

(** The click handler of the tabs. *)
Definition tab_click (this : elem) : M W unit :=
  prevent_default ;; tab_jQueryInterface [this] (ArgString "show").
End tab.

(** ** Toast *)

Definition toast_DefaultType : list (string * string) :=
  [("animation", "boolean"); ("autohide", "boolean"); ("delay", "number")]%string.
Definition toast_Default : config := {[
  "animation" := VBool true; "autohide" := VBool true; "delay" := VNum 500 ]}%string.

Record Toast := {
  toast_element : option elem;
  toast_config : option config;
  toast_timeout : option nat;
  toast_listening : bool                 (* the click.dismiss listener *)
}.

(** [complete] of [show], of [_close], and the timer of [autohide]. *)
Inductive toast_cb := ToastShown (o : nat) | ToastClosed (o : nat) | ToastHide (o : nat).

Section toast.
Context {D : Type} `{Dom D}.
Local Abbreviation W := (World D Toast toast_cb).
Context (fire : event -> elem -> M W bool).

Definition toast_getConfig (d : D) (el : elem) (c : config) : exn + config :=
  let c := extends (extends toast_Default (dataset d el)) c in
  match typeCheckConfig (fun _ => "element"%string) "toast" c toast_DefaultType with
  | inr _ => inr c
  | inl e => inl e
  end.

Definition toast_clearTimeout (o : nat) : M W unit :=
  this ← get o;
  clear_task (toast_timeout this) ;;
  put o (fun this => this <| toast_timeout := None |>).

Definition delay_of (v : jsval) : Q := match v with VNum q => q | _ => 0 end.

Definition toast_shown (o : nat) : M W unit :=
  this ← get o;
  el ← deref (toast_element this);
  mod_dom (remove_class el "showing") ;;
  mod_dom (add_class el "show") ;;
  trigger fire (Some el) (ev "shown.bs.toast") ;;
  this ← get o;
  cfg ← deref (toast_config this);
  if truthy (field cfg "autohide") then
    id ← setTimeout (Call (ToastHide o)) (delay_of (field cfg "delay"));
    put o (fun this => this <| toast_timeout := Some id |>)
  else skip.

Definition toast_closed (o : nat) : M W unit :=
  this ← get o;
  el ← deref (toast_element this);
  mod_dom (add_class el "hide") ;;
  trigger fire (Some el) (ev "hidden.bs.toast") ;;
  skip.

(** The end of [show] and of [_close]: after the transition, or at once. *)
Definition toast_complete (o : nat) (el : elem) (k : toast_cb) (run : nat -> M W unit) : M W unit :=
  this ← get o;
  cfg ← deref (toast_config this);
  if truthy (field cfg "animation") then
    d ← get_dom;
    let transitionDuration := getTransitionDurationFromElement d (Some el) in
    jq_one [el] TRANSITION_END (Call k) ;;
    transitionEndEmulator [el] transitionDuration
  else run o.

Definition toast_show (o : nat) : M W unit :=
  this ← get o;
  isDefaultPrevented ← trigger fire (toast_element this) (ev "show.bs.toast");
  if (isDefaultPrevented : bool) then skip
  else
    toast_clearTimeout o ;;
    this ← get o;
    cfg ← deref (toast_config this);
    el ← deref (toast_element this);
    when (truthy (field cfg "animation")) (mod_dom (add_class el "fade")) ;;
    mod_dom (remove_class el "hide") ;;
    mod_dom (add_class el "showing") ;;
    toast_complete o el (ToastShown o) toast_shown.

Definition toast_close (o : nat) : M W unit :=
  this ← get o;
  el ← deref (toast_element this);
  mod_dom (remove_class el "show") ;;
  toast_complete o el (ToastClosed o) toast_closed.

Definition toast_hide (o : nat) : M W unit :=
  this ← get o;
  el ← deref (toast_element this);
  d ← get_dom;
  if negb (has_class d el "show") then skip
  else
    isDefaultPrevented ← trigger fire (Some el) (ev "hide.bs.toast");
    if (isDefaultPrevented : bool) then skip else toast_close o.

Definition toast_dispose (o : nat) : M W unit :=
  toast_clearTimeout o ;;
  this ← get o;
  el ← deref (toast_element this);
  mod_dom (fun d => if has_class d el "show" then remove_class el "show" d else d) ;;
  remove_data (Some el) ;;
  put o (fun this => this <| toast_listening := false |> <| toast_element := None |> <| toast_config := None |>).

Definition toast_setListeners (o : nat) : M W unit :=
  put o (fun this => this <| toast_listening := true |>).

Definition Toast_new (el : elem) (c : config) : M W nat :=
  d ← get_dom;
  cfg ← lift_result (toast_getConfig d el c);
  o ← alloc {| toast_element := Some el; toast_config := Some cfg; toast_timeout := None;
               toast_listening := false |};
  toast_setListeners o ;;
  mret o.

(** A click on the toast's dismissing element, [data-dismiss=toast]. *)
Definition toast_dismiss (o : nat) : M W unit :=
  this ← get o;
  when (toast_listening this) (toast_hide o).

Definition toast_plug (k : toast_cb) : M W unit :=
  match k with
  | ToastShown o => toast_shown o
  | ToastClosed o => toast_closed o
  | ToastHide o => toast_hide o
  end.

Definition toast_method (s : string) (o : nat) : M W unit :=
  if String.eqb s "show" then toast_show o
  else if String.eqb s "hide" then toast_hide o
  else if String.eqb s "dispose" then toast_dispose o
  else throw TypeError.

Definition toast_jQueryInterface (els : list elem) (arg : plugin_arg) : M W unit :=
  for_each els (fun el =>
    data ← get_data el;
    o ← (match data with
         | Some o => mret o
         | None => o ← Toast_new el (match arg with ArgObject c => c | _ => ∅ end);
                   set_data el o ;; mret o
         end);
    match arg with ArgString s => toast_method s o | _ => skip end).
End toast.
