(* ===== verification/BsScrollSpy.v ===== *)
(** The ScrollSpy plugin (lines 6277-6561 of bootstrap.bundle.js). *)
From Stdlib Require Import ZArith QArith Qminmax String Ascii.
From stdpp Require Import base list gmap strings.
From coqutil Require Import Datatypes.RecordSetters.
From S2P Require Import Prelude Js JsSort JsDom BsUtil.

Local Open Scope Z_scope.

Definition scrollspy_Default : config := {[
  "offset" := VNum 10; "method" := VStr "auto"; "target" := VStr "" ]}%string.
Definition scrollspy_DefaultType : list (string * string) :=
  [("offset", "number"); ("method", "string"); ("target", "(string|element)")]%string.

(** What scrolls: the window, or the element. *)
Inductive scroll_element := SWindow | SElem (e : elem).

Record ScrollSpy := {
  ss_element : option elem;
  ss_scrollElement : option scroll_element;
  ss_config : option config;
  ss_selector : string;
  ss_offsets : list Q;
  ss_targets : list string;
  ss_activeTarget : jsval;               (* [null], [undefined] or a selector *)
  ss_scrollHeight : Q;
  ss_listening : bool                    (* the scroll listener *)
}.

(** [a !== b] of targets. *)
Definition target_neq (a b : jsval) : bool :=
  match a, b with
  | VStr s, VStr t => negb (String.eqb s t)
  | VNull, VNull | VUndef, VUndef => false
  | _, _ => true
  end.

Definition nth_target (l : list string) (i : nat) : jsval :=
  match l !! i with Some s => VStr s | None => VUndef end.

Definition qle (a b : Q) : bool := Qle_bool a b.
Definition qltb (a b : Q) : bool := negb (Qle_bool b a).

(** The condition of the loop of [_process] on index [i]. *)
Definition isActiveTarget (this : ScrollSpy) (scrollTop : Q) (i : nat) : bool :=
  target_neq (ss_activeTarget this) (nth_target (ss_targets this) i)
  && match ss_offsets this !! i with Some o => qle o scrollTop | None => false end
  && match ss_offsets this !! S i with Some o => qltb scrollTop o | None => true end.

(** [a[0] - b[0]] *)
Definition offset_cmp : comparator (Q * string) := fun a b => Some (Some (a.1 - b.1)%Q).

Section scrollspy.
Context {D : Type} `{Dom D}.
Local Abbreviation W := (World D ScrollSpy Empty_set).
Context (fire : event -> elem -> M W bool)
        (** the window's listeners, its scroll position and height *)
        (fire_window : event -> M W bool) (pageYOffset window_innerHeight : D -> Q)
        (** [$(e).offset().top], [$(e).position().top] *)
        (jq_offset_top jq_position_top : D -> elem -> Q)
        (has_id : D -> string -> bool) (random : nat -> Q) (uid_fuel : nat).

Definition ss_getScrollTop (d : D) (s : scroll_element) : Q :=
  match s with SWindow => pageYOffset d | SElem e => num_prop d e "scrollTop" end.

Definition ss_getScrollHeight (d : D) (s : scroll_element) : Q :=
  let other := Qmax (num_prop d body "scrollHeight") (num_prop d document_element "scrollHeight") in
  match s with
  | SWindow => other
  | SElem e => let h := num_prop d e "scrollHeight" in if Qeq_bool h 0 then other else h
  end.

Definition ss_getOffsetHeight (d : D) (s : scroll_element) : Q :=
  match s with SWindow => window_innerHeight d | SElem e => cr_height (bounding_rect d e) end.

(** [$(target)[offsetMethod]().top]; another method name is no function. *)
Definition method_top (d : D) (m : string) (e : elem) : option Q :=
  if String.eqb m "offset" then Some (jq_offset_top d e)
  else if String.eqb m "position" then Some (jq_position_top d e) else None.

(** The [map] of [refresh]: the position and selector of a link's target. *)
Definition link_target (d : D) (m : string) (base : Q) (el : elem) : exn + option (Q * string) :=
  match getSelectorFromElement d el with
  | Some s =>
      if String.eqb s "" then inr None else
      match document_query d s with
      | None => inl SyntaxError
      | Some None => inr None
      | Some (Some target) =>
          let r := bounding_rect d target in
          if negb (Qeq_bool (cr_width r) 0) || negb (Qeq_bool (cr_height r) 0) then
            match method_top d m target with
            | Some top => inr (Some ((top + base)%Q, s))
            | None => inl TypeError
            end
          else inr None
      end
  | None => inr None
  end.

Fixpoint link_targets (d : D) (m : string) (base : Q) (els : list elem) : exn + list (Q * string) :=
  match els with
  | [] => inr []
  | el :: els =>
      match link_target d m base el, link_targets d m base els with
      | inl e, _ => inl e
      | _, inl e => inl e
      | inr (Some p), inr l => inr (p :: l)
      | inr None, inr l => inr l
      end
  end.

Definition ss_refresh (o : nat) : M W unit :=
  this ← get o;
  scr ← deref (ss_scrollElement this);
  cfg ← deref (ss_config this);
  d ← get_dom;
  let autoMethod := match scr with SWindow => "offset" | SElem _ => "position" end%string in
  let offsetMethod := match field cfg "method" with
                      | VStr s => if String.eqb s "auto" then autoMethod else s
                      | _ => ""%string
                      end in
  let offsetBase := if String.eqb offsetMethod "position" then ss_getScrollTop d scr else 0%Q in
  put o (fun this => this <| ss_offsets := [] |> <| ss_targets := [] |>
                          <| ss_scrollHeight := ss_getScrollHeight d scr |>) ;;
  els ← query_all None (ss_selector this);
  items ← lift_result (link_targets d offsetMethod offsetBase els);
  sorted ← deref (array_sort offset_cmp items);
  put o (fun this => this <| ss_offsets := map fst sorted |> <| ss_targets := map snd sorted |>).

Definition ss_clear (o : nat) : M W unit :=
  this ← get o;
  els ← query_all None (ss_selector this);
  mod_dom (fun d => foldl (fun d e => if has_class d e "active" then remove_class e "active" d else d) d els).

(** [$(els).parents(sel).prev(sel')] *)
Definition jq_parents (d : D) (els : list elem) (sel : string) : list elem :=
  remove_dups (flat_map (fun e => filter (fun a => matches d a sel = true) (ancestors d e)) els).
Definition jq_prev (d : D) (els : list elem) (sel : string) : list elem :=
  filter (fun e => matches d e sel = true) (omap (prev_sibling d) els).
Definition jq_children (d : D) (els : list elem) (sel : string) : list elem :=
  filter (fun e => matches d e sel = true) (flat_map (children d) els).
Definition jq_closest (d : D) (els : list elem) (sel : string) : list elem :=
  remove_dups (omap (fun e => closest d e sel) els).

Fixpoint query_each (els : list elem) (sel : string) : M W (list elem) :=
  match els with
  | [] => mret []
  | e :: els => l ← query_all (Some e) sel; rest ← query_each els sel; mret (l ++ rest)
  end.

Fixpoint join_comma (l : list string) : string :=
  match l with [] => "" | [s] => s | s :: l => s ++ "," ++ join_comma l end%string.

(** The links to a target. *)
Definition activate_query (selector target : string) : string :=
  join_comma (map (fun s => (s ++ "[data-target=" ++ dquote ++ target ++ dquote ++ "]," ++
                             s ++ "[href=" ++ dquote ++ target ++ dquote ++ "]")%string) (split "," selector)).

Definition ss_activate (o : nat) (target : jsval) : M W unit :=
  put o (fun this => this <| ss_activeTarget := target |>) ;;
  ss_clear o ;;
  this ← get o;
  link ← query_all None (activate_query (ss_selector this) (js_str target));
  d ← get_dom;
  (if jq_has_class d link "dropdown-item" then
     toggles ← query_each (jq_closest d link ".dropdown") ".dropdown-toggle";
     mod_dom (jq_add_class toggles "active") ;;
     mod_dom (jq_add_class link "active")
   else
     mod_dom (jq_add_class link "active") ;;
     mod_dom (fun d => jq_add_class (jq_prev d (jq_parents d link ".nav, .list-group") ".nav-link, .list-group-item") "active" d) ;;
     mod_dom (fun d => jq_add_class (jq_children d (jq_prev d (jq_parents d link ".nav, .list-group") ".nav-item") ".nav-link") "active" d)) ;;
  this ← get o;
  match ss_scrollElement this with
  | Some (SElem e) => fire (Event "activate.bs.scrollspy" None [("relatedTarget"%string, target)]) e ;; skip
  | Some SWindow => fire_window (Event "activate.bs.scrollspy" None [("relatedTarget"%string, target)]) ;; skip
  | None => skip
  end.

(** The loop of [_process], from the last index down. *)
Fixpoint ss_loop (o : nat) (scrollTop : Q) (i : nat) : M W unit :=
  match i with
  | O => skip
  | S i =>
      this ← get o;
      when (isActiveTarget this scrollTop i) (ss_activate o (nth_target (ss_targets this) i)) ;;
      ss_loop o scrollTop i
  end.

Definition ss_process (o : nat) : M W unit :=
  this ← get o;
  scr ← deref (ss_scrollElement this);
  cfg ← deref (ss_config this);
  d ← get_dom;
  let offset := match field cfg "offset" with VNum q => q | _ => 0%Q end in
  let scrollTop := (ss_getScrollTop d scr + offset)%Q in
  let scrollHeight := ss_getScrollHeight d scr in
  let maxScroll := (offset + scrollHeight - ss_getOffsetHeight d scr)%Q in
  when (negb (Qeq_bool (ss_scrollHeight this) scrollHeight)) (ss_refresh o) ;;
  this ← get o;
  if qle maxScroll scrollTop then
    let target := match last (ss_targets this) with Some s => VStr s | None => VUndef end in
    when (target_neq (ss_activeTarget this) target) (ss_activate o target)
  else if truthy (ss_activeTarget this)
          && match head (ss_offsets this) with Some f => qltb scrollTop f && qltb 0 f | None => false end then
    put o (fun this => this <| ss_activeTarget := VNull |>) ;;
    ss_clear o
  else ss_loop o scrollTop (length (ss_offsets this)).

(** The element of [$(config.target)], unless the target is an object with a
    [nodeType] of its own. *)
Definition target_element (target : jsval) : option elem :=
  match target with
  | VElem e => Some e
  | VJq (e :: _) => Some e
  | VArr (VElem e :: _) => Some e
  | _ => None
  end.

(** [$(config.target).attr('id')]; of such an object it is its property. *)
Definition target_id (d : D) (target : jsval) : jsval :=
  match target_element target with
  | Some e => match attr d e "id" with Some id => VStr id | None => VUndef end
  | None => obj_field (match target with VArr (v :: _) => v | v => v end) "id"
  end.

Definition ss_getConfig (c : config) : M W config :=
  let c := extends scrollspy_Default c in
  c ← (match field c "target" with
       | VUndef | VNull => throw TypeError
       | target =>
         if isElement target then
           d ← get_dom;
           let id := target_id d target in
           if truthy id then mret (<["target"%string := VStr ("#" ++ js_str id)]> c)
           else
             id ← deref (getUID uid_fuel (has_id d) random 0 "scrollspy");
             match target_element target with
             | Some el => mod_dom (set_attr el "id" (Some id))
             | None => skip
             end ;;
             mret (<["target"%string := VStr ("#" ++ id)]> c)
         else mret c
       end);
  lift_result (typeCheckConfig (fun _ => "element"%string) "scrollspy" c scrollspy_DefaultType) ;;
  mret c.

Definition ScrollSpy_new (el : elem) (c : config) : M W nat :=
  d ← get_dom;
  let scr := if val_is_str (prop d el "tagName") "BODY" then SWindow else SElem el in
  cfg ← ss_getConfig c;
  let target := js_str (field cfg "target") in
  let selector := (target ++ " .nav-link," ++ target ++ " .list-group-item," ++ target ++ " .dropdown-item")%string in
  o ← alloc {| ss_element := Some el; ss_scrollElement := Some scr; ss_config := Some cfg;
               ss_selector := selector; ss_offsets := []; ss_targets := []; ss_activeTarget := VNull;
               ss_scrollHeight := 0; ss_listening := true |};
  ss_refresh o ;;
  ss_process o ;;
  mret o.

Definition ss_dispose (o : nat) : M W unit :=
  this ← get o;
  remove_data (ss_element this) ;;
  put o (fun _ => {| ss_element := None; ss_scrollElement := None; ss_config := None; ss_selector := "";
                     ss_offsets := []; ss_targets := []; ss_activeTarget := VNull; ss_scrollHeight := 0;
                     ss_listening := false |}).

Definition scrollspy_method (s : string) (o : nat) : M W unit :=
  if String.eqb s "refresh" then ss_refresh o
  else if String.eqb s "dispose" then ss_dispose o
  else throw TypeError.

Definition scrollspy_jQueryInterface (els : list elem) (arg : plugin_arg) : M W unit :=
  for_each els (fun el =>
    data ← get_data el;
    o ← (match data with
         | Some o => mret o
         | None => o ← ScrollSpy_new el (match arg with ArgObject c => c | _ => ∅ end);
                   set_data el o ;; mret o
         end);
    match arg with ArgString s => scrollspy_method s o | _ => skip end).

(** The load handler: the spies of the page, the last one first. *)
Definition scrollspy_load : M W unit :=
  scrollSpys ← query_all None "[data-spy=scroll]";
  for_each (rev scrollSpys) (fun el => d ← get_dom; scrollspy_jQueryInterface [el] (ArgObject (dataset d el))).
End scrollspy.
