(* ===== verification/BsTooltip.v ===== *)
(** The Tooltip (lines 5385-6089) and Popover (6097-6269) plugins of
    bootstrap.bundle.js.  [Popover] extends [Tooltip] and overrides six methods:
    one model, with the class as a parameter. *)
From Stdlib Require Import ZArith QArith String Ascii.
From stdpp Require Import base list gmap strings.
From coqutil Require Import Datatypes.RecordSetters.
From S2P Require Import Prelude Js JsDom BsUtil PopperDom PopperModifiers PopperClass BsDropdown BsSanitizer.

Local Open Scope Z_scope.

(** The constructor of an instance. *)
Inductive tip_class := ClsTooltip | ClsPopover.

Definition tip_NAME (k : tip_class) : string :=
  match k with ClsTooltip => "tooltip" | ClsPopover => "popover" end.
Definition tip_EVENT_KEY (k : tip_class) : string := (".bs." ++ tip_NAME k)%string.
Definition tip_event (k : tip_class) (name : string) : string := (name ++ tip_EVENT_KEY k)%string.
Definition tip_CLASS_PREFIX (k : tip_class) : string := ("bs-" ++ tip_NAME k)%string.

Definition DISALLOWED_ATTRIBUTES : list string := ["sanitize"; "whiteList"; "sanitizeFn"]%string.

Definition tooltip_DefaultType : list (string * string) := [
  ("animation", "boolean"); ("template", "string"); ("title", "(string|element|function)");
  ("trigger", "string"); ("delay", "(number|object)"); ("html", "boolean"); ("selector", "(string|boolean)");
  ("placement", "(string|function)"); ("offset", "(number|string|function)");
  ("container", "(string|element|boolean)"); ("fallbackPlacement", "(string|array)");
  ("boundary", "(string|element)"); ("sanitize", "boolean"); ("sanitizeFn", "(null|function)");
  ("whiteList", "object"); ("popperConfig", "(null|object)")]%string.

Definition tip_DefaultType (k : tip_class) : list (string * string) :=
  match k with
  | ClsTooltip => tooltip_DefaultType
  | ClsPopover => tooltip_DefaultType ++ [("content", "(string|element|function)")]%string
  end.

(** Single quotes for the double ones of the source's templates. *)
Definition tooltip_template : string :=
  "<div class='tooltip' role='tooltip'><div class='arrow'></div><div class='tooltip-inner'></div></div>".
Definition popover_template : string :=
  "<div class='popover' role='tooltip'><div class='arrow'></div><h3 class='popover-header'></h3><div class='popover-body'></div></div>".

(** The object [DefaultWhitelist]. *)
Definition default_whitelist : jsval := VRef 0.

Definition tooltip_Default : config := list_to_map [
  ("animation", VBool true); ("template", VStr tooltip_template); ("trigger", VStr "hover focus");
  ("title", VStr ""); ("delay", VNum 0); ("html", VBool false); ("selector", VBool false);
  ("placement", VStr "top"); ("offset", VNum 0); ("container", VBool false);
  ("fallbackPlacement", VStr "flip"); ("boundary", VStr "scrollParent"); ("sanitize", VBool true);
  ("sanitizeFn", VNull); ("whiteList", default_whitelist); ("popperConfig", VNull)]%string.

Definition tip_Default (k : tip_class) : config :=
  match k with
  | ClsTooltip => tooltip_Default
  | ClsPopover => extends tooltip_Default {[
      "placement" := VStr "right"; "trigger" := VStr "click"; "content" := VStr "";
      "template" := VStr popover_template ]}%string
  end.

Inductive hover_state := HoverNone | HoverShow | HoverOut.

Global Instance hover_state_eq_dec : EqDecision hover_state.
Proof. solve_decision. Defined.

Record triggers := Triggers { tr_click : bool; tr_focus : bool; tr_hover : bool }.

(** What a listener of [_setListeners] does with its event. *)
Inductive tip_listener := TlToggle | TlEnter | TlLeave.

Record Tooltip (P : Type) := {
  t_isEnabled : bool;
  t_timeout : option nat;
  t_hoverState : hover_state;
  t_activeTrigger : triggers;
  t_popper : option P;
  t_element : option elem;
  t_config : option config;
  t_tip : option elem;
  t_listeners : list (string * tip_listener);
  t_modal : option elem                  (* the modal whose hide event hides the tip *)
}.
Arguments t_isEnabled {P}.
Arguments t_timeout {P}.
Arguments t_hoverState {P}.
Arguments t_activeTrigger {P}.
Arguments t_popper {P}.
Arguments t_element {P}.
Arguments t_config {P}.
Arguments t_tip {P}.
Arguments t_listeners {P}.
Arguments t_modal {P}.

(** [complete] of [show] and of [hide], and the two delays. *)
Inductive tip_cb :=
  | TipShown (o : nat)
  | TipHidden (o : nat) (tip : elem)
  | TipEnter (o : nat)
  | TipLeave (o : nat).

(** [AttachmentMap[placement.toUpperCase()]] in a class name; a placement with a
    variation is not in the map. *)
Definition AttachmentMap : list (string * string) :=
  [("AUTO", "auto"); ("TOP", "top"); ("RIGHT", "right"); ("BOTTOM", "bottom"); ("LEFT", "left")]%string.

Definition _getAttachment (placement : string) : option string :=
  snd <$> find (fun p => String.eqb (toUpperCase placement) p.1) AttachmentMap.

Definition attachment_class (k : tip_class) (attachment : option string) : string :=
  (tip_CLASS_PREFIX k ++ "-" ++ default "undefined" attachment)%string.

(** The classes [BSCLS_PREFIX_REGEX] matches: the prefix and something more. *)
Definition prefixed_class (k : tip_class) (c : string) : bool :=
  match strip_prefix (tip_CLASS_PREFIX k) c with Some (String _ _) => true | _ => false end.

(** [a !== b]. Arrays and objects are compared by identity: the only object of
    the defaults is [DefaultWhitelist], an array or object of any other option
    is not it. *)
Definition val_neq (a b : jsval) : bool :=
  match a, b with
  | VUndef, VUndef | VNull, VNull => false
  | VBool x, VBool y => negb (Bool.eqb x y)
  | VNum x, VNum y => negb (Qeq_bool x y)
  | VStr s, VStr t => negb (String.eqb s t)
  | VElem e, VElem f => negb (e =? f)%nat
  | VFun f, VFun g => negb (f =? g)%nat
  | VRef r, VRef s => negb (r =? s)%nat
  | _, _ => true
  end.

Section tooltip.
Context {D : Type} `{Dom D} {P : Type} `{PopperApi P} (k : tip_class).
Local Abbreviation W := (World D (Tooltip P) tip_cb).
Context (fire : event -> elem -> M W bool)
        (** functions of the user's configuration: title and content, placement,
            the custom sanitizer, the Popper options *)
        (call_value : nat -> elem -> D -> jsval) (call_placement : nat -> elem -> elem -> D -> string)
        (sanitizer_of : jsval -> option (string -> string)) (whitelist_of : jsval -> whitelist)
        (user_popper_config : list (string * jsval) -> popper_options -> popper_options)
        (** HTML: the browser's parser and printer, jQuery's construction of a tip *)
        (parse_html : string -> list node) (print_html : list node -> string)
        (fun_length : nat -> nat)          (* the number of a function's parameters *)
        (** [$(o).text()] and [$(els).append(o)] of an object that is no node *)
        (object_text : jsval -> string) (append_object : list elem -> jsval -> D -> D * (exn + unit))
        (make_template : string -> D -> elem * D)
        (** identifiers, the shadow DOM *)
        (has_id : D -> string -> bool) (random : nat -> Q) (fuel : nat)
        (attachShadow : bool) (getRootNode : option (elem -> elem)) (is_shadow_root : elem -> bool).

(** ** Configuration *)

(** The white list an option stands for. *)
Definition whitelist_value (v : jsval) : whitelist :=
  match v with VRef O => DefaultWhitelist | _ => whitelist_of v end.

Definition tip_sanitize (c : config) (html : string) : string :=
  sanitizeHtml parse_html print_html html (whitelist_value (field c "whiteList")) (sanitizer_of (field c "sanitizeFn")).

Definition num_to_str (key : string) (c : config) : config :=
  match field c key with VNum q => <[key := VStr (num_str q)]> c | _ => c end.

Definition tip_getConfig (d : D) (el : elem) (c : config) : exn + config :=
  let dataAttributes := filter (fun p => bool_decide (p.1 ∈ DISALLOWED_ATTRIBUTES) = false) (dataset d el) in
  let c := extends (extends (tip_Default k) dataAttributes) c in
  let c := match field c "delay" with
           | VNum q => <["delay" := VObj [("show", VNum q); ("hide", VNum q)]]> c
           | _ => c
           end%string in
  let c := num_to_str "content" (num_to_str "title" c) in
  match typeCheckConfig (fun _ => "element"%string) "tooltip" c (tip_DefaultType k) with
  | inl e => inl e
  | inr _ =>
      inr (if truthy (field c "sanitize")
           then <["template"%string := VStr (tip_sanitize c (js_str (field c "template")))]> c
           else c)
  end.

(** The options that differ from the defaults. *)
Definition _getDelegateConfig (c : option config) : config :=
  match c with
  | Some c => filter (fun p => val_neq (field (tip_Default k) p.1) p.2 = true) c
  | None => ∅
  end.

Definition _fixTitle (el : elem) (d : D) : D :=
  let title := attr d el "title" in
  let has_title := match title with Some s => negb (String.eqb s "") | None => false end in
  if has_title || bool_decide (attr d el "data-original-title" = None) then
    set_attr el "title" (Some ""%string)
      (set_attr el "data-original-title" (Some (default ""%string title)) d)
  else d.

(** The listeners of one word of [trigger]. *)
Definition trigger_listeners (t : string) : list (string * tip_listener) :=
  if String.eqb t "click" then [(tip_event k "click", TlToggle)]
  else if String.eqb t "manual" then []
  else if String.eqb t "hover" then [(tip_event k "mouseenter", TlEnter); (tip_event k "mouseleave", TlLeave)]
  else [(tip_event k "focusin", TlEnter); (tip_event k "focusout", TlLeave)].

Definition tip_setListeners (o : nat) : M W unit :=
  this ← get o;
  cfg ← deref (t_config this);
  el ← deref (t_element this);
  d ← get_dom;
  let words := split " " (js_str (field cfg "trigger")) in
  put o (fun this => this <| t_listeners := flat_map trigger_listeners words |>
                          <| t_modal := closest d el ".modal" |>) ;;
  if truthy (field cfg "selector")
  then put o (fun this => this <| t_config := Some (<["selector" := VStr ""]> (<["trigger" := VStr "manual"]> cfg)) |>)
  else mod_dom (_fixTitle el).

Definition Tooltip_new (el : elem) (c : config) : M W nat :=
  d ← get_dom;
  cfg ← lift_result (tip_getConfig d el c);
  o ← alloc {| t_isEnabled := true; t_timeout := None; t_hoverState := HoverNone;
               t_activeTrigger := Triggers false false false; t_popper := None; t_element := Some el;
               t_config := Some cfg; t_tip := None; t_listeners := []; t_modal := None |};
  tip_setListeners o ;;
  mret o.

(** The instance of the element an event came to, made on demand. *)
Definition context_of (o : nat) (el : elem) : M W nat :=
  data ← get_data el;
  match data with
  | Some c => mret c
  | None =>
      this ← get o;
      c ← Tooltip_new el (_getDelegateConfig (t_config this));
      set_data el c ;;
      mret c
  end.

(** ** The tip and its content *)

(** [$(template)[0]] *)
Definition from_template (template : jsval) : M W elem := fun w =>
  let '(e, d) := make_template (js_str template) (dom w) in (w <| dom := d |>, inr e).

Definition tooltip_getTipElement (o : nat) : M W elem :=
  this ← get o;
  match t_tip this with
  | Some t => mret t
  | None =>
      cfg ← deref (t_config this);
      tip ← from_template (field cfg "template");
      put o (fun this => this <| t_tip := Some tip |>) ;;
      mret tip
  end.

(** The override of [Popover] has the same text. *)
Definition popover_getTipElement (o : nat) : M W elem :=
  this ← get o;
  match t_tip this with
  | Some t => mret t
  | None =>
      cfg ← deref (t_config this);
      tip ← from_template (field cfg "template");
      put o (fun this => this <| t_tip := Some tip |>) ;;
      mret tip
  end.

Definition getTipElement (o : nat) : M W elem :=
  match k with ClsTooltip => tooltip_getTipElement o | ClsPopover => popover_getTipElement o end.

Definition getTitle (o : nat) : M W jsval :=
  this ← get o;
  el ← deref (t_element this);
  d ← get_dom;
  match attr d el "data-original-title" with
  | Some s => if negb (String.eqb s "") then mret (VStr s)
              else cfg ← deref (t_config this);
                   mret (match field cfg "title" with VFun f => call_value f el d | v => v end)
  | None => cfg ← deref (t_config this);
            mret (match field cfg "title" with VFun f => call_value f el d | v => v end)
  end.

(** Popover only. *)
Definition _getContent (o : nat) : M W jsval :=
  this ← get o;
  el ← deref (t_element this);
  d ← get_dom;
  cfg ← deref (t_config this);
  mret (match attr d el "data-content" with
        | Some s => if String.eqb s "" then field cfg "content" else VStr s
        | None => field cfg "content"
        end).

Definition tooltip_isWithContent (o : nat) : M W bool := title ← getTitle o; mret (truthy title).

Definition popover_isWithContent (o : nat) : M W bool :=
  title ← getTitle o;
  if truthy title then mret true else c ← _getContent o; mret (truthy c).

Definition isWithContent (o : nat) : M W bool :=
  match k with ClsTooltip => tooltip_isWithContent o | ClsPopover => popover_isWithContent o end.

(** [typeof content === 'object' && (content.nodeType || content.jquery)]: what
    [null] evaluates throws. *)
Definition content_is_node (v : jsval) : exn + bool :=
  match v with
  | VNull => inl TypeError
  | VElem _ | VJq _ => inr true
  | VObj _ => inr (truthy (nodeType v) || truthy (obj_field v "jquery"))
  | _ => inr false
  end.

(** The element of a content that is an element or a jQuery object. *)
Definition content_element (v : jsval) : option elem :=
  match v with VElem e => Some e | VJq l => head l | _ => None end.

(** [sanitizeHtml(content, ...)] of any value: one whose [length] is 0 comes
    back as it is. *)
Definition value_length (v : jsval) : jsval :=
  match v with
  | VStr s => VNum (inject_Z (Z.of_nat (String.length s)))
  | VArr l => VNum (inject_Z (Z.of_nat (length l)))
  | VFun f => VNum (inject_Z (Z.of_nat (fun_length f)))
  | _ => obj_field v "length"
  end.

Definition sanitize_content (c : config) (content : jsval) : exn + jsval :=
  match content with
  | VUndef | VNull => inl TypeError
  | _ => inr (match value_length content with
              | VNum q => if Qeq_bool q 0 then content else VStr (tip_sanitize c (js_str content))
              | _ => VStr (tip_sanitize c (js_str content))
              end)
  end.

(** [$element.html(v)] and [$element.text(v)]: [undefined] reads and writes
    nothing; a function is called for each element. *)
Definition jq_write (key : string) (v : jsval) (els : list elem) (d : D) : D :=
  let write (v : jsval) e d := match v with VUndef => d | _ => set_prop e key v d end in
  jq_each (fun e d => write (match v with VFun f => call_value f e d | _ => v end) e d) els d.

Definition append_forged (els : list elem) (content : jsval) : M W unit := fun w =>
  let '(d, r) := append_object els content (dom w) in (w <| dom := d |>, r).

Definition setElementContent (o : nat) (els : list elem) (content : jsval) : M W unit :=
  this ← get o;
  cfg ← deref (t_config this);
  d ← get_dom;
  is_node ← lift_result (content_is_node content);
  if (is_node : bool) then
    if truthy (field cfg "html") then
      match content with
      | VObj _ =>
          mod_dom (jq_each (fun e => set_prop e "innerHTML" (VStr "")) els) ;;
          append_forged els content
      | _ =>
          let c := content_element content in
          if match c ≫= parent d with Some p => existsb (Nat.eqb p) els | None => false end then skip
          else mod_dom (jq_each (fun e d =>
                match c with
                | Some c => append_child e c (set_prop e "innerHTML" (VStr "") d)
                | None => set_prop e "innerHTML" (VStr "") d
                end) els)
      end
    else
      let text := match content with
                  | VObj _ => VStr (object_text content)
                  | _ => match content_element content with Some c => prop d c "textContent" | None => VStr "" end
                  end in
      mod_dom (jq_each (fun e => set_prop e "textContent" text) els)
  else if truthy (field cfg "html") then
    html ← (if truthy (field cfg "sanitize") then lift_result (sanitize_content cfg content) else mret content);
    mod_dom (jq_write "innerHTML" html els)
  else mod_dom (jq_write "textContent" content els).

Definition tooltip_setContent (o : nat) : M W unit :=
  tip ← tooltip_getTipElement o;
  els ← query_all (Some tip) ".tooltip-inner";
  title ← getTitle o;
  setElementContent o els title ;;
  mod_dom (jq_remove_class [tip] "fade show").

Definition popover_setContent (o : nat) : M W unit :=
  tip ← popover_getTipElement o;
  els ← query_all (Some tip) ".popover-header";
  title ← getTitle o;
  setElementContent o els title ;;
  this ← get o;
  content ← _getContent o;
  el ← deref (t_element this);
  d ← get_dom;
  let content := match content with VFun f => call_value f el d | v => v end in
  els ← query_all (Some tip) ".popover-body";
  setElementContent o els content ;;
  mod_dom (jq_remove_class [tip] "fade show").

Definition setContent (o : nat) : M W unit :=
  match k with ClsTooltip => tooltip_setContent o | ClsPopover => popover_setContent o end.

Definition tooltip_addAttachmentClass (o : nat) (attachment : option string) : M W unit :=
  tip ← tooltip_getTipElement o;
  mod_dom (jq_add_class [tip] (attachment_class ClsTooltip attachment)).

Definition popover_addAttachmentClass (o : nat) (attachment : option string) : M W unit :=
  tip ← popover_getTipElement o;
  mod_dom (jq_add_class [tip] (attachment_class ClsPopover attachment)).

Definition addAttachmentClass (o : nat) (attachment : option string) : M W unit :=
  match k with
  | ClsTooltip => tooltip_addAttachmentClass o attachment
  | ClsPopover => popover_addAttachmentClass o attachment
  end.

Definition tooltip_cleanTipClass (o : nat) : M W unit :=
  tip ← tooltip_getTipElement o;
  mod_dom (fun d => foldl (fun d c => remove_class tip c d) d
                      (filter (fun c => prefixed_class ClsTooltip c = true) (class_list d tip))).

Definition popover_cleanTipClass (o : nat) : M W unit :=
  tip ← popover_getTipElement o;
  mod_dom (fun d => foldl (fun d c => remove_class tip c d) d
                      (filter (fun c => prefixed_class ClsPopover c = true) (class_list d tip))).

Definition _cleanTipClass (o : nat) : M W unit :=
  match k with ClsTooltip => tooltip_cleanTipClass o | ClsPopover => popover_cleanTipClass o end.

Definition tip_getContainer (c : config) (els : list elem) : list elem :=
  match field c "container" with
  | VBool false => [body]
  | VElem e => [e]
  | VJq l => l
  | VArr l => omap (fun v => match v with VElem e => Some e | _ => None end) l
  | _ => els
  end.

(** ** Hiding *)

Definition tip_hidden (o : nat) (tip : elem) : M W unit :=
  this ← get o;
  d ← get_dom;
  when (negb (bool_decide (t_hoverState this = HoverShow)) && bool_decide (is_Some (parent d tip)))
    (mod_dom (remove_node tip)) ;;
  _cleanTipClass o ;;
  this ← get o;
  el ← deref (t_element this);
  mod_dom (set_attr el "aria-describedby" None) ;;
  trigger fire (Some el) (ev (tip_event k "hidden")) ;;
  put o (fun this => this <| t_popper ::= option_map papi_destroy |>).

Definition tip_hide (o : nat) : M W unit :=
  tip ← getTipElement o;
  this ← get o;
  isDefaultPrevented ← trigger fire (t_element this) (ev (tip_event k "hide"));
  if (isDefaultPrevented : bool) then skip
  else
    mod_dom (jq_remove_class [tip] "show") ;;
    put o (fun this => this <| t_activeTrigger := Triggers false false false |>) ;;
    this ← get o;
    d ← get_dom;
    (if jq_has_class d (option_list (t_tip this)) "fade" then
       jq_one [tip] TRANSITION_END (Call (TipHidden o tip)) ;;
       transitionEndEmulator [tip] (getTransitionDurationFromElement d (Some tip))
     else tip_hidden o tip) ;;
    put o (fun this => this <| t_hoverState := HoverNone |>).

(** ** Entering and leaving *)

Definition _isWithActiveTrigger (this : Tooltip P) : bool :=
  tr_click (t_activeTrigger this) || tr_focus (t_activeTrigger this) || tr_hover (t_activeTrigger this).

Definition set_trigger (focus : bool) (b : bool) (this : Tooltip P) : Tooltip P :=
  this <| t_activeTrigger ::= fun t =>
    if focus then Triggers (tr_click t) b (tr_hover t) else Triggers (tr_click t) (tr_focus t) b |>.

(** [config.delay[key]], falsy when there is no delay. *)
Definition delay_for (this : Tooltip P) (key : string) : option Q :=
  match t_config this with
  | Some c => match obj_field (field c "delay") key with
              | VNum q => if Qeq_bool q 0 then None else Some q
              | _ => None
              end
  | None => None
  end.

(** [_leave] once its context [c] is known; [event] is the type of the event. *)
Definition leave_context (event : option string) (c : nat) : M W unit :=
  (match event with
   | Some t => put c (set_trigger (String.eqb t "focusout") false)
   | None => skip
   end) ;;
  this ← get c;
  if _isWithActiveTrigger this then skip
  else
    clear_task (t_timeout this) ;;
    put c (fun this => this <| t_hoverState := HoverOut |>) ;;
    match delay_for this "hide" with
    | None => tip_hide c
    | Some ms =>
        id ← setTimeout (Call (TipLeave c)) ms;
        put c (fun this => this <| t_timeout := Some id |>)
    end.

(** ** Showing *)

Definition tip_offset_override (v : jsval) : modifier -> modifier :=
  match v with VFun f => fun m => m <| m_fn := FnCustom f |> | v => fun m => m <| m_offset := v |> end.

Definition behavior_of (v : jsval) : flip_behavior :=
  match v with
  | VStr s => if String.eqb s "flip" then BehFlip
              else if String.eqb s "clockwise" then BehClockwise
              else if String.eqb s "counterclockwise" then BehCounterclockwise else BehList []
  | VArr l => BehList (map js_str l)
  | _ => BehList []
  end.

Definition tip_getPopperConfig (c : config) (attachment : option string) : popper_options :=
  let mods : overrides :=
    [("offset"%string, tip_offset_override (field c "offset"));
     ("flip"%string, fun m => m <| m_behavior := behavior_of (field c "fallbackPlacement") |>);
     ("arrow"%string, fun m => m <| m_element := ArrowSelector ".arrow" |>);
     ("preventOverflow"%string, fun m => m <| m_boundariesElement := boundary_of (field c "boundary") |>)] in
  let o := default_options <| o_placement := default "undefined"%string attachment |> <| o_overrides := mods |> in
  match field c "popperConfig" with VObj u => user_popper_config u o | _ => o end.

(** Whether the element is in the document, or in its shadow root. *)
Definition isInTheDom (d : D) (el : elem) : option bool :=
  root ← findShadowRoot fuel attachShadow getRootNode is_shadow_root d el;
  Some (contains d (default document_element root) el).

(** [complete] of [show]; [fix] is [_fixTransition]. *)
Definition tip_shown (fix_transition : nat -> M W unit) (o : nat) : M W unit :=
  this ← get o;
  cfg ← deref (t_config this);
  when (truthy (field cfg "animation")) (fix_transition o) ;;
  this ← get o;
  let prevHoverState := t_hoverState this in
  put o (fun this => this <| t_hoverState := HoverNone |>) ;;
  this ← get o;
  trigger fire (t_element this) (ev (tip_event k "shown")) ;;
  if decide (prevHoverState = HoverOut) then leave_context None o else skip.

(** The tip is filled, classed, put into its container and given a popper. *)
Definition insert_tip (o : nat) (el : elem) : M W unit :=
  tip ← getTipElement o;
  d ← get_dom;
  tipId ← deref (getUID fuel (has_id d) random 0 (tip_NAME k));
  mod_dom (set_attr tip "id" (Some tipId)) ;;
  mod_dom (set_attr el "aria-describedby" (Some tipId)) ;;
  setContent o ;;
  this ← get o;
  cfg ← deref (t_config this);
  when (truthy (field cfg "animation")) (mod_dom (jq_add_class [tip] "fade")) ;;
  d ← get_dom;
  let placement := match field cfg "placement" with
                   | VFun f => call_placement f tip el d
                   | v => js_str v
                   end in
  let attachment := _getAttachment placement in
  addAttachmentClass o attachment ;;
  container ← (match field cfg "container" with
               | VStr s => query_all None s
               | VBool true => query_all None "true"
               | _ => mret []
               end);
  set_data tip o ;;
  this ← get o;
  d ← get_dom;
  when (match t_tip this with Some t => negb (contains d document_element t) | None => true end)
    (match field cfg "container" with
     | VObj _ => throw TypeError            (* only a [nodeType]: nothing can be appended to it *)
     | _ => mod_dom (jq_each (fun c => append_child c tip) (tip_getContainer cfg container))
     end) ;;
  trigger fire (Some el) (ev (tip_event k "inserted")) ;;
  p ← deref (papi_new el tip (tip_getPopperConfig cfg attachment));
  put o (fun this => this <| t_popper := Some p |>) ;;
  mod_dom (jq_add_class [tip] "show").

Definition tip_show_with (fix_transition : nat -> M W unit) (o : nat) : M W unit :=
  this ← get o;
  d ← get_dom;
  if match t_element this with Some el => String.eqb (computed d el "display") "none" | None => false end
  then throw (Error "Please use show on visible elements")
  else
    content ← isWithContent o;
    this ← get o;
    if content && t_isEnabled this then
      el ← deref (t_element this);
      isDefaultPrevented ← trigger fire (Some el) (ev (tip_event k "show"));
      d ← get_dom;
      inDom ← deref (isInTheDom d el);
      if (isDefaultPrevented : bool) || negb inDom then skip
      else
        insert_tip o el ;;
        this ← get o;
        d ← get_dom;
        if jq_has_class d (option_list (t_tip this)) "fade" then
          jq_one (option_list (t_tip this)) TRANSITION_END (Call (TipShown o)) ;;
          transitionEndEmulator (option_list (t_tip this)) (getTransitionDurationFromElement d (t_tip this))
        else tip_shown fix_transition o
    else skip.

(** [_fixTransition] hides and shows again with the animation off: the second
    [show] does not come back here unless a listener turns the animation on
    again; [depth] bounds that (the stack). *)
Fixpoint tip_fixTransition (depth : nat) (o : nat) : M W unit :=
  match depth with
  | O => throw RangeError
  | S depth =>
      tip ← getTipElement o;
      this ← get o;
      cfg ← deref (t_config this);
      d ← get_dom;
      if bool_decide (is_Some (attr d tip "x-placement")) then skip
      else
        let initConfigAnimation := field cfg "animation" in
        let animate v := put o (fun this => this <| t_config ::= option_map (insert "animation"%string v) |>) in
        mod_dom (jq_remove_class [tip] "fade") ;;
        animate (VBool false) ;;
        tip_hide o ;;
        tip_show_with (tip_fixTransition depth) o ;;
        animate initConfigAnimation
  end.

Definition tip_show (o : nat) : M W unit := tip_show_with (tip_fixTransition fuel) o.

(** [_enter] once its context [c] is known. *)
Definition enter_context (event : option string) (c : nat) : M W unit :=
  (match event with
   | Some t => put c (set_trigger (String.eqb t "focusin") true)
   | None => skip
   end) ;;
  tip ← getTipElement c;
  this ← get c;
  d ← get_dom;
  if jq_has_class d [tip] "show" || bool_decide (t_hoverState this = HoverShow) then
    put c (fun this => this <| t_hoverState := HoverShow |>)
  else
    clear_task (t_timeout this) ;;
    put c (fun this => this <| t_hoverState := HoverShow |>) ;;
    match delay_for this "show" with
    | None => tip_show c
    | Some ms =>
        id ← setTimeout (Call (TipEnter c)) ms;
        put c (fun this => this <| t_timeout := Some id |>)
    end.

Definition tip_enter (o : nat) (e : dom_event) : M W unit :=
  c ← context_of o (de_currentTarget e); enter_context (Some (de_type e)) c.

Definition tip_leave (o : nat) (e : dom_event) : M W unit :=
  c ← context_of o (de_currentTarget e); leave_context (Some (de_type e)) c.

Definition tip_toggle (o : nat) (e : option dom_event) : M W unit :=
  this ← get o;
  if negb (t_isEnabled this) then skip
  else match e with
       | Some e =>
           c ← context_of o (de_currentTarget e);
           put c (fun this => this <| t_activeTrigger ::= fun t => Triggers (negb (tr_click t)) (tr_focus t) (tr_hover t) |>) ;;
           this ← get c;
           if _isWithActiveTrigger this then enter_context None c else leave_context None c
       | None =>
           tip ← getTipElement o;
           d ← get_dom;
           if jq_has_class d [tip] "show" then leave_context None o else enter_context None o
       end.

(** ** The rest of the interface *)

Definition tip_enable (o : nat) : M W unit := put o (fun this => this <| t_isEnabled := true |>).
Definition tip_disable (o : nat) : M W unit := put o (fun this => this <| t_isEnabled := false |>).
Definition tip_toggleEnabled (o : nat) : M W unit := put o (fun this => this <| t_isEnabled ::= negb |>).
Definition tip_update (o : nat) : M W unit := put o (fun this => this <| t_popper ::= option_map papi_schedule |>).

Definition tip_dispose (o : nat) : M W unit :=
  this ← get o;
  clear_task (t_timeout this) ;;
  remove_data (t_element this) ;;
  (match t_tip this with Some t => jq_remove [t] | None => skip end) ;;
  put o (fun _ => {| t_isEnabled := false; t_timeout := None; t_hoverState := HoverNone;
                     t_activeTrigger := Triggers false false false; t_popper := None; t_element := None;
                     t_config := None; t_tip := None; t_listeners := []; t_modal := None |}).

(** [_handlePopperPlacementChange]: Popper has placed (or replaced) the tip. *)
Definition tip_placement_change (o : nat) (popper : elem) (placement : string) : M W unit :=
  put o (fun this => this <| t_tip := Some popper |>) ;;
  _cleanTipClass o ;;
  addAttachmentClass o (_getAttachment placement).

(** [onCreate] and [onUpdate] of the options given to Popper. *)
Definition tip_onCreate (o : nat) (data : popper_data) : M W unit :=
  if String.eqb (d_originalPlacement data) (d_placement data) then skip
  else tip_placement_change o (d_popperElement data) (d_placement data).
Definition tip_onUpdate (o : nat) (data : popper_data) : M W unit :=
  tip_placement_change o (d_popperElement data) (d_placement data).

(** [_hideModalHandler] *)
Definition tip_modal_hides (o : nat) : M W unit :=
  this ← get o; match t_element this with Some _ => tip_hide o | None => skip end.

Definition run_tip_listener (o : nat) (l : tip_listener) (e : dom_event) : M W unit :=
  match l with
  | TlToggle => tip_toggle o (Some e)
  | TlEnter => tip_enter o e
  | TlLeave => tip_leave o e
  end.

Definition tip_plug (c : tip_cb) : M W unit :=
  match c with
  | TipShown o => tip_shown (tip_fixTransition fuel) o
  | TipHidden o tip => tip_hidden o tip
  | TipEnter o => this ← get o; if decide (t_hoverState this = HoverShow) then tip_show o else skip
  | TipLeave o => this ← get o; if decide (t_hoverState this = HoverOut) then tip_hide o else skip
  end.

Definition tip_method (s : string) (o : nat) : M W unit :=
  if String.eqb s "enable" then tip_enable o
  else if String.eqb s "disable" then tip_disable o
  else if String.eqb s "toggleEnabled" then tip_toggleEnabled o
  else if String.eqb s "toggle" then tip_toggle o None
  else if String.eqb s "show" then tip_show o
  else if String.eqb s "hide" then tip_hide o
  else if String.eqb s "update" then tip_update o
  else if String.eqb s "dispose" then tip_dispose o
  else throw TypeError.

Definition tooltip_jQueryInterface (els : list elem) (arg : plugin_arg) : M W unit :=
  for_each els (fun el =>
    data ← get_data el;
    let leaving := match arg with
                   | ArgString s => str_contains "dispose" s || str_contains "hide" s
                   | _ => false
                   end in
    if bool_decide (data = None) && leaving then skip
    else
      o ← (match data with
           | Some o => mret o
           | None => o ← Tooltip_new el (match arg with ArgObject c => c | _ => ∅ end);
                     set_data el o ;; mret o
           end);
      match arg with ArgString s => tip_method s o | _ => skip end).

Definition popover_jQueryInterface (els : list elem) (arg : plugin_arg) : M W unit :=
  for_each els (fun el =>
    data ← get_data el;
    let leaving := match arg with
                   | ArgString s => str_contains "dispose" s || str_contains "hide" s
                   | _ => false
                   end in
    if bool_decide (data = None) && leaving then skip
    else
      o ← (match data with
           | Some o => mret o
           | None => o ← Tooltip_new el (match arg with ArgObject c => c | _ => ∅ end);
                     set_data el o ;; mret o
           end);
      match arg with ArgString s => tip_method s o | _ => skip end).

Definition tip_jQueryInterface (els : list elem) (arg : plugin_arg) : M W unit :=
  match k with ClsTooltip => tooltip_jQueryInterface els arg | ClsPopover => popover_jQueryInterface els arg end.
End tooltip.
