(* ===== verification/PopperTheorems.v ===== *)
(** What Popper guarantees about positions: mirrored placements, the roomiest
    side, poppers kept inside their boundaries and next to their reference,
    arrows that point at it, and listeners that go away. *)
From Stdlib Require Import ZArith QArith Qround Qminmax Lia Lqa String Ascii Sorted.
From stdpp Require Import base list gmap strings.
From coqutil Require Import Datatypes.RecordSetters.
From S2P Require Import Prelude Js JsNum JsSort JsDom BsUtil PopperDom PopperPlacement PopperModifiers PopperClass.

Local Open Scope Z_scope.

(** ** Rectangles *)

Lemma qlt_spec a b : qlt a b = true <-> (a < b)%Q.
Proof. unfold qlt. rewrite negb_true_iff, <- not_true_iff_false, Qle_bool_iff. split; [apply Qnot_le_lt|apply Qlt_not_le]. Qed.

Lemma qlt_false a b : qlt a b = false <-> (b <= a)%Q.
Proof. unfold qlt. by rewrite negb_false_iff, Qle_bool_iff. Qed.

(** The tests on rationals of the goal, by cases. *)
Ltac qlt_cases :=
  repeat match goal with
  | |- context [qlt ?a ?b] =>
      let E := fresh "E" in destruct (qlt a b) eqn:E; [apply qlt_spec in E|apply qlt_false in E]
  end.

(** [right] and [bottom] agree with the origin and the size. *)
Definition rect_ok (r : rect) : Prop :=
  (r_right r == r_left r + r_width r)%Q /\ (r_bottom r == r_top r + r_height r)%Q.

Lemma getClientRect_ok r : rect_ok (getClientRect r).
Proof. destruct r. split; simpl; unfold constant; lra. Qed.

(** ** Placements *)

Definition centre_x (r : rect) : Q := (r_left r + r_width r / 2)%Q.
Definition centre_y (r : rect) : Q := (r_top r + r_height r / 2)%Q.

Definition mirrored (r p p' : rect) : Prop :=
  (centre_x p + centre_x p' == 2 * centre_x r)%Q /\ (centre_y p + centre_y p' == 2 * centre_y r)%Q.

(** The popper touches the side of the reference the placement names. *)
Definition touches (s : sd) (r p : rect) : Prop :=
  match s with
  | SdLeft => r_left p + r_width p == r_left r
  | SdRight => r_left p == r_right r
  | SdTop => r_top p + r_height p == r_top r
  | SdBottom => r_top p == r_bottom r
  end%Q.

(** For each of the twelve placements, the popper touches the side of its
    reference that the placement names, and the opposite placement, which keeps
    the variation and is an involution, puts it at the mirror image through the
    centre of the reference. *)
Theorem opposite_mirrors placement size reference base base' :
  placement ∈ validPlacements -> rect_ok reference ->
  let offs := getPopperOffsets size reference placement base in
  let offs' := getPopperOffsets size reference (getOppositePlacement placement) base' in
  mirrored reference offs offs' /\
  (exists s, side_of (base_of placement) = Some s /\ touches s reference offs) /\
  getOppositePlacement (getOppositePlacement placement) = placement /\
  variation_of (getOppositePlacement placement) = variation_of placement.
Proof.
  intros Hp [Hw Hh]. destruct size as [w h], reference, base, base'. simpl in Hw, Hh.
  unfold validPlacements, placements, drop in Hp.
  repeat (apply elem_of_cons in Hp as [->|Hp];
    [split; [split; unfold centre_x, centre_y; simpl; unfold constant; field_simplify_eq; lra
            |split; [eexists; split; [reflexivity|]; simpl; unfold constant; lra|split; reflexivity]]|]).
  by apply not_elem_of_nil in Hp.
Qed.

(** ** The roomiest side *)

Section auto.
Context (b : bounds) (r : rect) (bw bh : Q).
Hypothesis (Hbw : b_width b = Some bw) (Hbh : b_height b = Some bh).

Lemma auto_rects_area e : e ∈ auto_rects b r -> is_Some (getArea e).
Proof.
  unfold auto_rects. rewrite Hbw, Hbh. intros He.
  repeat (apply elem_of_cons in He as [->|He]; [unfold getArea; simpl; eauto|]). by apply not_elem_of_nil in He.
Qed.

Lemma area_cmp_keyed : consistent area_cmp (auto_rects b r) /\
  forall a a' x y, a ∈ auto_rects b r -> a' ∈ auto_rects b r ->
    (Qopp <$> getArea a) = Some x -> (Qopp <$> getArea a') = Some y -> (cmp_le area_cmp a a' <-> (x <= y)%Q).
Proof.
  apply (keyed_consistent area_cmp (fun e => Qopp <$> getArea e)).
  - intros a a' x y _ _. unfold area_cmp. destruct (getArea a) as [p|], (getArea a') as [q|]; try done.
    simpl. intros [= <-] [= <-]. exists (q - p)%Q. split; [done|]. split; lra.
  - intros a Ha. destruct (auto_rects_area a Ha) as [x ->]. simpl. eauto.
Qed.

Lemma area_le a a' : a ∈ auto_rects b r -> a' ∈ auto_rects b r -> cmp_le area_cmp a a' ->
  exists x y, getArea a = Some x /\ getArea a' = Some y /\ (y <= x)%Q.
Proof.
  intros Ha Ha' Hle. destruct (auto_rects_area a Ha) as [x Ex], (auto_rects_area a' Ha') as [y Ey].
  destruct area_cmp_keyed as [_ Hk]. exists x, y. do 2 (split; [done|]).
  apply (Hk a a' (-x) (-y))%Q in Hle; rewrite ?Ex, ?Ey; try done. lra.
Qed.
End auto.

(** Inside boundaries that have a size, [auto] picks a side the popper fits
    in if there is one, and one with the largest area among those it chooses
    from.  The boundaries of the whole document carry no width and no height:
    all areas are [NaN], and the side is always [top], however little room
    there is. *)
Theorem auto_side_roomiest b r w h :
  (b_width b = None -> b_height b = None -> auto_side b r w h = Some "top"%string) /\
  (is_Some (b_width b) -> is_Some (b_height b) ->
    exists e x, auto_side b r w h = Some (a_key e) /\ e ∈ auto_rects b r /\ getArea e = Some x /\
      (forall e', e' ∈ auto_rects b r -> area_fits w h e' = true -> area_fits w h e = true) /\
      (forall e' y, e' ∈ auto_rects b r -> getArea e' = Some y ->
         area_fits w h e = true -> area_fits w h e' = true -> (y <= x)%Q) /\
      (forall e' y, e' ∈ auto_rects b r -> getArea e' = Some y -> area_fits w h e = false -> (y <= x)%Q)).
Proof.
  split.
  - intros Hw Hh. unfold auto_side, auto_rects. by rewrite Hw, Hh.
  - intros [bw Hw] [bh Hh]. unfold auto_side.
    destruct (array_sort_spec area_cmp (auto_rects b r)) as (s & Es & Hperm & Hsort & _).
    { by apply (area_cmp_keyed b r bw bh). }
    rewrite Es. simpl. set (P := fun e => area_fits w h e = true).
    assert (Hin : forall e, e ∈ s <-> e ∈ auto_rects b r) by (intros; by rewrite Hperm).
    assert (Hrefl : forall e, e ∈ auto_rects b r -> cmp_le area_cmp e e).
    { intros e He. destruct (area_cmp_keyed b r bw bh Hw Hh) as [Hc _]. by apply Hc. }
    assert (Hhead : forall e l, StronglySorted (cmp_le area_cmp) (e :: l) ->
      (forall a, a ∈ e :: l -> a ∈ auto_rects b r) -> exists x, getArea e = Some x /\
      forall e' y, e' ∈ e :: l -> getArea e' = Some y -> (y <= x)%Q).
    { intros e l Hs Hsub. destruct (auto_rects_area b r bw bh Hw Hh e) as [x Ex]; [by apply Hsub; left|].
      exists x. split; [done|]. intros e' y He' Ey.
      destruct (area_le b r bw bh Hw Hh e e') as (x' & y' & Ex' & Ey' & Hle); [by apply Hsub; left|by apply Hsub|..].
      - eapply sorted_head; eauto.
      - simplify_eq. done. }
    pose proof (sorted_filter _ P s Hsort) as Hsf.
    assert (Hf : forall a, a ∈ filter P s <-> P a /\ a ∈ auto_rects b r).
    { intros a. by rewrite list_elem_of_filter, Hin. }
    fold P. destruct (filter P s) as [|e l] eqn:Ef.
    + destruct s as [|e l].
      { exfalso. apply Permutation_nil in Hperm. done. }
      destruct (Hhead e l Hsort) as (x & Ex & Hx); [set_solver|].
      assert (Hno : forall a, a ∈ auto_rects b r -> area_fits w h a = true -> False).
      { intros a Ha Hpa. specialize (Hf a). apply (not_elem_of_nil a), Hf. done. }
      exists e, x. do 3 (split; [set_solver|]). repeat split.
      * intros e' He' Hfit. by destruct (Hno e').
      * intros e' y He' _ _ Hfit. by destruct (Hno e').
      * intros e' y He' Ey _. apply (Hx e'); [set_solver|done].
    + destruct (Hhead e l Hsf) as (x & Ex & Hx); [intros a Ha; by apply Hf|].
      assert (He : P e /\ e ∈ auto_rects b r) by (apply Hf; by left). destruct He as [Hpe He].
      exists e, x. do 3 (split; [done|]). repeat split.
      * intros; exact Hpe.
      * intros e' y He' Ey _ Hfit. apply (Hx e'); [by apply Hf|done].
      * unfold P in Hpe. congruence.
Qed.

(** ** Inside the boundaries *)

Definition inside (b : bounds) (p : rect) : Prop :=
  (b_left b <= r_left p /\ r_left p + r_width p <= b_right b /\
   b_top b <= r_top p /\ r_top p + r_height p <= b_bottom b)%Q.

Lemma Qmax_cases x y : ((x <= y /\ Qmax x y == y) \/ (y <= x /\ Qmax x y == x))%Q.
Proof. destruct (Q.max_spec x y) as [[H ->]|[H ->]]; [left|right]; split; lra. Qed.

Lemma Qmin_cases x y : ((x <= y /\ Qmin x y == x) \/ (y <= x /\ Qmin x y == y))%Q.
Proof. destruct (Q.min_spec x y) as [[H ->]|[H ->]]; [left|right]; split; lra. Qed.

(** Case analysis on the extrema of the goal. *)
Ltac qext :=
  repeat match goal with
  | |- context [Qmax ?x ?y] =>
      let z := fresh "z" in
      generalize (Qmax_cases x y); generalize (Qmax x y); intros z
  | |- context [Qmin ?x ?y] =>
      let z := fresh "z" in
      generalize (Qmin_cases x y); generalize (Qmin x y); intros z
  end; intros.

(** The four steps in the default order. *)
Definition overflow_steps (escape : bool) (b : bounds) (p : rect) : rect :=
  foldl (overflow_step escape b) p [SdLeft; SdRight; SdTop; SdBottom].

Lemma overflow_steps_size escape b p :
  r_width (overflow_steps escape b p) = r_width p /\ r_height (overflow_steps escape b p) = r_height p.
Proof. destruct p. unfold overflow_steps. simpl. unfold constant. simpl. done. Qed.

Lemma overflow_steps_inside b p : rect_ok p ->
  (r_width p <= b_right b - b_left b)%Q -> (r_height p <= b_bottom b - b_top b)%Q ->
  inside b (overflow_steps false b p).
Proof.
  destruct p as [l t r bt w h mt ml], b as [bl btp br bb bw bh]. intros [Hr Hb]. simpl in *. intros Hw Hh.
  unfold overflow_steps, inside. simpl. unfold constant. simpl.
  rewrite !andb_true_r. qlt_cases; simpl; qext; repeat split; lra.
Qed.

Lemma overflow_steps_id b p : rect_ok p -> inside b p -> overflow_steps false b p = p.
Proof.
  destruct p as [l t r bt w h mt ml], b as [bl btp br bb bw bh]. intros [Hr Hb]. simpl in *.
  intros (H1 & H2 & H3 & H4). simpl in *. unfold overflow_steps. simpl. unfold constant. simpl.
  rewrite !andb_true_r. qlt_cases; simpl; try done; lra.
Qed.

(** The default priority names the four steps in this order. *)
Definition default_priority : list string := ["left"; "right"; "top"; "bottom"]%string.

Section positions.
Context `{Page}.

(** C33. [preventOverflow] with its default priority, for a popper that may not
    escape with its reference and boundaries other than the reference: a popper
    no larger than the boundaries ends up inside them with its size unchanged,
    one that already is inside does not move, and the boundaries are left in the
    modifier's entry for [hide]; every other entry, in its place, and everything
    else of the data is as before. *)
Theorem preventOverflow_inside boundaries_of data m be b :
  m_boundariesElement m = Some be -> be <> BNode (d_referenceElement data) ->
  m_escapeWithReference m = false -> m_priority m = default_priority ->
  boundaries_of (d_popperElement data) (Some (d_referenceElement data)) (m_padding m) be (d_positionFixed data) = Some b ->
  rect_ok (d_popper data) ->
  (r_width (d_popper data) <= b_right b - b_left b)%Q -> (r_height (d_popper data) <= b_bottom b - b_top b)%Q ->
  exists data', preventOverflow boundaries_of data m = Some data' /\
    inside b (d_popper data') /\
    r_width (d_popper data') = r_width (d_popper data) /\ r_height (d_popper data') = r_height (d_popper data) /\
    (inside b (d_popper data) -> d_popper data' = d_popper data) /\
    (forall i, d_modifiers data' !! i =
       (fun m' => if decide (m_name m' = m_name m) then m' <| m_boundaries := Some b |> else m')
         <$> d_modifiers data !! i) /\
    data' = data <| d_popper := d_popper data' |> <| d_modifiers := d_modifiers data' |>.
Proof.
  intros Hbe Hne Hesc Hpr Hb Hok Hw Hh. unfold preventOverflow. rewrite Hbe. simpl.
  assert (E : (match be with
        | BNode e => if decide (e = d_referenceElement data)
                     then p ← getOffsetParent (Some e); Some (BNode p) else Some be
        | _ => Some be
        end) = Some be).
  { destruct be; try done. rewrite decide_False by congruence. done. }
  rewrite E. simpl. rewrite Hb. simpl. rewrite Hesc, Hpr. eexists. split; [reflexivity|].
  change (omap side_of default_priority) with [SdLeft; SdRight; SdTop; SdBottom].
  fold (overflow_steps false b (d_popper data)).
  destruct (overflow_steps_size false b (d_popper data)) as [Sw Sh].
  destruct data as [pe re mods pl opl fl pf pop ref arr pos ae hd st att ast ws]. simpl in *. unfold constant.
  split_and!; [by apply overflow_steps_inside|done|done|by apply overflow_steps_id| |done].
  intros i. change (map ?f mods) with (f <$> mods). rewrite list_lookup_fmap.
  destruct (mods !! i) as [m'|]; [|done]. cbn. f_equal.
  destruct (String.eqb_spec (m_name m') (m_name m)); [by rewrite decide_True|by rewrite decide_False].
Qed.

(** [keepTogether]: whatever the modifiers before it did, along the side it
    is attached to the popper does not lie beyond its reference: it ends at the
    reference's start or later and starts at the reference's end or earlier (in
    whole pixels), and keeps its size. *)
Theorem keepTogether_touches data :
  rect_ok (d_popper data) -> (r_left (d_reference data) <= r_right (d_reference data))%Q ->
  (r_top (d_reference data) <= r_bottom (d_reference data))%Q ->
  (0 <= r_width (d_popper data))%Q -> (0 <= r_height (d_popper data))%Q ->
  let p := d_popper (keepTogether data) in
  let r := d_reference data in
  let placement := base_of (d_placement data) in
  r_width p = r_width (d_popper data) /\ r_height p = r_height (d_popper data) /\
  (if String.eqb placement "top" || String.eqb placement "bottom"
   then r_left p <= math_floor (r_right r) /\ math_floor (r_left r) <= r_left p + r_width p
        /\ r_top p = r_top (d_popper data)
   else r_top p <= math_floor (r_bottom r) /\ math_floor (r_top r) <= r_top p + r_height p
        /\ r_left p = r_left (d_popper data))%Q.
Proof.
  destruct data as [pe re mods pl opl fl pf pop ref arr pos ae hd st att ast ws].
  destruct pop as [l t rr bt w h mt ml], ref as [rl rt rrr rb rw rh rmt rml]. intros [Hr Hb]. simpl in *.
  intros Hl Ht Hw Hh. unfold keepTogether. simpl.
  assert (Hfl : (math_floor rl <= math_floor rrr)%Q).
  { unfold math_floor. rewrite <- Zle_Qle. by apply Qfloor_resp_le. }
  assert (Hft : (math_floor rt <= math_floor rb)%Q).
  { unfold math_floor. rewrite <- Zle_Qle. by apply Qfloor_resp_le. }
  destruct (String.eqb (base_of pl) "top" || String.eqb (base_of pl) "bottom"); simpl;
    unfold constant; qlt_cases; simpl in *; unfold constant in *;
    repeat match goal with |- context [qlt ?a ?b] => destruct (qlt a b) eqn:? end; simpl;
    repeat match goal with H : qlt _ _ = true |- _ => apply qlt_spec in H; simpl in H
                         | H : qlt _ _ = false |- _ => apply qlt_false in H; simpl in H end;
    split_and!; try done; lra.
Qed.

(** *** Arrows *)

(** Along a side, [side_at s] is the extent of a rectangle. *)
Definition opposite_side (s : sd) : sd :=
  match s with SdLeft => SdRight | SdRight => SdLeft | SdTop => SdBottom | SdBottom => SdTop end.

Definition side_len (s : sd) : meas := match s with SdLeft | SdRight => MWidth | _ => MHeight end.

Lemma arrow_move_overlaps side a p r : side = SdLeft \/ side = SdTop -> rect_ok p -> rect_ok r ->
  (2 * a <= get_len (side_len side) p + get_len (side_len side) r)%Q ->
  let p' := arrow_move side (opposite_side side) a p r in
  (get_side side p' <= get_side (opposite_side side) r - a)%Q /\
  (get_side side r + a <= get_side side p' + get_len (side_len side) p')%Q /\
  get_len (side_len side) p' = get_len (side_len side) p /\ rect_ok p'.
Proof.
  destruct p as [l t rr bt w h mt ml], r as [rl rt rrr rb rw rh rmt rml].
  intros Hside [Hr Hb] [Hr' Hb'] Ha. simpl in *. unfold arrow_move.
  split_and!; [| | |apply getClientRect_ok]; destruct Hside as [-> | ->]; simpl in *; unfold constant;
    qlt_cases; simpl in *; unfold constant in *;
    repeat match goal with |- context [qlt ?a ?b] => destruct (qlt a b) eqn:? end; simpl;
    repeat match goal with H : qlt _ _ = true |- _ => apply qlt_spec in H; simpl in H
                         | H : qlt _ _ = false |- _ => apply qlt_false in H; simpl in H end;
    try done; lra.
Qed.

Lemma arrow_value_spec side a margin border p r : (a <= get_len (side_len side) p)%Q ->
  let v := arrow_value side (side_len side) a margin border p r in
  let want := (get_side side r + get_len (side_len side) r / 2 - a / 2 - get_side side p - margin - border)%Q in
  (0 <= v <= get_len (side_len side) p - a)%Q /\
  ((0 <= want <= get_len (side_len side) p - a)%Q -> (v == want)%Q).
Proof. intros Ha. unfold arrow_value. simpl. qext. split; [split; lra|intros; lra]. Qed.

(** [arrow], for an arrow no longer than the popper: the popper is moved so
    that it and its reference share at least an arrow's length; the offset of
    the arrow lies within the popper, and where the popper allows it the arrow
    points at the centre of the reference. *)
Theorem arrow_points data options e :
  isModifierRequired (d_modifiers data) "arrow" "keepTogether" = true ->
  m_element options = ArrowElement e -> node_contains (d_popperElement data) e = true ->
  let vertical := (String.eqb (base_of (d_placement data)) "left" || String.eqb (base_of (d_placement data)) "right")%string in
  let side := if vertical then SdTop else SdLeft in
  let len := get_len (side_len side) in
  let a := if vertical then (getOuterSizes e).2 else (getOuterSizes e).1 in
  rect_ok (d_popper data) -> rect_ok (d_reference data) -> (a <= len (d_popper data))%Q ->
  (2 * a <= len (d_popper data) + len (d_reference data))%Q ->
  let data' := arrow data options in
  let p := d_popper data' in
  let r := d_reference data in
  let inset := (css_px (d_popperElement data) (if vertical then "marginTop" else "marginLeft")
                + css_px (d_popperElement data) (if vertical then "borderTopWidth" else "borderLeftWidth"))%Q in
  d_arrowElement data' = Some e /\ len p = len (d_popper data) /\
  (get_side side p <= get_side (opposite_side side) r - a)%Q /\ (get_side side r + a <= get_side side p + len p)%Q /\
  exists v, d_arrow data' !! side_name side = Some (VNum (math_round v)) /\ (0 <= v <= len p - a)%Q /\
    ((get_side side p + inset <= get_side side r + len r / 2 - a / 2 <= get_side side p + inset + (len p - a))%Q ->
     (get_side side p + inset + v + a / 2 == get_side side r + len r / 2)%Q).
Proof.
  intros Hreq He Hin vertical side len a Hp Hr Ha H2a. unfold arrow. rewrite Hreq, He, Hin.
  fold vertical. cbn [negb].
  assert (Hside : side = SdLeft \/ side = SdTop) by (unfold side; destruct vertical; auto).
  destruct (arrow_move_overlaps side a (d_popper data) (d_reference data) Hside Hp Hr H2a) as (H1 & H2 & H3 & H4).
  unfold len in *.
  assert (Hlen : (a <= get_len (side_len side) (arrow_move side (opposite_side side) a (d_popper data) (d_reference data)))%Q)
    by by rewrite H3.
  set (margin := css_px (d_popperElement data) (if vertical then "marginTop" else "marginLeft")%string).
  set (border := css_px (d_popperElement data) (if vertical then "borderTopWidth" else "borderLeftWidth")%string).
  destruct (arrow_value_spec side a margin border _ (d_reference data) Hlen) as [Hv Hwant].
  clear Hin He Hreq.
  destruct data as [pe re mods pl opl fl pf pop ref arr pos ae hd st att ast ws]. simpl in *. unfold constant.
  unfold a, side, margin, border in *.
  destruct vertical; simpl in *; (split_and!; [done|done|done|done|]); eexists;
    (split; [reflexivity|]); (split; [exact Hv|]); intros Hc; rewrite Hwant; lra.
Qed.

(** *** Flipping *)

Lemma flip_loop_none bo custom options b flipOrder steps i placement variation data :
  (forall s, s ∈ steps -> s <> placement) ->
  flip_loop bo custom options b flipOrder i steps (placement, variation, data) = Some (placement, variation, data).
Proof.
  revert i. induction steps as [|s steps IH]; intros i Hne; simpl; [done|].
  assert (E : (placement =? s)%string = false).
  { apply String.eqb_neq. intros ->. by apply (Hne s); [left|]. }
  rewrite E. simpl. apply IH. intros s' Hs'. apply Hne. by right.
Qed.

Definition base_placements : list string := ["top"; "right"; "bottom"; "left"]%string.

(** The order of a circular behaviour leaves out the placement it starts from. *)
Lemma clockwise_excludes placement counter s :
  placement ∈ base_placements -> s ∈ clockwise placement counter -> s <> placement.
Proof.
  intros Hp Hs ->. revert Hs. unfold base_placements in Hp.
  repeat (apply elem_of_cons in Hp as [->|Hp];
    [destruct counter; vm_compute; intros Hs; repeat (apply elem_of_cons in Hs as [Hs|Hs]; [done|]);
     by apply not_elem_of_nil in Hs|]).
  by apply not_elem_of_nil in Hp.
Qed.

(** [flip] goes on to look for a better placement. *)
Definition flip_ready (data : popper_data) (options : modifier) (b : bounds) : Prop :=
  isModifierEnabled (d_modifiers data) "inner" = false /\
  d_flipped data && String.eqb (d_placement data) (d_originalPlacement data) = false /\
  base_of (d_placement data) ∈ base_placements /\
  exists be, m_boundariesElement options = Some be /\
    getBoundaries (d_popperElement data) (Some (d_referenceElement data)) (m_padding options) be (d_positionFixed data) = Some b.

(** The behaviours [clockwise] and [counterclockwise] never flip: the order
    they build does not hold the current placement, the only one the loop acts
    on, so the data come back as they were whatever overflows. *)
Theorem flip_clockwise_never bo custom data options b :
  m_fn options = FnFlip -> m_behavior options = BehClockwise \/ m_behavior options = BehCounterclockwise ->
  flip_ready data options b -> modifier_run bo custom data options = Some data.
Proof.
  intros Hfn Hbeh (Hin & Hfl & Hbase & be & Hbe & Hb). unfold modifier_run. rewrite Hfn. unfold flip.
  rewrite Hin, Hfl, Hbe. simpl. rewrite Hb. simpl. unfold flip_order.
  destruct Hbeh as [-> | ->]; rewrite flip_loop_none; try done; intros s; by apply clockwise_excludes.
Qed.

(** What the data become before the modifiers run again. *)
Definition flipped_data (data : popper_data) (placement : string) : popper_data :=
  let d := data <| d_flipped := true |> <| d_placement := placement |> in
  d <| d_popper := getPopperOffsets (getOuterSizes (d_popperElement data)) (d_reference data) placement (d_popper data) |>.

Lemma flip_step_last bo custom options b o o' s st : flip_step bo custom options b [o; o'] 1 s st = Some st.
Proof. destruct st as [[p v] d]. unfold flip_step. simpl. by rewrite orb_true_r. Qed.

Lemma flip_step_first bo custom options b o placement variation data :
  placement = base_of (d_placement data) ->
  let c := flip_checks options placement variation (d_popper data) (d_reference data) b in
  let placement' := if ov_ref c || ov_boundaries c then o else placement in
  let variation' := if ov_variation c then getOppositeVariation variation else variation in
  flip_step bo custom options b [placement; o] 0 placement (placement, variation, data) =
    if ov_ref c || ov_boundaries c || ov_variation c
    then d ← runModifiers (basic_fn bo custom) (d_modifiers data)
               (flipped_data data (with_variation placement' (Some variation'))) (Some "flip"%string);
         Some (placement', variation', d)
    else Some (placement, variation, data).
Proof.
  intros Hp c placement' variation'. unfold flip_step.
  assert (E : negb (placement =? placement)%string || (length [placement; o] =? 0 + 1)%nat = false).
  { by rewrite String.eqb_refl. }
  rewrite E, <- Hp. fold c. unfold placement', variation', flipped_data. clear. destruct data.
  destruct (ov_ref c || ov_boundaries c), (ov_variation c); reflexivity.
Qed.

(** The default behaviour of [flip], on every branch.  Nothing happens when
    the popper overlaps neither its reference nor the boundaries on its side,
    and its variation does not overflow.  Otherwise the side becomes the
    opposite one in the first two cases, the variation the opposite one in the
    third; the popper is placed anew and the modifiers that come before [flip]
    run on it again, once. *)
Theorem flip_default bo custom data options b :
  m_fn options = FnFlip -> m_behavior options = BehFlip -> flip_ready data options b ->
  let base := base_of (d_placement data) in
  let variation := default ""%string (variation_of (d_placement data)) in
  let c := flip_checks options base variation (d_popper data) (d_reference data) b in
  let base' := if ov_ref c || ov_boundaries c then getOppositePlacement base else base in
  let variation' := if ov_variation c then getOppositeVariation variation else variation in
  modifier_run bo custom data options =
    if ov_ref c || ov_boundaries c || ov_variation c
    then runModifiers (basic_fn bo custom) (d_modifiers data)
           (flipped_data data (with_variation base' (Some variation'))) (Some "flip"%string)
    else Some data.
Proof.
  intros Hfn Hbeh (Hin & Hfl & Hbase & be & Hbe & Hb) base variation c base' variation'.
  unfold modifier_run. rewrite Hfn. unfold flip. rewrite Hin, Hfl, Hbe. cbn [mbind option_bind].
  rewrite Hb. cbn [mbind option_bind]. rewrite Hbeh. unfold flip_order. fold base variation.
  cbn [flip_loop]. rewrite flip_step_first by done. fold c base' variation'.
  destruct (ov_ref c || ov_boundaries c || ov_variation c); cbn [mbind option_bind].
  - destruct (runModifiers _ _ _ _); cbn [mbind option_bind]; [|done].
    rewrite flip_step_last. done.
  - rewrite flip_step_last. done.
Qed.
End positions.

(** ** Listeners and destruction *)

Section listeners.
Context `{Page}
        (boundaries_of : elem -> option elem -> padding -> boundaries_element -> bool -> option bounds)
        (custom : nat -> popper_data -> modifier -> option popper_data).

Inductive popper_op := OpSchedule | OpUpdate | OpEnable | OpDisable | OpDestroy.

Definition popper_step (op : popper_op) (p : Popper) : option Popper :=
  match op with
  | OpSchedule => Some (scheduleUpdate p)
  | OpUpdate => fst <$> run_update boundaries_of custom p
  | OpEnable => enableEventListeners p
  | OpDisable => Some (disableEventListeners p)
  | OpDestroy => Some (destroy p).1
  end.

Fixpoint popper_steps (ops : list popper_op) (p : Popper) : option Popper :=
  match ops with [] => Some p | op :: ops => p' ← popper_step op p; popper_steps ops p' end.

(** Every listener is one [removeEventListeners] takes off. *)
Definition listeners_tracked (p : Popper) : Prop :=
  (forall x, x ∈ p_listening p -> x = (TWindow, "resize"%string) \/
     exists t, t ∈ p_scrollParents p /\ x = (t, "scroll"%string)) /\
  (p_eventsEnabled p = false -> p_listening p = []).

Lemma unlisten_scroll x ts l : x ∈ foldl (fun l t => unlisten t "scroll" l) l ts ->
  x ∈ l /\ forall t, t ∈ ts -> x <> (t, "scroll"%string).
Proof.
  revert l. induction ts as [|t ts IH]; simpl; intros l Hx; [split; [done|]; intros t Ht; by apply not_elem_of_nil in Ht|].
  apply IH in Hx as [Hx Hts]. unfold unlisten in Hx. apply list_elem_of_filter in Hx as [Hne Hx].
  split; [done|]. intros t' Ht'. apply elem_of_cons in Ht' as [->|Ht']; [done|by apply Hts].
Qed.

Lemma removed_listeners p : listeners_tracked p -> p_listening (removeEventListeners p) = [].
Proof.
  intros [Ht _]. destruct p as [re po op mo de cr en sp se li rm db ws]. simpl in *. unfold constant.
  destruct (foldl _ _ sp) as [|x l] eqn:E; [done|]. exfalso.
  assert (Hx : x ∈ foldl (fun l t => unlisten t "scroll" l) (unlisten TWindow "resize" li) sp) by (rewrite E; by left).
  apply unlisten_scroll in Hx as [Hx Hsp]. unfold unlisten in Hx. apply list_elem_of_filter in Hx as [Hne Hx].
  destruct (Ht x Hx) as [->|(t & Hin & ->)]; [done|]. by apply (Hsp t).
Qed.

Lemma remove_tracked p : listeners_tracked p -> listeners_tracked (removeEventListeners p).
Proof.
  intros Hp. pose proof (removed_listeners p Hp) as E. split; [|done]. rewrite E. intros x Hx. by apply not_elem_of_nil in Hx.
Qed.

Lemma disable_tracked p : listeners_tracked p ->
  listeners_tracked (disableEventListeners p) /\ p_listening (disableEventListeners p) = [].
Proof.
  intros Hp. unfold disableEventListeners. destruct (p_eventsEnabled p) eqn:E.
  - split; [by apply remove_tracked|by apply removed_listeners].
  - split; [done|]. by apply Hp.
Qed.

Lemma setup_tracked p p' : listeners_tracked p -> setupEventListeners p = Some p' -> listeners_tracked p'.
Proof.
  intros [Ht _] Hs. unfold setupEventListeners in Hs.
  destruct (getScrollParent _) as [se|]; [|done]. simpl in Hs.
  destruct (attachToScrollParents_ _ _) as [ts|]; [|done]. simpl in Hs. injection Hs as <-.
  destruct p as [re po op mo de cr en sp se' li rm db ws]. simpl in *. unfold constant. split; [|done]. simpl.
  intros x Hx. apply elem_of_app in Hx as [Hx|Hx].
  - destruct (Ht x Hx) as [->|(t & Hin & ->)]; [by left|right]. exists t. set_solver.
  - apply elem_of_cons in Hx as [->|Hx]; [by left|right]. apply list_elem_of_In, in_map_iff in Hx as (t & <- & Hin).
    exists t. apply list_elem_of_In in Hin. set_solver.
Qed.

(** The fields the listeners depend on. *)
Lemma tracked_ext p q : p_listening q = p_listening p -> p_scrollParents q = p_scrollParents p ->
  p_eventsEnabled q = p_eventsEnabled p -> listeners_tracked p -> listeners_tracked q.
Proof. unfold listeners_tracked. intros -> -> ->. done. Qed.

Lemma update_tracked p p' n : listeners_tracked p -> update boundaries_of custom p = Some (p', n) -> listeners_tracked p'.
Proof.
  intros Hp Hu. unfold update in Hu. destruct (p_isDestroyed p); [by injection Hu as <- _|].
  destruct (initial_data p) as [d|]; [|done]. simpl in Hu. destruct (runModifiers _ _ _ _) as [d'|]; [|done].
  simpl in Hu. destruct p as [re po op mo de cr en sp se li rm db ws]. simpl in Hu.
  destruct cr; injection Hu as <- _; revert Hp; by apply tracked_ext.
Qed.

Lemma step_tracked op p p' : listeners_tracked p -> popper_step op p = Some p' -> listeners_tracked p'.
Proof.
  intros Hp Hs. destruct op; simpl in Hs.
  - injection Hs as <-. revert Hp. destruct p. by apply tracked_ext.
  - unfold run_update in Hs. destruct (pending (p_debounce p)); [by injection Hs as <-|].
    destruct (update _ _ _) as [[q m]|] eqn:E; [|done]. injection Hs as <-.
    eapply update_tracked, E. revert Hp. destruct p. by apply tracked_ext.
  - unfold enableEventListeners in Hs. destruct (p_eventsEnabled p); [by injection Hs as <-|].
    by eapply setup_tracked.
  - injection Hs as <-. by apply disable_tracked.
  - injection Hs as <-. unfold destroy. set (q := _ <| p_writes ::= _ |>).
    assert (Hq : listeners_tracked q) by (unfold q; revert Hp; destruct p; by apply tracked_ext).
    destruct (disable_tracked q Hq) as [Hd _]. destruct (o_removeOnDestroy _); [|done].
    destruct (_ || _); [done|]. revert Hd. destruct (disableEventListeners q). by apply tracked_ext.
Qed.

Lemma new_tracked reference popper o p : new_Popper reference popper o = Some p -> listeners_tracked p.
Proof.
  unfold new_Popper. intros Hn. destruct (sorted_modifiers _) as [mods|]; [|done]. simpl in Hn.
  destruct (run_onLoad _ _ _ _ _) as [ws|]; [|done]. simpl in Hn.
  set (p0 := MkPopper _ _ _ _ _ _ _ _ _ _ _ _ _) in Hn.
  assert (H0 : listeners_tracked p0) by (split; [intros x Hx; by apply not_elem_of_nil in Hx|done]).
  destruct (o_eventsEnabled o) eqn:E; simpl in Hn.
  - unfold enableEventListeners in Hn. simpl in Hn. destruct (setupEventListeners p0) as [p1|] eqn:Es; [|done].
    injection Hn as <-. pose proof (setup_tracked _ _ H0 Es) as [Ht _]. destruct p1. split; [exact Ht|done].
  - injection Hn as <-. revert H0. by apply tracked_ext.
Qed.

Inductive reachable_popper : Popper -> Prop :=
  | reach_new reference popper o p : new_Popper reference popper o = Some p -> reachable_popper p
  | reach_step op p p' : reachable_popper p -> popper_step op p = Some p' -> reachable_popper p'.

Lemma reachable_tracked p : reachable_popper p -> listeners_tracked p.
Proof. induction 1; [by eapply new_tracked|by eapply step_tracked]. Qed.

(** Destroyed, without listeners, with no further write to the page. *)
Definition inert (ws : list write) (p : Popper) : Prop :=
  p_isDestroyed p = true /\ p_eventsEnabled p = false /\ p_listening p = [] /\ p_writes p = ws.

Lemma inert_step ws op p : op = OpSchedule \/ op = OpUpdate \/ op = OpDisable -> inert ws p ->
  exists p', popper_step op p = Some p' /\ inert ws p'.
Proof.
  destruct p as [re po opt mo de cr en sp se li rm db w]. intros Hop (Hd & He & Hl & Hw). simpl in *. subst.
  destruct Hop as [->|[->| ->]]; unfold popper_step.
  - eexists. split; [reflexivity|]. done.
  - unfold run_update. simpl. destruct (pending db); [by eexists|]. unfold update. simpl. by eexists.
  - by eexists.
Qed.

Lemma destroyed_fields p : listeners_tracked p ->
  p_listening (destroy p).1 = [] /\ p_isDestroyed (destroy p).1 = true /\ p_eventsEnabled (destroy p).1 = false.
Proof.
  intros Hp. unfold destroy. set (q := _ <| p_writes ::= _ |>).
  assert (Hq : listeners_tracked q) by (unfold q; revert Hp; destruct p; by apply tracked_ext).
  destruct (disable_tracked q Hq) as [_ Hl].
  assert (Hd : p_isDestroyed (disableEventListeners q) = true /\ p_eventsEnabled (disableEventListeners q) = false).
  { unfold disableEventListeners, q. destruct p as [re po op mo de cr en sp se li rm db ws]. by destruct en. }
  destruct (o_removeOnDestroy _); [destruct (_ || _); [|destruct (disableEventListeners q)]|]; done.
Qed.

Lemma destroy_ends p : (destroy p).2 = inr tt \/ o_removeOnDestroy (p_options p) = true /\
  (p_removed p = true \/ parentNode (p_popper p) = None).
Proof.
  destruct p as [re po op mo de cr en sp se li rm db ws]. unfold destroy, disableEventListeners. cbn.
  destruct en; cbn; (destruct (o_removeOnDestroy op); [|by left]); (destruct rm; [right; auto|]); cbn;
    case_bool_decide; auto.
Qed.

(** C34. [destroy] on any instance the constructor and the public methods can
    produce: no listener is left on the window or on a scrolling ancestor, and
    whatever updates were queued before or are requested later, they run without
    an error, write nothing to the page and attach nothing. [destroy] itself
    throws only when it is asked to remove a popper that was removed already;
    the rest holds then too. *)
Theorem destroy_inert p ops :
  reachable_popper p -> Forall (fun op => op = OpSchedule \/ op = OpUpdate \/ op = OpDisable) ops ->
  (exists p', popper_steps ops (destroy p).1 = Some p' /\ p_listening p' = [] /\
     p_writes p' = p_writes (destroy p).1) /\
  ((destroy p).2 = inr tt \/ o_removeOnDestroy (p_options p) = true /\
     (p_removed p = true \/ parentNode (p_popper p) = None)).
Proof.
  intros Hp%reachable_tracked Hops. split; [|apply destroy_ends].
  assert (Hi : inert (p_writes (destroy p).1) (destroy p).1).
  { destruct (destroyed_fields p Hp) as (Hl & Hd & He). done. }
  revert Hi. generalize (p_writes (destroy p).1) as ws. generalize (destroy p).1 as q. clear Hp p.
  induction Hops as [|op ops Hop Hops IH]; intros q ws Hi.
  - exists q. destruct Hi as (_ & _ & ? & ?). done.
  - destruct (inert_step ws op q Hop Hi) as (q' & Eq & Hq). simpl. rewrite Eq. simpl. by apply IH.
Qed.
End listeners.

(** ** A page to try them on *)

Module PopperDemo.
(** A page of a body in an html element, scrolled nowhere; node 2 is a popper
    of 100 by 40 pixels, node 3 its reference, node 4 its arrow. *)
Definition demo_size (e : elem) (s : string) : Q :=
  match e with
  | 2%nat => if str_contains "Width" s then 100 else if str_contains "Height" s then 40 else 0
  | 4%nat => if str_contains "Width" s then 10 else if str_contains "Height" s then 10 else 0
  | _ => if str_contains "Width" s then 800 else if str_contains "Height" s then 600 else 0
  end%Q.

#[export] Instance demo_page : Page := {|
  climb_fuel := 10;
  nodeName e := match e with O => "HTML" | 1%nat => "BODY" | _ => "DIV" end%string;
  is_element_node _ := true;
  parentNode e := match e with O => None | 1%nat => Some 0%nat | 4%nat => Some 2%nat | _ => Some 1%nat end;
  shadow_host _ := None;
  parentElement e := match e with O => None | 1%nat => Some 0%nat | 4%nat => Some 2%nat | _ => Some 1%nat end;
  offsetParent e := match e with O | 1%nat => None | _ => Some 1%nat end;
  nextElementSibling e := None;
  firstElementChild e := match e with O => Some 1%nat | 1%nat => Some 2%nat | 2%nat => Some 4%nat | _ => None end;
  node_contains a b := (a <=? b)%nat;
  precedes a b := (a <? b)%nat;
  commonAncestor a b := 1%nat;
  css e s := if str_contains "position" s then "static"%string
             else if str_contains "transform" s then "none"%string else "0px"%string;
  num := demo_size;
  client_rect_of e := match e with
    | 3%nat => Rect 300 5 340 25 40 20 0 0
    | _ => Rect 0 0 800 600 800 600 0 0
    end%Q;
  doc_body := 1%nat;
  doc_html := 0%nat;
  scrollingElement := Some 0%nat;
  innerWidth := 800%Q;
  innerHeight := 600%Q;
  isIE10 := false;
  isIE11 := false;
  query_in _ _ := Some 4%nat;
  supported_style s := String.eqb s "transform";
  devicePixelRatio := 1%Q;
  isFirefox := false
|}.

Definition no_custom : nat -> popper_data -> modifier -> option popper_data := fun _ d _ => Some d.

Definition demo_popper : option Popper := new_Popper 3 2 default_options.

(** The data of an update that starts with the popper to the right of the page
    and above its reference. *)
Definition demo_data : popper_data :=
  PopperData 2 3 default_modifiers "top" "top" false false
    (Rect 780 (-35) 880 5 100 40 0 0) (Rect 300 5 340 25 40 20 0 0) ∅ "absolute" None None ∅ ∅ ∅ [].

Definition modifier_named (s : string) : modifier := default (blank s) (find_modifier default_modifiers s).

Definition demo_bounds : bounds := Bounds 5 5 795 595 (Some 800%Q) (Some 600%Q).

Definition demo_boundaries_of : elem -> option elem -> padding -> boundaries_element -> bool -> option bounds :=
  fun _ _ _ _ _ => Some demo_bounds.
End PopperDemo.
Import PopperDemo.

Lemma opposite_mirrors_witness :
  touches SdTop (Rect 300 5 340 25 40 20 0 0)
    (getPopperOffsets (100, 40)%Q (Rect 300 5 340 25 40 20 0 0) "top-start" (Rect 0 0 0 0 0 0 0 0)).
Proof.
  destruct (opposite_mirrors "top-start" (100, 40)%Q (Rect 300 5 340 25 40 20 0 0)
              (Rect 0 0 0 0 0 0 0 0) (Rect 0 0 0 0 0 0 0 0)) as (_ & (s & Hs & Ht) & _).
  - left.
  - split; reflexivity.
  - injection Hs as <-. exact Ht.
Defined.

Lemma auto_side_roomiest_witness : exists k,
  auto_side demo_bounds (Rect 300 5 340 25 40 20 0 0) 100 40 = Some k /\ k = "bottom"%string.
Proof.
  destruct (auto_side_roomiest demo_bounds (Rect 300 5 340 25 40 20 0 0) 100 40) as [_ H].
  destruct (H (ex_intro _ _ eq_refl) (ex_intro _ _ eq_refl)) as (e & x & E & _).
  exists (a_key e). split; [exact E|]. vm_compute in E. by injection E.
Defined.

Lemma preventOverflow_inside_witness : exists d,
  preventOverflow getBoundaries demo_data (modifier_named "preventOverflow") = Some d /\ inside demo_bounds (d_popper d).
Proof.
  destruct (preventOverflow_inside getBoundaries demo_data (modifier_named "preventOverflow") BScrollParent
              (Bounds 5 5 795 595 None None)) as (d & E & Hd & _); try done.
  exists d. done.
Defined.

Lemma keepTogether_touches_witness : (r_left (d_popper (keepTogether demo_data)) <= 340)%Q.
Proof.
  destruct (keepTogether_touches demo_data) as (_ & _ & H & _); try done.
Defined.

Lemma arrow_points_witness :
  d_arrowElement (arrow demo_data ((modifier_named "arrow") <| m_element := ArrowElement 4 |>)) = Some 4%nat.
Proof. destruct (arrow_points demo_data ((modifier_named "arrow") <| m_element := ArrowElement 4 |>) 4) as [H _]; done. Defined.

Lemma demo_flip_ready options : m_boundariesElement options = Some BViewport -> m_padding options = PNum 5 ->
  flip_ready demo_data options demo_bounds.
Proof. intros H1 H2. repeat split; [left|]. exists BViewport. split; [done|]. by rewrite H2. Qed.

Lemma flip_clockwise_never_witness :
  modifier_run getBoundaries no_custom demo_data ((modifier_named "flip") <| m_behavior := BehClockwise |>) = Some demo_data.
Proof.
  apply (flip_clockwise_never _ _ _ _ demo_bounds); [done|by left|by apply demo_flip_ready].
Defined.

Lemma flip_default_witness : exists d,
  modifier_run getBoundaries no_custom demo_data (modifier_named "flip") = Some d /\ d_placement d = "bottom"%string.
Proof.
  eexists. split.
  - rewrite (flip_default _ _ _ _ demo_bounds); [vm_compute; reflexivity|done|done|by apply demo_flip_ready].
  - reflexivity.
Defined.

Lemma destroy_inert_witness : exists p p', demo_popper = Some p /\ p_listening p <> [] /\
  popper_steps getBoundaries no_custom [OpUpdate; OpSchedule; OpUpdate] (destroy p).1 = Some p' /\ p_listening p' = [].
Proof.
  destruct demo_popper as [p|] eqn:E; [|discriminate E].
  destruct (destroy_inert getBoundaries no_custom p [OpUpdate; OpSchedule; OpUpdate]) as [(p' & E' & H & _) _].
  - apply (reach_new _ _ 3%nat 2%nat default_options). exact E.
  - repeat (apply List.Forall_cons; [auto|]). apply List.Forall_nil.
  - exists p, p'. split; [done|]. split; [|done]. vm_compute in E. by injection E as <-.
Defined.
