(* ===== verification/BsPureTheorems.v ===== *)
(** Bootstrap without the document: the sanitizer lets nothing through that is
    not on its white list, no URL of an unlisted scheme included; the carousel
    moves through its items in order. *)
From Stdlib Require Import ZArith QArith Lia String Ascii.
From stdpp Require Import base list gmap strings.
From S2P Require Import Prelude Js JsNum JsDom BsUtil BsUtilTheorems BsSanitizer BsCarousel.

Local Open Scope Z_scope.

(** ** The sanitizer *)

Section node_ind.
Context (Q : node -> Prop).
Hypothesis (Htext : forall s, Q (Text s)).
Hypothesis (Helement : forall name attrs children, Forall Q children -> Q (Element name attrs children)).

Fixpoint node_rect' (n : node) : Q n :=
  match n with
  | Text s => Htext s
  | Element name attrs children =>
      Helement name attrs children
        ((fix go (l : list node) : Forall Q l :=
            match l with
            | [] => @List.Forall_nil _ Q
            | n :: l => @List.Forall_cons _ Q n l (node_rect' n) (go l)
            end) children)
  end.
End node_ind.

(** The attributes an element of this name may carry. *)
Definition allowed_list (wl : whitelist) (elName : string) : list allowed :=
  default [] (white_find wl "*") ++ default [] (white_find wl elName).

(** Every element below is listed, every attribute allowed on its element. *)
Inductive clean (wl : whitelist) : node -> Prop :=
  | clean_text s : clean wl (Text s)
  | clean_element name attrs children :
      toLowerCase name ∈ map fst wl ->
      Forall (fun a => allowedAttribute a (allowed_list wl (toLowerCase name)) = true) attrs ->
      Forall (clean wl) children ->
      clean wl (Element name attrs children).

Lemma listed_spec (wl : whitelist) n : existsb (fun p => String.eqb p.1 n) wl = true <-> n ∈ map fst wl.
Proof.
  rewrite existsb_exists, list_elem_of_In, in_map_iff. split.
  - intros (p & Hin & E%String.eqb_eq). by exists p.
  - intros (p & <- & Hin). exists p. split; [done|]. apply String.eqb_refl.
Qed.

Lemma keep_attributes_allowed wl n l :
  Forall (fun a => allowedAttribute a (allowed_list wl n) = true) (keep_attributes wl n l).
Proof. apply List.Forall_forall. intros a Ha%list_elem_of_In. by apply list_elem_of_filter in Ha as [? _]. Qed.

Lemma keep_attributes_id wl n l :
  Forall (fun a => allowedAttribute a (allowed_list wl n) = true) l -> keep_attributes wl n l = l.
Proof.
  induction 1 as [|a l Ha Hl IH]; [done|]. unfold keep_attributes in *. by rewrite filter_cons_True, IH.
Qed.

Lemma Forall_flat_map {A B} (f : A -> list B) (R : B -> Prop) l :
  Forall (fun a => Forall R (f a)) l -> Forall R (flat_map f l).
Proof. induction 1; simpl; [constructor|]. by apply Forall_app. Qed.

Lemma sanitize_node_clean wl n : Forall (clean wl) (sanitize_node wl n).
Proof.
  induction n as [s|name attrs children IH] using node_rect'; cbn [sanitize_node]; [by repeat constructor|].
  destruct (existsb _ wl) eqn:E; [|constructor]. apply listed_spec in E.
  repeat constructor; [done|apply keep_attributes_allowed|]. by apply Forall_flat_map.
Qed.

Lemma clean_fixed wl n : clean wl n -> sanitize_node wl n = [n].
Proof.
  induction n as [s|name attrs children IH] using node_rect'; cbn [sanitize_node]; [done|].
  inversion 1 as [|? ? ? Hn Ha Hc]; subst. apply listed_spec in Hn. rewrite Hn, keep_attributes_id by done.
  f_equal. f_equal. clear -IH Hc. induction IH as [|n l Hn Hl IHl]; [done|].
  apply Forall_cons in Hc as [Hc Hcl]. simpl. by rewrite Hn, IHl.
Qed.

Lemma clean_tree_fixed wl l : Forall (clean wl) l -> sanitize_tree wl l = l.
Proof. induction 1 as [|n l Hn Hl IH]; [done|]. unfold sanitize_tree in *. simpl. by rewrite clean_fixed, IH. Qed.

(** The sanitizer: in the tree it returns every element is listed and
    every attribute is allowed on its element, at any depth; a tree with that
    property is returned as it is, hence sanitizing twice is sanitizing once. *)
Theorem sanitize_clean wl l :
  Forall (clean wl) (sanitize_tree wl l) /\
  (Forall (clean wl) l -> sanitize_tree wl l = l) /\
  sanitize_tree wl (sanitize_tree wl l) = sanitize_tree wl l.
Proof.
  assert (H : Forall (clean wl) (sanitize_tree wl l)).
  { apply Forall_flat_map, List.Forall_forall. intros n _. apply sanitize_node_clean. }
  split; [done|]. split; intros; by apply clean_tree_fixed.
Qed.

(** *** Schemes of URLs *)

(** The lower case scheme of a URL: what precedes the first colon, unless a
    slash, a question mark or a hash comes first. *)
Fixpoint scheme_from (s : string) : option string :=
  match s with
  | EmptyString => None
  | String c s' =>
      if Ascii.eqb c ":" then Some EmptyString
      else if url_end c then None
      else String c <$> scheme_from s'
  end%char.

Definition url_scheme (url : string) : option string := scheme_from (toLowerCase url).

Definition harmless_schemes : list string := ["http"; "https"; "mailto"; "ftp"; "tel"; "file"; "data"]%string.

Lemma to_lower_special c : url_special (to_lower c) = url_special c /\ url_end (to_lower c) = url_end c.
Proof. destruct c as [[][][][][][][][]]; done. Qed.

Lemma toLowerCase_cons c s : toLowerCase (String c s) = String (to_lower c) (toLowerCase s).
Proof. reflexivity. Qed.

Lemma relative_no_scheme s : relative_url s = true -> url_scheme s = None.
Proof.
  unfold url_scheme. induction s as [|c s IH]; [done|]. rewrite toLowerCase_cons.
  destruct (to_lower_special c) as [E1 E2]. cbn [relative_url scheme_from]. rewrite <- E1, <- E2.
  generalize (to_lower c) as c'. intros c'. destruct (url_special c') eqn:Es.
  - intros He. rewrite He. destruct (Ascii.eqb_spec c' ":"%char) as [->|]; [discriminate He|done].
  - intros Hr. rewrite IH by done. unfold url_special in Es. simpl in Es.
    destruct (Ascii.eqb c' ":"%char) eqn:Ec.
    + apply Ascii.eqb_eq in Ec as ->. discriminate Es.
    + destruct (url_end c'); done.
Qed.

Lemma strip_scheme p s r : strip_prefix (p ++ ":") s = Some r ->
  forallb (fun c => negb (Ascii.eqb c ":" || url_end c)%char) (list_ascii_of_string p) = true ->
  scheme_from s = Some p.
Proof.
  revert s. induction p as [|c p IH]; intros s.
  - rewrite app_nil_s. destruct s as [|c' s]; [done|]. cbn [strip_prefix scheme_from].
    destruct (Ascii.eqb_spec ":"%char c') as [<-|]; [|done]. done.
  - rewrite app_cons_s. destruct s as [|c' s]; [done|]. cbn [strip_prefix scheme_from list_ascii_of_string forallb].
    destruct (Ascii.eqb_spec c c') as [<-|]; [|done].
    intros Hs [Hc Hp]%andb_true_iff. apply negb_true_iff, orb_false_iff in Hc as [-> ->].
    by rewrite (IH s).
Qed.

(** Whatever the white list, an attribute that holds a URL (href, src and
    the like) is kept only if its value has no scheme or one of http, https,
    mailto, ftp, tel, file and data, and then data only as base64 of a listed
    media type: no javascript URL passes, in whatever case it is written. *)
Theorem sanitize_scheme attr l :
  toLowerCase (nodeName attr) ∈ uriAttrs -> existsb (is_name (toLowerCase (nodeName attr))) l = true ->
  allowedAttribute attr l = true ->
  match url_scheme (nodeValue attr) with
  | None => True
  | Some s => s ∈ harmless_schemes /\ (s = "data"%string -> DATA_URL_PATTERN (nodeValue attr) = true)
  end.
Proof.
  intros Hu Hn. unfold allowedAttribute. rewrite Hn.
  assert (E : existsb (String.eqb (toLowerCase (nodeName attr))) uriAttrs = true).
  { apply existsb_exists. exists (toLowerCase (nodeName attr)). split; [by apply list_elem_of_In|apply String.eqb_refl]. }
  rewrite E. intros [H|H]%orb_true_iff.
  - unfold SAFE_URL_PATTERN in H. apply orb_true_iff in H as [H|H].
    + apply existsb_exists in H as (p & Hp & Hs). apply list_elem_of_In in Hp.
      destruct (strip_prefix p _) as [r|] eqn:Er; [|done]. unfold url_scheme, safe_schemes in *.
      repeat (apply elem_of_cons in Hp as [->|Hp];
        [match type of Er with strip_prefix ?s _ = _ =>
           rewrite (strip_scheme (String.substring 0 (String.length s - 1) s) _ r Er eq_refl)
         end; simpl; split; [unfold harmless_schemes; set_solver|intros Ex; discriminate Ex]|]).
      by apply not_elem_of_nil in Hp.
    + by rewrite relative_no_scheme.
  - assert (Hs : url_scheme (nodeValue attr) = Some "data"%string).
    { unfold DATA_URL_PATTERN in H. destruct (strip_prefix "data:" _) as [r|] eqn:Er; [|done].
      apply (strip_scheme "data" _ r Er eq_refl). }
    rewrite Hs. split; [unfold harmless_schemes; set_solver|done].
Qed.

Lemma sanitize_scheme_witness :
  url_scheme " JavaScript:alert(1)" = Some " javascript"%string /\
  allowedAttribute (Attr "href" " JavaScript:alert(1)") (names ["href"%string]) = false /\
  "https"%string ∈ harmless_schemes.
Proof.
  split; [vm_compute; reflexivity|]. split; [vm_compute; reflexivity|].
  assert (H := sanitize_scheme (Attr "HREF" "https://example.org") (names ["href"%string])).
  assert (E : url_scheme (nodeValue (Attr "HREF" "https://example.org")) = Some "https"%string)
    by (vm_compute; reflexivity).
  rewrite E in H. apply H; [|vm_compute; reflexivity|vm_compute; reflexivity].
  change (toLowerCase (nodeName (Attr "HREF" "https://example.org"))) with "href"%string.
  unfold uriAttrs. set_solver.
Defined.

Lemma sanitize_clean_witness :
  sanitize_tree DefaultWhitelist
    [Element "A" [Attr "href" "javascript:x"; Attr "title" "t"] [Element "script" [] [Text "x"]; Text "y"]]
  = [Element "A" [Attr "title" "t"] [Text "y"]] /\
  sanitize_tree DefaultWhitelist [Text "y"] = [Text "y"%string].
Proof.
  split; [vm_compute; reflexivity|]. destruct (sanitize_clean DefaultWhitelist [Text "y"%string]) as (_ & H & _).
  apply H. repeat constructor.
Defined.

(** ** The items of a carousel *)

Lemma indexOf_lookup items i e : NoDup items -> items !! i = Some e -> indexOf e items = Z.of_nat i.
Proof.
  revert i. induction items as [|x items IH]; intros i Hnd Hi; [done|]. apply NoDup_cons in Hnd as [Hx Hnd].
  cbn [indexOf]. destruct i as [|i]; simpl in Hi.
  - injection Hi as ->. by rewrite Nat.eqb_refl.
  - destruct (Nat.eqb_spec x e) as [->|_]; [by apply list_elem_of_lookup_2 in Hi|].
    rewrite (IH i Hnd Hi). destruct (Z.eqb_spec (Z.of_nat i) (-1)); lia.
Qed.

(** Where a carousel on [e] goes: [_getItemByDirection] once [_items] is read. *)
Definition advance (d : direction) (wrap : bool) (items : list elem) (e : elem) : option elem :=
  itemByDirection d wrap items e (indexOf e items).

Lemma item_at_nat items (i : nat) : item_at items (Z.of_nat i) = items !! i.
Proof. unfold item_at. destruct (Z.ltb_spec (Z.of_nat i) 0); [lia|]. by rewrite Nat2Z.id. Qed.

Section items.
Context (items : list elem) (Hnd : NoDup items).

Lemma advance_next wrap i e : items !! i = Some e ->
  advance DIRECTION_NEXT wrap items e =
    if (S i =? (length items))%nat then (if wrap then items !! 0%nat else Some e) else items !! S i.
Proof.
  intros Hi. assert (Hl : (i < (length items))%nat) by by eapply lookup_lt_Some. unfold advance, itemByDirection.
  rewrite (indexOf_lookup items i e) by done. cbn [andb orb].
  replace (Z.of_nat i =? Z.of_nat (length items) - 1) with (S i =? (length items))%nat by (destruct (Nat.eqb_spec (S i) (length items)); lia).
  destruct (Nat.eqb_spec (S i) (length items)) as [E|E].
  - destruct wrap; cbn [andb negb]; [|done]. destruct (Z.eqb_spec (Z.of_nat (length items)) 0); [lia|].
    replace (Z.of_nat i + 1) with (Z.of_nat (length items)) by lia. rewrite Z.rem_same by lia. cbn. apply (item_at_nat items 0).
  - cbn [andb]. destruct (Z.eqb_spec (Z.of_nat (length items)) 0); [lia|]. rewrite Z.rem_small by lia.
    destruct (Z.eqb_spec (Z.of_nat i + 1) (-1)); [lia|].
    replace (Z.of_nat i + 1) with (Z.of_nat (S i)) by lia. apply item_at_nat.
Qed.

Lemma advance_prev wrap i e : items !! i = Some e ->
  advance DIRECTION_PREV wrap items e =
    match i with O => if wrap then items !! ((length items) - 1)%nat else Some e | S i => items !! i end.
Proof.
  intros Hi. assert (Hl : (i < (length items))%nat) by by eapply lookup_lt_Some. unfold advance, itemByDirection.
  rewrite (indexOf_lookup items i e) by done. cbn [andb orb].
  destruct i as [|i].
  - cbn [Z.of_nat Z.eqb orb andb]. destruct wrap; cbn [negb]; [|done].
    destruct (Z.eqb_spec (Z.of_nat (length items)) 0); [lia|].
    assert (E : Z.rem (-1) (Z.of_nat (length items)) = -1 \/ Z.of_nat (length items) = 1).
    { destruct (Z.eq_dec (Z.of_nat (length items)) 1); [by right|left].
      change (-1) with (- (1)). rewrite Z.rem_opp_l by lia. rewrite Z.rem_small; lia. }
    match goal with |- context [Z.rem ?a _] => change a with (-1) end.
    destruct E as [-> | E].
    + cbn. replace (Z.of_nat (length items) - 1) with (Z.of_nat ((length items) - 1)) by lia. apply item_at_nat.
    + rewrite E. cbn. replace ((length items) - 1)%nat with 0%nat by lia. apply (item_at_nat items 0).
  - destruct (Z.eqb_spec (Z.of_nat (S i)) 0); [lia|]. cbn [orb andb].
    destruct (Z.eqb_spec (Z.of_nat (length items)) 0); [lia|]. rewrite Z.rem_small by lia.
    destruct (Z.eqb_spec (Z.of_nat (S i) + -1) (-1)); [lia|].
    replace (Z.of_nat (S i) + -1) with (Z.of_nat i) by lia. apply item_at_nat.
Qed.
End items.

(** The items of a carousel: with [wrap], going on [k] times from item [i]
    of [n] reaches item [(i + k) mod n], so [n] steps visit every item and come
    back, and going back undoes going on; without it the carousel stays on its
    last item going on, on its first going back, and moves to the neighbour
    otherwise. *)
Theorem carousel_cycle items i e k :
  NoDup items -> items !! i = Some e ->
  Nat.iter k (fun o => o ≫= advance DIRECTION_NEXT true items) (Some e) = items !! ((i + k) mod length items)%nat /\
  (advance DIRECTION_NEXT true items e ≫= advance DIRECTION_PREV true items) = Some e /\
  advance DIRECTION_NEXT false items e = (if (S i =? length items)%nat then Some e else items !! S i) /\
  advance DIRECTION_PREV false items e = match i with O => Some e | S j => items !! j end.
Proof.
  intros Hnd Hi. assert (Hl : (i < length items)%nat) by by eapply lookup_lt_Some.
  split_and!.
  - induction k as [|k IH]; [by rewrite Nat.add_0_r, Nat.mod_small|].
    cbn [Nat.iter nat_rect]. unfold Nat.iter in IH. rewrite IH.
    set (j := ((i + k) mod length items)%nat).
    assert (Hj : (j < length items)%nat) by (apply Nat.mod_upper_bound; lia).
    destruct (lookup_lt_is_Some_2 items j Hj) as [x Hx]. rewrite Hx. cbn [mbind option_bind].
    rewrite (advance_next items Hnd true j x Hx).
    replace (i + S k)%nat with (i + k + 1)%nat by lia.
    rewrite <- (Nat.Div0.add_mod_idemp_l (i + k) 1). fold j.
    destruct (Nat.eqb_spec (S j) (length items)) as [E|E].
    + replace (j + 1)%nat with (length items) by lia. by rewrite Nat.Div0.mod_same.
    + by rewrite Nat.mod_small, Nat.add_1_r by lia.
  - rewrite (advance_next items Hnd true i e Hi). destruct (Nat.eqb_spec (S i) (length items)) as [E|E].
    + destruct (lookup_lt_is_Some_2 items 0%nat) as [x Hx]; [lia|]. rewrite Hx. cbn [mbind option_bind].
      rewrite (advance_prev items Hnd true 0 x Hx). by replace (length items - 1)%nat with i by lia.
    + destruct (lookup_lt_is_Some_2 items (S i)) as [x Hx]; [lia|]. rewrite Hx. cbn [mbind option_bind].
      by rewrite (advance_prev items Hnd true (S i) x Hx).
  - by rewrite (advance_next items Hnd false i e Hi).
  - by rewrite (advance_prev items Hnd false i e Hi).
Qed.

Lemma carousel_cycle_witness :
  Nat.iter 3 (fun o => o ≫= advance DIRECTION_NEXT true [7; 8; 9]%nat) (Some 8%nat) = Some 8%nat.
Proof.
  destruct (carousel_cycle [7; 8; 9]%nat 1 8 3) as [H _].
  - repeat constructor; set_solver.
  - reflexivity.
  - exact H.
Defined.
