(* ===== verification/BsDomTheory.v ===== *)
(** Reasoning about plugin code: class lists under jQuery's methods, running a
    program of the monad, and a small document that satisfies the laws. *)
From Stdlib Require Import ZArith QArith String Ascii.
From stdpp Require Import base list gmap strings pretty.
From coqutil Require Import Datatypes.RecordSetters.
From S2P Require Import Prelude Js JsNum JsDom BsUtil.

Local Open Scope Z_scope.

(** ** Class lists *)

Definition cl_add (c : string) (l : list string) : list string := if bool_decide (c ∈ l) then l else l ++ [c].
Definition cl_remove (c : string) (l : list string) : list string := filter (fun c' => c' <> c) l.

Section classes.
Context {D : Type} `{DomLaws D}.

Lemma class_list_add_class e e' c d :
  class_list (add_class e c d) e' = if decide (e = e') then cl_add c (class_list d e') else class_list d e'.
Proof.
  unfold add_class, has_class, cl_add. case_decide as E.
  - subst. case_bool_decide; [done|]. apply class_list_eq.
  - case_bool_decide; [done|]. by apply class_list_ne.
Qed.

Lemma class_list_remove_class e e' c d :
  class_list (remove_class e c d) e' = if decide (e = e') then cl_remove c (class_list d e') else class_list d e'.
Proof.
  unfold remove_class. case_decide as E; [subst; apply class_list_eq|by apply class_list_ne].
Qed.

Lemma has_class_add_class e e' c c' d :
  has_class (add_class e c d) e' c' = bool_decide (e = e' /\ c = c') || has_class d e' c'.
Proof.
  unfold has_class. rewrite class_list_add_class. destruct (decide (e = e')) as [->|Hne].
  - rewrite <- bool_decide_or. apply bool_decide_ext. unfold cl_add. case_bool_decide.
    + split; [by right|]. by intros [[_ <-]|].
    + rewrite elem_of_app, list_elem_of_singleton. naive_solver.
  - by rewrite (bool_decide_eq_false_2 (e = e' /\ c = c')) by tauto.
Qed.

Lemma has_class_remove_class e e' c c' d :
  has_class (remove_class e c d) e' c' = negb (bool_decide (e = e' /\ c = c')) && has_class d e' c'.
Proof.
  unfold has_class. rewrite class_list_remove_class. destruct (decide (e = e')) as [->|Hne].
  - rewrite <- bool_decide_not, <- bool_decide_and. apply bool_decide_ext. unfold cl_remove.
    rewrite (list_elem_of_filter (fun c0 => c0 <> c)). naive_solver.
  - by rewrite (bool_decide_eq_false_2 (e = e' /\ c = c')) by tauto.
Qed.

Lemma has_class_set_attr e k v d e' c' : has_class (set_attr e k v d) e' c' = has_class d e' c'.
Proof. unfold has_class. by rewrite class_list_attr. Qed.

Lemma has_class_set_focus e d e' c' : has_class (set_focus e d) e' c' = has_class d e' c'.
Proof. unfold has_class. by rewrite class_list_focus. Qed.

Lemma class_list_jq_add e e' cs d :
  class_list (jq_add_class [e] cs d) e' =
    if decide (e = e') then foldl (fun l c => cl_add c l) (class_list d e') (words cs) else class_list d e'.
Proof.
  unfold jq_add_class, jq_each. cbn [foldl]. generalize (words cs) as l. intros l. revert d.
  induction l as [|c l IH]; intros d; cbn [foldl]; [by case_decide|].
  rewrite IH, class_list_add_class. by case_decide.
Qed.

Lemma class_list_jq_remove e e' cs d :
  class_list (jq_remove_class [e] cs d) e' =
    if decide (e = e') then foldl (fun l c => cl_remove c l) (class_list d e') (words cs) else class_list d e'.
Proof.
  unfold jq_remove_class, jq_each. cbn [foldl]. generalize (words cs) as l. intros l. revert d.
  induction l as [|c l IH]; intros d; cbn [foldl]; [by case_decide|].
  rewrite IH, class_list_remove_class. by case_decide.
Qed.

Lemma jq_add_one e c d : words c = [c] -> jq_add_class [e] c d = add_class e c d.
Proof. unfold jq_add_class, jq_each. cbn [foldl]. by intros ->. Qed.

Lemma jq_remove_one e c d : words c = [c] -> jq_remove_class [e] c d = remove_class e c d.
Proof. unfold jq_remove_class, jq_each. cbn [foldl]. by intros ->. Qed.

Lemma cl_add_notin c l : c ∉ l -> cl_add c l = l ++ [c].
Proof. intros Hc. unfold cl_add. by rewrite bool_decide_eq_false_2. Qed.

Lemma cl_add_in c l : c ∈ l -> cl_add c l = l.
Proof. intros Hc. unfold cl_add. by rewrite bool_decide_eq_true_2. Qed.

Lemma cl_remove_notin c l : c ∉ l -> cl_remove c l = l.
Proof.
  intros Hc. unfold cl_remove. induction l as [|x l IH]; [done|].
  rewrite filter_cons_True by set_solver. by rewrite IH by set_solver.
Qed.

Lemma cl_remove_app c l k : cl_remove c (l ++ k) = cl_remove c l ++ cl_remove c k.
Proof. apply filter_app. Qed.

Lemma elem_of_cl_add c x l : x ∈ cl_add c l <-> x = c \/ x ∈ l.
Proof.
  unfold cl_add. case_bool_decide.
  - split; [by right|]. by intros [-> |].
  - rewrite elem_of_app, list_elem_of_singleton. intuition.
Qed.

Lemma elem_of_cl_remove c x l : x ∈ cl_remove c l <-> x <> c /\ x ∈ l.
Proof. unfold cl_remove. apply (list_elem_of_filter (fun c' => c' <> c)). Qed.

Lemma has_class_one e c d : jq_has_class d [e] c = has_class d e c.
Proof. unfold jq_has_class. simpl. by rewrite orb_false_r. Qed.

(** [toggleClass] of a class that is there, or not. *)
Lemma toggle_class_on e c d : has_class d e c = true -> toggle_class e c d = remove_class e c d.
Proof. unfold toggle_class. by intros ->. Qed.

Lemma toggle_class_off e c d : has_class d e c = false -> toggle_class e c d = add_class e c d.
Proof. unfold toggle_class. by intros ->. Qed.

(** Other accessors do not see the classes. *)
Lemma attr_jq_add els cs d e k : attr (jq_add_class els cs d) e k = attr d e k.
Proof.
  unfold jq_add_class, jq_each. revert d. induction els as [|x els IH]; intros d; cbn [foldl]; [done|].
  rewrite IH. generalize (words cs) as l. intros l. revert d.
  induction l as [|c l IHl]; intros d; cbn [foldl]; [done|]. rewrite IHl. unfold add_class.
  destruct (has_class d x c); [done|]. apply attr_class.
Qed.

Lemma attr_jq_remove els cs d e k : attr (jq_remove_class els cs d) e k = attr d e k.
Proof.
  unfold jq_remove_class, jq_each. revert d. induction els as [|x els IH]; intros d; cbn [foldl]; [done|].
  rewrite IH. generalize (words cs) as l. intros l. revert d.
  induction l as [|c l IHl]; intros d; cbn [foldl]; [done|]. rewrite IHl. unfold remove_class. apply attr_class.
Qed.

Lemma style_jq_add els cs d e k : style (jq_add_class els cs d) e k = style d e k.
Proof.
  unfold jq_add_class, jq_each. revert d. induction els as [|x els IH]; intros d; cbn [foldl]; [done|].
  rewrite IH. generalize (words cs) as l. intros l. revert d.
  induction l as [|c l IHl]; intros d; cbn [foldl]; [done|]. rewrite IHl. unfold add_class.
  destruct (has_class d x c); [done|]. apply style_class.
Qed.

Lemma user_data_jq_add els cs d e k : user_data (jq_add_class els cs d) e k = user_data d e k.
Proof.
  unfold jq_add_class, jq_each. revert d. induction els as [|x els IH]; intros d; cbn [foldl]; [done|].
  rewrite IH. generalize (words cs) as l. intros l. revert d.
  induction l as [|c l IHl]; intros d; cbn [foldl]; [done|]. rewrite IHl. unfold add_class.
  destruct (has_class d x c); [done|]. apply user_data_class.
Qed.

(** [aria-expanded] and the like on a set of elements. *)
Lemma class_list_jq_attr els k v d e : class_list (jq_attr els k v d) e = class_list d e.
Proof.
  unfold jq_attr, jq_each. revert d. induction els as [|x els IH]; intros d; cbn [foldl]; [done|].
  by rewrite IH, class_list_attr.
Qed.

Lemma attr_jq_attr_other els k v d e k' : k <> k' -> attr (jq_attr els k v d) e k' = attr d e k'.
Proof.
  intros Hk. unfold jq_attr, jq_each. revert d. induction els as [|x els IH]; intros d; cbn [foldl]; [done|].
  rewrite IH. apply attr_ne. congruence.
Qed.

Lemma attr_jq_attr els k v d e : attr (jq_attr els k v d) e k = if decide (e ∈ els) then Some v else attr d e k.
Proof.
  unfold jq_attr, jq_each. revert d. induction els as [|x els IH]; intros d; cbn [foldl].
  - by rewrite decide_False by apply not_elem_of_nil.
  - rewrite IH. case_decide as E1; [by rewrite decide_True by by right|].
    destruct (decide (e = x)) as [->|Hne].
    + rewrite decide_True by by left. apply attr_eq.
    + rewrite decide_False by set_solver. apply attr_ne. congruence.
Qed.

Lemma class_list_jq_remove_all els c d e : words c = [c] ->
  class_list (jq_remove_class els c d) e = if decide (e ∈ els) then cl_remove c (class_list d e) else class_list d e.
Proof.
  intros Hc. unfold jq_remove_class, jq_each. revert d. induction els as [|x els IH]; intros d; cbn [foldl].
  - by rewrite decide_False by apply not_elem_of_nil.
  - rewrite IH, Hc. cbn [foldl]. rewrite !class_list_remove_class. repeat case_decide; subst; try done; try set_solver.
    unfold cl_remove. clear. induction (class_list d e) as [|y l IH]; [done|].
    rewrite !filter_cons. case_decide; [|done]. rewrite filter_cons. case_decide; [|done]. by f_equal.
Qed.
End classes.
#[export] Hint Rewrite @has_class_add_class @has_class_remove_class @has_class_set_attr @has_class_set_focus
  using typeclasses eauto : classes.

(** ** Running a program *)

(** Unfold the monad and the effects that cannot fail; what is left are the
    lookups and the conditions. *)
Ltac mrun :=
  cbv beta iota zeta delta [mbind M_bind mret M_ret skip throw get_dom mod_dom when deref get put
    get_data set_data remove_data add_task setTimeout setInterval jq_one for_each fresh_cell trigger
    transitionEndEmulator prevent_default lift_result
    dom heap data tasks called next_id prevented constant apply_update option_list option_rect].

(** ** A document *)

(** Classes, attributes, styles and data as maps; the queries are fixed, one from
    a root can have an entry of its own, and the empty selector does not parse. *)
Record toy := Toy {
  toy_class : gmap elem (list string);
  toy_attr : gmap (elem * string) string;
  toy_style : gmap (elem * string) string;
  toy_prop : gmap (elem * string) jsval;
  toy_data : gmap (elem * string) string;
  toy_query : list (string * list elem);
  toy_parent : gmap elem elem;
  toy_next : elem
}.

Definition upd {V} (k : elem * string) (v : option V) (m : gmap (elem * string) V) : gmap (elem * string) V :=
  match v with Some v => <[k := v]> m | None => delete k m end.

Lemma lookup_upd {V} k (v : option V) m : upd k v m !! k = v.
Proof. unfold upd. destruct v; [apply lookup_insert_eq|apply lookup_delete_eq]. Qed.

Lemma lookup_upd_ne {V} k k' (v : option V) m : k <> k' -> upd k v m !! k' = m !! k'.
Proof. intros. unfold upd. destruct v; [by apply lookup_insert_ne|by apply lookup_delete_ne]. Qed.

Definition toy_entry (d : toy) (key : string) : option (list elem) :=
  snd <$> head (filter (fun p => p.1 = key) (toy_query d)).

Definition toy_find (d : toy) (root : option elem) (sel : string) : option (list elem) :=
  if String.eqb sel "" then None
  else
    let own := match root with Some r => toy_entry d (sel +:+ " in " +:+ pretty r) | None => None end in
    Some (default [] (match own with Some l => Some l | None => toy_entry d sel end)).

#[export] Instance toy_dom : Dom toy := {|
  class_list d e := default [] (toy_class d !! e);
  set_class_list e l d := d <| toy_class ::= insert e l |>;
  attr d e k := toy_attr d !! (e, k);
  set_attr e k v d := d <| toy_attr ::= upd (e, k) v |>;
  style d e k := default ""%string (toy_style d !! (e, k));
  set_style e k v d := d <| toy_style ::= insert (e, k) v |>;
  computed d e k := default ""%string (toy_style d !! (e, k));
  prop d e k := default VUndef (toy_prop d !! (e, k));
  set_prop e k v d := d <| toy_prop ::= insert (e, k) v |>;
  query := toy_find;
  matches d e s := false;
  closest d e s := None;
  parent d e := toy_parent d !! e;
  children d e := [];
  ancestors d e := [];
  prev_sibling d e := None;
  contains d a b := false;
  bounding_rect d e := ClientRect 0 0 0 0 0 0;
  dataset d e := ∅;
  user_data d e k := toy_data d !! (e, k);
  set_user_data e k v d := d <| toy_data ::= upd (e, k) v |>;
  remove_node e d := d <| toy_parent ::= delete e |>;
  append_child p c d := d <| toy_parent ::= insert c p |>;
  create_element d := (toy_next d, d <| toy_next ::= S |>);
  set_focus e d := d;
  document_element := 0%nat;
  body := 1%nat
|}.

#[export] Instance toy_laws : DomLaws toy.
Proof.
  split; intros; destruct d; cbn; unfold constant;
    rewrite ?lookup_insert_eq, ?lookup_upd, ?lookup_insert_ne, ?lookup_upd_ne by congruence; done.
Qed.
