(* ===== verification/BsHoare.v ===== *)
(** A program logic for plugin code: [runs m Q w] says that [m], run in the
    world [w], ends without an exception in a world and with a value that
    satisfy [Q].  The rules follow the code; [wp] applies them.

    [restyle d d'] relates two documents that differ by classes, attributes,
    styles, focus and the like only: what the plugins change while a theorem
    relies on the structure of the page. *)
From Stdlib Require Import ZArith QArith Lia String Ascii.
From stdpp Require Import base list gmap strings.
From coqutil Require Import Datatypes.RecordSetters.
From S2P Require Import Prelude Js JsDom BsUtil BsDomTheory.

Local Open Scope Z_scope.

(** Listeners that let everything happen and change nothing. *)
Definition silent {W'} : event -> elem -> M W' bool := fun _ _ w => (w, inr false).

Create HintDb wp.

Section logic.
Context {W : Type}.

Definition runs {A} (m : M W A) (Q : A -> W -> Prop) (w : W) : Prop :=
  match m w with (w', inr a) => Q a w' | (_, inl _) => False end.

Lemma runs_elim {A} (m : M W A) Q w : runs m Q w -> exists w' a, m w = (w', inr a) /\ Q a w'.
Proof. unfold runs. destruct (m w) as [w' [e|a]]; [done|eauto]. Qed.

Lemma runs_intro {A} (m : M W A) (Q : A -> W -> Prop) w w' a : m w = (w', inr a) -> Q a w' -> runs m Q w.
Proof. unfold runs. by intros ->. Qed.

Lemma runs_unit (m : M W unit) (P : W -> Prop) w :
  runs m (fun _ => P) w -> exists w', m w = (w', inr tt) /\ P w'.
Proof. intros (w' & [] & E & HP)%runs_elim. eauto. Qed.

Lemma runs_pure (f : W -> W) (Q : unit -> W -> Prop) w : Q tt (f w) -> runs (fun w => (f w, inr tt)) Q w.
Proof. done. Qed.

Lemma runs_mono {A} (m : M W A) (Q Q' : A -> W -> Prop) w :
  (forall a w', Q a w' -> Q' a w') -> runs m Q w -> runs m Q' w.
Proof. unfold runs. destruct (m w) as [w' [e|a]]; auto. Qed.

Lemma runs_ret {A} (a : A) (Q : A -> W -> Prop) w : Q a w -> runs (mret a) Q w.
Proof. done. Qed.

Lemma runs_bind {A B} (m : M W A) (f : A -> M W B) Q w :
  runs m (fun a => runs (f a) Q) w -> runs (m ≫= f) Q w.
Proof. unfold runs, mbind, M_bind. destruct (m w) as [w' [e|a]]; auto. Qed.

(** A program that is known to run is stepped over. *)
Lemma runs_seq {A B} (m : M W A) (f : A -> M W B) Q (R : A -> W -> Prop) w :
  runs m R w -> (forall a w', R a w' -> runs (f a) Q w') -> runs (m ≫= f) Q w.
Proof. intros Hm Hf. apply runs_bind. eapply runs_mono; [|exact Hm]. done. Qed.
End logic.

Section rules.
Context {D S K : Type}.
Local Abbreviation W := (World D S K).
Implicit Types (w : W).

Lemma runs_skip (Q : unit -> W -> Prop) w : Q tt w -> runs skip Q w.
Proof. done. Qed.

Lemma runs_when (b : bool) (m : M W unit) Q w :
  (b = true -> runs m Q w) -> (b = false -> Q tt w) -> runs (when b m) Q w.
Proof. destruct b; intros Ht Hf; [by apply Ht|by apply Hf]. Qed.

Lemma runs_get_dom (Q : D -> W -> Prop) w : Q (dom w) w -> runs get_dom Q w.
Proof. done. Qed.

Lemma runs_mod_dom f (Q : unit -> W -> Prop) w : Q tt (w <| dom := f (dom w) |>) -> runs (mod_dom f) Q w.
Proof. done. Qed.

Lemma runs_get o s (Q : S -> W -> Prop) w : heap w !! o = Some s -> Q s w -> runs (get o) Q w.
Proof. intros E. unfold runs, get. by rewrite E. Qed.

Lemma runs_put o f (Q : unit -> W -> Prop) w : Q tt (w <| heap := alter f o (heap w) |>) -> runs (put o f) Q w.
Proof. done. Qed.

Lemma runs_get_data el (Q : option nat -> W -> Prop) w : Q (data w !! el) w -> runs (get_data el) Q w.
Proof. done. Qed.

Lemma runs_trigger o e (Q : bool -> W -> Prop) w : Q false w -> runs (trigger silent o e) Q w.
Proof. by destruct o. Qed.

Lemma runs_silent e el (Q : bool -> W -> Prop) w : Q false w -> runs (silent e el) Q w.
Proof. done. Qed.

Lemma runs_setTimeout c ms (Q : nat -> W -> Prop) w :
  Q (next_id w) (w <| tasks := tasks w ++ [Task (next_id w) (Timeout ms) c] |>
                   <| next_id := (next_id w + 1)%nat |>) -> runs (setTimeout c ms) Q w.
Proof. done. Qed.

Lemma runs_jq_one el e c (Q : unit -> W -> Prop) w :
  Q tt (w <| tasks := tasks w ++ [Task (next_id w) (Once el e) c] |>
          <| next_id := (next_id w + 1)%nat |>) -> runs (jq_one [el] e c) Q w.
Proof. done. Qed.

(** The emulation of the end of a transition: one more listener, and a timer. *)
Lemma runs_transitionEndEmulator el ms (Q : unit -> W -> Prop) w :
  Q tt (w <| tasks := tasks w ++ [Task (next_id w + 1) (Once el TRANSITION_END) (EmuMark (next_id w));
                                  Task (next_id w + 2) (Timeout (default 0%Q ms)) (EmuFire (next_id w) [el])] |>
          <| next_id := (next_id w + 3)%nat |>) ->
  runs (transitionEndEmulator [el] ms) Q w.
Proof.
  destruct w as [dm hp dt ts cl ni pv]. unfold runs. mrun. cbn. unfold constant.
  rewrite <- app_assoc. cbn. by replace (ni + 1 + 1 + 1)%nat with (ni + 3)%nat by lia;
    replace (ni + 1 + 1)%nat with (ni + 2)%nat by lia.
Qed.

Lemma runs_clear_task id (Q : unit -> W -> Prop) w :
  Q tt (match id with Some i => w <| tasks := filter (fun t => task_id t <> i) (tasks w) |> | None => w end) ->
  runs (clear_task id) Q w.
Proof. done. Qed.

Lemma runs_deref {A} (o : option A) a (Q : A -> W -> Prop) w : o = Some a -> Q a w -> runs (deref o) Q w.
Proof. by intros ->. Qed.

Lemma runs_lift {A} (r : exn + A) a (Q : A -> W -> Prop) w : r = inr a -> Q a w -> runs (lift_result r) Q w.
Proof. by intros ->. Qed.

(** A loop keeps what each of its rounds keeps. *)
Lemma runs_for_each {A} (l : list A) (f : A -> M W unit) (I : list A -> W -> Prop) w :
  I l w ->
  (forall x l w', I (x :: l) w' -> runs (f x) (fun _ => I l) w') ->
  runs (for_each l f) (fun _ => I []) w.
Proof.
  intros Hi Hf. revert w Hi. induction l as [|x l IH]; intros w Hi; [done|]. simpl.
  eapply runs_seq; [by apply Hf|]. intros u w' Hi'. by apply IH.
Qed.

Context `{Dom D}.

Lemma runs_query_all root sel l (Q : list elem -> W -> Prop) w :
  query (dom w) root sel = Some l -> Q l w -> runs (query_all root sel) Q w.
Proof. intros E. unfold runs, query_all. by rewrite E. Qed.

Lemma runs_query_one root sel l (Q : option elem -> W -> Prop) w :
  query (dom w) root sel = Some l -> Q (head l) w -> runs (query_one root sel) Q w.
Proof. intros E HQ. apply runs_bind. by eapply runs_query_all. Qed.
End rules.

(** The fields of an updated world. *)
Section fields.
Context {D S K : Type}.
Implicit Types (w : World D S K).
Lemma heap_heap w h : heap (w <| heap := h |>) = h. Proof. done. Qed.
Lemma heap_dom w d : heap (w <| dom := d |>) = heap w. Proof. done. Qed.
Lemma heap_tasks w l : heap (w <| tasks := l |>) = heap w. Proof. done. Qed.
Lemma heap_next w n : heap (w <| next_id := n |>) = heap w. Proof. done. Qed.
Lemma dom_dom w d : dom (w <| dom := d |>) = d. Proof. done. Qed.
Lemma dom_heap w h : dom (w <| heap := h |>) = dom w. Proof. done. Qed.
Lemma dom_tasks w l : dom (w <| tasks := l |>) = dom w. Proof. done. Qed.
Lemma dom_next w n : dom (w <| next_id := n |>) = dom w. Proof. done. Qed.
Lemma tasks_tasks w l : tasks (w <| tasks := l |>) = l. Proof. done. Qed.
Lemma tasks_heap w h : tasks (w <| heap := h |>) = tasks w. Proof. done. Qed.
Lemma tasks_dom w d : tasks (w <| dom := d |>) = tasks w. Proof. done. Qed.
Lemma tasks_next w n : tasks (w <| next_id := n |>) = tasks w. Proof. done. Qed.
Lemma heap_called w l : heap (w <| called := l |>) = heap w. Proof. done. Qed.
Lemma dom_called w l : dom (w <| called := l |>) = dom w. Proof. done. Qed.
Lemma tasks_called w l : tasks (w <| called := l |>) = tasks w. Proof. done. Qed.
Lemma next_called w l : next_id (w <| called := l |>) = next_id w. Proof. done. Qed.
Lemma next_heap w h : next_id (w <| heap := h |>) = next_id w. Proof. done. Qed.
Lemma next_dom w d : next_id (w <| dom := d |>) = next_id w. Proof. done. Qed.
Lemma next_tasks w l : next_id (w <| tasks := l |>) = next_id w. Proof. done. Qed.
Lemma next_next w n : next_id (w <| next_id := n |>) = n. Proof. done. Qed.
Lemma heap_data w m : heap (w <| data := m |>) = heap w. Proof. done. Qed.
Lemma dom_data w m : dom (w <| data := m |>) = dom w. Proof. done. Qed.
Lemma next_data w m : next_id (w <| data := m |>) = next_id w. Proof. done. Qed.
Lemma data_data w m : data (w <| data := m |>) = m. Proof. done. Qed.
Lemma data_next w n : data (w <| next_id := n |>) = data w. Proof. done. Qed.
Lemma data_heap w h : data (w <| heap := h |>) = data w. Proof. done. Qed.
End fields.
#[export] Hint Rewrite @heap_heap @heap_dom @heap_tasks @heap_next @dom_dom @dom_heap @dom_tasks @dom_next
  @tasks_tasks @tasks_heap @tasks_dom @tasks_next @next_heap @next_dom @next_tasks @next_next
  @heap_called @dom_called @tasks_called @next_called @heap_data @dom_data @next_data
  @data_data @data_next @data_heap : world.

(** One rule of the logic; side conditions that are hypotheses are closed. *)
Ltac wp_step :=
  lazymatch goal with
  | |- runs (mbind _ _) _ _ => apply runs_bind
  | |- runs (mret _) _ _ => apply runs_ret
  | |- runs skip _ _ => apply runs_skip
  | |- runs get_dom _ _ => apply runs_get_dom
  | |- runs (mod_dom _) _ _ => apply runs_mod_dom
  | |- runs (put _ _) _ _ => apply runs_put
  | |- runs (get_data _) _ _ => apply runs_get_data
  | |- runs (trigger silent _ _) _ _ => apply runs_trigger
  | |- runs (silent _ _) _ _ => apply runs_silent
  | |- runs (setTimeout _ _) _ _ => apply runs_setTimeout
  | |- runs (jq_one [_] _ _) _ _ => apply runs_jq_one
  | |- runs (transitionEndEmulator [_] _) _ _ => apply runs_transitionEndEmulator
  | |- runs (clear_task _) _ _ => apply runs_clear_task
  | |- runs (get _) _ _ =>
      eapply runs_get; [solve [eauto with wp
        | autorewrite with world; rewrite ?lookup_alter_eq; eauto with wp
        | autorewrite with world; rewrite ?lookup_alter_eq;
          match goal with E : heap _ !! _ = Some _ |- _ => rewrite E end; reflexivity]|]
  | |- runs (deref _) _ _ => eapply runs_deref; [solve [eauto with wp | cbn; eauto with wp]|]
  | |- runs (query_all _ _) _ _ => eapply runs_query_all; [solve [eauto with wp]|]
  | |- runs (query_one _ _) _ _ => eapply runs_query_one; [solve [eauto with wp]|]
  | |- runs (when true _) _ _ => unfold when at 1
  | |- runs (when false _) _ _ => unfold when at 1
  end.
Ltac wp := repeat (wp_step; cbv beta iota).

(** ** Changes that keep the structure of the page *)
Section restyle.
Context {D : Type} `{Dom D}.

Inductive restyle (d : D) : D -> Prop :=
| restyle_refl : restyle d d
| restyle_class e l d' : restyle d d' -> restyle d (set_class_list e l d')
| restyle_aria e k v d' : String.prefix "aria-" k = true -> restyle d d' -> restyle d (set_attr e k v d')
| restyle_style e k v d' : restyle d d' -> restyle d (set_style e k v d')
| restyle_focus e d' : restyle d d' -> restyle d (set_focus e d').

Global Instance restyle_preorder : PreOrder restyle.
Proof.
  split; [intros d; constructor|]. intros d d' d'' H1 H2.
  induction H2; [done|by constructor..].
Qed.

Lemma restyle_jq_each (f : elem -> D -> D) els d d' :
  (forall e d, restyle d (f e d)) -> restyle d d' -> restyle d (jq_each f els d').
Proof.
  intros Hf. unfold jq_each. revert d'. induction els as [|e els IH]; intros d' Hd; cbn [foldl]; [done|].
  apply IH. by etrans; [|apply Hf].
Qed.

Lemma restyle_add_class e c d d' : restyle d d' -> restyle d (add_class e c d').
Proof. unfold add_class. destruct (has_class d' e c); [done|]. apply restyle_class. Qed.

Lemma restyle_remove_class e c d d' : restyle d d' -> restyle d (remove_class e c d').
Proof. apply restyle_class. Qed.

Lemma restyle_toggle_class e c d d' : restyle d d' -> restyle d (toggle_class e c d').
Proof. unfold toggle_class. destruct (has_class d' e c); [apply restyle_remove_class|apply restyle_add_class]. Qed.

Lemma restyle_foldl {A} (f : D -> A -> D) l d d' :
  (forall a d, restyle d (f d a)) -> restyle d d' -> restyle d (foldl f d' l).
Proof.
  intros Hf. revert d'. induction l as [|a l IH]; intros d' Hd; cbn [foldl]; [done|].
  apply IH. by etrans; [|apply Hf].
Qed.

Lemma restyle_jq_add els cs d d' : restyle d d' -> restyle d (jq_add_class els cs d').
Proof.
  apply restyle_jq_each. intros e d0. apply restyle_foldl; [|done]. intros c d1. by apply restyle_add_class.
Qed.

Lemma restyle_jq_remove els cs d d' : restyle d d' -> restyle d (jq_remove_class els cs d').
Proof.
  apply restyle_jq_each. intros e d0. apply restyle_foldl; [|done]. intros c d1. by apply restyle_remove_class.
Qed.
End restyle.

#[export] Hint Resolve restyle_refl restyle_class restyle_style restyle_focus restyle_add_class
  restyle_remove_class restyle_toggle_class restyle_jq_add restyle_jq_remove : wp.
#[export] Hint Extern 1 (restyle _ (set_attr _ _ _ _)) => apply restyle_aria; [reflexivity|] : wp.

Lemma attr_restyle {D} `{DomLaws D} (d d' : D) e k :
  restyle d d' -> String.prefix "aria-" k = false -> attr d' e k = attr d e k.
Proof.
  intros Hr Hk. induction Hr as [|e' l d' Hr IH|e' k' v d' Hk' Hr IH|e' k' v d' Hr IH|e' d' Hr IH]; [done|..].
  - by rewrite attr_class.
  - rewrite attr_ne; [done|]. intros [= <- <-]. congruence.
  - by rewrite attr_style.
  - by rewrite attr_focus.
Qed.

(** What is left of the toy document. *)
Lemma toy_restyle d d' : restyle d d' ->
  toy_parent d' = toy_parent d /\ toy_query d' = toy_query d /\ toy_prop d' = toy_prop d /\
  toy_data d' = toy_data d.
Proof. induction 1 as [|? ? ? ? IH|? ? ? ? ? ? IH|? ? ? ? ? IH|? ? ? IH]; [done|..]; destruct d'; exact IH. Qed.

(** ** Programs that keep an invariant

    [keeps I m]: whatever [m] returns or throws, [I] holds afterwards if it
    held before. *)
Definition keeps {W A} (I : W -> Prop) (m : M W A) : Prop := forall w, I w -> I (fst (m w)).

Section keeps.
Context {W : Type} (I : W -> Prop).

Lemma keeps_bind {A B} (m : M W A) (f : A -> M W B) : keeps I m -> (forall a, keeps I (f a)) -> keeps I (m ≫= f).
Proof.
  intros Hm Hf w Hw. specialize (Hm w Hw). unfold mbind, M_bind.
  destruct (m w) as [w' [e|a]]; [done|]. by apply Hf.
Qed.

Lemma keeps_const {A} (r : exn + A) : keeps I (fun w => (w, r)).
Proof. by intros w. Qed.

Lemma keeps_read {A} (r : W -> exn + A) : keeps I (fun w => (w, r w)).
Proof. by intros w. Qed.

Lemma keeps_run {A} (m : M W A) w w' r : keeps I m -> m w = (w', r) -> I w -> I w'.
Proof. intros Hm E Hw. specialize (Hm w Hw). by rewrite E in Hm. Qed.

(** A sequence that succeeded, cut in two. *)
Lemma bind_inv {A B} (m : M W A) (f : A -> M W B) w w' b :
  (m ≫= f) w = (w', inr b) -> exists w1 a, m w = (w1, inr a) /\ f a w1 = (w', inr b).
Proof. unfold mbind, M_bind. destruct (m w) as [w1 [e|a]]; [done|]. eauto. Qed.

Lemma keeps_bind_inv {A B} (m : M W A) (f : A -> M W B) w w' b :
  keeps I m -> I w -> (m ≫= f) w = (w', inr b) -> exists w1 a, I w1 /\ f a w1 = (w', inr b).
Proof.
  intros Hm Hw E. destruct (bind_inv m f w w' b E) as (w1 & a & E1 & E2). exists w1, a.
  split; [by eapply keeps_run|done].
Qed.
End keeps.

(** An invariant of the instances, the tasks and the identifiers only. *)
Class Frame {D S K} (I : World D S K -> Prop) := {
  frame_dom w d : I w -> I (w <| dom := d |>);
  frame_data w d : I w -> I (w <| data := d |>);
  frame_called w c : I w -> I (w <| called := c |>);
  frame_prevented w b : I w -> I (w <| prevented := b |>)
}.

Section keeps_world.
Context {D S K : Type} (I : World D S K -> Prop) `{!Frame I}.
Local Abbreviation W := (World D S K).

Lemma keeps_skip : keeps I (skip : M W unit). Proof. by intros w. Qed.
Lemma keeps_ret {A} (a : A) : keeps I (mret a : M W A). Proof. by intros w. Qed.
Lemma keeps_throw {A} e : keeps I (throw e : M W A). Proof. by intros w. Qed.
Lemma keeps_get_dom : keeps I (get_dom : M W D). Proof. by intros w. Qed.
Lemma keeps_get o : keeps I (get o : M W S). Proof. by intros w. Qed.
Lemma keeps_get_data el : keeps I (get_data el : M W (option nat)). Proof. by intros w. Qed.
Lemma keeps_deref {A} (a : option A) : keeps I (deref a : M W A). Proof. destruct a; by intros w. Qed.
Lemma keeps_lift {A} (r : exn + A) : keeps I (lift_result r : M W A). Proof. destruct r; by intros w. Qed.
Lemma keeps_when b (m : M W unit) : keeps I m -> keeps I (when b m).
Proof. destruct b; [done|]. by intros _ w. Qed.
Lemma keeps_mod_dom f : keeps I (mod_dom f : M W unit).
Proof. intros w Hw. by apply frame_dom. Qed.
Lemma keeps_set_data el o : keeps I (set_data el o : M W unit).
Proof. intros w Hw. by apply frame_data. Qed.
Lemma keeps_remove_data el : keeps I (remove_data el : M W unit).
Proof. intros w Hw. destruct el; [by apply frame_data|done]. Qed.
Lemma keeps_prevent : keeps I (prevent_default : M W unit).
Proof. intros w Hw. by apply frame_prevented. Qed.

Lemma keeps_for_each {A} (l : list A) (f : A -> M W unit) : (forall a, keeps I (f a)) -> keeps I (for_each l f).
Proof.
  intros Hf. induction l as [|a l IH]; [apply keeps_skip|]. simpl. by apply keeps_bind.
Qed.

Lemma keeps_trigger fire o e : (forall e el, keeps I (fire e el)) -> keeps I (trigger fire o e : M W bool).
Proof. intros Hf. destruct o; [apply Hf|]. apply keeps_ret. Qed.

Context `{Dom D}.
Lemma keeps_query_all root sel : keeps I (query_all root sel : M W (list elem)). Proof. by intros w. Qed.
Lemma keeps_query_one root sel : keeps I (query_one root sel : M W (option elem)).
Proof. apply keeps_bind; [apply keeps_query_all|]. intros l. apply keeps_ret. Qed.
End keeps_world.

Create HintDb keeps discriminated.
#[export] Hint Constants Opaque : keeps.
#[export] Hint Resolve keeps_skip keeps_ret keeps_throw keeps_get_dom keeps_get keeps_get_data keeps_deref
  keeps_lift keeps_query_all keeps_query_one : keeps.
#[export] Hint Extern 1 (keeps _ (mod_dom _)) => apply keeps_mod_dom; exact _ : keeps.
#[export] Hint Extern 1 (keeps _ (set_data _ _)) => apply keeps_set_data; exact _ : keeps.
#[export] Hint Extern 1 (keeps _ (remove_data _)) => apply keeps_remove_data; exact _ : keeps.
#[export] Hint Extern 1 (keeps _ prevent_default) => apply keeps_prevent; exact _ : keeps.

(** The rules follow the code; what is left are the steps an invariant must be
    asked about. *)
Ltac keep :=
  repeat first
    [ solve [auto with keeps nocore]
    | lazymatch goal with
      | |- forall _, keeps _ _ => intro
      | |- keeps _ (mbind _ _) => apply keeps_bind
      | |- keeps _ (when _ _) => apply keeps_when
      | |- keeps _ (for_each _ _) => apply keeps_for_each
      | |- keeps _ (trigger _ _ _) => apply keeps_trigger
      | |- keeps _ (if ?b then _ else _) => destruct b
      | |- keeps _ (match ?x with _ => _ end) => destruct x
      | |- keeps _ (let '_ := ?x in _) => destruct x
      end ].
