(* ===== verification/BsTheorems.v ===== *)
(** The plugins of Bootstrap on a document that keeps the laws: what a slide, a
    collapse and a modal leave behind, transitions and prevented events
    included. *)
From Stdlib Require Import ZArith QArith Lia String Ascii.
From stdpp Require Import base list gmap strings.
From coqutil Require Import Datatypes.RecordSetters.
From S2P Require Import Prelude Js JsNum JsDom BsUtil BsDomTheory BsCarousel BsCollapse BsModal.

Local Open Scope Z_scope.

(** ** Carousel *)

Section carousel.
Context {D : Type} `{DomLaws D}.
Local Abbreviation W := (World D Carousel carousel_cb).

(** The active class went from one item to the other and nothing else
    changed. *)
Definition active_moved (d d' : D) (active next : elem) : Prop :=
  class_list d' next = class_list d next ++ ["active"%string] /\
  class_list d' active = cl_remove "active" (class_list d active) /\
  forall e, e <> next -> e <> active -> class_list d' e = class_list d e.

Definition dir_class (d : direction) : string := (slide_classes d).1.1.
Definition order_class (d : direction) : string := (slide_classes d).1.2.

(** No class of a slide is on the two items yet. *)
Definition ready_to_slide (d : D) (dir : direction) (active next : elem) : Prop :=
  next <> active /\
  Forall (fun c => c ∉ class_list d next) [dir_class dir; order_class dir; "active"%string] /\
  Forall (fun c => c ∉ class_list d active) [dir_class dir; order_class dir].

Lemma slide_to_transition fire w o this el cfg next active dir slid :
  heap w !! o = Some this -> _element this = Some el -> _config this = Some cfg ->
  has_class (dom w) el "slide" = true ->
  exists w1, slide_to fire o next active dir slid w = (w1, inr tt) /\
    dom w1 = jq_add_class [next] (dir_class dir) (jq_add_class [active] (dir_class dir)
               (jq_add_class [next] (order_class dir) (dom w))) /\
    heap w1 = alter (fun this => this <| _config := Some (slide_interval cfg (attr (dom w1) next "data-interval")) |>) o (heap w) /\
    exists id, Task id (Once active TRANSITION_END)
                 (Call (CSlideEnd o next active (dir_class dir) (order_class dir) slid)) ∈ tasks w1.
Proof.
  intros Ho Hel Hcfg Hs. unfold slide_to, dir_class, order_class.
  destruct (slide_classes dir) as [[dc oc] en] eqn:E. cbn [fst snd].
  destruct w as [dm hp dt ts cl ni pv]. cbn in Ho, Hs. mrun. rewrite Ho, Hel. mrun.
  rewrite has_class_one, Hs. mrun. rewrite Ho. mrun. rewrite Hcfg. mrun.
  eexists. split; [reflexivity|]. cbn. split_and!; [done|done|].
  exists ni. rewrite !elem_of_app. do 2 left. right. by left.
Qed.

(** The callback with the classes of the slide. *)
Lemma slide_end_run w o next active dc oc slid :
  exists w2, slide_end o next active dc oc slid w = (w2, inr tt) /\
    dom w2 = jq_remove_class [active] ("active " ++ oc ++ " " ++ dc)
               (jq_add_class [next] "active" (jq_remove_class [next] (dc ++ " " ++ oc) (dom w))) /\
    heap w2 = alter (fun this => this <| _isSliding := false |>) o (heap w) /\
    exists id, Task id (Timeout 0) (Call (CTriggerSlid o slid)) ∈ tasks w2.
Proof.
  unfold slide_end. destruct w as [dm hp dt ts cl ni pv]. mrun. eexists. split; [reflexivity|].
  split_and!; [done|done|]. exists ni. apply elem_of_app. right. by left.
Qed.

Lemma slide_words dir :
  words (dir_class dir) = [dir_class dir] /\ words (order_class dir) = [order_class dir] /\
  words (dir_class dir ++ " " ++ order_class dir) = [dir_class dir; order_class dir] /\
  words ("active " ++ order_class dir ++ " " ++ dir_class dir) = ["active"%string; order_class dir; dir_class dir] /\
  dir_class dir <> order_class dir /\ dir_class dir <> "active"%string /\ order_class dir <> "active"%string.
Proof. destruct dir; vm_compute; repeat split; discriminate. Qed.

(** The two halves of the transition on the classes. *)
Lemma transition_classes d dir active next : ready_to_slide d dir active next ->
  let d1 := jq_add_class [next] (dir_class dir) (jq_add_class [active] (dir_class dir)
               (jq_add_class [next] (order_class dir) d)) in
  active_moved d (jq_remove_class [active] ("active " ++ order_class dir ++ " " ++ dir_class dir)
               (jq_add_class [next] "active" (jq_remove_class [next] (dir_class dir ++ " " ++ order_class dir) d1)))
    active next.
Proof.
  intros (Hne & Hn & Ha). destruct (slide_words dir) as (W1 & W2 & W3 & W4 & N1 & N2 & N3). cbv zeta.
  revert Hn Ha W1 W2 W3 W4 N1 N2 N3. generalize (dir_class dir) as dc, (order_class dir) as oc. intros dc oc Hn Ha.
  intros W1 W2 W3 W4 N1 N2 N3.
  apply Forall_cons in Hn as [Hn1 Hn]. apply Forall_cons in Hn as [Hn2 Hn]. apply Forall_cons in Hn as [Hn3 _].
  apply Forall_cons in Ha as [Ha1 Ha]. apply Forall_cons in Ha as [Ha2 _].
  assert (Wa : words "active" = ["active"%string]) by reflexivity.
  unfold active_moved.
  assert (Hsingle : forall c l, c ∉ l -> cl_remove c (l ++ [c]) = l).
  { intros c l Hc. rewrite cl_remove_app, cl_remove_notin by done. unfold cl_remove.
    rewrite filter_cons_False by tauto. by rewrite filter_nil, app_nil_r. }
  split_and!.
  - repeat (rewrite ?class_list_jq_remove, ?class_list_jq_add, ?(decide_False (P := active = next)),
      ?(decide_True (P := next = next)) by congruence).
    rewrite W1, W2, W3, Wa. cbn [foldl].
    rewrite (cl_add_notin oc), (cl_add_notin dc) by set_solver.
    rewrite Hsingle by set_solver. rewrite Hsingle by done. by apply cl_add_notin.
  - repeat (rewrite ?class_list_jq_remove, ?class_list_jq_add, ?(decide_False (P := next = active)),
      ?(decide_True (P := active = active)) by congruence).
    rewrite W1, W4. cbn [foldl]. rewrite (cl_add_notin dc) by done.
    rewrite (cl_remove_app "active"). unfold cl_remove at 4. rewrite filter_cons_True, filter_nil by done.
    rewrite (cl_remove_notin oc). 2: { rewrite elem_of_app, elem_of_cl_remove. set_solver. }
    apply Hsingle. rewrite elem_of_cl_remove. tauto.
  - intros e He1 He2.
    repeat (rewrite ?class_list_jq_remove, ?class_list_jq_add, ?(decide_False (P := next = e)),
      ?(decide_False (P := active = e)) by congruence). done.
Qed.

(** Listeners that let everything happen and change nothing. *)
Definition quiet {W'} : event -> elem -> M W' bool := fun _ _ w => (w, inr false).

(** A slide moves the active class.  With the [slide] class, the transition
    is started and the end of it is registered; when it runs, on whatever
    direction, the next item has the active class added and the former one has
    it removed, no other class of any element has changed, the carousel is
    unlocked and [slid] is about to be triggered.  Without it the same change
    happens at once. *)
Theorem slide_moves_active fire hidden visible w o this el cfg next active dir slid :
  heap w !! o = Some this -> _element this = Some el -> _config this = Some cfg ->
  ready_to_slide (dom w) dir active next ->
  (has_class (dom w) el "slide" = true ->
   exists w1 w2 id id',
     slide_to fire o next active dir slid w = (w1, inr tt) /\
     let k := CSlideEnd o next active (dir_class dir) (order_class dir) slid in
     Task id (Once active TRANSITION_END) (Call k) ∈ tasks w1 /\
     carousel_plug fire hidden visible k w1 = (w2, inr tt) /\
     active_moved (dom w) (dom w2) active next /\
     (_isSliding <$> heap w2 !! o) = Some false /\
     Task id' (Timeout 0) (Call (CTriggerSlid o slid)) ∈ tasks w2) /\
  (has_class (dom w) el "slide" = false ->
   exists w1, slide_to quiet o next active dir slid w = (w1, inr tt) /\
     active_moved (dom w) (dom w1) active next /\ (_isSliding <$> heap w1 !! o) = Some false).
Proof.
  intros Ho Hel Hcfg Hr. split; intros Hs.
  - destruct (slide_to_transition fire w o this el cfg next active dir slid Ho Hel Hcfg Hs)
      as (w1 & E1 & Hd1 & Hh1 & id & Hid).
    destruct (slide_end_run w1 o next active (dir_class dir) (order_class dir) slid)
      as (w2 & E2 & Hd2 & Hh2 & id' & Hid').
    exists w1, w2, id, id'. cbv zeta. do 3 (split; [done|]). split.
    + rewrite Hd2, Hd1. by apply transition_classes.
    + split; [|done]. rewrite Hh2, Hh1, !lookup_alter_eq, Ho. by destruct this.
  - unfold slide_to. destruct (slide_classes dir) as [[dc oc] en] eqn:E.
    destruct w as [dm hp dt ts cl ni pv]. cbn in Ho, Hs, Hr. mrun. rewrite Ho, Hel. mrun.
    rewrite has_class_one, Hs. mrun. unfold quiet. cbv beta iota zeta.
    eexists. split; [reflexivity|]. cbn. rewrite lookup_alter_eq, Ho. split; [|by destruct this].
    destruct Hr as (Hne & Hn & _). apply Forall_cons in Hn as [_ Hn]. apply Forall_cons in Hn as [_ Hn].
    apply Forall_cons in Hn as [Hn _].
    change (active_moved dm (jq_add_class [next] "active" (jq_remove_class [active] "active" dm)) active next).
    assert (Wa : words "active" = ["active"%string]) by reflexivity.
    split_and!.
    + rewrite class_list_jq_add, class_list_jq_remove, decide_True, decide_False, Wa by congruence.
      by apply cl_add_notin.
    + rewrite class_list_jq_add, class_list_jq_remove, decide_False, decide_True, Wa by congruence. done.
    + intros e He1 He2. by rewrite class_list_jq_add, class_list_jq_remove, !decide_False by congruence.
Qed.
End carousel.

(** ** Collapse *)

Section collapse.
Context {D : Type} `{DomLaws D}.
Local Abbreviation W := (World D Collapse collapse_cb).

Inductive collapse_state := Closed | Moving | Opened.

(** The three classes of an element in each state. *)
Definition in_state (s : collapse_state) (d : D) (el : elem) : Prop :=
  let l := class_list d el in
  match s with
  | Closed => "collapse"%string ∈ l /\ "show"%string ∉ l /\ "collapsing"%string ∉ l
  | Moving => "collapse"%string ∉ l /\ "show"%string ∉ l /\ "collapsing"%string ∈ l
  | Opened => "collapse"%string ∈ l /\ "show"%string ∈ l /\ "collapsing"%string ∉ l
  end.

Definition transitioning (w : W) (o : nat) : option bool := c_isTransitioning <$> heap w !! o.

Lemma in_state_classes s d d' el : class_list d' el = class_list d el -> in_state s d el -> in_state s d' el.
Proof. unfold in_state. by intros ->. Qed.

Lemma has_class_spec d e c : has_class d e c = true <-> c ∈ class_list d e.
Proof. apply bool_decide_eq_true. Qed.

Lemma has_class_false d e c : has_class d e c = false <-> c ∉ class_list d e.
Proof. apply bool_decide_eq_false. Qed.

(** A trigger is marked without an error, and nobody else. *)
Lemma collapse_trigger_run t (w : W) : exists d', collapse_trigger t w = (w <| dom := d' |>, inr tt) /\
  (forall e, e <> t -> class_list d' e = class_list (dom w) e) /\
  (d' = dom w \/ d' = jq_attr [t] "aria-expanded" "false" (jq_add_class [t] "collapsed" (dom w))).
Proof.
  unfold collapse_trigger, selector_of. destruct w as [dm hp dt ts cl ni pv]. mrun.
  destruct (getSelectorFromElement dm t) as [s|] eqn:E; [|exists dm; auto].
  assert (Hq : exists l, query dm None s = Some l).
  { unfold getSelectorFromElement in E. destruct (document_query dm _) as [[x|]|] eqn:Eq; try done.
    injection E as <-. unfold document_query in Eq. destruct (query _ _ _); [eauto|done]. }
  destruct Hq as [l Hq]. unfold query_all. mrun. rewrite Hq. mrun.
  destruct (jq_has_class dm l "show"); mrun; [exists dm; auto|].
  eexists. split; [reflexivity|]. split; [|by right]. intros e He.
  change (class_list (jq_attr [t] "aria-expanded" "false" (jq_add_class [t] "collapsed" dm)) e = class_list dm e).
  by rewrite class_list_jq_attr, class_list_jq_add, decide_False by congruence.
Qed.

Lemma collapse_triggers_run ts (w : W) : exists d', for_each ts collapse_trigger w = (w <| dom := d' |>, inr tt) /\
  forall e, e ∉ ts -> class_list d' e = class_list (dom w) e.
Proof.
  revert w. induction ts as [|t ts IH]; intros w; cbn [for_each].
  - exists (dom w). by destruct w.
  - destruct (collapse_trigger_run t w) as (d1 & E1 & H1 & _). unfold mbind, M_bind. rewrite E1.
    destruct (IH (w <| dom := d1 |>)) as (d2 & E2 & H2). exists d2. rewrite E2. destruct w. split; [done|].
    intros e He. rewrite H2 by set_solver. apply H1. set_solver.
Qed.

Lemma run_bind {A B W'} (m : M W' A) (f : A -> M W' B) w w' a : m w = (w', inr a) -> (m ≫= f) w = f a w'.
Proof. unfold mbind, M_bind. by intros ->. Qed.

Lemma transition_run el k (w : W) : exists ts ni, collapse_transition [el] k w =
    (w <| tasks := tasks w ++ ts |> <| next_id := ni |>, inr tt) /\
  exists id, Task id (Once el TRANSITION_END) (Call k) ∈ ts.
Proof.
  unfold collapse_transition. destruct w as [dm hp dt tk cl ni pv]. mrun.
  do 2 eexists. split; [rewrite <- !app_assoc; reflexivity|]. exists ni. rewrite elem_of_app. left. by left.
Qed.

(** The marks of the triggers. *)
Definition mark_triggers (ts : list elem) (d : D) : D :=
  jq_attr ts "aria-expanded" "true" (jq_remove_class ts "collapsed" d).

Lemma jq_not_nil (d : D) sel : jq_not d [] sel = [].
Proof. by destruct sel. Qed.

Context (w : W) (o : nat) (this : Collapse) (el : elem) (trs : list elem) (cfg : config).
Hypothesis (Ho : heap w !! o = Some this) (Hel : c_element this = Some el)
  (Htr : c_triggerArray this = Some trs) (Hpar : c_parent this = None) (Hout : el ∉ trs).

Lemma show_run : in_state Closed (dom w) el -> c_isTransitioning this = false ->
  exists w1 dimension id, show quiet o w = (w1, inr tt) /\ in_state Moving (dom w1) el /\
    heap w1 = alter (fun this => this <| c_isTransitioning := true |>) o (heap w) /\
    Task id (Once el TRANSITION_END) (Call (CShown o dimension)) ∈ tasks w1 /\
    forall t, t ∈ trs -> "collapsed"%string ∉ class_list (dom w1) t /\
      attr (dom w1) t "aria-expanded" = Some "true"%string.
Proof.
  intros (Hc & Hs & Hcg) Htrans.
  destruct w as [dm hp dt ts cl ni pv]. cbn [dom heap tasks] in Ho, Hc, Hs, Hcg |- *.
  set (d2 := jq_add_class [el] "collapsing" (jq_remove_class [el] "collapse" dm)).
  assert (Hrun : exists ts' ni' id dim v, show quiet o (MkWorld dm hp dt ts cl ni pv) =
      (MkWorld (set_style el dim v (mark_triggers trs (set_style el dim "0" d2)))
         (alter (fun this => this <| c_isTransitioning := true |>) o hp) dt (ts ++ ts') cl ni' pv, inr tt) /\
      Task id (Once el TRANSITION_END) (Call (CShown o dim)) ∈ ts').
  { unfold show, collapse_actives, actives_data, setTransitioning.
    mrun. rewrite Ho, Hel, Htrans. mrun. rewrite has_class_one.
    rewrite (proj2 (has_class_false dm el "show")) by done. cbn [orb]. mrun. rewrite Hpar. mrun. rewrite jq_not_nil. mrun.
    unfold quiet. mrun. rewrite Ho. mrun. rewrite Hel. mrun. rewrite Htr. clear Htr Hout.
    destruct trs; mrun;
      (match goal with |- context [collapse_transition [el] ?k ?w0] =>
         destruct (transition_run el k w0) as (ts' & ni' & Et & id & Hid); rewrite Et end);
      exists ts', ni', id; do 2 eexists; (split; [mrun; reflexivity|exact Hid]). }
  destruct Hrun as (ts' & ni' & id & dim & v & Hrun & Hid).
  eexists. exists dim, id. split; [exact Hrun|]. cbn [dom heap tasks].
  assert (W1 : words "collapse" = ["collapse"%string]) by reflexivity.
  assert (W2 : words "collapsing" = ["collapsing"%string]) by reflexivity.
  assert (W3 : words "collapsed" = ["collapsed"%string]) by reflexivity.
  unfold mark_triggers. split_and!; [| done | apply elem_of_app; by right |].
  - eapply in_state_classes; [rewrite class_list_style, class_list_jq_attr, class_list_jq_remove_all,
      decide_False, class_list_style by done; reflexivity|].
    unfold d2, in_state. rewrite class_list_jq_add, class_list_jq_remove, !decide_True, W1, W2 by done.
    cbn [foldl]. rewrite !elem_of_cl_add, !elem_of_cl_remove. intuition discriminate.
  - intros t Ht. rewrite class_list_style, class_list_jq_attr, class_list_jq_remove_all, decide_True by done.
    rewrite elem_of_cl_remove, attr_style, attr_jq_attr, decide_True by done. tauto.
Qed.


Lemma hide_run : in_state Opened (dom w) el -> c_isTransitioning this = false ->
  exists w1 id, hide quiet o w = (w1, inr tt) /\ in_state Moving (dom w1) el /\
    heap w1 = alter (fun this => this <| c_isTransitioning := true |>) o (heap w) /\
    Task id (Once el TRANSITION_END) (Call (CHidden o)) ∈ tasks w1.
Proof.
  intros (Hc & Hs & Hcg) Htrans.
  destruct w as [dm hp dt ts cl ni pv]. cbn [dom heap tasks] in Ho, Hc, Hs, Hcg |- *.
  unfold hide, setTransitioning. mrun. rewrite Ho, Hel, Htrans. mrun. rewrite has_class_one.
  rewrite (proj2 (has_class_spec dm el "show")) by done. cbn [orb negb]. mrun.
  unfold quiet. mrun. rewrite Ho. mrun. rewrite Hel. mrun. rewrite Htr. mrun.
  match goal with |- context [let (_, _) := ?m ?w0 in _] => change (m w0) with (for_each trs collapse_trigger w0);
    destruct (collapse_triggers_run trs w0) as (d' & E & Hd'); rewrite E end.
  mrun.
  match goal with |- context [collapse_transition [el] ?k ?w0] =>
    destruct (transition_run el k w0) as (ts' & ni' & Et & id & Hid); rewrite Et end.
  eexists. exists id. split; [mrun; reflexivity|]. cbn [dom heap tasks] in *.
  split_and!; [|done|apply elem_of_app; by right].
  eapply in_state_classes; [rewrite class_list_style, Hd' by done; cbn [dom]; reflexivity|].
  assert (W1 : words "collapse show" = ["collapse"%string; "show"%string]) by reflexivity.
  assert (W2 : words "collapsing" = ["collapsing"%string]) by reflexivity.
  unfold in_state. rewrite class_list_jq_remove, class_list_jq_add, class_list_style, !decide_True, W1, W2 by done.
  cbn [foldl]. rewrite !elem_of_cl_remove, !elem_of_cl_add. intuition discriminate.
Qed.
End collapse.

Section collapse_end.
Context {D : Type} `{DomLaws D}.
Local Abbreviation W := (World D Collapse collapse_cb).

(** The end of either transition, on the classes. *)
Lemma end_classes cs (d : D) el s :
  (cs = "collapse" /\ s = Closed \/ cs = "collapse show" /\ s = Opened)%string ->
  in_state Moving d el -> in_state s (jq_add_class [el] cs (jq_remove_class [el] "collapsing" d)) el.
Proof.
  intros Hcs (Hc & Hs & Hcg).
  assert (W0 : words "collapse show" = ["collapse"%string; "show"%string]) by reflexivity.
  assert (W1 : words "collapse" = ["collapse"%string]) by reflexivity.
  assert (W2 : words "collapsing" = ["collapsing"%string]) by reflexivity.
  unfold in_state. rewrite class_list_jq_add, class_list_jq_remove, !decide_True, W2 by done.
  destruct Hcs as [[-> ->]|[-> ->]]; rewrite ?W0, ?W1; cbn [foldl];
    rewrite !elem_of_cl_add, !elem_of_cl_remove; intuition discriminate.
Qed.

Lemma shown_run (w : W) o this el dim : heap w !! o = Some this -> c_element this = Some el ->
  in_state Moving (dom w) el ->
  exists w', shown quiet o dim w = (w', inr tt) /\ in_state Opened (dom w') el /\ transitioning w' o = Some false /\
    forall t, t <> el -> class_list (dom w') t = class_list (dom w) t /\
      attr (dom w') t "aria-expanded" = attr (dom w) t "aria-expanded".
Proof.
  intros Ho Hel Hm. destruct w as [dm hp dt ts cl ni pv]. cbn [dom heap] in Ho, Hm |- *.
  unfold shown, setTransitioning. mrun. rewrite Ho, Hel. mrun. unfold quiet. mrun.
  eexists. split; [reflexivity|]. unfold transitioning. cbn [dom heap]. split_and!.
  - eapply in_state_classes; [apply class_list_style|]. apply end_classes; auto.
  - rewrite lookup_alter_eq, Ho. done.
  - intros t Ht. rewrite class_list_style, class_list_jq_add, class_list_jq_remove, !decide_False by congruence.
    by rewrite attr_style, attr_jq_add, attr_jq_remove.
Qed.

Lemma hidden_run (w : W) o this el : heap w !! o = Some this -> c_element this = Some el ->
  in_state Moving (dom w) el ->
  exists w', hidden quiet o w = (w', inr tt) /\ in_state Closed (dom w') el /\ transitioning w' o = Some false.
Proof.
  intros Ho Hel Hm. destruct w as [dm hp dt ts cl ni pv]. cbn [dom heap] in Ho, Hm |- *.
  unfold hidden, setTransitioning. mrun. rewrite lookup_alter_eq, Ho. cbn [fmap option_fmap option_map].
  mrun. unfold quiet. destruct this as [tr te tc tt' tsel tp]. cbn in Hel. subst te. mrun.
  eexists. split; [reflexivity|]. unfold transitioning. cbn [dom heap]. split.
  - apply end_classes; auto.
  - rewrite lookup_alter_eq, Ho. done.
Qed.

(** Locked while a transition runs. *)
Lemma locked fire (w : W) o : transitioning w o = Some true ->
  show fire o w = (w, inr tt) /\ hide fire o w = (w, inr tt).
Proof.
  unfold transitioning. destruct (heap w !! o) as [this|] eqn:Ho; [|done]. cbn. intros [= Ht].
  destruct w as [dm hp dt ts cl ni pv]. cbn in Ho. split; unfold show, hide; mrun; by rewrite Ho, Ht.
Qed.

Lemma locked_toggle fire (w : W) o : transitioning w o = Some true -> toggle fire o w = (w, inr tt).
Proof.
  intros Hl. destruct (locked fire w o Hl) as [Hs Hh]. revert Hl. unfold transitioning.
  destruct (heap w !! o) as [this|] eqn:Ho; [|done]. intros _.
  unfold toggle. unfold get, get_dom, mbind, M_bind. rewrite Ho. by destruct (jq_has_class _ _ _).
Qed.

(** A collapsible element goes from closed to open and back through the
    moving state, whichever [toggle] is called in: opening starts the
    transition, marks every trigger as expanded, and its end leaves the element
    open and unlocked; closing likewise leaves it closed.  While the transition
    runs, [show], [hide] and [toggle] do nothing, whatever the listeners. *)
Theorem collapse_transitions (w : W) o this el trs :
  heap w !! o = Some this -> c_element this = Some el -> c_triggerArray this = Some trs -> c_parent this = None ->
  el ∉ trs -> c_isTransitioning this = false ->
  let locked_at w1 := transitioning w1 o = Some true /\
    forall fire, show fire o w1 = (w1, inr tt) /\ hide fire o w1 = (w1, inr tt) /\ toggle fire o w1 = (w1, inr tt) in
  (in_state Closed (dom w) el ->
   exists w1 w2 dim id, toggle quiet o w = (w1, inr tt) /\ in_state Moving (dom w1) el /\ locked_at w1 /\
     Task id (Once el TRANSITION_END) (Call (CShown o dim)) ∈ tasks w1 /\
     collapse_plug quiet (CShown o dim) w1 = (w2, inr tt) /\
     in_state Opened (dom w2) el /\ transitioning w2 o = Some false /\
     forall t, t ∈ trs -> "collapsed"%string ∉ class_list (dom w2) t /\
       attr (dom w2) t "aria-expanded" = Some "true"%string) /\
  (in_state Opened (dom w) el ->
   exists w1 w2 id, toggle quiet o w = (w1, inr tt) /\ in_state Moving (dom w1) el /\ locked_at w1 /\
     Task id (Once el TRANSITION_END) (Call (CHidden o)) ∈ tasks w1 /\
     collapse_plug quiet (CHidden o) w1 = (w2, inr tt) /\
     in_state Closed (dom w2) el /\ transitioning w2 o = Some false).
Proof.
  intros Ho Hel Htr Hpar Hout Ht locked_at.
  assert (Hlock : forall w1 : W, heap w1 = alter (fun this => this <| c_isTransitioning := true |>) o (heap w) -> locked_at w1).
  { intros w1 E. assert (Hl : transitioning w1 o = Some true).
    { unfold transitioning. by rewrite E, lookup_alter_eq, Ho. }
    split; [done|]. intros fire. destruct (locked fire w1 o Hl). split_and!; [done|done|by apply locked_toggle]. }
  assert (Htog : forall b, has_class (dom w) el "show" = b ->
    toggle quiet o w = (if b then hide quiet o w else show quiet o w)).
  { intros b Hb. unfold toggle, get, get_dom, mbind, M_bind. rewrite Ho, Hel.
    change (option_list (Some el)) with [el]. rewrite has_class_one, Hb. by destruct b. }
  assert (Hnew : forall w1 : W, heap w1 = alter (fun this => this <| c_isTransitioning := true |>) o (heap w) ->
    exists this1, heap w1 !! o = Some this1 /\ c_element this1 = Some el).
  { intros w1 E. eexists. rewrite E, lookup_alter_eq, Ho. split; [reflexivity|]. by destruct this. }
  split; intros Hst.
  - destruct (show_run w o this el trs Ho Hel Htr Hpar Hout Hst Ht) as (w1 & dim & id & E1 & Hm & Hh & Hin & Htrs).
    destruct (Hnew w1 Hh) as (this1 & Ho1 & Hel1).
    destruct (shown_run w1 o this1 el dim Ho1 Hel1 Hm) as (w2 & E2 & Hop & Hun & Hsame).
    exists w1, w2, dim, id. rewrite (Htog false) by (apply has_class_false; apply Hst).
    split; [exact E1|]. split; [exact Hm|]. split; [by apply Hlock|]. do 2 (split; [done|]). split; [exact Hop|].
    split; [exact Hun|].
    intros t Hin'. destruct (Hsame t) as [-> ->]; [by intros ->|]. by apply Htrs.
  - destruct (hide_run w o this el trs Ho Hel Htr Hout Hst Ht) as (w1 & id & E1 & Hm & Hh & Hin).
    destruct (Hnew w1 Hh) as (this1 & Ho1 & Hel1).
    destruct (hidden_run w1 o this1 el Ho1 Hel1 Hm) as (w2 & E2 & Hop & Hun).
    exists w1, w2, id. rewrite (Htog true) by (apply has_class_spec; apply Hst).
    split; [exact E1|]. split; [exact Hm|]. split; [by apply Hlock|]. do 2 (split; [done|]). by split.
Qed.
End collapse_end.

(** ** Modal *)

Section modal.
Context {D : Type} `{DomLaws D}.
Local Abbreviation W := (World D Modal modal_cb).

Lemma m_show_locked fire inner (w : W) o this rel : heap w !! o = Some this ->
  m_isShown this = false -> m_isTransitioning this = true -> m_show fire inner o rel w = (w, inr tt).
Proof. intros Ho Hs Ht. unfold m_show, get, mbind, M_bind. by rewrite Ho, Hs, Ht. Qed.

Lemma m_hide_not_shown fire (w : W) o this : heap w !! o = Some this ->
  m_isShown this = false -> m_hide fire o false w = (w, inr tt).
Proof. intros Ho Hs. unfold m_hide, get, mbind, M_bind. cbn. rewrite Ho, Hs. by destruct w. Qed.

(** C36. A listener that prevents [show.bs.modal] of a modal with the [fade]
    class locks it: the modal is left hidden but marked as in transition, with
    no transition to end it, so [show], [hide] and [toggle] do nothing ever
    after, whatever the listeners answer then. *)
Theorem modal_prevented_locks fire inner (w : W) o this el rel :
  heap w !! o = Some this -> m_el this = Some el -> has_class (dom w) el "fade" = true ->
  m_isShown this = false -> m_isTransitioning this = false ->
  (forall e x w', fire e x w' = (w', inr true)) ->
  exists w1, m_show fire inner o rel w = (w1, inr tt) /\ tasks w1 = tasks w /\ dom w1 = dom w /\
    (m_isShown <$> heap w1 !! o) = Some false /\ (m_isTransitioning <$> heap w1 !! o) = Some true /\
    forall fire' rel', m_show fire' inner o rel' w1 = (w1, inr tt) /\ m_hide fire' o false w1 = (w1, inr tt) /\
      m_toggle fire' inner o rel' w1 = (w1, inr tt).
Proof.
  intros Ho Hel Hf Hs Ht Hfire. destruct w as [dm hp dt ts cl ni pv]. cbn [heap dom] in Ho, Hf.
  set (this1 := this <| m_isTransitioning := true |>).
  set (w1 := MkWorld dm (alter (fun this => this <| m_isTransitioning := true |>) o hp) dt ts cl ni pv : W).
  assert (Ho1 : heap w1 !! o = Some this1) by (cbn; by rewrite lookup_alter_eq, Ho).
  assert (Hs1 : m_isShown this1 = false) by by destruct this.
  assert (Ht1 : m_isTransitioning this1 = true) by by destruct this.
  exists w1. split.
  - unfold m_show, is_fade. mrun. rewrite Ho, Hs, Ht. cbn [orb]. mrun. rewrite Hel.
    change (jq_has_class dm [el] "fade") with (jq_has_class dm (option_list (Some el)) "fade").
    cbn [option_list]. mrun. rewrite has_class_one, Hf. mrun. rewrite Hfire. mrun.
    rewrite lookup_alter_eq, Ho. cbn [fmap option_fmap option_map]. mrun.
    by rewrite orb_true_r.
  - do 2 (split; [done|]). rewrite Ho1. split; [by rewrite <- Hs1|]. split; [by rewrite <- Ht1|].
    intros fire' rel'. split; [by eapply m_show_locked|]. split; [by eapply m_hide_not_shown|].
    unfold m_toggle, get, mbind, M_bind. rewrite Ho1, Hs1. by eapply m_show_locked.
Qed.

(** *** The scrollbar *)

Definition pr_style : string := "paddingRight".
Definition mr_style : string := "marginRight".

Lemma save_style_spec e dn sn cn width d :
  let d' := save_style e dn sn cn width d in
  user_data d' e dn = Some (style d e sn) /\
  (forall e' k, (e', k) <> (e, sn) -> style d' e' k = style d e' k) /\
  (forall e' k, (e', k) <> (e, dn) -> user_data d' e' k = user_data d e' k).
Proof.
  unfold save_style. cbv zeta. split_and!.
  - by rewrite user_data_style, user_data_eq.
  - intros e' k Hne. by rewrite style_ne, style_data by congruence.
  - intros e' k Hne. by rewrite user_data_style, user_data_ne by congruence.
Qed.

Lemma save_each l dn sn cn width d : NoDup l ->
  let d' := jq_each (fun e => save_style e dn sn cn width) l d in
  (forall e, e ∈ l -> user_data d' e dn = Some (style d e sn)) /\
  (forall e k, k <> sn \/ e ∉ l -> style d' e k = style d e k) /\
  (forall e k, k <> dn \/ e ∉ l -> user_data d' e k = user_data d e k).
Proof.
  intros Hnd. revert d. unfold jq_each. induction Hnd as [|x l Hx Hnd IH]; intros d; cbn [foldl].
  - split; [intros e He; by apply not_elem_of_nil in He|done].
  - destruct (save_style_spec x dn sn cn width d) as (H1 & H2 & H3).
    destruct (IH (save_style x dn sn cn width d)) as (I1 & I2 & I3). split_and!.
    + intros e [->|He]%elem_of_cons; [rewrite I3 by auto; exact H1|].
      rewrite I1 by done. f_equal. apply H2. intros [= ->]. done.
    + intros e k Hk. rewrite I2, H2; [done| |]; destruct Hk as [Hk|Hk]; auto; try congruence; set_solver.
    + intros e k Hk. rewrite I3, H3; [done| |]; destruct Hk as [Hk|Hk]; auto; try congruence; set_solver.
Qed.

(** The saved value is one a style had. *)
Definition saved (d : D) (e : elem) (dn sn v : string) : Prop :=
  user_data d e dn = Some v /\ exists d0, v = style d0 e sn.

Lemma restore_padding_spec e v d : saved d e "padding-right" pr_style v ->
  let d' := restore_padding e d in
  style d' e pr_style = v /\
  (forall e' k, (e', k) <> (e, pr_style) -> style d' e' k = style d e' k) /\
  (forall e' k, (e', k) <> (e, "padding-right"%string) -> user_data d' e' k = user_data d e' k).
Proof.
  unfold pr_style, mr_style in *. intros (Hv & d0 & ->). unfold restore_padding. rewrite Hv. cbv zeta. cbn [default]. unfold id. split_and!.
  - apply style_restore.
  - intros e' k Hne. by rewrite style_ne, style_data by congruence.
  - intros e' k Hne. by rewrite user_data_style, user_data_ne by congruence.
Qed.

Lemma restore_margin_spec e v d : saved d e "margin-right" mr_style v ->
  let d' := restore_margin e d in
  style d' e mr_style = v /\
  (forall e' k, (e', k) <> (e, mr_style) -> style d' e' k = style d e' k) /\
  (forall e' k, (e', k) <> (e, "margin-right"%string) -> user_data d' e' k = user_data d e' k).
Proof.
  unfold pr_style, mr_style in *. intros (Hv & d0 & ->). unfold restore_margin. rewrite Hv. cbv zeta. split_and!.
  - rewrite style_data. apply style_restore.
  - intros e' k Hne. by rewrite style_data, style_ne by congruence.
  - intros e' k Hne. by rewrite user_data_ne, user_data_style by congruence.
Qed.

(** Restoring a set of elements one after the other. *)
Lemma restore_each (f : elem -> D -> D) dn sn l (v : elem -> string) d :
  (forall e v d, saved d e dn sn v -> style (f e d) e sn = v /\
     (forall e' k, (e', k) <> (e, sn) -> style (f e d) e' k = style d e' k) /\
     (forall e' k, (e', k) <> (e, dn) -> user_data (f e d) e' k = user_data d e' k)) ->
  NoDup l -> (forall e, e ∈ l -> saved d e dn sn (v e)) ->
  let d' := jq_each f l d in
  (forall e, e ∈ l -> style d' e sn = v e) /\
  (forall e k, k <> sn \/ e ∉ l -> style d' e k = style d e k) /\
  (forall e k, k <> dn \/ e ∉ l -> user_data d' e k = user_data d e k).
Proof.
  intros Hf Hnd. revert d. unfold jq_each. induction Hnd as [|x l Hx Hnd IH]; intros d Hs; cbn [foldl].
  - split; [intros e He; by apply not_elem_of_nil in He|done].
  - destruct (Hf x (v x) d) as (H1 & H2 & H3); [apply Hs; by left|].
    destruct (IH (f x d)) as (I1 & I2 & I3).
    { intros e He. destruct (Hs e) as [Hd Hv]; [by right|]. split; [|done]. rewrite <- Hd. apply H3. intros [= ->]. done. }
    split_and!.
    + intros e [->|He]%elem_of_cons; [rewrite I2 by auto; exact H1|by apply I1].
    + intros e k Hk. rewrite I2, H2; [done| |]; destruct Hk as [Hk|Hk]; auto; try congruence; set_solver.
    + intros e k Hk. rewrite I3, H3; [done| |]; destruct Hk as [Hk|Hk]; auto; try congruence; set_solver.
Qed.

(** Documents that differ in styles, data and classes of the body: the
    selectors of the fixed and sticky content find the same elements in them. *)
Inductive restyled (d : D) : D -> Prop :=
  | rs_refl : restyled d d
  | rs_style e k v d' : restyled d d' -> restyled d (set_style e k v d')
  | rs_data e k v d' : restyled d d' -> restyled d (set_user_data e k v d')
  | rs_body c d' : restyled d d' -> restyled d (jq_add_class [body] c d').

Definition finds (d : D) (sel : string) (l : list elem) : Prop :=
  forall d', restyled d d' -> query d' None sel = Some l.

Lemma restyled_each (f : elem -> D -> D) d0 l d :
  (forall e d, restyled d0 d -> restyled d0 (f e d)) -> restyled d0 d -> restyled d0 (jq_each f l d).
Proof. intros Hf. revert d. unfold jq_each. induction l as [|x l IH]; intros d Hd; cbn [foldl]; auto. Qed.

Lemma restyled_restore_padding d0 e d : restyled d0 d -> restyled d0 (restore_padding e d).
Proof. intros. unfold restore_padding. by do 2 constructor. Qed.

Lemma restyled_save d0 e dn sn cn width d : restyled d0 d -> restyled d0 (save_style e dn sn cn width d).
Proof. intros. unfold save_style. by do 2 constructor. Qed.

(** The document [_setScrollbar] leaves, and the one [_resetScrollbar] makes of
    it. *)
Definition padded (fixed sticky : list elem) (width : Q) (d : D) : D :=
  jq_add_class [body] "modal-open"
    (save_style body "padding-right" pr_style "padding-right" width
      (jq_each (fun e => save_style e "margin-right" mr_style "margin-right" (- width)) sticky
        (jq_each (fun e => save_style e "padding-right" pr_style "padding-right" width) fixed d))).

Definition unpadded (fixed sticky : list elem) (d : D) : D :=
  restore_padding body (jq_each restore_margin sticky (jq_each restore_padding fixed d)).

(** The styles of [d] are saved in [d'], where the paddings and margins have
    moved and those of the elements [own] are of no account. *)
Definition shifted (fixed sticky own : list elem) (d d' : D) : Prop :=
  (forall e, e ∈ body :: fixed -> user_data d' e "padding-right" = Some (style d e pr_style)) /\
  (forall e, e ∈ sticky -> user_data d' e "margin-right" = Some (style d e mr_style)) /\
  (forall e k, e ∉ own -> ~ (k = pr_style /\ e ∈ body :: fixed) -> ~ (k = mr_style /\ e ∈ sticky) ->
     style d' e k = style d e k).

Lemma padded_shifted fixed sticky width d : NoDup (body :: fixed) -> NoDup sticky ->
  shifted fixed sticky [] d (padded fixed sticky width d).
Proof.
  intros [Hb Hf]%NoDup_cons Hs.
  assert (Ksn : pr_style <> mr_style) by discriminate.
  assert (Kdn : "padding-right"%string <> "margin-right"%string) by discriminate.
  unfold padded. destruct (save_each fixed "padding-right" pr_style "padding-right" width d Hf) as (A1 & A2 & A3).
  set (d1 := jq_each _ fixed d) in *.
  destruct (save_each sticky "margin-right" mr_style "margin-right" (- width) d1 Hs) as (B1 & B2 & B3).
  set (d2 := jq_each _ sticky d1) in *.
  destruct (save_style_spec body "padding-right" pr_style "padding-right" width d2) as (C1 & C2 & C3).
  set (d3 := save_style body _ _ _ _ d2) in *. split_and!.
  - intros e [->|He]%elem_of_cons; rewrite user_data_jq_add.
    + rewrite C1. f_equal. rewrite B2, A2 by (first [left; congruence|by right]). done.
    + rewrite C3, B3 by (first [left; congruence|intros [= ->]; done]). by apply A1.
  - intros e He. rewrite user_data_jq_add, C3, B1 by congruence. f_equal. apply A2. left. congruence.
  - intros e k _ Hp Hm. rewrite style_jq_add, C2 by (intros [= -> ->]; apply Hp; split; [done|by left]).
    rewrite B2, A2; [done|..]; [destruct (decide (k = pr_style)) as [->|]|destruct (decide (k = mr_style)) as [->|]]; auto.
    right. intros He. apply Hp. split; [done|by right].
Qed.

Lemma unpadded_shifted fixed sticky own d d' e k : NoDup (body :: fixed) -> NoDup sticky ->
  shifted fixed sticky own d d' -> e ∉ own -> style (unpadded fixed sticky d') e k = style d e k.
Proof.
  intros [Hb Hf]%NoDup_cons Hs (Hpad & Hmar & Hrest) He.
  assert (Ksn : pr_style <> mr_style) by discriminate.
  assert (Kdn : "padding-right"%string <> "margin-right"%string) by discriminate.
  unfold unpadded.
  destruct (restore_each restore_padding "padding-right" pr_style fixed (fun e => style d e pr_style) d'
              restore_padding_spec Hf) as (F1 & F2 & F3).
  { intros x Hx. split; [|by exists d]. apply Hpad. by right. }
  set (d5 := jq_each restore_padding fixed d') in *.
  destruct (restore_each restore_margin "margin-right" mr_style sticky (fun e => style d e mr_style) d5
              restore_margin_spec Hs) as (G1 & G2 & G3).
  { intros x Hx. split; [|by exists d]. rewrite F3 by (left; congruence). by apply Hmar. }
  set (d6 := jq_each restore_margin sticky d5) in *.
  destruct (restore_padding_spec body (style d body pr_style) d6) as (H1 & H2 & _).
  { split; [|by exists d]. rewrite G3, F3 by (first [left; congruence|by right]). apply Hpad. by left. }
  destruct (decide ((e, k) = (body, pr_style))) as [[= -> ->]|Hbody]; [done|]. rewrite H2 by done.
  destruct (decide (k = mr_style /\ e ∈ sticky)) as [[-> Hin]|Hm]; [by apply G1|].
  rewrite G2 by (destruct (decide (k = mr_style)); [right; tauto|by left]).
  destruct (decide (k = pr_style /\ e ∈ fixed)) as [[-> Hin]|Hp]; [by apply F1|].
  rewrite F2 by (destruct (decide (k = pr_style)); [right; tauto|by left]).
  apply Hrest; [done| |done]. intros [-> [->|Hin]%elem_of_cons]; [done|tauto].
Qed.

Lemma unpadded_padded fixed sticky width d e k : NoDup (body :: fixed) -> NoDup sticky ->
  style (unpadded fixed sticky (padded fixed sticky width d)) e k = style d e k.
Proof.
  intros Hf Hs. eapply unpadded_shifted; [done|done|by apply padded_shifted|apply not_elem_of_nil].
Qed.

(** Showing a modal over a scrolling page moves the right padding of the
    body and of the fixed elements and the right margin of the sticky ones;
    hiding it gives every element of the page back the inline style it had,
    property by property, elements that are fixed and sticky at once
    included. *)
Theorem scrollbar_roundtrip (w : W) o this fixed sticky :
  heap w !! o = Some this -> m_isBodyOverflowing this = true ->
  finds (dom w) SELECTOR_FIXED_CONTENT fixed -> finds (dom w) SELECTOR_STICKY_CONTENT sticky ->
  NoDup (body :: fixed) -> NoDup sticky ->
  exists w1 w2, _setScrollbar o w = (w1, inr tt) /\
    (forall e, e ∈ fixed -> user_data (dom w1) e "padding-right" = Some (style (dom w) e "paddingRight")) /\
    has_class (dom w1) body "modal-open" = true /\
    _resetScrollbar w1 = (w2, inr tt) /\
    forall e k, style (dom w2) e k = style (dom w) e k.
Proof.
  intros Ho Hov Hfix Hst Hnf Hns. destruct w as [dm hp dt ts cl ni pv]. cbn [heap dom] in *.
  set (width := m_scrollbarWidth this).
  assert (R1 : restyled dm (padded fixed sticky width dm)).
  { unfold padded. apply rs_body, restyled_save, restyled_each; [intros; by apply restyled_save|].
    apply restyled_each; [intros; by apply restyled_save|constructor]. }
  exists (MkWorld (padded fixed sticky width dm) hp dt ts cl ni pv).
  exists (MkWorld (unpadded fixed sticky (padded fixed sticky width dm)) hp dt ts cl ni pv).
  split_and!.
  - unfold _setScrollbar, query_all. mrun. rewrite Ho, Hov. mrun.
    rewrite (Hfix dm) by constructor. mrun. rewrite (Hst dm) by constructor. mrun. reflexivity.
  - intros e He. cbn [dom]. apply (padded_shifted fixed sticky width dm); [done|done|by right].
  - cbn [dom]. apply has_class_spec. unfold padded. rewrite class_list_jq_add, decide_True by done.
    change (words "modal-open") with ["modal-open"%string]. cbn [foldl]. apply elem_of_cl_add. by left.
  - unfold _resetScrollbar, query_all. mrun. rewrite Hfix by done. mrun.
    rewrite Hst; [mrun; reflexivity|]. apply restyled_each; [intros; by apply restyled_restore_padding|done].
  - intros e k. cbn [dom]. by apply unpadded_padded.
Qed.
End modal.

(** ** Pages to try them on *)

Module BsDemo.
(** A carousel (10) with two items, a collapsible element (20) with its trigger
    (21), a modal (30) over a page with a fixed bar (40). *)
Definition page : toy := {|
  toy_class := list_to_map [
    (10%nat, ["carousel"; "slide"]); (11%nat, ["carousel-item"; "active"]); (12%nat, ["carousel-item"]);
    (20%nat, ["collapse"]); (21%nat, ["collapsed"]); (30%nat, ["modal"; "fade"]); (40%nat, ["sticky-top"])]%string;
  toy_attr := {[ (21%nat, "data-target"%string) := "#c"%string ]};
  toy_style := {[ (40%nat, "paddingRight"%string) := "3px"%string ]};
  toy_prop := ∅;
  toy_data := ∅;
  toy_query := [("#c", [20%nat]); (SELECTOR_FIXED_CONTENT, [40%nat]); (SELECTOR_STICKY_CONTENT, [40%nat])]%string;
  toy_parent := ∅;
  toy_next := 100
|}.

Definition carousel : Carousel := {|
  _items := [11; 12]%nat; _interval := None; _activeElement := None; _isPaused := false; _isSliding := true;
  touchTimeout := None; touchStartX := 0; touchDeltaX := 0; _config := Some carousel_Default; _element := Some 10%nat;
  _indicatorsElement := None; _touchSupported := false; _pointerEvent := false; listeners := [] |}.

Definition collapse : Collapse := {|
  c_isTransitioning := false; c_element := Some 20%nat; c_config := Some collapse_Default;
  c_triggerArray := Some [21%nat]; c_selector := Some "#c"%string; c_parent := None |}.

Definition modal : Modal := {|
  m_config := Some modal_Default; m_el := Some 30%nat; m_dialog := None; m_backdrop := None; m_isShown := false;
  m_isBodyOverflowing := true; m_ignoreBackdropClick := false; m_isTransitioning := false; m_scrollbarWidth := 15;
  m_listeners := [] |}.

Definition world {S K} (s : S) : World toy S K := MkWorld page {[ 0%nat := s ]} ∅ [] ∅ 1%nat false.

Lemma page_finds sel l : query page None sel = Some l -> finds page sel l.
Proof.
  intros Hl d' Hd. rewrite <- Hl. induction Hd as [|e k v d Hd IH|e k v d Hd IH|c d Hd IH]; [done|..].
  - rewrite <- IH. by destruct d.
  - rewrite <- IH. by destruct d.
  - rewrite <- IH. unfold jq_add_class, jq_each. cbn [foldl]. clear. revert d.
    induction (words c) as [|x l IHl]; intros d; cbn [foldl]; [done|]. rewrite IHl. unfold add_class.
    destruct (has_class d body x); [done|]. by destruct d.
Qed.
End BsDemo.

Lemma slide_moves_active_witness : exists w1,
  slide_to (D := toy) quiet 0 12 11 DIRECTION_NEXT (ev "slid.bs.carousel") (BsDemo.world BsDemo.carousel) = (w1, inr tt).
Proof.
  destruct (slide_moves_active (D := toy) quiet (fun _ => false) (fun _ => true) (BsDemo.world BsDemo.carousel) 0
              BsDemo.carousel 10 carousel_Default 12 11 DIRECTION_NEXT (ev "slid.bs.carousel")) as [H _].
  - reflexivity.
  - reflexivity.
  - reflexivity.
  - split; [discriminate|]. split; apply (bool_decide_unpack _); vm_compute; exact I.
  - destruct H as (w1 & w2 & id & id' & H & _); [vm_compute; reflexivity|]. exists w1. exact H.
Defined.

Lemma collapse_transitions_witness : exists w1,
  toggle (D := toy) quiet 0 (BsDemo.world BsDemo.collapse) = (w1, inr tt) /\ in_state Moving (dom w1) 20.
Proof.
  destruct (collapse_transitions (D := toy) (BsDemo.world BsDemo.collapse) 0 BsDemo.collapse 20 [21%nat]) as [H _].
  - reflexivity.
  - reflexivity.
  - reflexivity.
  - reflexivity.
  - apply (bool_decide_unpack _); vm_compute; exact I.
  - reflexivity.
  - destruct H as (w1 & w2 & dim & id & H1 & H2 & _); [|exists w1; split; [exact H1|exact H2]].
    split; [|split]; apply (bool_decide_unpack _); vm_compute; exact I.
Defined.

Lemma modal_prevented_locks_witness : exists w1,
  m_show (D := toy) (fun _ _ w => (w, inr true)) (fun _ => 0%Q) 0 None (BsDemo.world BsDemo.modal) = (w1, inr tt) /\
  (m_isTransitioning <$> heap w1 !! 0%nat) = Some true.
Proof.
  destruct (modal_prevented_locks (D := toy) (fun _ _ w => (w, inr true)) (fun _ => 0%Q)
              (BsDemo.world BsDemo.modal) 0 BsDemo.modal 30 None) as (w1 & H1 & _ & _ & _ & H2 & _);
    try reflexivity.
  exists w1. split; [exact H1|exact H2].
Defined.

Lemma scrollbar_roundtrip_witness : exists w1 w2,
  _setScrollbar (D := toy) 0 (BsDemo.world BsDemo.modal) = (w1, inr tt) /\
  _resetScrollbar w1 = (w2, inr tt) /\ style (dom w2) 40 "paddingRight" = "3px"%string.
Proof.
  destruct (scrollbar_roundtrip (D := toy) (BsDemo.world BsDemo.modal) 0 BsDemo.modal [40%nat] [40%nat])
    as (w1 & w2 & H1 & _ & _ & H2 & H3).
  - reflexivity.
  - reflexivity.
  - apply BsDemo.page_finds. reflexivity.
  - apply BsDemo.page_finds. reflexivity.
  - apply (bool_decide_unpack _); vm_compute; exact I.
  - apply (bool_decide_unpack _); vm_compute; exact I.
  - exists w1, w2. split; [exact H1|]. split; [exact H2|]. rewrite H3. reflexivity.
Defined.
