(* ===== verification/BsPluginTheorems.v ===== *)
(** Theorems about the smaller plugins: configuration types, the scroll spy,
    toasts, tabs, drop-downs, the content of tips, and the next item of a
    carousel. *)
From Stdlib Require Import ZArith QArith Qminmax Lia Lqa Sorted String Ascii.
From stdpp Require Import base list gmap strings.
From coqutil Require Import Datatypes.RecordSetters.
From S2P Require Import Prelude Js JsNum JsSort JsDom BsUtil BsUtilTheorems BsDomTheory BsHoare BsCarousel BsScrollSpy BsTabToast.

Local Open Scope Z_scope.

(** ** The types of configurations *)

(** An option of the configuration has one of the listed types. *)
Definition well_typed (c : config) (option : string * list string) : Prop :=
  exists t w, has_type (field c option.1) t /\ w ∈ option.2 /\ occurs w t.

Definition plain_types (option : string * list string) : Prop :=
  option.2 <> [] /\ Forall plain_word option.2.

(** The types of options as the plugins write them. *)
Definition type_list (types : list (string * list string)) : list (string * string) :=
  map (fun p => (p.1, type_pattern p.2)) types.

Lemma well_typed_test i c option : plain_types option ->
  well_typed c option <-> regexp_test (type_pattern option.2) (value_type i (field c option.1)) = true.
Proof.
  intros [Hne Hp]. rewrite regexp_test_pattern by done. split.
  - intros (t & w & Ht%(value_type_spec i) & Hw & Ho). exists w. by rewrite Ht.
  - intros (w & Hw & Ho). exists (value_type i (field c option.1)), w. split; [by apply (value_type_spec i)|done].
Qed.

(** C29. [typeCheckConfig] is a sound and complete check, for types written as
    the plugins write them, a word or words between bars in parentheses. It
    accepts exactly the configurations in which each listed option is of a type
    whose name contains one of the words; the type of anything with an element's
    [nodeType], of a jQuery object of elements and of an array that starts with
    one is element, of anything else its JavaScript class. Otherwise it throws
    an error for the first option of a wrong type, with the component's name in
    capitals, the option, the type it has and the types that were expected. *)
Theorem typeCheckConfig_spec i name c types : Forall plain_types types ->
  (typeCheckConfig i name c (type_list types) = inr tt <-> Forall (well_typed c) types) /\
  forall e, typeCheckConfig i name c (type_list types) = inl e <->
    exists before property words after t,
      types = before ++ (property, words) :: after /\ Forall (well_typed c) before /\
      has_type (field c property) t /\ (forall w, w ∈ words -> ~ occurs w t) /\
      e = Error (toUpperCase name ++ ": Option " ++ dquote ++ property ++ dquote ++
                 " provided type " ++ dquote ++ t ++ dquote ++
                 " but expected type " ++ dquote ++ type_pattern words ++ dquote ++ ".")%string.
Proof.
  intros Hp. split.
  - induction Hp as [|[p ws] types Hpw Hp IH]; cbn [type_list map typeCheckConfig]; [split; [constructor|done]|].
    fold (value_type i (field c p)). rewrite Forall_cons, (well_typed_test i) by done. cbn [fst snd].
    destruct (regexp_test _ _); [|by split; [|intros [? _]]]. unfold type_list in IH. rewrite IH. tauto.
  - intros e. induction Hp as [|[p ws] types Hpw Hp IH]; cbn [type_list map typeCheckConfig].
    { split; [done|]. intros ([|] & ? & ? & ? & ? & ? & _); done. }
    fold (value_type i (field c p)). pose proof (well_typed_test i c (p, ws) Hpw) as Hw. cbn [fst snd] in *.
    destruct (regexp_test _ _) eqn:E.
    + unfold type_list in IH. rewrite IH. split.
      * intros (before & p' & ws' & after & t & -> & Hb & H). exists ((p, ws) :: before), p', ws', after, t.
        split; [done|]. split; [|done]. apply Forall_cons. split; [by apply Hw|done].
      * intros ([|o before] & p' & ws' & after & t & [= ] & Hb & Ht & Hn & ->); subst.
        -- destruct (proj2 Hw eq_refl) as (t' & w & Ht' & Hin & Ho). apply (value_type_spec i) in Ht, Ht'.
           cbn in *. destruct (Hn w Hin). congruence.
        -- apply Forall_cons in Hb as [_ Hb]. by exists before, p', ws', after, t.
    + assert (Hno : forall w, w ∈ ws -> ~ occurs w (value_type i (field c p))).
      { intros w Hin Ho. enough (false = true) by done. apply Hw. exists (value_type i (field c p)), w.
        split; [by apply (value_type_spec i)|done]. }
      split.
      * intros [= <-]. exists [], p, ws, types, (value_type i (field c p)).
        split; [done|]. split; [constructor|]. split; [by apply (value_type_spec i)|]. done.
      * intros ([|o before] & p' & ws' & after & t & [= ] & Hb & Ht & Hn & ->); subst.
        -- apply (value_type_spec i) in Ht as <-. done.
        -- apply Forall_cons in Hb as [Hb _]. enough (false = true) by done. by apply Hw.
Qed.

(** The types of the options of a carousel, and an interval that is none. *)
Definition carousel_types : list (string * list string) :=
  [("interval", ["number"; "boolean"]); ("keyboard", ["boolean"]); ("slide", ["boolean"; "string"]);
   ("pause", ["string"; "boolean"]); ("wrap", ["boolean"]); ("touch", ["boolean"])]%string.

Lemma typeCheckConfig_spec_witness :
  type_list carousel_types = carousel_DefaultType /\
  typeCheckConfig (fun _ => "element"%string) "carousel" carousel_Default carousel_DefaultType = inr tt /\
  ~ Forall (well_typed (<["interval"%string := VStr "slow"]> carousel_Default)) carousel_types.
Proof.
  split; [reflexivity|].
  assert (Hp : Forall plain_types carousel_types).
  { repeat constructor; try discriminate. }
  split; [vm_compute; reflexivity|].
  destruct (typeCheckConfig_spec (fun _ => "element"%string) "carousel"
    (<["interval"%string := VStr "slow"]> carousel_Default) carousel_types Hp) as [Hs _].
  rewrite <- Hs. vm_compute. discriminate.
Defined.

(** ** ScrollSpy *)
Section scrollspy.
Context {D : Type} `{DomLaws D}.
Local Abbreviation W := (World D ScrollSpy Empty_set).
Context (pageYOffset window_innerHeight : D -> Q) (jq_offset_top jq_position_top : D -> elem -> Q).

Definition silent_window : event -> M W bool := fun _ w => (w, inr false).

Notation ss_activate := (ss_activate silent silent_window).
Notation ss_loop := (ss_loop silent silent_window).
Notation ss_process := (ss_process silent silent_window pageYOffset window_innerHeight
  jq_offset_top jq_position_top).

(** The selectors the plugin builds to activate a target parse, however the page
    is styled: the one of the links, the one of the links to the target and a
    constant one. *)
Definition queries_parse (selector target : string) (d : D) : Prop :=
  forall d', restyle d d' -> is_Some (query d' None selector) /\
    is_Some (query d' None (activate_query selector target)) /\
    forall e, is_Some (query d' (Some e) ".dropdown-toggle").

Lemma queries_restyle selector target d d' :
  restyle d d' -> queries_parse selector target d -> queries_parse selector target d'.
Proof. intros Hd Hq d'' Hd''. apply Hq. by etrans. Qed.

Lemma class_add_mono els cs d e c :
  c ∈ class_list d e -> c ∈ class_list (jq_add_class els cs d) e.
Proof.
  intros Hc. unfold jq_add_class, jq_each. revert d Hc.
  induction els as [|x els IH]; intros d Hc; cbn [foldl]; [done|]. apply IH. clear IH.
  generalize (words cs) as l. intros l. revert d Hc.
  induction l as [|c' l IH]; intros d Hc; cbn [foldl]; [done|]. apply IH.
  rewrite class_list_add_class. case_decide; [|done]. rewrite elem_of_cl_add. by right.
Qed.

Lemma class_add_in els d e : e ∈ els -> "active"%string ∈ class_list (jq_add_class els "active" d) e.
Proof.
  revert d. induction els as [|x els IH]; intros d Hin; [by apply not_elem_of_nil in Hin|].
  change (jq_add_class (x :: els) "active" d) with (jq_add_class els "active" (jq_add_class [x] "active" d)).
  apply elem_of_cons in Hin as [->|Hin]; [|by apply IH]. apply class_add_mono.
  rewrite class_list_jq_add, decide_True by done. apply elem_of_cl_add. by left.
Qed.

Lemma restyle_clear els d d0 : restyle d0 d ->
  restyle d0 (foldl (fun d e => if has_class d e "active" then remove_class e "active" d else d) d els).
Proof.
  apply restyle_foldl. intros e d1. destruct (has_class d1 e "active"); eauto with wp.
Qed.

Lemma query_each_runs els sel (Q : list elem -> W -> Prop) (w : W) :
  (forall e, is_Some (query (dom w) (Some e) sel)) -> (forall l, Q l w) -> runs (query_each els sel) Q w.
Proof.
  intros Hq. revert Q. induction els as [|e els IH]; intros Q HQ; simpl; [wp; apply HQ|].
  destruct (Hq e) as (l & El).
  apply runs_bind. eapply runs_query_all; [exact El|]. apply runs_bind. apply IH. intros l'. wp. apply HQ.
Qed.

(** What [_activate] leaves: the target recorded, its links active, the page
    restyled. *)
Lemma ss_activate_runs o t this (w : W) :
  heap w !! o = Some this -> queries_parse (ss_selector this) (js_str t) (dom w) ->
  runs (ss_activate o t) (fun _ w' =>
    heap w' = alter (fun this => this <| ss_activeTarget := t |>) o (heap w) /\
    restyle (dom w) (dom w') /\
    exists d1 links, restyle (dom w) d1 /\
      query d1 None (activate_query (ss_selector this) (js_str t)) = Some links /\
      forall e, e ∈ links -> "active"%string ∈ class_list (dom w') e) w.
Proof.
  intros Ho Hq. unfold BsScrollSpy.ss_activate, ss_clear.
  set (this1 := this <| ss_activeTarget := t |>).
  assert (Ho1 : alter (fun this => this <| ss_activeTarget := t |>) o (heap w) !! o = Some this1)
    by (by rewrite lookup_alter_eq, Ho).
  apply runs_bind. wp. destruct (Hq _ (restyle_refl _)) as [(els & Eels) _].
  eapply runs_query_all; [exact Eels|]. wp. set (d1 := foldl _ _ els).
  assert (Hd1 : restyle (dom w) d1) by (by apply restyle_clear).
  destruct (Hq _ Hd1) as (_ & (links & El) & Htoggle).
  eapply runs_query_all; [exact El|]. wp.
  set (added := fun (_ : unit) (w' : W) =>
    heap w' = alter (fun this => this <| ss_activeTarget := t |>) o (heap w) /\
    restyle (dom w) (dom w') /\ forall e, e ∈ links -> "active"%string ∈ class_list (dom w') e).
  refine (runs_mono _ added _ _ _ _).
  - intros [] w' (Eh & Hr & Hl). apply runs_bind.
    eapply (runs_get _ this1); [by rewrite Eh|].
    destruct (ss_scrollElement this1) as [[|e]|];
      exact (conj Eh (conj Hr (ex_intro _ d1 (ex_intro _ links (conj Hd1 (conj El Hl)))))).
  - destruct (jq_has_class _ links "dropdown-item").
    + apply runs_bind. apply query_each_runs; [exact Htoggle|]. intros toggles. wp.
      split; [done|]. split; [cbn; eauto with wp|]. intros e He. cbn. by apply class_add_in.
    + wp. split; [done|]. split; [cbn; eauto 8 with wp|]. intros e He. cbn.
      do 2 apply class_add_mono. by apply class_add_in.
Qed.

(** The section an offset list selects for a scroll position: the last one
    that starts above it. *)
Definition selects (offsets : list Q) (scrollTop : Q) (i : nat) : Prop :=
  (exists oi, offsets !! i = Some oi /\ (oi <= scrollTop)%Q) /\
  forall o', offsets !! S i = Some o' -> (scrollTop < o')%Q.

Lemma sorted_lookup (l : list Q) i j a b :
  StronglySorted Qle l -> l !! i = Some a -> l !! j = Some b -> (i <= j)%nat -> (a <= b)%Q.
Proof.
  intros Hs. revert i j. induction Hs as [|x l Hs IH Hx]; intros i j Ha Hb Hij; [done|].
  destruct i as [|i], j as [|j]; simpl in *; [|..|by eapply IH; [done..|lia]].
  - simplify_eq. apply Qle_refl.
  - simplify_eq. rewrite Forall_forall in Hx. by eapply Hx, list_elem_of_lookup_2.
  - lia.
Qed.

(** The test of the loop on an index. *)
Lemma isActiveTarget_spec this scrollTop i :
  isActiveTarget this scrollTop i = true <->
  target_neq (ss_activeTarget this) (nth_target (ss_targets this) i) = true /\
  selects (ss_offsets this) scrollTop i.
Proof.
  unfold isActiveTarget, selects, qle, qltb. rewrite !andb_true_iff, Logic.and_assoc. apply and_iff_compat_l.
  destruct (ss_offsets this !! i) as [oi|].
  - rewrite Qle_bool_iff. destruct (ss_offsets this !! S i) as [o'|].
    + rewrite negb_true_iff, <- not_true_iff_false, Qle_bool_iff. split.
      * intros [Hi Ho]. split; [by exists oi|]. intros o1 [= <-]. by apply Qnot_le_lt.
      * intros [(o1 & [= <-] & Hi) Ho]. split; [done|]. by apply Qlt_not_le, Ho.
    + split; [intros [Hi _]; split; [by exists oi|done]|]. by intros [(o1 & [= <-] & Hi) _].
  - split; [intros [? _]; done|]. by intros [(o1 & ? & _) _].
Qed.

Lemma selects_unique l scrollTop i j :
  StronglySorted Qle l -> selects l scrollTop i -> selects l scrollTop j -> i = j.
Proof.
  intros Hs. assert (Hlt : forall i j, (i < j)%nat -> selects l scrollTop i -> selects l scrollTop j -> False).
  { clear i j. intros i j Hij [_ Hn] [(oj & Ej & Hj) _].
    destruct (lookup_lt_is_Some_2 l (S i)) as (o' & Eo).
    { apply lookup_lt_Some in Ej. lia. }
    pose proof (sorted_lookup l (S i) j o' oj Hs Eo Ej ltac:(lia)). specialize (Hn o' Eo). lra. }
  intros Hi Hj. destruct (Nat.lt_trichotomy i j) as [?|[?|?]]; [exfalso; eauto|done|exfalso; eauto].
Qed.

(** What the loop keeps and establishes below index [n]. *)
Definition processed (o : nat) (this : ScrollSpy) (w : W) (n i : nat) (w' : W) : Prop :=
  restyle (dom w) (dom w') /\
  exists t, heap w' !! o = Some (this <| ss_activeTarget := t |>) /\
    ((n <= i)%nat -> t = nth_target (ss_targets this) i).

Lemma target_neq_refl s : target_neq (VStr s) (VStr s) = false.
Proof. cbn. by rewrite String.eqb_refl. Qed.

Lemma target_neq_str t s : target_neq t (VStr s) = false -> t = VStr s.
Proof.
  destruct t; cbn; try done. intros E%negb_false_iff. by apply String.eqb_eq in E as ->.
Qed.

Lemma ss_loop_runs o this (w w0 : W) scrollTop i n :
  StronglySorted Qle (ss_offsets this) -> selects (ss_offsets this) scrollTop i ->
  (forall s, ss_targets this !! i = Some s -> queries_parse (ss_selector this) s (dom w)) ->
  (i < length (ss_targets this))%nat -> processed o this w n i w0 ->
  runs (ss_loop o scrollTop n) (fun _ => processed o this w 0 i) w0.
Proof.
  intros Hs Hi Hq Hl. destruct (lookup_lt_is_Some_2 _ _ Hl) as (s & Es).
  assert (Et : nth_target (ss_targets this) i = VStr s) by (unfold nth_target; by rewrite Es).
  revert w0. induction n as [|n IH]; intros w0 (Hr & t & Ho & Ht); [by exact (conj Hr (ex_intro _ t (conj Ho Ht)))|].
  cbn [BsScrollSpy.ss_loop]. apply runs_bind. eapply runs_get; [exact Ho|]. apply runs_bind.
  destruct (isActiveTarget (this <| ss_activeTarget := t |>) scrollTop n) eqn:Ea; unfold when; cbn [when].
  - apply isActiveTarget_spec in Ea as [Hneq Hsel]. cbn in Hneq, Hsel.
    assert (n = i) as -> by (eapply selects_unique; eauto).
    eapply runs_mono; [|eapply ss_activate_runs; [exact Ho|]].
    2: { change (queries_parse (ss_selector this) (js_str (nth_target (ss_targets this) i)) (dom w0)).
         rewrite Et. by eapply queries_restyle, Hq. }
    intros _ w' (Eh & Hr' & _). apply IH. split; [by etrans|].
    exists (VStr s). rewrite Eh, lookup_alter_eq, Ho. split; [|by rewrite Et].
    cbn. by rewrite <- Et.
  - apply runs_skip, IH. split; [done|]. exists t. split; [done|]. intros Hn.
    destruct (decide (n = i)) as [->|Hne]; [|apply Ht; lia].
    rewrite Et. apply target_neq_str. rewrite <- Et.
    destruct (target_neq _ _) eqn:E; [|done].
    assert (isActiveTarget (this <| ss_activeTarget := t |>) scrollTop i = true) by by apply isActiveTarget_spec.
    congruence.
Qed.

(** The method [refresh] measures with, and what it is added to. *)
Definition offset_method (scr : scroll_element) (cfg : config) : string :=
  match field cfg "method" with
  | VStr s => if String.eqb s "auto" then match scr with SWindow => "offset" | SElem _ => "position" end else s
  | _ => ""%string
  end.

Definition measured (d : D) (scr : scroll_element) (cfg : config) (els : list elem) : exn + list (Q * string) :=
  let m := offset_method scr cfg in
  link_targets jq_offset_top jq_position_top d m
    (if String.eqb m "position" then ss_getScrollTop pageYOffset d scr else 0%Q) els.

Lemma offsets_sorted items :
  exists sorted, array_sort offset_cmp items = Some sorted /\ sorted ≡ₚ items /\
    StronglySorted Qle (map fst sorted).
Proof.
  destruct (keyed_consistent offset_cmp (fun p => Some p.1) items) as [Hc Hle].
  - intros a b x y _ _ [= <-] [= <-]. eexists. split; [done|]. split; lra.
  - intros a _. by eexists.
  - destruct (array_sort_spec _ _ Hc) as (sorted & E & Hp & Hs & _). exists sorted. split; [done|].
    split; [done|]. assert (Hin : forall a, a ∈ sorted -> a ∈ items) by (intros a; by rewrite Hp).
    clear E Hp. induction Hs as [|a l Hs IH Ha]; [constructor|]. cbn. constructor; [apply IH; set_solver|].
    apply Forall_map. rewrite Forall_forall in *. intros b Hb.
    apply (Hle a b); [set_solver|set_solver|done|done|by apply Ha].
Qed.

Lemma ss_refresh_runs o this scr cfg els items sorted (w : W) :
  heap w !! o = Some this -> ss_scrollElement this = Some scr -> ss_config this = Some cfg ->
  query (dom w) None (ss_selector this) = Some els -> measured (dom w) scr cfg els = inr items ->
  array_sort offset_cmp items = Some sorted ->
  runs (ss_refresh pageYOffset jq_offset_top jq_position_top o) (fun _ w' =>
    dom w' = dom w /\
    heap w' !! o = Some (this <| ss_offsets := map fst sorted |> <| ss_targets := map snd sorted |>
                             <| ss_scrollHeight := ss_getScrollHeight (dom w) scr |>)) w.
Proof.
  intros Ho Hscr Hcfg Hq Hm Hs. unfold ss_refresh. wp. cbv zeta. wp.
  eapply runs_lift; [exact Hm|]. wp. split; [done|]. autorewrite with world. rewrite !lookup_alter_eq, Ho. by destruct this.
Qed.

(** The sections a scroll is processed with: the instance's, or, when the height
    of the page has changed, those measured afresh. *)
Definition sections (this : ScrollSpy) (d : D) (scr : scroll_element) (cfg : config)
    (offsets : list Q) (targets : list string) : Prop :=
  if Qeq_bool (ss_scrollHeight this) (ss_getScrollHeight d scr)
  then offsets = ss_offsets this /\ targets = ss_targets this /\ StronglySorted Qle offsets
  else exists els items sorted,
    query d None (ss_selector this) = Some els /\ measured d scr cfg els = inr items /\
    array_sort offset_cmp items = Some sorted /\ offsets = map fst sorted /\ targets = map snd sorted.

Lemma sections_sorted this d scr cfg offsets targets :
  sections this d scr cfg offsets targets -> StronglySorted Qle offsets.
Proof.
  unfold sections. destruct (Qeq_bool _ _); [by intros (_ & _ & Hs)|].
  intros (els & items & sorted & _ & _ & E & -> & _).
  destruct (offsets_sorted items) as (sorted' & E' & _ & Hs). congruence.
Qed.

(** C28. Processing a scroll selects the right section, above the end of the
    page: with the sections of the instance, or with those measured again (and
    sorted by their offsets) when the height of the page has changed, the
    section whose offset is the last one at or above the scroll position
    becomes the active target, whatever was active before; the instance keeps
    these sections, and the page only changes its style. The selectors of the
    links and of the links to that section have to parse, no other. *)
Theorem scrollspy_process o this scr cfg (w : W) offsets targets i s :
  heap w !! o = Some this -> ss_scrollElement this = Some scr -> ss_config this = Some cfg ->
  queries_parse (ss_selector this) s (dom w) -> sections this (dom w) scr cfg offsets targets ->
  let offset := match field cfg "offset" with VNum q => q | _ => 0%Q end in
  let scrollTop := (ss_getScrollTop pageYOffset (dom w) scr + offset)%Q in
  (scrollTop < offset + ss_getScrollHeight (dom w) scr - ss_getOffsetHeight window_innerHeight (dom w) scr)%Q ->
  selects offsets scrollTop i -> targets !! i = Some s ->
  runs (ss_process o) (fun _ w' =>
    restyle (dom w) (dom w') /\
    exists this', heap w' !! o = Some this' /\ ss_activeTarget this' = VStr s /\
      ss_offsets this' = offsets /\ ss_targets this' = targets) w.
Proof.
  intros Ho Hscr Hcfg Hq Hsec offset scrollTop Hmax Hi Hl.
  pose proof (sections_sorted _ _ _ _ _ _ Hsec) as Hs.
  assert (Hrest : forall this' (w' : W), dom w' = dom w -> heap w' !! o = Some this' ->
    ss_offsets this' = offsets -> ss_targets this' = targets -> ss_selector this' = ss_selector this ->
    runs (this ← get o;
      if qle (offset + ss_getScrollHeight (dom w) scr - ss_getOffsetHeight window_innerHeight (dom w) scr) scrollTop then
        let target := match last (ss_targets this) with Some s => VStr s | None => VUndef end in
        when (target_neq (ss_activeTarget this) target) (ss_activate o target)
      else if truthy (ss_activeTarget this)
              && match head (ss_offsets this) with Some f => qltb scrollTop f && qltb 0 f | None => false end then
        put o (fun this => this <| ss_activeTarget := VNull |>) ;;
        ss_clear o
      else ss_loop o scrollTop (length (ss_offsets this))) (fun _ w'' => restyle (dom w) (dom w'') /\
        exists this'', heap w'' !! o = Some this'' /\ ss_activeTarget this'' = VStr s /\
          ss_offsets this'' = offsets /\ ss_targets this'' = targets) w').
  { intros this' w' Ed Ho' <- <- Esel. apply runs_bind. eapply runs_get; [exact Ho'|].
    assert (qle (offset + ss_getScrollHeight (dom w) scr - ss_getOffsetHeight window_innerHeight (dom w) scr)
      scrollTop = false) as ->.
    { unfold qle. rewrite <- not_true_iff_false, Qle_bool_iff. by apply Qlt_not_le. }
    assert (match head (ss_offsets this') with
      | Some f => qltb scrollTop f && qltb 0 f | None => false end = false) as ->.
    { destruct Hi as [(oi & Ei & Hle) _]. destruct (ss_offsets this') as [|f l] eqn:El; [done|]. cbn [head hd_error].
      unfold qltb. assert (f <= oi)%Q by (eapply (sorted_lookup _ 0 i); [exact Hs|done|exact Ei|lia]).
      assert (Qle_bool f scrollTop = true) as -> by (apply Qle_bool_iff; lra). done. }
    rewrite andb_false_r. rewrite <- Ed in Hq.
    eapply runs_mono; [|eapply (ss_loop_runs o this' w' w' scrollTop i); [done|done|by rewrite Hl, Esel; intros s' [= <-]|..]].
    - intros _ w'' (Hr & t & Ht & E). rewrite <- Ed. split; [done|]. eexists. split; [exact Ht|]. cbn.
      rewrite E by lia. unfold nth_target. by rewrite Hl.
    - by eapply lookup_lt_Some.
    - split; [done|]. exists (ss_activeTarget this'). split; [rewrite Ho'; by destruct this'|].
      intros Hlen. destruct Hi as [(oi & Ei & _) _]. apply lookup_lt_Some in Ei. lia. }
  unfold BsScrollSpy.ss_process. wp. cbv zeta. fold offset scrollTop. unfold sections in Hsec.
  destruct (Qeq_bool (ss_scrollHeight this) (ss_getScrollHeight (dom w) scr)); unfold when at 1; cbn [negb].
  - destruct Hsec as (-> & -> & _). apply runs_skip. exact (Hrest this w eq_refl Ho eq_refl eq_refl eq_refl).
  - destruct Hsec as (els & items & sorted & Eq & Em & Es & -> & ->).
    eapply runs_mono; [|by eapply ss_refresh_runs]. intros _ w' (Ed & Ho').
    exact (Hrest _ w' Ed Ho' eq_refl eq_refl eq_refl).
Qed.
End scrollspy.

(** ** Toasts *)
Section toast.
Context {D : Type} `{DomLaws D}.
Local Abbreviation W := (World D Toast toast_cb).

Implicit Types (w : W).

(** The timers that will hide the toast [o]. *)
Definition hide_timers (o : nat) (l : list (task toast_cb)) : list nat :=
  omap (fun t => match task_run t with
                 | Call (ToastHide o') => if decide (o' = o) then Some (task_id t) else None
                 | _ => None
                 end) l.

(** A toast on [el] that is neither disposed nor waiting. *)
Definition toast_on (w : W) (o : nat) (el : elem) (cfg : config) : Prop :=
  exists this, heap w !! o = Some this /\ toast_element this = Some el /\
    toast_config this = Some cfg /\ toast_timeout this = None.

(** The classes of a toast that is up, and of one that is gone. *)
Definition toast_up (d : D) (el : elem) : Prop :=
  has_class d el "show" = true /\ has_class d el "hide" = false /\ has_class d el "showing" = false.
Definition toast_down (d : D) (el : elem) : Prop :=
  has_class d el "show" = false /\ has_class d el "hide" = true.

Ltac class_cases :=
  repeat (rewrite has_class_add_class || rewrite has_class_remove_class);
  repeat (case_bool_decide; try (exfalso; intuition congruence)); cbn; rewrite ?andb_false_r, ?orb_true_r; try done.

Lemma hide_timers_app o l k : hide_timers o (l ++ k) = hide_timers o l ++ hide_timers o k.
Proof. apply omap_app. Qed.

Lemma hide_timers_filter o i l :
  hide_timers o (filter (fun t => task_id t <> i) l) = filter (fun j => j <> i) (hide_timers o l).
Proof.
  induction l as [|t l IH]; [done|]. rewrite filter_cons.
  assert (Hc : forall t l, hide_timers o (t :: l) = hide_timers o [t] ++ hide_timers o l).
  { intros t' l'. exact (hide_timers_app o [t'] l'). }
  rewrite (Hc t l), filter_app, <- IH.
  assert (Hs : hide_timers o [t] = [] \/ hide_timers o [t] = [task_id t]).
  { unfold hide_timers. cbn. destruct (task_run t) as [| |[| |o']]; auto. case_decide; auto. }
  destruct (decide (task_id t <> i)) as [Hi|Hi]; [rewrite (Hc t)|]; destruct Hs as [-> | ->]; try done;
    [by rewrite filter_cons_True|by rewrite filter_cons_False].
Qed.

(** The end of [show]: the classes, and the timer. *)
Lemma toast_shown_runs o el cfg this w :
  heap w !! o = Some this -> toast_element this = Some el -> toast_config this = Some cfg ->
  runs (toast_shown silent o) (fun _ w1 =>
    dom w1 = add_class el "show" (remove_class el "showing" (dom w)) /\
    if truthy (field cfg "autohide") then
      tasks w1 = tasks w ++ [Task (next_id w) (Timeout (delay_of (field cfg "delay"))) (Call (ToastHide o))] /\
      heap w1 !! o = Some (this <| toast_timeout := Some (next_id w) |>) /\
      next_id w1 = (next_id w + 1)%nat
    else tasks w1 = tasks w /\ heap w1 !! o = Some this /\ next_id w1 = next_id w) w.
Proof.
  intros Ho Hel Hcfg. unfold toast_shown. wp.
  destruct (truthy (field cfg "autohide")); wp; [|done].
  autorewrite with world. rewrite lookup_alter_eq, Ho. by destruct this.
Qed.

(** Hiding without animation. *)
Lemma toast_hide_runs o el cfg this w :
  heap w !! o = Some this -> toast_element this = Some el -> toast_config this = Some cfg ->
  truthy (field cfg "animation") = false -> has_class (dom w) el "show" = true ->
  runs (toast_hide silent o) (fun _ w1 => toast_down (dom w1) el) w.
Proof.
  intros Ho Hel Hcfg Ha Hs. unfold toast_hide, toast_close, toast_complete, toast_closed. wp.
  rewrite Hs. cbn [negb]. wp. rewrite Ha. wp. unfold toast_down. autorewrite with world.
  split; class_cases.
Qed.

(** The life of a toast without animation: shown, it is up; when it hides
    itself exactly one timer waits, for the configured delay, and its callback
    takes the toast down; a toast that does not hide itself waits for
    nothing. *)
Theorem toast_cycle o el cfg w :
  toast_on w o el cfg -> truthy (field cfg "animation") = false -> hide_timers o (tasks w) = [] ->
  exists w1, toast_show silent o w = (w1, inr tt) /\ toast_up (dom w1) el /\
    if truthy (field cfg "autohide") then
      exists id w2, hide_timers o (tasks w1) = [id] /\
        Task id (Timeout (delay_of (field cfg "delay"))) (Call (ToastHide o)) ∈ tasks w1 /\
        (toast_timeout <$> heap w1 !! o) = Some (Some id) /\
        toast_plug silent (ToastHide o) w1 = (w2, inr tt) /\ toast_down (dom w2) el
    else hide_timers o (tasks w1) = [].
Proof.
  intros (this & Ho & Hel & Hcfg & Hto) Ha Hnone. apply runs_unit.
  unfold toast_show, toast_clearTimeout, toast_complete. wp. rewrite Hto. wp. rewrite Ha. wp. rewrite Ha.
  set (this1 := this <| toast_timeout := None |>).
  eapply runs_mono; [|eapply (toast_shown_runs o el cfg this1); [|done|done]].
  2: { autorewrite with world. by rewrite lookup_alter_eq, Ho. }
  intros _ w1 (Ed & Hr). autorewrite with world in *. rewrite Ed.
  assert (Hup : has_class (add_class el "show" (remove_class el "showing" (add_class el "showing"
    (remove_class el "hide" (dom w))))) el "show" = true) by class_cases.
  split; [unfold toast_up; split; [done|split; class_cases]|].
  destruct (truthy (field cfg "autohide")).
  - destruct Hr as (Et & Eo & _). autorewrite with world in Et, Eo.
    destruct (runs_unit _ _ _ (toast_hide_runs o el cfg _ w1 Eo Hel Hcfg Ha ltac:(by rewrite Ed)))
      as (w2 & E2 & Hdown).
    eexists _, w2. rewrite Et, hide_timers_app, Hnone, Eo. cbn. rewrite decide_True by done.
    split; [done|]. split; [|done]. apply elem_of_app. right. by left.
  - destruct Hr as (Et & _). by rewrite Et.
Qed.
(** The listeners and the timer of an animated end. *)
Definition shown_tasks (n o : nat) (el : elem) (ms : Q) : list (task toast_cb) :=
  [Task n (Once el TRANSITION_END) (Call (ToastShown o));
   Task (n + 1 + 1) (Once el TRANSITION_END) (EmuMark (n + 1));
   Task (n + 1 + 2) (Timeout ms) (EmuFire (n + 1) [el])].

Lemma toast_show_animated o el cfg this w :
  heap w !! o = Some this -> toast_element this = Some el -> toast_config this = Some cfg ->
  toast_timeout this = None -> truthy (field cfg "animation") = true ->
  runs (toast_show silent o) (fun _ w1 =>
    heap w1 !! o = Some this /\ next_id w1 = (next_id w + 4)%nat /\
    exists ms, tasks w1 = tasks w ++ shown_tasks (next_id w) o el ms) w.
Proof.
  intros Ho Hel Hcfg Hto Ha. unfold toast_show, toast_clearTimeout, toast_complete. wp. rewrite Hto. wp.
  rewrite Ha. cbn [when]. wp. rewrite Ha. wp.
  autorewrite with world. rewrite lookup_alter_eq, Ho. split; [destruct this; simpl in *; by subst|].
  split; [lia|]. eexists. rewrite <- app_assoc. reflexivity.
Qed.
Ltac once_cases :=
  repeat first
    [ rewrite filter_cons_True by (unfold is_once; cbn; by rewrite ?Nat.eqb_refl)
    | rewrite filter_cons_False by (unfold is_once; cbn; by rewrite ?Nat.eqb_refl) ];
  rewrite ?filter_nil.

(** The listeners of the end of the transition, taken off two shows. *)
Lemma shown_due n n' o el ms ms' ts :
  filter (fun t => is_once el TRANSITION_END t = true) ts = [] ->
  map task_run (filter (fun t => is_once el TRANSITION_END t = true)
    ((ts ++ shown_tasks n o el ms) ++ shown_tasks n' o el ms'))
  = [Call (ToastShown o); EmuMark (n + 1); Call (ToastShown o); EmuMark (n' + 1)].
Proof.
  intros Hn. rewrite !filter_app, Hn. unfold shown_tasks. once_cases. reflexivity.
Qed.

Lemma shown_left n n' o el ms ms' ts :
  filter (fun t => is_once el TRANSITION_END t = true) ts = [] -> hide_timers o ts = [] ->
  hide_timers o (filter (fun t => is_once el TRANSITION_END t = false)
    ((ts ++ shown_tasks n o el ms) ++ shown_tasks n' o el ms')) = [].
Proof.
  intros Hn Hh. rewrite !filter_app, !hide_timers_app.
  rewrite (filter_all (fun t => is_once el TRANSITION_END t = false) ts), Hh.
  - unfold shown_tasks. once_cases. reflexivity.
  - intros t Ht. apply not_true_iff_false. intros Ht'.
    assert (t ∈ filter (fun t => is_once el TRANSITION_END t = true) ts) as Hin by by apply list_elem_of_filter.
    rewrite Hn in Hin. by apply not_elem_of_nil in Hin.
Qed.

(** The transition of two shows ends: both ends run, each with its timer. *)
Lemma toast_both_shown o el cfg this n n' ms ms' ts w :
  heap w !! o = Some this -> toast_element this = Some el -> toast_config this = Some cfg ->
  truthy (field cfg "autohide") = true -> hide_timers o ts = [] ->
  filter (fun t => is_once el TRANSITION_END t = true) ts = [] ->
  tasks w = (ts ++ shown_tasks n o el ms) ++ shown_tasks n' o el ms' ->
  runs (deliver (toast_plug silent) el TRANSITION_END) (fun _ w' =>
    heap w' !! o = Some (this <| toast_timeout := Some (next_id w + 1)%nat |>) /\
    hide_timers o (tasks w') = [next_id w; (next_id w + 1)%nat]) w.
Proof.
  intros Ho Hel Hcfg Hh Hnone Hlis Ht. unfold deliver, runs. rewrite Ht, shown_due by done.
  pose proof (shown_left n n' o el ms ms' ts Hlis Hnone) as Hleft.
  set (left := filter (fun t => is_once el TRANSITION_END t = false) _) in *.
  set (w0 := w <| tasks := left |>).
  change (runs (for_each [Call (ToastShown o); EmuMark (n + 1); Call (ToastShown o); EmuMark (n' + 1)]
    (run_mark_or_call (toast_plug silent))) (fun _ w' =>
      heap w' !! o = Some (this <| toast_timeout := Some (next_id w + 1)%nat |>) /\
      hide_timers o (tasks w') = [next_id w; (next_id w + 1)%nat]) w0).
  cbn [for_each run_mark_or_call toast_plug]. apply runs_bind.
  eapply runs_mono; [|apply (toast_shown_runs o el cfg this); [exact Ho|done|done]].
  rewrite Hh. intros _ w3 (_ & T3 & Ho3 & N3). apply runs_bind, runs_pure, runs_bind.
  eapply runs_mono; [|eapply (toast_shown_runs o el cfg); [exact Ho3|done|done]].
  rewrite Hh. intros _ w4 (_ & T4 & Ho4 & _). apply runs_bind, runs_pure, runs_skip.
  autorewrite with world in *. split; [rewrite Ho4, N3; by destruct this|].
  rewrite T4, T3, !hide_timers_app. change (tasks w0) with left. rewrite Hleft, N3.
  change (next_id w0) with (next_id w). cbn. by rewrite !decide_True by done.
Qed.

(** Disposing clears the remembered timer and no other. *)
Lemma toast_dispose_runs o el this i w :
  heap w !! o = Some this -> toast_element this = Some el -> toast_timeout this = Some i ->
  runs (toast_dispose o) (fun _ w' =>
    hide_timers o (tasks w') = filter (fun j => j <> i) (hide_timers o (tasks w)) /\
    exists this', heap w' !! o = Some this' /\ toast_element this' = None) w.
Proof.
  intros Ho Hel Hto. unfold toast_dispose, toast_clearTimeout. wp. rewrite Hto. wp.
  unfold remove_data. apply runs_pure. wp. autorewrite with world. split.
  - exact (hide_timers_filter o i (tasks w)).
  - eexists. split.
    + by rewrite !lookup_alter_eq, Ho.
    + done.
Qed.

(** C30. A toast shown twice during its animation is left with two timers: each
    call registers the end of [show], both ends run when the transition ends,
    each sets a timer that hides the toast, and only the second is remembered.
    Disposing of the toast clears that one; the other later hides a disposed
    toast, which is a type error. *)
Theorem toast_shown_twice o el cfg w :
  toast_on w o el cfg -> truthy (field cfg "animation") = true -> truthy (field cfg "autohide") = true ->
  hide_timers o (tasks w) = [] ->
  filter (fun t => is_once el TRANSITION_END t = true) (tasks w) = [] ->
  exists w1 w2 w3 w4 w5 id1 id2,
    toast_show silent o w = (w1, inr tt) /\ toast_show silent o w1 = (w2, inr tt) /\
    deliver (toast_plug silent) el TRANSITION_END w2 = (w3, inr tt) /\
    hide_timers o (tasks w3) = [id1; id2] /\ id1 <> id2 /\
    (toast_timeout <$> heap w3 !! o) = Some (Some id2) /\
    toast_dispose o w3 = (w4, inr tt) /\ hide_timers o (tasks w4) = [id1] /\
    toast_plug silent (ToastHide o) w4 = (w5, inl TypeError).
Proof.
  intros (this & Ho & Hel & Hcfg & Hto) Ha Hh Hnone Hlis.
  destruct (runs_unit _ _ _ (toast_show_animated o el cfg this w Ho Hel Hcfg Hto Ha))
    as (w1 & E1 & Ho1 & N1 & ms1 & T1).
  destruct (runs_unit _ _ _ (toast_show_animated o el cfg this w1 Ho1 Hel Hcfg Hto Ha))
    as (w2 & E2 & Ho2 & N2 & ms2 & T2). rewrite T1 in T2.
  destruct (runs_unit _ _ _ (toast_both_shown o el cfg this _ _ _ _ _ w2 Ho2 Hel Hcfg Hh Hnone Hlis T2))
    as (w3 & E3 & Ho3 & T3).
  destruct (runs_unit _ _ _ (toast_dispose_runs o el _ _ w3 Ho3 Hel eq_refl))
    as (w4 & E4 & T4 & this' & Ho4 & Hel4).
  exists w1, w2, w3, w4, w4, (next_id w2), (next_id w2 + 1)%nat.
  do 4 (split; [done|]). split; [lia|]. split; [by rewrite Ho3|]. split; [done|]. split.
  - rewrite T4, T3. rewrite filter_cons_True, filter_cons_False by lia. done.
  - cbn [toast_plug]. unfold toast_hide, get, deref, throw, mbind, M_bind. by rewrite Ho4, Hel4.
Qed.
End toast.

(** ** Pages to try them on *)
Module PluginDemo.
(** A navigation (10) with two links (11, 12) over a page of 2000 pixels with
    three sections, and a toast (20). *)
Definition page : toy := {|
  toy_class := list_to_map [
    (11%nat, ["nav-link"; "active"]); (12%nat, ["nav-link"]); (20%nat, ["toast"; "fade"; "hide"])]%string;
  toy_attr := ∅;
  toy_style := ∅;
  toy_prop := {[ (1%nat, "scrollHeight"%string) := VNum 2000 ]};
  toy_data := ∅;
  toy_query := [("#nav .nav-link", [11; 12]%nat);
                (activate_query "#nav .nav-link" "#b", [12%nat])]%string;
  toy_parent := ∅;
  toy_next := 100
|}.

Definition spy : ScrollSpy := {|
  ss_element := Some 1%nat; ss_scrollElement := Some SWindow; ss_config := Some scrollspy_Default;
  ss_selector := "#nav .nav-link"; ss_offsets := [0; 100; 200]%Q; ss_targets := ["#a"; "#b"; "#c"]%string;
  ss_activeTarget := VStr "#a"; ss_scrollHeight := 2000; ss_listening := true |}.

Definition toast (cfg : config) : Toast := {|
  toast_element := Some 20%nat; toast_config := Some cfg; toast_timeout := None; toast_listening := true |}.

Definition world {S K} (s : S) : World toy S K := MkWorld page {[ 0%nat := s ]} ∅ [] ∅ 1%nat false.

Lemma page_parses (d : toy) : queries_parse "#nav .nav-link" "#b" d.
Proof. intros d' _. split; [by eexists|]. split; by eexists. Qed.

Lemma spy_sections : sections (fun _ : toy => 150%Q) (fun _ _ => 0%Q) (fun _ _ => 0%Q) spy page
  SWindow scrollspy_Default [0; 100; 200]%Q ["#a"; "#b"; "#c"]%string.
Proof.
  split; [done|]. split; [done|]. repeat constructor; unfold Qle; simpl; lia.
Qed.

Lemma spy_selects : selects [0; 100; 200]%Q 160 1.
Proof.
  split; [exists 100%Q; split; [done|unfold Qle; simpl; lia]|]. intros o' [= <-]. unfold Qlt. simpl. lia.
Qed.
End PluginDemo.

Lemma scrollspy_process_witness : exists w' this',
  ss_process (D := toy) silent silent_window (fun _ => 150%Q) (fun _ => 500%Q) (fun _ _ => 0%Q) (fun _ _ => 0%Q) 0
    (PluginDemo.world PluginDemo.spy) = (w', inr tt) /\
  heap w' !! 0%nat = Some this' /\ ss_activeTarget this' = VStr "#b".
Proof.
  destruct (runs_unit _ _ _ (scrollspy_process (D := toy) (fun _ => 150%Q) (fun _ => 500%Q) (fun _ _ => 0%Q)
    (fun _ _ => 0%Q) 0 PluginDemo.spy SWindow scrollspy_Default (PluginDemo.world PluginDemo.spy)
    [0; 100; 200]%Q ["#a"; "#b"; "#c"]%string 1 "#b"%string eq_refl eq_refl eq_refl
    (PluginDemo.page_parses _) PluginDemo.spy_sections eq_refl PluginDemo.spy_selects eq_refl))
    as (w' & E & _ & this' & Eh & Et & _).
  exists w', this'. split; [exact E|]. split; [exact Eh|exact Et].
Defined.

Lemma toast_cycle_witness : exists w1,
  toast_show (D := toy) silent 0 (PluginDemo.world
    (PluginDemo.toast (<["animation"%string := VBool false]> toast_Default))) = (w1, inr tt) /\
  toast_up (dom w1) 20.
Proof.
  destruct (toast_cycle (D := toy) 0 20 (<["animation"%string := VBool false]> toast_Default)
    (PluginDemo.world (PluginDemo.toast (<["animation"%string := VBool false]> toast_Default))))
    as (w1 & E & Hup & _).
  - eexists. split; [reflexivity|]. split; [reflexivity|]. split; reflexivity.
  - vm_compute; reflexivity.
  - reflexivity.
  - exists w1. split; [exact E|exact Hup].
Defined.

Lemma toast_shown_twice_witness : exists w1 w2 w3 w4 w5,
  toast_show (D := toy) silent 0 (PluginDemo.world (PluginDemo.toast toast_Default)) = (w1, inr tt) /\
  toast_show silent 0 w1 = (w2, inr tt) /\ deliver (toast_plug silent) 20 TRANSITION_END w2 = (w3, inr tt) /\
  toast_dispose 0 w3 = (w4, inr tt) /\ toast_plug silent (ToastHide 0) w4 = (w5, inl TypeError).
Proof.
  destruct (toast_shown_twice (D := toy) 0 20 toast_Default (PluginDemo.world (PluginDemo.toast toast_Default)))
    as (w1 & w2 & w3 & w4 & w5 & id1 & id2 & E1 & E2 & E3 & _ & _ & _ & E4 & _ & E5).
  - eexists. split; [reflexivity|]. split; [reflexivity|]. split; reflexivity.
  - vm_compute; reflexivity.
  - vm_compute; reflexivity.
  - reflexivity.
  - reflexivity.
  - exists w1, w2, w3, w4, w5. split; [exact E1|]. split; [exact E2|]. split; [exact E3|].
    split; [exact E4|exact E5].
Defined.
