(* ===== verification/BsTasks.v ===== *)
(** Task lists of the event loop: selecting tasks, and the numbering of tasks
    and instances that every plugin keeps. *)
From Stdlib Require Import ZArith QArith Lia String Ascii.
From stdpp Require Import base list gmap strings.
From coqutil Require Import Datatypes.RecordSetters.
From S2P Require Import Prelude Js JsDom BsUtil BsDomTheory BsHoare.

Local Open Scope Z_scope.

(** ** Task lists *)
Section tasks.
Context {K : Type}.
Implicit Types (ts : list (task K)).

Lemma tasks_filter_nodup (P : task K -> Prop) `{!forall t, Decision (P t)} ts :
  NoDup (task_id <$> ts) -> NoDup (task_id <$> filter P ts).
Proof.
  induction ts as [|t ts IH]; [done|]. cbn [fmap list_fmap]. rewrite filter_cons.
  intros [Hin Hnd]%NoDup_cons. case_decide; [|by apply IH]. cbn [fmap list_fmap].
  apply NoDup_cons. split; [|by apply IH]. contradict Hin.
  apply list_elem_of_fmap in Hin as (t' & -> & Ht'). apply list_elem_of_filter in Ht' as [_ Ht'].
  apply list_elem_of_fmap. by exists t'.
Qed.

Lemma tasks_same_id ts t t' :
  NoDup (task_id <$> ts) -> t ∈ ts -> t' ∈ ts -> task_id t = task_id t' -> t = t'.
Proof.
  induction ts as [|u ts IH]; intros Hnd Ht Ht' E; [by apply not_elem_of_nil in Ht|].
  cbn [fmap list_fmap] in Hnd. apply NoDup_cons in Hnd as [Hu Hnd].
  assert (Hno : forall v, v ∈ ts -> task_id v <> task_id u).
  { intros v Hv Ev. apply Hu. apply list_elem_of_fmap. by exists v. }
  apply elem_of_cons in Ht as [->|Ht], Ht' as [->|Ht']; [done|..|by apply IH];
    exfalso; [by eapply Hno|by eapply Hno].
Qed.

(** The identifiers of the tasks that [f] selects. *)
Definition picked (f : task K -> bool) ts : list nat := task_id <$> filter (fun t => f t = true) ts.

Lemma picked_app f ts ts' : picked f (ts ++ ts') = picked f ts ++ picked f ts'.
Proof. unfold picked. by rewrite filter_app, fmap_app. Qed.

Lemma picked_one f t : picked f [t] = if f t then [task_id t] else [].
Proof. unfold picked. rewrite filter_cons. by destruct (f t). Qed.

Lemma elem_of_picked f ts i : i ∈ picked f ts <-> exists t, t ∈ ts /\ f t = true /\ task_id t = i.
Proof.
  unfold picked. rewrite list_elem_of_fmap. split.
  - intros (t & -> & Ht). apply list_elem_of_filter in Ht as [? ?]. eauto.
  - intros (t & Ht & Hf & <-). exists t. split; [done|]. by apply list_elem_of_filter.
Qed.

(** Removing tasks that [f] does not select. *)
Lemma picked_filter f (P : task K -> Prop) `{!forall t, Decision (P t)} ts :
  (forall t, t ∈ ts -> f t = true -> P t) -> picked f (filter P ts) = picked f ts.
Proof.
  unfold picked. induction ts as [|t ts IH]; intros HP; [done|].
  rewrite !filter_cons. destruct (decide (P t)) as [Ht|Ht].
  - rewrite filter_cons. destruct (decide (f t = true)); [cbn; f_equal|]; apply IH; set_solver.
  - destruct (decide (f t = true)) as [Hf|]; [exfalso; apply Ht, HP; [by left|done]|]. apply IH. set_solver.
Qed.

(** Clearing the one timer that [f] selects. *)
Lemma picked_clear f ts i : picked f ts = [i] -> picked f (filter (fun t => task_id t <> i) ts) = [].
Proof.
  intros E. assert (Hall : forall t, t ∈ ts -> f t = true -> task_id t = i).
  { intros t Ht Hf. apply list_elem_of_singleton. rewrite <- E. apply elem_of_picked. eauto. }
  clear E. unfold picked. induction ts as [|t ts IH]; [done|]. rewrite filter_cons.
  case_decide as Ht; [|apply IH; set_solver]. rewrite filter_cons.
  destruct (decide (f t = true)) as [Hf|]; [exfalso; apply Ht, Hall; [by left|done]|]. apply IH. set_solver.
Qed.
End tasks.

(** The bookkeeping every plugin's tasks obey: identifiers are distinct and
    below the next one, instances too. *)
Record numbered {D S K} (w : World D S K) : Prop := {
  num_nodup : NoDup (task_id <$> tasks w);
  num_tasks : Forall (fun t => task_id t < next_id w)%nat (tasks w);
  num_heap o : is_Some (heap w !! o) -> (o < next_id w)%nat
}.

Lemma numbered_add {D S K} (w : World D S K) at_ c w' r :
  numbered w -> add_task at_ c w = (w', r) -> numbered w'.
Proof.
  intros [Hn Ht Hh] [= <- <-]. split; cbn; unfold constant.
  - rewrite fmap_app. apply NoDup_app. split; [done|]. split; [|by apply NoDup_singleton].
    intros i Hi Hi'%list_elem_of_singleton. cbn in Hi'. subst. apply list_elem_of_fmap in Hi as (t & E & Hin).
    rewrite Forall_forall in Ht. specialize (Ht t Hin). lia.
  - apply Forall_app. split; [|apply Forall_singleton; cbn; lia]. eapply Forall_impl; [exact Ht|].
    cbn. intros t Hlt. lia.
  - intros o Ho. specialize (Hh o Ho). lia.
Qed.

Lemma numbered_filter {D S K} (w : World D S K) (P : task K -> Prop) `{!forall t, Decision (P t)} :
  numbered w -> numbered (w <| tasks := filter P (tasks w) |>).
Proof.
  intros [Hn Ht Hh]. split; cbn; unfold constant; [by apply tasks_filter_nodup| |done].
  rewrite Forall_forall in *. intros t Hin. apply Ht. by apply list_elem_of_filter in Hin as [_ Hin].
Qed.

Lemma numbered_alter {D S K} (w : World D S K) f o :
  numbered w -> numbered (w <| heap := alter f o (heap w) |>).
Proof.
  intros [Hn Ht Hh]. split; [done|done|]. cbn. unfold constant. intros o' Ho'. apply Hh.
  destruct (decide (o' = o)) as [->|Hne].
  - rewrite lookup_alter_eq in Ho'. by destruct (heap w !! o).
  - by rewrite lookup_alter_ne in Ho'.
Qed.

Lemma numbered_free {D S K} (w : World D S K) : numbered w -> heap w !! next_id w = None.
Proof.
  intros [_ _ Hh]. destruct (heap w !! next_id w) eqn:E; [|done].
  specialize (Hh (next_id w) ltac:(by eexists)). lia.
Qed.

Lemma numbered_alloc {D S K} (w : World D S K) s : numbered w -> numbered (fst (alloc s w)).
Proof.
  intros [Hn Ht Hh]. split; cbn; unfold constant; [done|..].
  - eapply Forall_impl; [exact Ht|]. cbn. intros t Hlt. lia.
  - intros o [s' Hs']. destruct (decide (o = next_id w)) as [->|Hne]; [lia|].
    rewrite lookup_insert_ne in Hs' by done. specialize (Hh o ltac:(by eexists)). lia.
Qed.

Lemma numbered_fresh {D S K} (w : World D S K) : numbered w -> numbered (fst (fresh_cell w)).
Proof.
  intros [Hn Ht Hh]. split; cbn; unfold constant; [done|..].
  - eapply Forall_impl; [exact Ht|]. cbn. intros t Hlt. lia.
  - intros o Ho. specialize (Hh o Ho). lia.
Qed.

Lemma numbered_empty {D S K} (w : World D S K) : tasks w = [] -> heap w = ∅ -> numbered w.
Proof.
  intros Et Eh. split; rewrite ?Et, ?Eh; [apply NoDup_nil_2|by apply Forall_nil|].
  intros o [s Hs]. by rewrite lookup_empty in Hs.
Qed.

Lemma picked_nodup {K} (f : task K -> bool) ts : NoDup (task_id <$> ts) -> NoDup (picked f ts).
Proof. apply tasks_filter_nodup. Qed.

(** The event loop keeps what the callbacks and the removal of due tasks keep. *)
Section loop.
Context {D S K : Type} (I : World D S K -> Prop) `{!Frame I} (plug : K -> M (World D S K) unit).
Context (plug_keeps : forall k, keeps I (plug k)).
Context (due_keeps : forall w t ms, t ∈ tasks w -> task_when t = Timeout ms ->
  I w -> I (w <| tasks := filter (fun u => task_id u <> task_id t) (tasks w) |>)).
Context (once_keeps : forall w el e,
  I w -> I (w <| tasks := filter (fun t => is_once el e t = false) (tasks w) |>)).

Lemma keeps_mark_or_call c : keeps I (run_mark_or_call plug c).
Proof. intros w Hw. destruct c; cbn; [by apply frame_called|done|by apply plug_keeps]. Qed.

Lemma keeps_deliver el e : keeps I (deliver plug el e).
Proof.
  intros w Hw. unfold deliver. apply (keeps_for_each I); [apply keeps_mark_or_call|]. by apply once_keeps.
Qed.

Lemma keeps_callback c : keeps I (run_callback plug c).
Proof.
  intros w Hw. destruct c; [by apply keeps_mark_or_call| |by apply plug_keeps].
  cbn. destruct (decide (cell ∈ called w)); [done|]. apply (keeps_for_each I); [|done].
  intros el. apply keeps_deliver.
Qed.

Lemma loop_step_keeps w w' : loop_step plug w w' -> I w -> I w'.
Proof.
  intros Hs Hw. destruct Hs as [w t ms w' r Hin Hwhen E|w t ms w' r _ _ E|w el e w' r E].
  - eapply keeps_run; [apply keeps_callback|exact E|]. by eapply due_keeps.
  - eapply keeps_run; [apply keeps_callback|exact E|done].
  - eapply keeps_run; [apply keeps_deliver|exact E|done].
Qed.
End loop.

(** ** The callbacks that wait for the end of a transition *)
Lemma filter_filter_iff {A} (P Q R : A -> Prop) `{!forall e, Decision (P e), !forall e, Decision (Q e), !forall e, Decision (R e)} (l : list A) :
  (forall e, e ∈ l -> (P e /\ Q e) <-> R e) -> filter Q (filter P l) = filter R l.
Proof.
  induction l as [|x l IH]; intros Hl; [done|]. rewrite !filter_cons.
  assert (Hx : P x /\ Q x <-> R x) by (apply Hl; by left).
  destruct (decide (P x)), (decide (R x)); rewrite ?filter_cons; repeat case_decide; try tauto;
    rewrite IH by (intros e He; apply Hl; by right); done.
Qed.

Definition waiting {K} (x : elem) (ts : list (task K)) : list (callback K) :=
  map task_run (filter (fun tk => is_once x TRANSITION_END tk = true) ts).

Lemma waiting_app {K} x (ts ts' : list (task K)) : waiting x (ts ++ ts') = waiting x ts ++ waiting x ts'.
Proof. unfold waiting. by rewrite list.filter_app, map_app. Qed.

Lemma waiting_drop {K} x y (ts : list (task K)) :
  waiting y (filter (fun t => is_once x TRANSITION_END t = false) ts) = if decide (y = x) then [] else waiting y ts.
Proof.
  unfold waiting. destruct (decide (y = x)) as [->|Hne].
  - rewrite (filter_filter_iff _ _ (fun _ => False)) by (intros t _; destruct (is_once x TRANSITION_END t); naive_solver).
    induction ts as [|t ts IH]; [done|]. by rewrite filter_cons_False by auto.
  - f_equal. apply filter_filter_iff. intros [i wh k] _. unfold is_once. cbn. destruct wh as [| |el e]; [naive_solver..|].
    destruct (Nat.eqb_spec x el), (Nat.eqb_spec y el), (String.eqb TRANSITION_END e); cbn; naive_solver.
Qed.

(** The tasks of a transition: its callback, the mark of the emulation and the
    timer of the emulation. *)
Definition transition_tasks {K} (x : elem) (k : K) (n c : nat) (ms : Q) : list (task K) :=
  [Task n (Once x TRANSITION_END) (Call k); Task (c + 1) (Once x TRANSITION_END) (EmuMark c);
   Task (c + 2) (Timeout ms) (EmuFire c [x])].

Lemma waiting_transition {K} x y (k : K) n c ms :
  waiting y (transition_tasks x k n c ms) = if decide (y = x) then [Call k; EmuMark c] else [].
Proof.
  unfold waiting, transition_tasks. rewrite !filter_cons. unfold is_once. cbn.
  destruct (decide (y = x)) as [->|Hne]; [by rewrite Nat.eqb_refl|]. by rewrite (proj2 (Nat.eqb_neq y x)).
Qed.

Section transitions.
Context {D S K : Type} `{Dom D}.
Local Abbreviation W := (World D S K).

Lemma runs_transition x (k : K) ms (Q : unit -> W -> Prop) w :
  Q tt (w <| tasks := tasks w ++ transition_tasks x k (next_id w) (next_id w + 1) (default 0%Q ms) |>
          <| next_id := (next_id w + 4)%nat |>) ->
  runs (jq_one [x] TRANSITION_END (Call k) ;; transitionEndEmulator [x] ms) Q w.
Proof.
  intros HQ. wp. destruct w as [dm hp dt tk cl ni pv]. cbn in HQ |- *. unfold constant in *. rewrite <- app_assoc. cbn.
  replace (ni + 1 + 3)%nat with (ni + 4)%nat by lia. exact HQ.
Qed.

(** An event takes the callbacks that wait for it and runs them in order. *)
Lemma runs_deliver plug x (Q : unit -> W -> Prop) w :
  runs (for_each (waiting x (tasks w)) (run_mark_or_call plug)) Q
    (w <| tasks := filter (fun t => is_once x TRANSITION_END t = false) (tasks w) |>) ->
  runs (deliver plug x TRANSITION_END) Q w.
Proof. done. Qed.
End transitions.
