(* ===== verification/BsTimers.v ===== *)
(** The timers of carousels: what waits on the event loop is what the instances
    remember. *)
From Stdlib Require Import ZArith QArith Lia String Ascii.
From stdpp Require Import base list gmap strings.
From coqutil Require Import Datatypes.RecordSetters.
From S2P Require Import Prelude Js JsDom BsUtil BsDomTheory BsHoare BsTasks BsCarousel.

Local Open Scope Z_scope.

(** ** Carousels *)
Section carousel.
Context {D : Type} `{Dom D}.
Local Abbreviation W := (World D Carousel carousel_cb).
Context (fire : event -> elem -> M W bool).
Context (document_hidden visibilityState : D -> bool) (touch_supported pointer_event : bool).
Implicit Types (w : W).

(** The interval timers that move the carousel [o]. *)
Definition moves (o : nat) (t : task carousel_cb) : bool :=
  match task_when t, task_run t with
  | Interval _, Call (CNextWhenVisible o') => (o' =? o)%nat
  | Interval _, Call (CNext o') => (o' =? o)%nat
  | _, _ => false
  end.

Definition interval_timers (o : nat) w : list nat := picked (moves o) (tasks w).

(** The timers [l] of a carousel: the one it remembers, or none; a disposed one
    remembers none, and one may be left. *)
Definition well_timed (this : Carousel) (l : list nat) : Prop :=
  match _element this with
  | Some _ => l = option_list (_interval this)
  | None => _interval this = None /\ _config this = None /\ (length l <= 1)%nat
  end.

(** Each carousel has its timers; the timer of a touch is another. *)
Record timed w : Prop := {
  timed_numbered : numbered w;
  timed_interval o this : heap w !! o = Some this -> well_timed this (interval_timers o w);
  timed_none o : heap w !! o = None -> interval_timers o w = [];
  timed_touch o this j : heap w !! o = Some this -> touchTimeout this = Some j ->
    (j < next_id w)%nat /\ forall o', j ∉ interval_timers o' w
}.

Global Instance timed_frame : Frame timed.
Proof. split; intros w x [Hn Hi Hz Ht]; by split; [destruct Hn| | |]. Qed.

(** What a step that alters the instance [o] must say about the timers. *)
Lemma timed_update w w' o f :
  timed w -> numbered w' -> heap w' = alter f o (heap w) -> (next_id w <= next_id w')%nat ->
  (forall o', o' <> o -> interval_timers o' w' = interval_timers o' w) ->
  (forall this, heap w !! o = Some this -> well_timed (f this) (interval_timers o w')) ->
  (heap w !! o = None -> interval_timers o w' = []) ->
  (forall j, (j < next_id w)%nat -> j ∈ interval_timers o w' -> j ∈ interval_timers o w) ->
  (forall this j, heap w !! o = Some this -> touchTimeout (f this) = Some j ->
     touchTimeout this = Some j \/ ((j < next_id w')%nat /\ forall o', j ∉ interval_timers o' w')) ->
  timed w'.
Proof.
  intros [_ Hi Hz Ht] Hn' Eh Hle Hne Hown Hnone Hsub Htouch.
  assert (Hold : forall o' s j, heap w !! o' = Some s -> touchTimeout s = Some j ->
    (j < next_id w')%nat /\ forall o'', j ∉ interval_timers o'' w').
  { intros o' s j Hs Hj. destruct (Ht o' s j Hs Hj) as [Hlt Hno]. split; [lia|]. intros o'' Hin.
    destruct (decide (o'' = o)) as [->|]; [by eapply Hno, Hsub|]. rewrite Hne in Hin by done. by eapply Hno. }
  split; [done|..]; rewrite Eh; intros o' *; (destruct (decide (o' = o)) as [->|Ho];
    [rewrite lookup_alter_eq|rewrite lookup_alter_ne by done]).
  - intros (s & Hs & ->)%fmap_Some. by apply Hown.
  - intros Hs. rewrite Hne by done. by apply Hi.
  - intros Hs%fmap_None. by apply Hnone.
  - intros Hs. rewrite Hne by done. by apply Hz.
  - intros (s & Hs & ->)%fmap_Some Hj. destruct (Htouch s _ Hs Hj) as [Hj'|]; [by eapply Hold|done].
  - by apply Hold.
Qed.

(** A change that keeps what a carousel owes. *)
Definition same_timer (this this' : Carousel) : Prop :=
  _interval this' = _interval this /\ touchTimeout this' = touchTimeout this /\ _element this' = _element this /\
  (_config this = None -> _config this' = None).

Lemma well_timed_same this this' l : same_timer this this' -> well_timed this l -> well_timed this' l.
Proof. unfold well_timed. intros (Ei & _ & -> & Ec). destruct (_element this); rewrite Ei; naive_solver. Qed.

Lemma timed_put o f w : (forall this, heap w !! o = Some this -> well_timed this (interval_timers o w) -> same_timer this (f this)) ->
  timed w -> timed (w <| heap := alter f o (heap w) |>).
Proof.
  intros Hf Hw. assert (Hs : forall this, heap w !! o = Some this -> same_timer this (f this)).
  { intros this Ho. by apply Hf, (timed_interval w Hw). }
  eapply (timed_update w _ o f); try done.
  - by apply numbered_alter, Hw.
  - intros this Ho. by eapply well_timed_same, (timed_interval w Hw); [apply Hs|].
  - apply (timed_none w Hw).
  - intros this j Ho. destruct (Hs this Ho) as (_ & -> & _). by left.
Qed.

Lemma keeps_put o f : (forall s, same_timer s (f s)) -> keeps timed (put o f : M W unit).
Proof. intros Hf w Hw. apply timed_put; [|done]. intros this _ _. apply Hf. Qed.

(** A new task that moves no carousel. *)
Lemma timed_add at_ c w : (forall o i, moves o (Task i at_ c) = false) ->
  timed w -> timed (fst (add_task at_ c w)).
Proof.
  intros Hm [Hn Hi Hz Ht].
  assert (E : forall o, interval_timers o (fst (add_task at_ c w)) = interval_timers o w).
  { intros o. unfold interval_timers. change (tasks (fst (add_task at_ c w))) with (tasks w ++ [Task (next_id w) at_ c]).
    by rewrite picked_app, picked_one, Hm, app_nil_r. }
  split; [by eapply numbered_add|..].
  - intros o this Ho. rewrite E. by apply Hi.
  - intros o Ho. rewrite E. by apply Hz.
  - intros o this j Ho Hj. destruct (Ht o this j Ho Hj) as [Hlt Hno]. split; [cbn; unfold constant; lia|].
    intros o'. by rewrite E.
Qed.

(** Tasks leave that move no carousel. *)
Lemma timed_filter (P : task carousel_cb -> Prop) `{!forall t, Decision (P t)} w :
  (forall o t, t ∈ tasks w -> moves o t = true -> P t) ->
  timed w -> timed (w <| tasks := filter P (tasks w) |>).
Proof.
  intros HP [Hn Hi Hz Ht].
  assert (E : forall o, interval_timers o (w <| tasks := filter P (tasks w) |>) = interval_timers o w).
  { intros o. unfold interval_timers. change (tasks (w <| tasks := filter P (tasks w) |>)) with (filter P (tasks w)).
    apply picked_filter. intros t. by apply HP. }
  split; [by apply numbered_filter|..].
  - intros o this Ho. rewrite E. by apply Hi.
  - intros o Ho. rewrite E. by apply Hz.
  - intros o this j Ho Hj. destruct (Ht o this j Ho Hj) as [Hlt Hno]. split; [done|]. intros o'. by rewrite E.
Qed.

(** The timer of [o] is another carousel's neither. *)
Lemma moves_one o o' t : moves o t = true -> moves o' t = true -> o = o'.
Proof.
  unfold moves. destruct (task_when t), (task_run t) as [| |[]]; try done.
  all: by intros <-%Nat.eqb_eq E%Nat.eqb_eq.
Qed.

Lemma timed_owner w o o' i : timed w -> i ∈ interval_timers o w -> i ∈ interval_timers o' w -> o = o'.
Proof.
  intros [[Hn _ _] _ _ _] (t & Ht & Hm & E)%elem_of_picked (t' & Ht' & Hm' & E')%elem_of_picked.
  assert (t = t') as -> by (eapply tasks_same_id; [exact Hn|done|done|congruence]). by eapply moves_one.
Qed.

(** Clearing the interval and forgetting it. *)
Definition stop_interval (o : nat) (id : option nat) : M W unit :=
  clear_task id ;; put o (fun this => this <| _interval := None |>).

Lemma timed_stop o this w : timed w -> heap w !! o = Some this ->
  exists w', stop_interval o (_interval this) w = (w', inr tt) /\ timed w' /\
    heap w' !! o = Some (this <| _interval := None |>).
Proof.
  intros Hw Ho. pose proof (timed_interval w Hw o this Ho) as Hone.
  assert (Hn : numbered w) by apply Hw. unfold stop_interval. destruct (_interval this) as [i|] eqn:Ei.
  - unfold well_timed in Hone. destruct (_element this) as [el|] eqn:Eel; [rewrite Ei in Hone|destruct Hone; congruence].
    eexists. split; [done|]. split; [|autorewrite with world; by rewrite lookup_alter_eq, Ho].
    set (w1 := w <| tasks := filter (fun t => task_id t <> i) (tasks w) |>).
    assert (Hown : interval_timers o w1 = []) by (by apply picked_clear).
    eapply (timed_update w _ o (fun this => this <| _interval := None |>)); try done.
    + by apply numbered_alter, numbered_filter.
    + intros o' Hne. apply picked_filter. intros t Ht Hm Hi. apply Hne. eapply timed_owner; [done| |].
      * apply elem_of_picked. exists t. done.
      * rewrite Hone. by apply list_elem_of_singleton.
    + intros this' Ho'. assert (this' = this) as -> by congruence. unfold well_timed.
      change (_element (this <| _interval := None |>)) with (_element this). by rewrite Eel.
    + intros j _ Hin. change (j ∈ interval_timers o w1) in Hin. rewrite Hown in Hin.
      by apply not_elem_of_nil in Hin.
    + by left.
  - exists (w <| heap := alter (fun this => this <| _interval := None |>) o (heap w) |>).
    split; [done|]. split; [|autorewrite with world; by rewrite lookup_alter_eq, Ho].
    apply timed_put; [|done]. intros this' Ho' _. simplify_eq. by repeat split.
Qed.

(** Starting an interval where there is none, and remembering it. *)
Lemma timed_start o this w k ms : timed w -> heap w !! o = Some this -> _interval this = None ->
  is_Some (_element this) ->
  k = CNextWhenVisible o \/ k = CNext o ->
  exists w', (id ← setInterval (Call k) ms; put o (fun this => this <| _interval := Some id |>)) w = (w', inr tt) /\
    timed w' /\ heap w' !! o = Some (this <| _interval := Some (next_id w) |>).
Proof.
  intros Hw Ho Ei [el Hel] Hk. eexists. split; [done|]. split; [|autorewrite with world; by rewrite lookup_alter_eq, Ho].
  set (t := Task (next_id w) (Interval ms) (Call k)).
  assert (Em : forall o', moves o' t = (o =? o')%nat) by (intros o'; by destruct Hk as [-> | ->]).
  assert (Hall : forall o' w', tasks w' = tasks w ++ [t] ->
    interval_timers o' w' = interval_timers o' w ++ (if (o =? o')%nat then [next_id w] else [])).
  { intros o' w' E. unfold interval_timers. by rewrite E, picked_app, picked_one, Em. }
  eapply (timed_update w _ o (fun this => this <| _interval := Some (next_id w) |>)); try done.
  - eapply numbered_alter, (numbered_add w (Interval ms) (Call k)); [apply Hw|done].
  - cbn; unfold constant; lia.
  - intros o' Hne. rewrite (Hall o') by done. apply Nat.eqb_neq in Hne. rewrite Nat.eqb_sym, Hne. apply app_nil_r.
  - intros this' Ho'. simplify_eq. rewrite (Hall o) by done. pose proof (timed_interval w Hw o this Ho) as Hone.
    unfold well_timed in *. change (_element (this <| _interval := Some (next_id w) |>)) with (_element this).
    rewrite Hel in *. by rewrite Hone, Ei, Nat.eqb_refl.
  - congruence.
  - intros j Hj. rewrite (Hall o) by done. rewrite Nat.eqb_refl, elem_of_app, list_elem_of_singleton. lia || naive_solver lia.
  - by left.
Qed.

(** [cycle] once the pause mark is dealt with. *)
Definition restart (o : nat) : M W unit :=
  this ← get o;
  when (bool_decide (is_Some (_interval this))) (stop_interval o (_interval this)) ;;
  cfg ← deref (_config this);
  this ← get o;
  d ← get_dom;
  if truthy (field cfg "interval") && negb (_isPaused this) then
    id ← setInterval (Call (if visibilityState d then CNextWhenVisible o else CNext o))
           (to_ms (field cfg "interval"));
    put o (fun this => this <| _interval := Some id |>)
  else skip.

Lemma restart_spec o this w : timed w -> heap w !! o = Some this ->
  exists w' r, restart o w = (w', r) /\ timed w' /\
    (r = inr tt -> exists cfg i, _config this = Some cfg /\ is_Some (_element this) /\ heap w' !! o = Some (this <| _interval := i |>) /\
       (is_Some i <-> truthy (field cfg "interval") && negb (_isPaused this) = true)).
Proof.
  intros Hw Ho. unfold restart.
  assert (exists w1, when (bool_decide (is_Some (_interval this))) (stop_interval o (_interval this)) w = (w1, inr tt) /\
    timed w1 /\ heap w1 !! o = Some (this <| _interval := None |>)) as (w1 & E1 & Hw1 & Ho1).
  { destruct (timed_stop o this w Hw Ho) as (w1 & E1 & Hw1 & Ho1). case_bool_decide as Hs; [by exists w1|].
    exists w. split; [done|]. split; [done|]. rewrite Ho. f_equal.
    destruct (_interval this) eqn:E; [by destruct Hs|]. destruct this. cbn in *. by subst. }
  unfold get, mbind, M_bind. rewrite Ho, E1. unfold deref.
  destruct (_config this) as [cfg|] eqn:Ecfg; [|by exists w1, (inl TypeError)].
  assert (Hlive : is_Some (_element this)).
  { pose proof (timed_interval w Hw o this Ho) as Hone. unfold well_timed in Hone.
    destruct (_element this); [by eexists|]. destruct Hone as (_ & ? & _). congruence. }
  unfold mret, M_ret, get_dom. rewrite Ho1.
  change (_isPaused (this <| _interval := None |>)) with (_isPaused this).
  destruct (truthy (field cfg "interval") && negb (_isPaused this)) eqn:Ec.
  - destruct (timed_start o (this <| _interval := None |>) w1
      (if visibilityState (dom w1) then CNextWhenVisible o else CNext o) (to_ms (field cfg "interval")) Hw1 Ho1 eq_refl Hlive
      ltac:(destruct (visibilityState (dom w1)); auto)) as (w2 & E2 & Hw2 & Ho2).
    exists w2, (inr tt). split; [exact E2|]. split; [done|].
    intros _. exists cfg, (Some (next_id w1)). split; [done|]. split; [done|]. split; [exact Ho2|]. by split.
  - exists w1, (inr tt). split; [done|]. split; [done|].
    intros _. exists cfg, None. split; [done|]. split; [done|]. split; [done|]. by split; [intros []|rewrite Ec].
Qed.

Lemma keeps_restart o : keeps timed (restart o).
Proof.
  intros w Hw. destruct (heap w !! o) as [this|] eqn:Ho.
  - destruct (restart_spec o this w Hw Ho) as (w' & r & E & Hw' & _). by rewrite E.
  - unfold restart, get, mbind, M_bind. by rewrite Ho.
Qed.
Hint Resolve keeps_restart : keeps.

Lemma keeps_cycle o given : keeps timed (cycle visibilityState o given).
Proof.
  change (keeps timed (when (negb given) (put o (fun this => this <| _isPaused := false |>)) ;; restart o)).
  apply keeps_bind; [|intros; apply keeps_restart]. apply keeps_when. apply keeps_put. by repeat split.
Qed.

Hint Resolve keeps_cycle : keeps.

Lemma keeps_add at_ c : (forall o i, moves o (Task i at_ c) = false) -> keeps timed (add_task at_ c : M W nat).
Proof. intros Hm w Hw. by apply timed_add. Qed.

Lemma keeps_fresh : keeps timed (fresh_cell : M W nat).
Proof.
  intros w [Hn Hi Hz Hto]. split; [by apply numbered_fresh|done|done|].
  intros o this j Ho Hj. destruct (Hto o this j Ho Hj) as [Hlt Hno]. split; [cbn; unfold constant; lia|done].
Qed.

Lemma keeps_filter (P : task carousel_cb -> Prop) `{!forall t, Decision (P t)} :
  (forall o t, moves o t = true -> P t) ->
  keeps timed (fun w => (w <| tasks := filter P (tasks w) |>, inr tt) : W * (exn + unit)).
Proof. intros HP w Hw. apply timed_filter; [|done]. intros o t _. apply HP. Qed.

Lemma keeps_off_once els e : keeps timed (off_once els e : M W unit).
Proof. apply keeps_filter. intros o t. unfold moves. by destruct (task_when t). Qed.

Hint Resolve keeps_fresh keeps_off_once : keeps.
Hint Extern 1 (keeps timed (put _ _)) => apply keeps_put; intros ?; repeat split; done : keeps.
Hint Extern 1 (keeps timed (add_task _ _)) => apply keeps_add; reflexivity : keeps.
Hint Extern 1 (keeps timed (setTimeout _ _)) => apply keeps_add; reflexivity : keeps.

Lemma keeps_emulator els ms : keeps timed (transitionEndEmulator els ms : M W unit).
Proof. unfold transitionEndEmulator, jq_one. keep. Qed.

Lemma keeps_jq_one els e c : keeps timed (jq_one els e c : M W unit).
Proof. unfold jq_one. keep. Qed.
Hint Resolve keeps_emulator keeps_jq_one : keeps.

(** Listeners of the page that keep the timers, through the plugin's methods
    for instance. *)
Context (fire_timed : forall e el, keeps timed (fire e el)).
Hint Resolve fire_timed : keeps.

(** The end of [pause]. *)
Definition halt (o : nat) : M W unit := this ← get o; stop_interval o (_interval this).

Lemma halt_spec o w : timed w ->
  exists w' r, halt o w = (w', r) /\ timed w' /\ (r = inr tt -> exists this, heap w !! o = Some this /\
    heap w' !! o = Some (this <| _interval := None |>)).
Proof.
  intros Hw. unfold halt, get, mbind, M_bind. destruct (heap w !! o) as [this|] eqn:Ho.
  - destruct (timed_stop o this w Hw Ho) as (w' & E & Hw' & Ho'). exists w', (inr tt).
    split; [done|]. split; [done|]. by exists this.
  - by exists w, (inl TypeError).
Qed.

Lemma keeps_halt o : keeps timed (halt o).
Proof. intros w Hw. destruct (halt_spec o w Hw) as (w' & r & E & Hw' & _). by rewrite E. Qed.
Hint Resolve keeps_halt : keeps.

Lemma keeps_pause o given : keeps timed (pause fire visibilityState o given).
Proof.
  change (keeps timed (when (negb given) (put o (fun this => this <| _isPaused := true |>)) ;;
    this ← get o;
    el ← deref (_element this);
    moving ← query_one (Some el) SELECTOR_NEXT_PREV;
    (match moving with
     | Some _ => fire (ev "transitionend") el ;; cycle visibilityState o true
     | None => skip
     end) ;;
    halt o)). keep.
Qed.
Hint Resolve keeps_pause : keeps.

(** After [cycle] it has one exactly when it has an interval and is not paused. *)
Lemma cycle_starts o given w w' : timed w -> cycle visibilityState o given w = (w', inr tt) ->
  exists this cfg, heap w' !! o = Some this /\ _config this = Some cfg /\ is_Some (_element this) /\
    if truthy (field cfg "interval") && negb (_isPaused this)
    then exists i, interval_timers o w' = [i] else interval_timers o w' = [].
Proof.
  intros Hw E. change (cycle visibilityState o given) with
    (when (negb given) (put o (fun this => this <| _isPaused := false |>)) ;; restart o) in E.
  eapply (keeps_bind_inv timed) in E as (w1 & [] & Hw1 & E); [|keep|done].
  destruct (heap w1 !! o) as [this|] eqn:Ho; [|unfold restart, get, mbind, M_bind in E; by rewrite Ho in E].
  destruct (restart_spec o this w1 Hw1 Ho) as (w2 & r & E2 & Hw2 & Hr). rewrite E in E2. injection E2 as <- <-.
  destruct (Hr eq_refl) as (cfg & i & Hcfg & [el Hel] & Ho2 & Hi). exists (this <| _interval := i |>), cfg.
  split; [done|]. split; [done|]. split; [by exists el|]. pose proof (timed_interval w' Hw2 o _ Ho2) as Hone.
  unfold well_timed in Hone. change (_element (this <| _interval := i |>)) with (_element this) in Hone.
  rewrite Hel in Hone. rewrite Hone.
  change (_isPaused (this <| _interval := i |>)) with (_isPaused this).
  change (_interval (this <| _interval := i |>)) with i.
  destruct (truthy (field cfg "interval") && negb (_isPaused this)).
  - destruct (proj2 Hi eq_refl) as [j ->]. by exists j.
  - destruct i as [i|]; [|done]. by discriminate (proj1 Hi (ex_intro _ i eq_refl)).
Qed.

(** After [pause] the carousel has no timer. *)
Lemma halt_stops o this w w' : timed w -> heap w !! o = Some this -> is_Some (_element this) ->
  halt o w = (w', inr tt) -> interval_timers o w' = [].
Proof.
  intros Hw Ho [el Hel] E. destruct (halt_spec o w Hw) as (w2 & r & E2 & Hw2 & Hr). rewrite E in E2. injection E2 as <- <-.
  destruct (Hr eq_refl) as (this' & Ho' & Ho2). simplify_eq. pose proof (timed_interval w' Hw2 o _ Ho2) as Hone.
  unfold well_timed in Hone. change (_element (this <| _interval := None |>)) with (_element this) in Hone.
  by rewrite Hel in Hone.
Qed.

Lemma query_one_same root sel (r : option elem) w w' : query_one root sel w = (w', inr r) -> w = w'.
Proof.
  unfold query_one, query_all, mbind, M_bind. destruct (query (dom w) root sel); [by intros [= -> _]|done].
Qed.

Lemma pause_stops o given w w' : timed w -> pause fire visibilityState o given w = (w', inr tt) ->
  interval_timers o w' = [].
Proof.
  intros Hw E. change (pause fire visibilityState o given) with
    (when (negb given) (put o (fun this => this <| _isPaused := true |>)) ;;
     this ← get o;
     el ← deref (_element this);
     moving ← query_one (Some el) SELECTOR_NEXT_PREV;
     (match moving with
      | Some _ => fire (ev "transitionend") el ;; cycle visibilityState o true
      | None => skip
      end) ;;
     halt o) in E.
  eapply (keeps_bind_inv timed) in E as (w1 & [] & Hw1 & E); [|keep|done].
  apply bind_inv in E as (w2 & this & Eg & E). unfold get in Eg. destruct (heap w1 !! o) as [this'|] eqn:Ho; [|done].
  injection Eg as <- <-. apply bind_inv in E as (w2 & el & Ee & E). unfold deref in Ee.
  destruct (_element this') as [el'|] eqn:Hel; [|done]. injection Ee as <- <-.
  apply bind_inv in E as (w2 & moving & Eq & E). apply query_one_same in Eq as <-.
  apply bind_inv in E as (w2 & [] & Em & E). destruct moving as [x|].
  - apply bind_inv in Em as (w3 & b & Ef & Ec). pose proof (fire_timed (ev "transitionend") el' w1 Hw1) as Hw3.
    rewrite Ef in Hw3. destruct (cycle_starts o true w3 w2 Hw3 Ec) as (this2 & cfg & Ho2 & _ & Hlive & _).
    pose proof (keeps_cycle o true w3 Hw3) as Hw2. rewrite Ec in Hw2. by eapply halt_stops.
  - injection Em as <-. eapply halt_stops; [exact Hw1|exact Ho|by eexists|exact E].
Qed.

(** *** The methods *)
Lemma keeps_getItemIndex o el : keeps timed (_getItemIndex o el : M W Z).
Proof. unfold _getItemIndex. keep. Qed.
Hint Resolve keeps_getItemIndex : keeps.

Lemma keeps_getItemByDirection o d el : keeps timed (_getItemByDirection o d el : M W (option elem)).
Proof. unfold _getItemByDirection. keep. Qed.

Lemma keeps_triggerSlideEvent o t n : keeps timed (_triggerSlideEvent fire o t n).
Proof. unfold _triggerSlideEvent. keep. Qed.

Lemma keeps_setActiveIndicator o e : keeps timed (_setActiveIndicatorElement o e : M W unit).
Proof. unfold _setActiveIndicatorElement. keep. Qed.
Hint Resolve keeps_getItemByDirection keeps_triggerSlideEvent keeps_setActiveIndicator : keeps.

(** The configuration of a carousel that has one is replaced. *)
Lemma keeps_set_config o (f : config -> config) (rest : M W unit) : keeps timed rest ->
  keeps timed (this ← get o; cfg ← deref (_config this); put o (fun this => this <| _config := Some (f cfg) |>) ;; rest).
Proof.
  intros Hrest w Hw. unfold get, deref, mbind, M_bind. destruct (heap w !! o) as [this|] eqn:Ho; [|done].
  destruct (_config this) as [cfg|] eqn:Hcfg; [|done]. apply (Hrest (w <| heap := _ |>)). apply timed_put; [|done].
  intros this' Ho' _. assert (this' = this) as -> by congruence. repeat split. intros E. congruence.
Qed.

Lemma keeps_slide_to o n a d e : keeps timed (slide_to fire o n a d e).
Proof.
  unfold slide_to. destruct (slide_classes d) as [[dc oc] ev]. apply keeps_bind; [keep|]. intros this.
  apply keeps_bind; [keep|]. intros dm. destruct (jq_has_class _ _ _); [|keep].
  do 3 (apply keeps_bind; [keep|]; intros []). apply keeps_bind; [keep|]. intros dm'.
  apply (keeps_set_config o (fun cfg => slide_interval cfg (attr dm' n "data-interval"))). keep.
Qed.
Hint Resolve keeps_slide_to : keeps.

Lemma keeps_slide o d e : keeps timed (_slide fire visibilityState o d e).
Proof. unfold _slide. keep. Qed.
Hint Resolve keeps_slide : keeps.

Lemma keeps_slide_end o n a dc oc e : keeps timed (slide_end o n a dc oc e : M W unit).
Proof. unfold slide_end. keep. Qed.

Lemma keeps_next o : keeps timed (next fire visibilityState o).
Proof. unfold next. keep. Qed.

Lemma keeps_prev o : keeps timed (prev fire visibilityState o).
Proof. unfold prev. keep. Qed.
Hint Resolve keeps_slide_end keeps_next keeps_prev : keeps.

Lemma keeps_nextWhenVisible o : keeps timed (nextWhenVisible fire document_hidden visibilityState o).
Proof. unfold nextWhenVisible. keep. Qed.

Lemma keeps_to o index : keeps timed (to fire visibilityState o index).
Proof. unfold to. keep. Qed.

Lemma keeps_handleSwipe o : keeps timed (_handleSwipe fire visibilityState o).
Proof. unfold _handleSwipe. keep. Qed.
Hint Resolve keeps_nextWhenVisible keeps_to keeps_handleSwipe : keeps.

Lemma keeps_touch_start o e : keeps timed (touch_start o e : M W unit).
Proof. unfold touch_start. keep. Qed.

Lemma keeps_touch_move o e : keeps timed (touch_move o e : M W unit).
Proof. unfold touch_move. keep. Qed.

Lemma keeps_keydown o e : keeps timed (_keydown fire visibilityState o e).
Proof. unfold _keydown. keep. Qed.
Hint Resolve keeps_touch_start keeps_touch_move keeps_keydown : keeps.

(** The timer of a touch: the former one is cleared, the new one remembered. *)
Lemma timed_clear_touch o this w : timed w -> heap w !! o = Some this ->
  timed (fst (clear_task (touchTimeout this) w)).
Proof.
  intros Hw Ho. destruct (touchTimeout this) as [j|] eqn:Ej; [|done]. cbn.
  apply timed_filter; [|done]. intros o' t Hin Hm E. subst j.
  destruct (timed_touch w Hw o this (task_id t) Ho Ej) as [_ Hno]. apply (Hno o').
  apply elem_of_picked. by exists t.
Qed.

Lemma keeps_touch_timer o ms :
  keeps timed (id ← setTimeout (Call (CTouchCycle o)) ms;
               put o (fun this => this <| touchTimeout := Some id |>) : M W unit).
Proof.
  intros w Hw. set (t := Task (next_id w) (Timeout ms) (Call (CTouchCycle o))).
  assert (Hall : forall o' w', tasks w' = tasks w ++ [t] -> interval_timers o' w' = interval_timers o' w).
  { intros o' w' E. unfold interval_timers. by rewrite E, picked_app, picked_one, app_nil_r. }
  eapply (timed_update w _ o (fun this => this <| touchTimeout := Some (next_id w) |>)); try done.
  - eapply numbered_alter, (numbered_add w (Timeout ms) (Call (CTouchCycle o))); [apply Hw|done].
  - change (next_id w <= next_id w + 1)%nat. lia.
  - intros o' _. by apply Hall.
  - intros this Ho. rewrite (Hall o) by done. pose proof (timed_interval w Hw o this Ho). by eapply well_timed_same.
  - intros Ho. rewrite (Hall o) by done. exact (timed_none w Hw o Ho).
  - intros j _. by rewrite (Hall o).
  - intros this j _ [= <-]. right. split; [change (next_id w < next_id w + 1)%nat; lia|]. intros o'. rewrite (Hall o') by done.
    intros (t' & Ht' & _ & E)%elem_of_picked. destruct Hw as [[_ Hlt _] _ _ _]. rewrite Forall_forall in Hlt.
    specialize (Hlt t' Ht'). lia.
Qed.

Definition rearm (o : nat) : M W unit :=
  this ← get o;
  clear_task (touchTimeout this) ;;
  cfg ← deref (_config this);
  id ← setTimeout (Call (CTouchCycle o)) (TOUCHEVENT_COMPAT_WAIT + to_ms (field cfg "interval"))%Q;
  put o (fun this => this <| touchTimeout := Some id |>).

Lemma keeps_rearm o : keeps timed (rearm o).
Proof.
  assert (Htail : keeps timed (cfg ← (this ← get o; deref (_config this));
    id ← setTimeout (Call (CTouchCycle o)) (TOUCHEVENT_COMPAT_WAIT + to_ms (field cfg "interval"))%Q;
    put o (fun this => this <| touchTimeout := Some id |>))).
  { apply keeps_bind; [keep|]. intros cfg. apply keeps_touch_timer. }
  intros w Hw. specialize (Htail (match heap w !! o with Some this => fst (clear_task (touchTimeout this) w) | None => w end)).
  revert Htail. unfold rearm, get, mbind, M_bind. destruct (heap w !! o) as [this|] eqn:Ho; [|done].
  assert (heap (fst (clear_task (touchTimeout this) w)) !! o = Some this) as -> by (by destruct (touchTimeout this)).
  intros Htail. apply Htail. by eapply timed_clear_touch.
Qed.

Hint Resolve keeps_rearm : keeps.

Lemma keeps_touch_end o e : keeps timed (touch_end fire visibilityState o e).
Proof.
  change (keeps timed (this ← get o;
    when (_pointerEvent this && is_pointer_type (de_pointerType e))
      (put o (fun this => this <| touchDeltaX := (de_clientX e - touchStartX this)%Q |>)) ;;
    _handleSwipe fire visibilityState o ;;
    this ← get o;
    cfg ← deref (_config this);
    if val_is_str (field cfg "pause") "hover"
    then pause fire visibilityState o false ;; rearm o else skip)). keep.
Qed.
Hint Resolve keeps_touch_end : keeps.

Lemma keeps_dispatch_event o e : keeps timed (dispatch_event fire visibilityState o e).
Proof. unfold dispatch_event, run_listener. keep. Qed.

(** A new carousel moves by no timer. *)
Lemma keeps_alloc s : _interval s = None -> touchTimeout s = None -> is_Some (_element s) -> keeps timed (alloc s : M W nat).
Proof.
  intros Es Et [el Hel] w [Hn Hi Hz Ht]. pose proof (numbered_free w Hn) as Hfresh.
  split; [by apply numbered_alloc|..]; cbn; unfold constant.
  - intros o this Ho. change (well_timed this (interval_timers o w)).
    destruct (decide (o = next_id w)) as [->|Hne].
    + rewrite lookup_insert_eq in Ho. simplify_eq. unfold well_timed. rewrite Hel, Es. by apply Hz.
    + rewrite lookup_insert_ne in Ho by done. by apply Hi.
  - intros o Ho. change (interval_timers o w = []). apply Hz.
    destruct (decide (o = next_id w)) as [->|Hne]; [by rewrite lookup_insert_eq in Ho|].
    by rewrite lookup_insert_ne in Ho.
  - intros o this j Ho Hj. destruct (decide (o = next_id w)) as [->|Hne].
    + rewrite lookup_insert_eq in Ho. simplify_eq.
    + rewrite lookup_insert_ne in Ho by done. destruct (Ht o this j Ho Hj) as [Hj' Hno]. split; [lia|done].
Qed.
Hint Extern 1 (keeps timed (alloc _)) => apply keeps_alloc; [reflexivity|reflexivity|by eexists] : keeps.

Lemma keeps_new el c : keeps timed (Carousel_new touch_supported pointer_event el c : M W nat).
Proof. unfold Carousel_new, _addEventListeners, _addTouchEventListeners, listen. keep. Qed.
Hint Resolve keeps_dispatch_event keeps_new : keeps.

Lemma keeps_plug k : keeps timed (carousel_plug fire document_hidden visibilityState k).
Proof. destruct k; unfold carousel_plug; keep. Qed.
Hint Resolve keeps_plug : keeps.

(** [dispose] forgets the timer. *)
Lemma keeps_dispose o : keeps timed (carousel_dispose o : M W unit).
Proof.
  unfold carousel_dispose. apply keeps_bind; [keep|]. intros this. apply keeps_bind; [keep|]. intros [].
  apply keeps_bind; [intros w Hw; destruct (_element this); [by apply frame_data|done]|]. intros [] w Hw.
  eapply (timed_update w _ o _); try done.
  - by apply numbered_alter, Hw.
  - intros s Ho. pose proof (timed_interval w Hw o s Ho) as Hone. unfold well_timed in *. split; [done|]. split; [done|].
    change (length (interval_timers o w) <= 1)%nat.
    destruct (_element s); [rewrite Hone; destruct (_interval s); cbn; lia|by destruct Hone as (_ & _ & ?)].
  - apply (timed_none w Hw).
  - intros s j _ Hj. by left.
Qed.
Hint Resolve keeps_dispose : keeps.

(** *** The jQuery interface and the handlers of the page *)
Lemma keeps_method action o : keeps timed (carousel_method fire document_hidden visibilityState action o).
Proof. unfold carousel_method. keep. Qed.
Hint Resolve keeps_method : keeps.

Notation interface := (carousel_jQueryInterface fire document_hidden visibilityState touch_supported pointer_event).

Lemma keeps_interface els arg : keeps timed (interface els arg).
Proof. unfold carousel_jQueryInterface. keep. Qed.
Hint Resolve keeps_interface : keeps.

Lemma keeps_click el :
  keeps timed (_dataApiClickHandler fire document_hidden visibilityState touch_supported pointer_event el).
Proof. unfold _dataApiClickHandler, selector_of. keep. Qed.

Lemma keeps_load : keeps timed (carousel_load fire document_hidden visibilityState touch_supported pointer_event).
Proof. unfold carousel_load. keep. Qed.
Hint Resolve keeps_click keeps_load : keeps.

(** *** The event loop *)
Notation plug := (carousel_plug fire document_hidden visibilityState).

Lemma loop_step_timed w w' : loop_step plug w w' -> timed w -> timed w'.
Proof.
  apply (loop_step_keeps timed); [apply keeps_plug|..].
  - intros w1 t ms Hin Hwhen Hw. apply timed_filter; [|done].
    intros o u Hu Hm Hid. assert (u = t) as ->.
    { destruct Hw as [[Hn _ _] _ _ _]. by eapply tasks_same_id. }
    unfold moves in Hm. by rewrite Hwhen in Hm.
  - intros w1 el e Hw. apply timed_filter; [|done]. intros o t _. unfold moves, is_once. by destruct (task_when t).
Qed.

(** The calls of a page on its carousels, and the events of the browser. *)
Inductive carousel_call :=
  | CcNew (el : elem) (c : config)
  | CcNext (o : nat)
  | CcNextWhenVisible (o : nat)
  | CcPrev (o : nat)
  | CcPause (o : nat) (given : bool)
  | CcCycle (o : nat) (given : bool)
  | CcTo (o : nat) (index : jsval)
  | CcDispose (o : nat)
  | CcEvent (o : nat) (e : dom_event)
  | CcInterface (els : list elem) (arg : plugin_arg)
  | CcClick (el : elem)
  | CcLoad.

Definition run_call (c : carousel_call) : M W unit :=
  match c with
  | CcNew el c => Carousel_new touch_supported pointer_event el c ;; skip
  | CcNext o => next fire visibilityState o
  | CcNextWhenVisible o => nextWhenVisible fire document_hidden visibilityState o
  | CcPrev o => prev fire visibilityState o
  | CcPause o given => pause fire visibilityState o given
  | CcCycle o given => cycle visibilityState o given
  | CcTo o index => to fire visibilityState o index
  | CcDispose o => carousel_dispose o
  | CcEvent o e => dispatch_event fire visibilityState o e
  | CcInterface els arg => interface els arg
  | CcClick el => _dataApiClickHandler fire document_hidden visibilityState touch_supported pointer_event el
  | CcLoad => carousel_load fire document_hidden visibilityState touch_supported pointer_event
  end.

Inductive carousel_step : W -> W -> Prop :=
  | cs_call c w w' r : run_call c w = (w', r) -> carousel_step w w'
  | cs_loop w w' : loop_step plug w w' -> carousel_step w w'.

Lemma carousel_step_timed w w' : carousel_step w w' -> timed w -> timed w'.
Proof.
  intros [c w1 w1' r E|w1 w1' Hs] Hw; [|by eapply loop_step_timed].
  eapply keeps_run; [|exact E|done]. destruct c; unfold run_call; keep.
Qed.

Lemma carousel_run_timed w0 w : tasks w0 = [] -> heap w0 = ∅ -> rtc carousel_step w0 w -> timed w.
Proof.
  intros Et Eh Hs. assert (Hw : timed w0).
  { split; [by apply numbered_empty|..]; unfold interval_timers; rewrite ?Et, ?Eh.
    - intros o this Ho. by rewrite lookup_empty in Ho.
    - done.
    - intros o this j Ho. by rewrite lookup_empty in Ho. }
  clear Et Eh. induction Hs as [|w0 w1 w Hs _ IH]; [done|]. by eapply IH, carousel_step_timed.
Qed.

(** C18. The timers of the carousels of a page, after any calls of their methods,
    [dispose] included, directly or through the jQuery interface and the page's
    handlers, browser events, timeouts and transitions, in any order, errors
    included, and whatever the page's listeners do with the same methods: a
    carousel that is not disposed and remembers an interval has exactly that one
    timer, one that remembers none has none; a disposed carousel remembers none,
    and at most one timer is left of it.  A call of [pause] that returns leaves
    its carousel without a timer; a call of [cycle] leaves it with one exactly
    when it has an interval and is not paused. *)
Theorem carousel_timers w0 w :
  tasks w0 = [] -> heap w0 = ∅ -> rtc carousel_step w0 w ->
  (forall o, match heap w !! o with
     | Some this => match _element this with
         | Some _ => interval_timers o w = option_list (_interval this)
         | None => _interval this = None /\ (length (interval_timers o w) <= 1)%nat
         end
     | None => interval_timers o w = []
     end) /\
  (forall o given w', pause fire visibilityState o given w = (w', inr tt) -> interval_timers o w' = []) /\
  (forall o given w', cycle visibilityState o given w = (w', inr tt) ->
    exists this cfg, heap w' !! o = Some this /\ _config this = Some cfg /\ is_Some (_element this) /\
      if truthy (field cfg "interval") && negb (_isPaused this)
      then exists i, interval_timers o w' = [i] else interval_timers o w' = []).
Proof.
  intros Et Eh Hs. pose proof (carousel_run_timed w0 w Et Eh Hs) as Hw. split; [|split].
  - intros o. destruct (heap w !! o) as [this|] eqn:Ho; [|by apply (timed_none w Hw)].
    pose proof (timed_interval w Hw o this Ho) as Hone. unfold well_timed in Hone.
    destruct (_element this); [done|]. by destruct Hone as (? & _ & ?).
  - intros o given w' E. by eapply pause_stops.
  - intros o given w' E. by eapply cycle_starts.
Qed.

(** What [dispose] leaves. *)
Lemma dispose_spec o this w : heap w !! o = Some this ->
  exists w' this', carousel_dispose o w = (w', inr tt) /\ heap w' !! o = Some this' /\
    _element this' = None /\ _isSliding this' = false /\ _interval this' = None /\
    (forall o', interval_timers o' w' = interval_timers o' w) /\
    (exists P (dec : forall t, Decision (P t)), tasks w' = @filter _ _ _ P dec (tasks w)).
Proof.
  intros Ho.
  assert (Hk : forall els e o', interval_timers o' (fst (off_once els e w)) = interval_timers o' w).
  { intros els e o'. apply picked_filter. intros t _. unfold moves. by destruct (task_when t). }
  set (w1 := fst (off_once (option_list (_element this)) "slid.bs.carousel" w)).
  set (w2 := match _element this with Some e => w1 <| data := delete e (data w1) |> | None => w1 end).
  assert (Eh : heap w2 = heap w) by (by unfold w2; destruct (_element this)).
  assert (Et : tasks w2 = tasks w1) by (by unfold w2; destruct (_element this)).
  unfold carousel_dispose, get, mbind, M_bind. rewrite Ho.
  match goal with |- context [put o ?f] => exists (w2 <| heap := alter f o (heap w2) |>), (f this) end.
  split; [reflexivity|]. rewrite heap_heap, lookup_alter_eq, Eh, Ho. do 4 (split; [reflexivity|]). split.
  - intros o'. unfold interval_timers. rewrite tasks_heap, Et. apply Hk.
  - eexists _, _. rewrite tasks_heap, Et. reflexivity.
Qed.

(** [dispose] forgets the interval of a carousel that cycles without
    clearing it: the instance no longer remembers the timer, which stays; each
    time it comes due it changes nothing, and where the browser has no
    [visibilityState] it throws a type error. *)
Theorem carousel_dispose_leaks w0 w o this el i :
  tasks w0 = [] -> heap w0 = ∅ -> rtc carousel_step w0 w ->
  heap w !! o = Some this -> _element this = Some el -> _interval this = Some i ->
  exists w', carousel_dispose o w = (w', inr tt) /\
    (heap w' !! o ≫= _interval) = None /\ interval_timers o w' = [i] /\
    forall t, t ∈ tasks w' -> task_id t = i ->
      task_run t = Call (CNextWhenVisible o) /\ run_callback plug (task_run t) w' = (w', inr tt) \/
      task_run t = Call (CNext o) /\ run_callback plug (task_run t) w' = (w', inl TypeError).
Proof.
  intros Et Eh Hs Ho Hel Hi. pose proof (carousel_run_timed w0 w Et Eh Hs) as Hw.
  assert (Hone : interval_timers o w = [i]).
  { pose proof (timed_interval w Hw o this Ho) as Hone. unfold well_timed in Hone. rewrite Hel in Hone. by rewrite Hone, Hi. }
  destruct (dispose_spec o this w Ho) as (w' & this' & E & Ho' & He & Hsl & Hint & Ht & P & dec & Ef).
  exists w'. split; [done|]. split; [rewrite Ho'; exact Hint|]. split; [by rewrite Ht|].
  intros t Hin Hid. assert (Hm : moves o t = true).
  { rewrite <- Ht in Hone. assert (i ∈ interval_timers o w') as (t' & Ht' & Hm & E')%elem_of_picked
      by (rewrite Hone; by left).
    assert (Hn : NoDup (task_id <$> tasks w')) by (rewrite Ef; apply tasks_filter_nodup, Hw).
    assert (t = t') as -> by (eapply tasks_same_id; [exact Hn|done|done|congruence]). done. }
  unfold moves in Hm. destruct (task_when t), (task_run t) as [| |[]]; try done; apply Nat.eqb_eq in Hm as ->;
    cbn [run_callback run_mark_or_call carousel_plug].
  - left. split; [done|]. unfold nextWhenVisible, get, get_dom, mbind, M_bind.
    rewrite Ho', He. by destruct (document_hidden (dom w')).
  - right. split; [done|]. unfold next, _slide, get, mbind, M_bind.
    rewrite Ho', Hsl. unfold get. by rewrite Ho', He.
Qed.
End carousel.

(** ** A page to try them on *)
Module TimersDemo.
Definition page : toy := Toy {[ 10%nat := ["carousel"%string] ]} ∅ ∅ ∅ ∅ [] ∅ 100.
Definition call := run_call (D := toy) silent (fun _ => false) (fun _ => true) false false.
Definition step := carousel_step (D := toy) silent (fun _ => false) (fun _ => true) false false.
Definition w0 : World toy Carousel carousel_cb := MkWorld page ∅ ∅ [] ∅ 0%nat false.
Definition created := fst (call (CcNew 10 ∅) w0).
Definition cycling := fst (call (CcCycle 0 false) created).

Lemma cycling_reached : rtc step w0 cycling.
Proof.
  apply (rtc_l _ _ created); [exact (cs_call _ _ _ _ _ (CcNew 10 ∅) w0 created _ (surjective_pairing _))|].
  apply rtc_once. exact (cs_call _ _ _ _ _ (CcCycle 0 false) created cycling _ (surjective_pairing _)).
Qed.

Lemma silent_timed e el : keeps timed (silent e el : M (World toy Carousel carousel_cb) bool).
Proof. by intros w. Qed.
End TimersDemo.

Lemma carousel_timers_witness :
  interval_timers 0 TimersDemo.cycling = [1%nat] /\
  interval_timers 0 (fst (pause (D := toy) silent (fun _ => true) 0 false TimersDemo.cycling)) = [].
Proof.
  destruct (carousel_timers (D := toy) silent (fun _ => false) (fun _ => true) false false
    TimersDemo.silent_timed TimersDemo.w0 TimersDemo.cycling eq_refl eq_refl TimersDemo.cycling_reached)
    as (H1 & H2 & _).
  split; [exact (H1 0%nat)|].
  apply (H2 0%nat false). vm_compute. reflexivity.
Defined.

Lemma carousel_dispose_leaks_witness : exists w',
  carousel_dispose 0 TimersDemo.cycling = (w', inr tt) /\ interval_timers 0 w' = [1%nat].
Proof.
  destruct (carousel_dispose_leaks (D := toy) silent (fun _ => false) (fun _ => true) false false
    TimersDemo.silent_timed TimersDemo.w0 TimersDemo.cycling 0
    (default (Build_Carousel [] None None false false None 0 0 None None None false false [])
      (heap TimersDemo.cycling !! 0%nat)) 10 1 eq_refl eq_refl TimersDemo.cycling_reached)
    as (w' & E & _ & Et & _).
  - vm_compute. reflexivity.
  - vm_compute. reflexivity.
  - vm_compute. reflexivity.
  - exists w'. split; [exact E|exact Et].
Defined.
