(* ===== verification/BsRegistry.v ===== *)
(** Loading the bundle, and [noConflict] (lines 6-15, 63-68, 107-110, 226-229 of
    bootstrap.bundle.js and the constants and jQuery section of each plugin).
    Each copy of the bundle keeps in a closure what it found at [$.fn[NAME]],
    and each jQuery interface is a function object with two properties of its
    own. *)
From Stdlib Require Import ZArith QArith String Ascii.
From stdpp Require Import base list gmap strings.
From S2P Require Import Prelude Js JsDom BsUtil.

Local Open Scope string_scope.

(** ** The plugins and their constants *)
Inductive Plugin :=
  PAlert | PButton | PCarousel | PCollapse | PDropdown | PModal | PTooltip | PPopover | PScrollSpy | PTab
| PToast.

#[export] Instance Plugin_eq_dec : EqDecision Plugin.
Proof. solve_decision. Defined.

(** In the order of the file. *)
Definition plugins : list Plugin :=
  [PAlert; PButton; PCarousel; PCollapse; PDropdown; PModal; PTooltip; PPopover; PScrollSpy; PTab; PToast].

Record Constants := {
  c_NAME : string;
  c_VERSION : string;
  c_DATA_KEY : string;
  c_EVENT_KEY : string;
  c_DATA_API_KEY : string;
}.

(** [EVENT_KEY] is computed; the last key is the same wherever it is defined. *)
Definition header (NAME VERSION DATA_KEY : string) : Constants :=
  {| c_NAME := NAME; c_VERSION := VERSION; c_DATA_KEY := DATA_KEY; c_EVENT_KEY := "." ++ DATA_KEY;
     c_DATA_API_KEY := ".data-api" |}.

(** The event names: ["close" + EVENT_KEY], ["click" + EVENT_KEY + DATA_API_KEY];
    a variable that lists two events is there twice. *)
Definition own_events (c : Constants) (l : list (string * string)) : list (string * string) :=
  (fun '(v, e) => (v, e ++ c_EVENT_KEY c)) <$> l.
Definition data_api_events (c : Constants) (l : list (string * string)) : list (string * string) :=
  (fun '(v, e) => (v, e ++ c_EVENT_KEY c ++ c_DATA_API_KEY c)) <$> l.

Definition alert_constants : Constants := header "alert" "4.5.2" "bs.alert".
Definition alert_events : list (string * string) :=
  own_events alert_constants
    [("EVENT_CLOSE", "close"); ("EVENT_CLOSED", "closed")] ++
  data_api_events alert_constants
    [("EVENT_CLICK_DATA_API", "click")].

Definition button_constants : Constants := header "button" "4.5.2" "bs.button".
Definition button_events : list (string * string) :=
  own_events button_constants
    [] ++
  data_api_events button_constants
    [("EVENT_CLICK_DATA_API$1", "click"); ("EVENT_FOCUS_BLUR_DATA_API", "focus");
     ("EVENT_FOCUS_BLUR_DATA_API", "blur"); ("EVENT_LOAD_DATA_API", "load")].

Definition carousel_constants : Constants := header "carousel" "4.5.2" "bs.carousel".
Definition carousel_events : list (string * string) :=
  own_events carousel_constants
    [("EVENT_SLIDE", "slide"); ("EVENT_SLID", "slid"); ("EVENT_KEYDOWN", "keydown");
     ("EVENT_MOUSEENTER", "mouseenter"); ("EVENT_MOUSELEAVE", "mouseleave");
     ("EVENT_TOUCHSTART", "touchstart"); ("EVENT_TOUCHMOVE", "touchmove");
     ("EVENT_TOUCHEND", "touchend"); ("EVENT_POINTERDOWN", "pointerdown");
     ("EVENT_POINTERUP", "pointerup"); ("EVENT_DRAG_START", "dragstart")] ++
  data_api_events carousel_constants
    [("EVENT_LOAD_DATA_API$1", "load"); ("EVENT_CLICK_DATA_API$2", "click")].

Definition collapse_constants : Constants := header "collapse" "4.5.2" "bs.collapse".
Definition collapse_events : list (string * string) :=
  own_events collapse_constants
    [("EVENT_SHOW", "show"); ("EVENT_SHOWN", "shown"); ("EVENT_HIDE", "hide");
     ("EVENT_HIDDEN", "hidden")] ++
  data_api_events collapse_constants
    [("EVENT_CLICK_DATA_API$3", "click")].

Definition dropdown_constants : Constants := header "dropdown" "4.5.2" "bs.dropdown".
Definition dropdown_events : list (string * string) :=
  own_events dropdown_constants
    [("EVENT_HIDE$1", "hide"); ("EVENT_HIDDEN$1", "hidden"); ("EVENT_SHOW$1", "show");
     ("EVENT_SHOWN$1", "shown"); ("EVENT_CLICK", "click")] ++
  data_api_events dropdown_constants
    [("EVENT_CLICK_DATA_API$4", "click"); ("EVENT_KEYDOWN_DATA_API", "keydown");
     ("EVENT_KEYUP_DATA_API", "keyup")].

Definition modal_constants : Constants := header "modal" "4.5.2" "bs.modal".
Definition modal_events : list (string * string) :=
  own_events modal_constants
    [("EVENT_HIDE$2", "hide"); ("EVENT_HIDE_PREVENTED", "hidePrevented");
     ("EVENT_HIDDEN$2", "hidden"); ("EVENT_SHOW$2", "show"); ("EVENT_SHOWN$2", "shown");
     ("EVENT_FOCUSIN", "focusin"); ("EVENT_RESIZE", "resize");
     ("EVENT_CLICK_DISMISS", "click.dismiss"); ("EVENT_KEYDOWN_DISMISS", "keydown.dismiss");
     ("EVENT_MOUSEUP_DISMISS", "mouseup.dismiss");
     ("EVENT_MOUSEDOWN_DISMISS", "mousedown.dismiss")] ++
  data_api_events modal_constants
    [("EVENT_CLICK_DATA_API$5", "click")].

Definition tooltip_constants : Constants := header "tooltip" "4.5.2" "bs.tooltip".
Definition tooltip_events : list (string * string) :=
  own_events tooltip_constants
    [("HIDE", "hide"); ("HIDDEN", "hidden"); ("SHOW", "show"); ("SHOWN", "shown");
     ("INSERTED", "inserted"); ("CLICK", "click"); ("FOCUSIN", "focusin");
     ("FOCUSOUT", "focusout"); ("MOUSEENTER", "mouseenter"); ("MOUSELEAVE", "mouseleave")].

Definition popover_constants : Constants := header "popover" "4.5.2" "bs.popover".
Definition popover_events : list (string * string) :=
  own_events popover_constants
    [("HIDE", "hide"); ("HIDDEN", "hidden"); ("SHOW", "show"); ("SHOWN", "shown");
     ("INSERTED", "inserted"); ("CLICK", "click"); ("FOCUSIN", "focusin");
     ("FOCUSOUT", "focusout"); ("MOUSEENTER", "mouseenter"); ("MOUSELEAVE", "mouseleave")].

Definition scrollspy_constants : Constants := header "scrollspy" "4.5.2" "bs.scrollspy".
Definition scrollspy_events : list (string * string) :=
  own_events scrollspy_constants
    [("EVENT_ACTIVATE", "activate"); ("EVENT_SCROLL", "scroll")] ++
  data_api_events scrollspy_constants
    [("EVENT_LOAD_DATA_API$2", "load")].

Definition tab_constants : Constants := header "tab" "4.5.2" "bs.tab".
Definition tab_events : list (string * string) :=
  own_events tab_constants
    [("EVENT_HIDE$3", "hide"); ("EVENT_HIDDEN$3", "hidden"); ("EVENT_SHOW$3", "show");
     ("EVENT_SHOWN$3", "shown")] ++
  data_api_events tab_constants
    [("EVENT_CLICK_DATA_API$6", "click")].

Definition toast_constants : Constants := header "toast" "4.5.2" "bs.toast".
Definition toast_events : list (string * string) :=
  own_events toast_constants
    [("EVENT_CLICK_DISMISS$1", "click.dismiss"); ("EVENT_HIDE$4", "hide");
     ("EVENT_HIDDEN$4", "hidden"); ("EVENT_SHOW$4", "show"); ("EVENT_SHOWN$4", "shown")].

Definition constants (p : Plugin) : Constants :=
  match p with
  | PAlert => alert_constants | PButton => button_constants | PCarousel => carousel_constants
  | PCollapse => collapse_constants | PDropdown => dropdown_constants | PModal => modal_constants
  | PTooltip => tooltip_constants | PPopover => popover_constants | PScrollSpy => scrollspy_constants
  | PTab => tab_constants | PToast => toast_constants
  end.

Definition events (p : Plugin) : list string :=
  snd <$> match p with
          | PAlert => alert_events | PButton => button_events | PCarousel => carousel_events
          | PCollapse => collapse_events | PDropdown => dropdown_events | PModal => modal_events
          | PTooltip => tooltip_events | PPopover => popover_events | PScrollSpy => scrollspy_events
          | PTab => tab_events | PToast => toast_events
          end.

Definition NAME (p : Plugin) : string := c_NAME (constants p).

(** ** The jQuery object of the page *)

(** What [$.fn] holds: a function of the page, the jQuery interface of a
    plugin of a copy of the bundle, or a copy's [emulateTransitionEnd]. *)
Inductive FnVal := Page (n : nat) | Interface (copy : nat) (p : Plugin) | Emulator (copy : nat).

#[export] Instance FnVal_eq_dec : EqDecision FnVal.
Proof. solve_decision. Defined.

(** [jquery] is [$.fn.jquery].  The closures of the copies keep
    [JQUERY_NO_CONFLICT]; the interfaces are objects that carry [Constructor]
    and [noConflict].  An absent entry reads as [undefined]. *)
Record JQuery := {
  jquery : string;
  fn : gmap string FnVal;
  special : gmap string nat;                       (* [$.event.special]: whose *)
  JQUERY_NO_CONFLICT : gmap (nat * string) FnVal;  (* by copy and plugin *)
  has_noConflict : gset (nat * string);            (* interfaces with the two properties *)
}.

Definition set_fn (fn' : gmap string FnVal) (j : JQuery) : JQuery :=
  {| jquery := jquery j; fn := fn'; special := special j; JQUERY_NO_CONFLICT := JQUERY_NO_CONFLICT j;
     has_noConflict := has_noConflict j |}.

(** [setTransitionEndSupport]; the event is [Util.TRANSITION_END]. *)
Definition setTransitionEndSupport (copy : nat) (j : JQuery) : JQuery :=
  {| jquery := jquery j; fn := <["emulateTransitionEnd" := Emulator copy]> (fn j);
     special := <["bsTransitionEnd" := copy]> (special j); JQUERY_NO_CONFLICT := JQUERY_NO_CONFLICT j;
     has_noConflict := has_noConflict j |}.

(** The constants and the jQuery section of a plugin: remember what is there,
    then install the interface with its [Constructor] and [noConflict]. *)
Definition register (copy : nat) (j : JQuery) (p : Plugin) : JQuery :=
  {| jquery := jquery j;
     fn := <[NAME p := Interface copy p]> (fn j);
     special := special j;
     JQUERY_NO_CONFLICT := partial_alter (fun _ => fn j !! NAME p) (copy, NAME p) (JQUERY_NO_CONFLICT j);
     has_noConflict := {[ (copy, NAME p) ]} ∪ has_noConflict j |}.

(** The bundle runs: without jQuery, or with a version it refuses, it throws
    before it changes anything. *)
Definition load (copy : nat) (j : option JQuery) : exn + JQuery :=
  match jQueryDetection (jquery <$> j), j with
  | inl e, _ => inl e
  | inr _, None => inl TypeError
  | inr _, Some j => inr (foldl (register copy) (setTransitionEndSupport copy j) plugins)
  end.

(** [noConflict] of a plugin of a copy: puts back what was there, and returns
    the interface. *)
Definition noConflict (copy : nat) (p : Plugin) (j : JQuery) : JQuery * FnVal :=
  (set_fn (partial_alter (fun _ => JQUERY_NO_CONFLICT j !! (copy, NAME p)) (NAME p) (fn j)) j,
   Interface copy p).

(** [$.fn[name].noConflict()], called by the page. *)
Definition call_noConflict (name : string) (j : JQuery) : exn + (JQuery * FnVal) :=
  match fn j !! name with
  | Some (Interface copy p) =>
      if decide ((copy, NAME p) ∈ has_noConflict j) then inr (noConflict copy p j) else inl TypeError
  | _ => inl TypeError
  end.

(** The page calls it for the names in turn. *)
Fixpoint call_noConflicts (names : list string) (j : JQuery) : exn + JQuery :=
  match names with
  | [] => inr j
  | name :: names =>
      match call_noConflict name j with
      | inl e => inl e
      | inr (j, _) => call_noConflicts names j
      end
  end.

(** Several copies of the bundle, one after the other. *)
Fixpoint load_all (copies : list nat) (j : JQuery) : exn + JQuery :=
  match copies with
  | [] => inr j
  | c :: copies => match load c (Some j) with inl e => inl e | inr j => load_all copies j end
  end.

(** ** How the bundle is delivered *)
Inductive ModuleSystem := CommonJS | AMD | Global.

(** [typeof exports === 'object' && typeof module !== 'undefined'], then
    [typeof define === 'function' && define.amd]. *)
Definition umd (exports_object module_defined define_function define_amd : bool) : ModuleSystem :=
  if exports_object && module_defined then CommonJS
  else if define_function && define_amd then AMD else Global.

(** [exports]: the name a class goes by. *)
Definition exports : list (string * option Plugin) := [
  ("Alert", Some PAlert); ("Button", Some PButton); ("Carousel", Some PCarousel);
  ("Collapse", Some PCollapse); ("Dropdown", Some PDropdown); ("Modal", Some PModal);
  ("Popover", Some PPopover); ("Scrollspy", Some PScrollSpy); ("Tab", Some PTab);
  ("Toast", Some PToast); ("Tooltip", Some PTooltip); ("Util", None)].

(** ** Browser detection *)
Record Browser := {
  has_window : bool;
  has_document : bool;
  has_navigator : bool;
  userAgent : string;
  MSInputMethodContext : bool;
  documentMode : bool;
}.

Definition isBrowser (b : Browser) : bool := has_window b && has_document b && has_navigator b.

Fixpoint timeout_loop (b : Browser) (longerTimeoutBrowsers : list string) : Z :=
  match longerTimeoutBrowsers with
  | [] => 0
  | s :: l => if isBrowser b && str_contains s (userAgent b) then 1 else timeout_loop b l
  end.

Definition timeoutDuration (b : Browser) : Z := timeout_loop b ["Edge"; "Trident"; "Firefox"].

Definition isIE11 (b : Browser) : bool := isBrowser b && (MSInputMethodContext b && documentMode b).
Definition isIE10 (b : Browser) : bool := isBrowser b && str_contains "MSIE 10" (userAgent b).

(** ** Loading *)
Lemma NAME_inj p q : NAME p = NAME q -> p = q.
Proof. destruct p, q; intros E; first [reflexivity|discriminate E]. Qed.

Lemma plugins_all p : p ∈ plugins.
Proof. apply (bool_decide_unpack _). by destruct p; vm_compute. Qed.

Lemma plugins_nodup : NoDup plugins.
Proof. apply (bool_decide_unpack _). vm_compute. exact I. Qed.

Lemma NAME_not_emulate p : NAME p <> "emulateTransitionEnd".
Proof. by destruct p. Qed.

(** What the registration of some plugins leaves. *)
Lemma register_all c ps j :
  NoDup ps ->
  let j' := foldl (register c) j ps in
  (forall p, fn j' !! NAME p = if decide (p ∈ ps) then Some (Interface c p) else fn j !! NAME p) /\
  (forall k, (forall p, p ∈ ps -> NAME p <> k) -> fn j' !! k = fn j !! k) /\
  (forall c' p, JQUERY_NO_CONFLICT j' !! (c', NAME p) =
     if decide (c' = c /\ p ∈ ps) then fn j !! NAME p else JQUERY_NO_CONFLICT j !! (c', NAME p)) /\
  (forall c' p, (c', NAME p) ∈ has_noConflict j' <-> (c' = c /\ p ∈ ps) \/ (c', NAME p) ∈ has_noConflict j) /\
  jquery j' = jquery j.
Proof.
  revert j. induction ps as [|q ps IH]; intros j Hn.
  { simpl. repeat split; intros; rewrite ?decide_False; try done;
      try (intros Hin; by apply not_elem_of_nil in Hin); try (intros [_ Hin]; by apply not_elem_of_nil in Hin);
      set_solver. }
  apply NoDup_cons in Hn as [Hq Hn]. cbn [foldl]. cbv zeta.
  destruct (IH (register c j q) Hn) as (Hfn & Hk & Hs & Hh & Hj). cbv zeta in *.
  set (j' := foldl (register c) (register c j q) ps) in *. clearbody j'.
  split; [|split; [|split; [|split]]].
  - intros p. rewrite Hfn. simpl. destruct (decide (p = q)) as [->|Hpq].
    + rewrite decide_False, decide_True by (done || left). apply lookup_insert_eq.
    + rewrite lookup_insert_ne by (intros E; apply Hpq; symmetry; by apply NAME_inj).
      apply decide_ext. rewrite elem_of_cons. naive_solver.
  - intros k Hne. rewrite Hk by (intros p Hp; apply Hne; by right). simpl.
    apply lookup_insert_ne. apply Hne. left.
  - intros c' p. rewrite Hs. simpl. destruct (decide (p = q)) as [->|Hpq].
    + rewrite decide_False by (by intros [_ ?]). destruct (decide (c' = c)) as [->|Hc].
      * rewrite lookup_partial_alter_eq, decide_True; [done|]. split; [done|left].
      * rewrite lookup_partial_alter_ne, decide_False by naive_solver. done.
    + rewrite lookup_insert_ne, lookup_partial_alter_ne
        by (intros E; apply Hpq; symmetry; apply NAME_inj; congruence).
      apply decide_ext. rewrite elem_of_cons. naive_solver.
  - intros c' p. rewrite Hh. simpl. rewrite elem_of_union, elem_of_singleton, elem_of_cons. split.
    + intros [[-> Hp]|[[= -> E%NAME_inj]|Hp]]; subst; auto.
    + intros [[-> [->|Hp]]|Hp]; auto.
  - by rewrite Hj.
Qed.

(** ** The copies stacked on a plugin's name *)

(** [top] is an interface of the first copy, whose closure holds an interface
    of the second, and so on down to the value the page had. *)
Fixpoint stacked (j : JQuery) (p : Plugin) (v0 : option FnVal) (cs : list nat) (top : option FnVal) : Prop :=
  match cs with
  | [] => top = v0
  | c :: cs => top = Some (Interface c p) /\ (c, NAME p) ∈ has_noConflict j /\
               stacked j p v0 cs (JQUERY_NO_CONFLICT j !! (c, NAME p))
  end.

(** The chain depends on the closures of its copies only. *)
Lemma stacked_same j j' p v0 cs top :
  (forall c, c ∈ cs -> JQUERY_NO_CONFLICT j' !! (c, NAME p) = JQUERY_NO_CONFLICT j !! (c, NAME p) /\
     ((c, NAME p) ∈ has_noConflict j -> (c, NAME p) ∈ has_noConflict j')) ->
  stacked j p v0 cs top -> stacked j' p v0 cs top.
Proof.
  revert top. induction cs as [|c cs IH]; intros top Hc; simpl; [done|].
  intros (-> & Hh & Hs). destruct (Hc c ltac:(left)) as [E Hh']. split; [done|]. split; [by apply Hh'|].
  rewrite E. apply IH; [|done]. intros c' Hc'. apply Hc. by right.
Qed.

(** A page whose plugins' names carry the copies [cs p]. *)
Definition layered (j0 j : JQuery) (cs : Plugin -> list nat) : Prop :=
  (forall p, stacked j p (fn j0 !! NAME p) (cs p) (fn j !! NAME p)) /\
  (forall k, (forall p, NAME p <> k) -> k <> "emulateTransitionEnd" -> fn j !! k = fn j0 !! k).

Lemma load_layered c j0 j j' cs :
  load c (Some j) = inr j' -> (forall p, c ∉ cs p) -> layered j0 j cs ->
  layered j0 j' (fun p => c :: cs p) /\ fn j' !! "emulateTransitionEnd" = Some (Emulator c) /\
  jquery j' = jquery j.
Proof.
  unfold load. change (jquery <$> Some j) with (Some (jquery j)).
  destruct (jQueryDetection (Some (jquery j))) as [|[]]; [discriminate|]. intros <-%(inj inr) Hc [Hp Hk].
  destruct (register_all c plugins (setTransitionEndSupport c j) plugins_nodup) as (Hfn & Hk' & Hs & Hh & Hj).
  cbv zeta in *. set (j' := foldl _ _ _) in *. clearbody j'.
  split; [split|split; [|done]].
  - intros p. simpl. pose proof (plugins_all p). rewrite Hfn, decide_True by done. split; [done|].
    split; [apply Hh; auto|]. rewrite Hs, decide_True by done. simpl.
    rewrite lookup_insert_ne by (intros E; by apply (NAME_not_emulate p)).
    eapply stacked_same; [|apply Hp]. intros c' Hc'. split.
    + rewrite Hs, decide_False; [done|]. intros [-> _]. by apply (Hc p).
    + intros Hin. apply Hh. by right.
  - intros k Hne Hem. rewrite Hk' by (intros p _; apply Hne). simpl.
    rewrite lookup_insert_ne by done. by apply Hk.
  - rewrite Hk' by (intros p _; apply NAME_not_emulate). apply lookup_insert_eq.
Qed.

Lemma load_all_layered copies j0 j j' cs :
  load_all copies j = inr j' -> NoDup copies -> (forall c p, c ∈ copies -> c ∉ cs p) -> layered j0 j cs ->
  layered j0 j' (fun p => (reverse copies ++ cs p)%list) /\
  fn j' !! "emulateTransitionEnd" =
    match last copies with Some c => Some (Emulator c) | None => fn j !! "emulateTransitionEnd" end.
Proof.
  revert j cs. induction copies as [|c copies IH]; intros j cs E Hn Hcs Hl; cbn [load_all] in E.
  { simplify_eq. by rewrite reverse_nil. }
  destruct (load c (Some j)) as [|j1] eqn:E1; [done|]. apply NoDup_cons in Hn as [Hc Hn].
  destruct (load_layered c j0 j j1 cs E1 (fun p => Hcs c p ltac:(left)) Hl) as (Hl1 & Hem & _).
  destruct (IH j1 (fun p => c :: cs p) E Hn) as [Hl' Hem']; [|done|].
  { intros c' p Hin Hin'. apply elem_of_cons in Hin' as [->|Hin']; [done|]. apply (Hcs c' p); [by right|done]. }
  split.
  - split; [|apply Hl']. intros p. rewrite reverse_cons, <- (assoc_L app). apply Hl'.
  - rewrite Hem', Hem. rewrite last_cons. by destruct (last copies).
Qed.

(** A call of [noConflict] takes the top copy off one name. *)
Lemma call_layered j0 j p c cs cs0 :
  layered j0 j cs -> cs p = c :: cs0 ->
  exists j', call_noConflict (NAME p) j = inr (j', Interface c p) /\
    layered j0 j' (fun q => if decide (q = p) then cs0 else cs q) /\
    fn j' !! "emulateTransitionEnd" = fn j !! "emulateTransitionEnd".
Proof.
  intros [Hp Hk] Ec. pose proof (Hp p) as Hs. rewrite Ec in Hs. destruct Hs as (Et & Hh & Hs).
  unfold call_noConflict. rewrite Et, decide_True by done. eexists. split; [done|].
  split; [split|].
  - intros q. case_decide as Hq.
    + subst q. simpl. rewrite lookup_partial_alter_eq. by eapply stacked_same; [|exact Hs].
    + simpl. rewrite lookup_partial_alter_ne by (intros E; apply Hq; symmetry; by apply NAME_inj).
      by eapply stacked_same; [|apply Hp].
  - intros k Hne Hem. simpl. rewrite lookup_partial_alter_ne by apply Hne. by apply Hk.
  - simpl. apply lookup_partial_alter_ne, NAME_not_emulate.
Qed.

Lemma calls_layered names j0 j cs :
  layered j0 j cs ->
  Forall (fun k => exists p, k = NAME p) names ->
  (forall p, length (filter (fun k => k = NAME p) names) = length (cs p)) ->
  exists j', call_noConflicts names j = inr j' /\ layered j0 j' (fun _ => []) /\
    fn j' !! "emulateTransitionEnd" = fn j !! "emulateTransitionEnd".
Proof.
  revert j cs. induction names as [|k names IH]; intros j cs Hl Hn Hc.
  { exists j. split; [done|]. split; [|done]. destruct Hl as [Hp Hk]. split; [|done]. intros p.
    specialize (Hp p). specialize (Hc p). by destruct (cs p). }
  apply Forall_cons in Hn as [[p ->] Hn]. pose proof (Hc p) as Hcp.
  rewrite filter_cons_True in Hcp by done. destruct (cs p) as [|c cs0] eqn:Ec; [done|].
  destruct (call_layered j0 j p c cs cs0 Hl Ec) as (j1 & E & Hl1 & Hem). cbn [call_noConflicts]. rewrite E.
  destruct (IH j1 _ Hl1 Hn) as (j' & E' & Hl' & Hem'); [|exists j'; split; [done|]; split; [done|congruence]].
  intros q. case_decide as Hq.
  - subst q. simpl in Hcp. lia.
  - rewrite <- Hc, filter_cons_False; [done|]. intros Eq. apply Hq. symmetry. by apply NAME_inj.
Qed.

(** C32. [noConflict] gives the page back.  When any copies of the bundle were
    loaded over a page, calling [$.fn[name].noConflict()] as often for each
    plugin as there are copies, in any order, never throws and restores every
    entry of [$.fn] the page had, functions of other libraries under the same
    names included; only [emulateTransitionEnd] stays the last copy's. *)
Theorem noConflict_restores copies names j j' :
  NoDup copies -> load_all copies j = inr j' ->
  Forall (fun k => exists p, k = NAME p) names ->
  (forall p, length (filter (fun k => k = NAME p) names) = length copies) ->
  exists j'', call_noConflicts names j' = inr j'' /\
    fn j'' = match last copies with
             | Some c => <["emulateTransitionEnd" := Emulator c]> (fn j)
             | None => fn j
             end.
Proof.
  intros Hn E Hnames Hcount.
  assert (Hl : layered j j (fun _ => [])) by (split; [by intros p|done]).
  destruct (load_all_layered copies j j j' (fun _ => []) E Hn) as [Hl' Hem]; [|done|].
  { intros c p _. apply not_elem_of_nil. }
  destruct (calls_layered names j j' _ Hl' Hnames) as (j'' & E' & [Hp Hk] & Hem').
  { intros p. rewrite Hcount, length_app, length_reverse; simpl. lia. }
  exists j''. split; [done|]. apply map_eq. intros k.
  assert (Hkey : k <> "emulateTransitionEnd" -> fn j'' !! k = fn j !! k).
  { intros Hne. destruct (decide (k ∈ NAME <$> plugins)) as [(p & -> & _)%list_elem_of_fmap|Hnp]; [apply Hp|].
    apply Hk; [|done]. intros p <-. apply Hnp, list_elem_of_fmap_2, plugins_all. }
  rewrite Hem in Hem'. destruct (decide (k = "emulateTransitionEnd")) as [->|Hne].
  - rewrite Hem'. destruct (last copies); [by rewrite lookup_insert_eq|done].
  - rewrite Hkey by done. destruct (last copies); [|done]. by rewrite lookup_insert_ne.
Qed.

(** A refused jQuery leaves the page as it was: [load] throws instead. *)
Lemma load_refused copy j : (exists e, jQueryDetection (jquery <$> j) = inl e) -> exists e, load copy j = inl e.
Proof. intros [e E]. unfold load. rewrite E. by exists e. Qed.

(** ** Event names *)

(** The namespaces of an event name; [off] with a key that starts with a dot
    removes the listeners that have all of the key's. *)
Definition namespaces (event : string) : list string := tail (split "." event).
Definition off_matches (key event : string) : bool :=
  forallb (fun n => bool_decide (n ∈ namespaces event)) (namespaces key).

(** Disposing of a plugin, [$(element).off(EVENT_KEY)], removes every
    listener registered under one of its event names and none of another
    plugin's. *)
Theorem off_only_own p q e :
  e ∈ events q -> (off_matches (c_EVENT_KEY (constants p)) e = true <-> p = q).
Proof.
  intros He.
  assert (Hall : forallb (fun q => forallb (fun p => forallb (fun e =>
    Bool.eqb (off_matches (c_EVENT_KEY (constants p)) e) (bool_decide (p = q))) (events q)) plugins) plugins = true)
    by (vm_compute; reflexivity).
  rewrite forallb_forall in Hall. specialize (Hall q (proj1 (list_elem_of_In _ _) (plugins_all q))). cbv beta in Hall.
  rewrite forallb_forall in Hall. specialize (Hall p (proj1 (list_elem_of_In _ _) (plugins_all p))). cbv beta in Hall.
  rewrite forallb_forall in Hall. specialize (Hall e (proj1 (list_elem_of_In _ _) He)).
  apply eqb_prop in Hall. rewrite Hall. apply bool_decide_eq_true.
Qed.

(** ** Witnesses: two copies over a page that has its own [$.fn.alert] *)
Module RegistryDemo.
Definition page : JQuery := {|
  jquery := "3.5.1"; fn := {[ "alert" := Page 7; "other" := Page 8 ]}; special := ∅;
  JQUERY_NO_CONFLICT := ∅; has_noConflict := ∅ |}.
Definition names : list string := ((NAME <$> plugins) ++ reverse (NAME <$> plugins))%list.
End RegistryDemo.

Lemma noConflict_restores_witness :
  exists j' j'', load_all [1%nat; 2%nat] RegistryDemo.page = inr j' /\
    call_noConflicts RegistryDemo.names j' = inr j'' /\
    fn j'' = <["emulateTransitionEnd" := Emulator 2]> (fn RegistryDemo.page).
Proof.
  destruct (load_all [1%nat; 2%nat] RegistryDemo.page) as [|j'] eqn:E; [exfalso; vm_compute in E; discriminate E|].
  destruct (noConflict_restores [1%nat; 2%nat] RegistryDemo.names RegistryDemo.page j') as (j'' & E' & Ef).
  - apply (bool_decide_unpack _). vm_compute. exact I.
  - exact E.
  - apply Forall_forall. intros k Hk. unfold RegistryDemo.names in Hk.
    rewrite elem_of_app, elem_of_reverse in Hk.
    assert (Hin : k ∈ NAME <$> plugins) by tauto. apply list_elem_of_fmap in Hin as (p & -> & _). by exists p.
  - intros p. destruct p; vm_compute; reflexivity.
  - exists j', j''. split; [done|]. split; [exact E'|exact Ef].
Defined.

Lemma off_only_own_witness :
  "click.bs.alert.data-api" ∈ events PAlert /\
  (off_matches (c_EVENT_KEY (constants PTab)) "click.bs.alert.data-api" = true <-> PTab = PAlert).
Proof.
  assert (He : "click.bs.alert.data-api" ∈ events PAlert) by (apply (bool_decide_unpack _); vm_compute; exact I).
  split; [exact He|exact (off_only_own PTab PAlert _ He)].
Defined.
