(* ===== verification/BsClasses.v ===== *)
(** How the bundle builds its classes (lines 17-54 and 1881-1928 of
    bootstrap.bundle.js): property descriptors, [_defineProperties],
    [_createClass], [_inheritsLoose], and the static getters the eleven plugins
    define with them. *)
From Stdlib Require Import ZArith QArith String Ascii.
From stdpp Require Import base list gmap strings.
From S2P Require Import Prelude Js JsDom BsUtil BsCarousel BsCollapse BsDropdown BsModal BsSanitizer BsTabToast BsScrollSpy BsTooltip BsRegistry.

Local Open Scope Z_scope.

(** ** Objects as property descriptors *)

(** What a static getter of a plugin returns. *)
Inductive static_value :=
  | SStr (s : string)
  | SConfig (c : config)
  | STypes (l : list (string * string))
  | SEvents (l : list (string * string)).

(** A method of a prototype is told by its name. *)
Inductive member := MMethod (name : string) | MValue (v : jsval).

(** A descriptor: a getter or a value. *)
Record Descriptor := {
  d_key : string;
  d_get : option static_value;
  d_value : option member;
  d_enumerable : bool;
  d_configurable : bool;
  d_writable : bool;
}.

Definition getter (key : string) (v : static_value) : Descriptor :=
  {| d_key := key; d_get := Some v; d_value := None; d_enumerable := false; d_configurable := false;
     d_writable := false |}.
Definition method (key : string) : Descriptor :=
  {| d_key := key; d_get := None; d_value := Some (MMethod key); d_enumerable := false;
     d_configurable := false; d_writable := false |}.

Abbreviation Object_ := (gmap string Descriptor).

(** [Object.defineProperty]: a property that is there and not configurable
    cannot be redefined. *)
Definition Object_defineProperty (d : Descriptor) (target : Object_) : exn + Object_ :=
  match target !! d_key d with
  | Some old => if d_configurable old then inr (<[d_key d := d]> target) else inl TypeError
  | None => inr (<[d_key d := d]> target)
  end.

(** One turn of the loop of [_defineProperties]. *)
Definition complete_descriptor (d : Descriptor) : Descriptor :=
  {| d_key := d_key d; d_get := d_get d; d_value := d_value d; d_enumerable := d_enumerable d || false;
     d_configurable := true;
     d_writable := match d_value d with Some _ => true | None => d_writable d end |}.

Fixpoint _defineProperties (target : Object_) (props : list Descriptor) : exn + Object_ :=
  match props with
  | [] => inr target
  | d :: props =>
      match Object_defineProperty (complete_descriptor d) target with
      | inl e => inl e
      | inr target => _defineProperties target props
      end
  end.

(** A constructor: the prototype, its own static properties, [__proto__]. *)
Record Constructor := {
  prototype : Object_;
  statics : Object_;
  super : option Object_;        (* the statics of the super class *)
}.

Definition function_ : Constructor := {| prototype := ∅; statics := ∅; super := None |}.

Definition _createClass (c : Constructor) (protoProps staticProps : option (list Descriptor))
  : exn + Constructor :=
  match (match protoProps with Some l => _defineProperties (prototype c) l | None => inr (prototype c) end) with
  | inl e => inl e
  | inr p =>
      match (match staticProps with Some l => _defineProperties (statics c) l | None => inr (statics c) end) with
      | inl e => inl e
      | inr s => inr {| prototype := p; statics := s; super := super c |}
      end
  end.

(** The statics of the super class are read through [__proto__]. *)
Definition _inheritsLoose (subClass superClass : Constructor) : Constructor :=
  {| prototype := prototype subClass; statics := statics subClass; super := Some (statics superClass) |}.

(** [C.key]. *)
Definition get_static (c : Constructor) (key : string) : option static_value :=
  match statics c !! key with
  | Some d => d_get d
  | None => s ← super c; d ← s !! key; d_get d
  end.

(** [C.key = v] in strict mode: an accessor without a setter throws. *)
Definition set_static (c : Constructor) (key : string) (v : member) : exn + Constructor :=
  match statics c !! key with
  | Some d => if d_writable d then inr {| prototype := prototype c;
                  statics := <[key := {| d_key := key; d_get := None; d_value := Some v;
                     d_enumerable := d_enumerable d; d_configurable := d_configurable d;
                     d_writable := true |}]> (statics c); super := super c |}
              else inl TypeError
  | None =>
      match (s ← super c; s !! key) with
      | Some d => match d_get d with Some _ => inl TypeError | None => inr c end
      | None => inr {| prototype := prototype c;
                  statics := <[key := {| d_key := key; d_get := None; d_value := Some v;
                     d_enumerable := true; d_configurable := true; d_writable := true |}]> (statics c);
                  super := super c |}
      end
  end.

(** [for (key in obj)]: the enumerable properties. *)
Definition enumerable_keys (o : Object_) : list string :=
  fst <$> filter (fun e => d_enumerable (snd e) = true) (map_to_list o).

(** ** The static getters *)
Definition alert_statics : list Descriptor := [getter "VERSION" (SStr (c_VERSION alert_constants))].
Definition button_statics : list Descriptor := [getter "VERSION" (SStr (c_VERSION button_constants))].
Definition carousel_statics : list Descriptor :=
  [getter "VERSION" (SStr (c_VERSION carousel_constants)); getter "Default" (SConfig carousel_Default)].
Definition collapse_statics : list Descriptor :=
  [getter "VERSION" (SStr (c_VERSION collapse_constants)); getter "Default" (SConfig collapse_Default)].
Definition dropdown_statics : list Descriptor :=
  [getter "VERSION" (SStr (c_VERSION dropdown_constants)); getter "Default" (SConfig dropdown_Default);
   getter "DefaultType" (STypes dropdown_DefaultType)].
Definition modal_statics : list Descriptor :=
  [getter "VERSION" (SStr (c_VERSION modal_constants)); getter "Default" (SConfig modal_Default)].

Definition tooltip_statics : list Descriptor := [
  getter "VERSION" (SStr (c_VERSION tooltip_constants)); getter "Default" (SConfig (tip_Default ClsTooltip));
  getter "NAME" (SStr (c_NAME tooltip_constants)); getter "DATA_KEY" (SStr (c_DATA_KEY tooltip_constants));
  getter "Event" (SEvents tooltip_events); getter "EVENT_KEY" (SStr (c_EVENT_KEY tooltip_constants));
  getter "DefaultType" (STypes (tip_DefaultType ClsTooltip))].
Definition popover_statics : list Descriptor := [
  getter "VERSION" (SStr (c_VERSION popover_constants)); getter "Default" (SConfig (tip_Default ClsPopover));
  getter "NAME" (SStr (c_NAME popover_constants)); getter "DATA_KEY" (SStr (c_DATA_KEY popover_constants));
  getter "Event" (SEvents popover_events); getter "EVENT_KEY" (SStr (c_EVENT_KEY popover_constants));
  getter "DefaultType" (STypes (tip_DefaultType ClsPopover))].

Definition scrollspy_statics : list Descriptor :=
  [getter "VERSION" (SStr (c_VERSION scrollspy_constants)); getter "Default" (SConfig scrollspy_Default)].
Definition tab_statics : list Descriptor := [getter "VERSION" (SStr (c_VERSION tab_constants))].
Definition toast_statics : list Descriptor :=
  [getter "VERSION" (SStr (c_VERSION toast_constants)); getter "DefaultType" (STypes toast_DefaultType);
   getter "Default" (SConfig toast_Default)].

Definition TooltipClass : exn + Constructor := _createClass function_ None (Some tooltip_statics).

Definition PopoverClass : exn + Constructor :=
  match TooltipClass with
  | inl e => inl e
  | inr t => _createClass (_inheritsLoose function_ t) None (Some popover_statics)
  end.

(** ** Popper's helpers *)

(** [instance instanceof Constructor]. *)
Definition classCallCheck (instance_of : bool) : exn + unit := if instance_of then inr tt else inl TypeError.

(** Popper's [defineProperty]: a plain property in both branches, unless the
    one already there is its own and cannot be redefined. *)
Definition plain (key : string) (v : member) : Descriptor :=
  {| d_key := key; d_get := None; d_value := Some v; d_enumerable := true; d_configurable := true;
     d_writable := true |}.
Definition defineProperty (obj : Object_) (key : string) (v : member) : exn + Object_ :=
  if bool_decide (is_Some (obj !! key)) then Object_defineProperty (plain key v) obj
  else inr (<[key := plain key v]> obj).

(** The prototype of [Popper]. *)
Definition popper_methods : list Descriptor :=
  method <$> ["update"; "destroy"; "enableEventListeners"; "disableEventListeners"]%string.

(** ** What the getters give *)
Lemma defineProperties_fresh target props :
  NoDup (d_key <$> props) -> (forall k, k ∈ d_key <$> props -> target !! k = None) ->
  exists o, _defineProperties target props = inr o /\
    forall k, o !! k = match list_find (fun d => d_key d = k) props with
                       | Some (_, d) => Some (complete_descriptor d)
                       | None => target !! k
                       end.
Proof.
  revert target. induction props as [|d props IH]; intros target Hn Hf; simpl; [by exists target|].
  apply NoDup_cons in Hn as [Hd Hn]. unfold Object_defineProperty; simpl. rewrite Hf by left.
  destruct (IH (<[d_key d := complete_descriptor d]> target)) as (o & -> & Ho); [done| |].
  { intros k Hk. rewrite lookup_insert_ne by (intros E; apply Hd; by rewrite E). apply Hf. by right. }
  exists o. split; [done|]. intros k. rewrite Ho. case_decide as Hk.
  - subst k. destruct (list_find _ props) as [[i d']|] eqn:E; [|by rewrite lookup_insert_eq].
    apply list_find_Some in E as (Hi & Hk & _). exfalso. apply Hd. rewrite <- Hk.
    apply list_elem_of_fmap. exists d'. split; [done|]. by eapply list_elem_of_lookup_2.
  - destruct (list_find _ props) as [[i d']|] eqn:E; simpl; [done|]. by rewrite lookup_insert_ne.
Qed.

(** Properties whose names differ, on an object that has none of them. *)
Lemma createClass_statics c props :
  statics c = ∅ -> NoDup (d_key <$> props) ->
  exists c', _createClass c None (Some props) = inr c' /\ super c' = super c /\
    forall k, statics c' !! k = match list_find (fun d => d_key d = k) props with
                                | Some (_, d) => Some (complete_descriptor d)
                                | None => None
                                end.
Proof.
  intros Hs Hn. unfold _createClass. rewrite Hs.
  destruct (defineProperties_fresh ∅ props Hn) as (o & -> & Ho).
  { intros k _. apply lookup_empty. }
  eexists. split; [done|]. split; [done|]. intros k. rewrite Ho. simpl.
  destruct (list_find _ props) as [[i d]|]; [done|apply lookup_empty].
Qed.

(** The getters of a class: each gives its constant, none can be assigned
    and none is enumerated. *)
Lemma createClass_getters c props c' key v :
  statics c = ∅ -> NoDup (d_key <$> props) -> _createClass c None (Some props) = inr c' ->
  getter key v ∈ props ->
  get_static c' key = Some v /\ (forall w, set_static c' key w = inl TypeError).
Proof.
  intros Hs Hn E Hin. destruct (createClass_statics c props Hs Hn) as (c2 & E2 & _ & Hk).
  rewrite E in E2. simplify_eq. unfold get_static, set_static. rewrite (Hk key).
  apply list_elem_of_lookup in Hin as (i & Hi).
  destruct (list_find (fun d => d_key d = key) props) as [[j d]|] eqn:Ef.
  - apply list_find_Some in Ef as (Hj & Hd & _).
    assert (i = j) as ->.
    { eapply (NoDup_lookup (d_key <$> props)); [done| |]; rewrite list_lookup_fmap.
      - by rewrite Hi.
      - rewrite Hj. simpl. by rewrite Hd. }
    rewrite Hi in Hj. injection Hj as <-. done.
  - apply list_find_None in Ef. rewrite Forall_forall in Ef. exfalso.
    apply (Ef (getter key v)); [by eapply list_elem_of_lookup_2|done].
Qed.

Lemma tip_statics_nodup : NoDup (d_key <$> tooltip_statics) /\ NoDup (d_key <$> popover_statics).
Proof. split; apply (bool_decide_unpack _); vm_compute; exact I. Qed.

Lemma tip_Default_placement k :
  tip_Default k !! "placement"%string = Some (VStr (match k with ClsTooltip => "top" | ClsPopover => "right" end)).
Proof. destruct k; vm_compute; reflexivity. Qed.

#[local] Instance SConfig_inj : Inj (=) (=) SConfig.
Proof. by intros a b [=]. Qed.
#[local] Instance SEvents_inj : Inj (=) (=) SEvents.
Proof. by intros a b [=]. Qed.
#[local] Instance SStr_inj : Inj (=) (=) SStr.
Proof. by intros a b [=]. Qed.
#[local] Instance STypes_inj : Inj (=) (=) STypes.
Proof. by intros a b [=]. Qed.

(** The getters of [Tooltip] and [Popover] come in pairs, with other values
    except for the version. *)
Lemma tip_statics_paired d :
  d ∈ tooltip_statics -> exists v w, d = getter (d_key d) v /\ getter (d_key d) w ∈ popover_statics /\
    (d_key d <> "VERSION"%string -> v <> w).
Proof.
  unfold tooltip_statics, popover_statics. rewrite !elem_of_cons. intros Hd.
  destruct Hd as [->|[->|[->|[->|[->|[->|[->|Hd]]]]]]]; cbn [d_key getter];
    [eexists _, _; split; [done|]; split; [rewrite !elem_of_cons; naive_solver|]..
    |by apply not_elem_of_nil in Hd].
  - done.
  - intros _ E%SConfig_inj. apply (f_equal (lookup "placement"%string)) in E.
    rewrite !tip_Default_placement in E. discriminate E.
  - done.
  - done.
  - intros _ E%SEvents_inj. apply (f_equal head) in E. discriminate E.
  - intros _ E%SStr_inj. discriminate E.
  - intros _ E%STypes_inj. apply (f_equal length) in E. discriminate E.
Qed.

(** [Popover] overrides every getter it would inherit, so a popover never
    reads the constants of [Tooltip] through its constructor. *)
Lemma popover_overrides key v :
  match TooltipClass, PopoverClass with
  | inr t, inr p =>
      get_static t key = Some v ->
      exists w, get_static p key = Some w /\ statics p !! key <> None /\ (key <> "VERSION"%string -> v <> w)
  | _, _ => False
  end.
Proof.
  destruct tip_statics_nodup as [Hnt Hnp]. unfold PopoverClass, TooltipClass.
  destruct (createClass_statics function_ tooltip_statics eq_refl Hnt) as (t & -> & Hst & Ht).
  destruct (createClass_statics (_inheritsLoose function_ t) popover_statics eq_refl Hnp) as (p & Ep & _ & Hp).
  rewrite Ep. intros E. unfold get_static in E. rewrite Ht, Hst in E.
  destruct (list_find _ tooltip_statics) as [[i d]|] eqn:Ef; [|done].
  apply list_find_Some in Ef as (Hi & Hd & _). apply list_elem_of_lookup_2 in Hi.
  destruct (tip_statics_paired d Hi) as (v' & w & Ed & Hw & Hne). rewrite Hd in *.
  exists w. destruct (createClass_getters (_inheritsLoose function_ t) _ p key w eq_refl Hnp Ep Hw) as [Hg _].
  split; [done|]. rewrite Ed in E. simpl in E. simplify_eq. split; [|by apply Hne].
  rewrite Hp. intros Hno. unfold get_static in Hg. rewrite Hp in Hg.
  destruct (list_find _ popover_statics) as [[j e]|] eqn:Ee; [done|].
  apply list_find_None in Ee. rewrite Forall_forall in Ee. by apply (Ee (getter key w)).
Qed.
