(* ===== verification/BsDropdownTheorems.v ===== *)
(** Drop-downs: at most one menu of a page is open, through the interface to
    Popper. *)
From Stdlib Require Import ZArith QArith Lia String Ascii.
From stdpp Require Import base list gmap strings.
From coqutil Require Import Datatypes.RecordSetters.
From S2P Require Import Prelude Js JsDom BsUtil BsDomTheory BsHoare PopperModifiers PopperClass BsDropdown.

Local Open Scope Z_scope.

Section dropdown.
Context {D : Type} `{DomLaws D} {P : Type} `{PopperLaws P}.
Local Abbreviation W := (World D (Dropdown P) Empty_set).
Context (user_popper_config : list (string * jsval) -> popper_options -> popper_options).
Implicit Types (w : W) (d : D).

(** The drop-downs of a page: its toggles, and for each its parent and its menu,
    however the page is styled. *)
Record menus (d0 : D) (toggles : list elem) (par menu : elem -> elem) : Prop := {
  menus_query d : restyle d0 d -> query d None SELECTOR_TOGGLE = Some toggles;
  menus_parent t w : t ∈ toggles -> restyle d0 (dom w) -> _getParentFromElement t w = (w, inr (Some (par t)));
  menus_find t d : t ∈ toggles -> restyle d0 d ->
    exists l, query d (Some (par t)) SELECTOR_MENU = Some l /\ head l = Some (menu t);
  menus_prop t d : t ∈ toggles -> restyle d0 d -> prop d t "disabled" = prop d0 t "disabled";
  menus_par t t' : t ∈ toggles -> t' ∈ toggles -> par t = par t' -> t = t';
  menus_menu t t' : t ∈ toggles -> t' ∈ toggles -> menu t = menu t' -> t = t';
  menus_apart t t' : t ∈ toggles -> t' ∈ toggles -> par t <> menu t'
}.

Context (d0 : D) (toggles : list elem) (par menu : elem -> elem).
Context (Hpage : menus d0 toggles par menu).

Definition is_open w (t : elem) : Prop := has_class (dom w) (par t) "show" = true.

(** What one drop-down owes: the same class on menu and parent and, once a
    click has made its instance, no live popper while it is closed. *)
Definition coherent_at w (t : elem) : Prop :=
  has_class (dom w) (menu t) "show" = has_class (dom w) (par t) "show" /\
  forall o, data w !! t = Some o -> exists s, heap w !! o = Some s /\
    dd_element s = Some t /\ dd_menu s = Some (menu t) /\
    (forall q, dd_popper s = Some q -> papi_alive q = true -> is_open w t).

Record coherent w : Prop := {
  co_page : restyle d0 (dom w);
  co_ids o s : heap w !! o = Some s -> (o < next_id w)%nat;
  co_at t : t ∈ toggles -> coherent_at w t
}.

(** The other classes stay, and so do the instances and their settings. *)
Definition same_but_show d d' : Prop :=
  forall e c, c <> "show"%string -> c <> "position-static"%string -> has_class d' e c = has_class d e c.

Definition settings w (o : nat) := (fun s => (dd_config s, dd_inNavbar s)) <$> heap w !! o.

Record quiet w w' : Prop := {
  q_classes : same_but_show (dom w) (dom w');
  q_data : data w' = data w;
  q_settings o : settings w' o = settings w o
}.

Lemma quiet_refl w : quiet w w.
Proof. done. Qed.

Lemma quiet_trans w w' w'' : quiet w w' -> quiet w' w'' -> quiet w w''.
Proof.
  intros [Ha Hb Hc] [Ha' Hb' Hc']. split; [|congruence|intros o; by rewrite Hc', Hc].
  intros e c Hs Hp. by rewrite Ha', Ha.
Qed.

(** Instances are not shared. *)
Lemma instance_unique w t t' o : coherent w -> t ∈ toggles -> t' ∈ toggles ->
  data w !! t = Some o -> data w !! t' = Some o -> t = t'.
Proof.
  intros Hw Ht Ht' E E'. destruct (co_at w Hw t Ht) as [_ Hi]. destruct (co_at w Hw t' Ht') as [_ Hi'].
  destruct (Hi o E) as (s & Hs & He & _). destruct (Hi' o E') as (s' & Hs' & He' & _). congruence.
Qed.

(** One drop-down is opened or closed, the others are as before. *)
Lemma coherent_set t o (b : bool) f w w' : coherent w -> t ∈ toggles -> data w !! t = Some o ->
  data w' = data w -> next_id w' = next_id w -> heap w' = alter f o (heap w) -> restyle (dom w) (dom w') ->
  (forall e, e = par t \/ e = menu t -> has_class (dom w') e "show" = b) ->
  (forall e c, (e <> par t /\ e <> menu t) \/ (c <> "show" /\ c <> "position-static")%string ->
     has_class (dom w') e c = has_class (dom w) e c) ->
  (forall s, dd_element (f s) = dd_element s /\ dd_menu (f s) = dd_menu s /\ dd_config (f s) = dd_config s /\
     dd_inNavbar (f s) = dd_inNavbar s /\ forall q, dd_popper (f s) = Some q -> papi_alive q = true -> b = true) ->
  coherent w' /\ quiet w w' /\
  forall t', t' ∈ toggles -> is_open w' t' <-> if decide (t' = t) then b = true else is_open w t'.
Proof.
  intros Hw Ht Eo Edata Enext Eheap Hd Hon Hsame Hf.
  assert (Hother : forall t' e, t' ∈ toggles -> t' <> t -> e = par t' \/ e = menu t' ->
    has_class (dom w') e "show" = has_class (dom w) e "show").
  { intros t' e Ht' Hne He. apply Hsame. left.
    pose proof (menus_par _ _ _ _ Hpage t' t Ht' Ht). pose proof (menus_menu _ _ _ _ Hpage t' t Ht' Ht).
    pose proof (menus_apart _ _ _ _ Hpage t' t Ht' Ht). pose proof (menus_apart _ _ _ _ Hpage t t' Ht Ht').
    naive_solver. }
  assert (Hheap : forall o' s', heap w' !! o' = Some s' -> exists s, heap w !! o' = Some s /\
    (o' = o /\ s' = f s \/ o' <> o /\ s' = s)).
  { intros o' s'. rewrite Eheap. destruct (decide (o' = o)) as [->|Hne].
    - rewrite lookup_alter_eq. intros (s & -> & ->)%fmap_Some. eauto.
    - rewrite lookup_alter_ne by done. eauto. }
  split; [split; [etrans; [apply (co_page w Hw)|done]| |]|split; [split|]].
  - intros o' s' (s & Hs & _)%Hheap. rewrite Enext. by eapply (co_ids w Hw).
  - intros t' Ht'. destruct (co_at w Hw t' Ht') as [Hcl Hi]. unfold coherent_at, is_open in *. rewrite Edata.
    destruct (decide (t' = t)) as [->|Hne].
    + split; [by rewrite !Hon by auto|]. intros o' Eo'. assert (o' = o) as -> by congruence.
      destruct (Hi o Eo) as (s & Hs & He & Hm & _). exists (f s). rewrite Eheap, lookup_alter_eq, Hs.
      destruct (Hf s) as (-> & -> & _ & _ & Hdead). rewrite Hon by auto. done.
    + rewrite !(Hother t') by auto. split; [done|]. intros o' Eo'.
      assert (o' <> o) by (intros ->; by apply Hne, (instance_unique w t' t o)).
      destruct (Hi o' Eo') as (s & Hs & Hq). exists s. by rewrite Eheap, lookup_alter_ne.
  - intros e c Hs Hp. apply Hsame. by right.
  - done.
  - intros o'. unfold settings. rewrite Eheap.
    destruct (decide (o' = o)) as [->|Hne]; [rewrite lookup_alter_eq|by rewrite lookup_alter_ne].
    destruct (heap w !! o) as [s|]; [|done]. cbn. destruct (Hf s) as (_ & _ & -> & -> & _). done.
  - intros t' Ht'. unfold is_open. destruct (decide (t' = t)) as [->|E].
    + by rewrite Hon by auto.
    + by rewrite (Hother t') by auto.
Qed.

(** The document after the menu of [t] is closed, and after it is opened. *)
Definition closed_dom (t : elem) d : D :=
  remove_class (par t) "show" (remove_class (menu t) "show" (set_attr t "aria-expanded" (Some "false"%string) d)).
Definition opened_dom (t : elem) d : D :=
  add_class (par t) "show" (add_class (menu t) "show"
    (set_attr t "aria-expanded" (Some "true"%string) (set_focus t d))).

Ltac classes := autorewrite with classes; repeat case_bool_decide; naive_solver.

Lemma closed_show t d e : e = par t \/ e = menu t -> has_class (closed_dom t d) e "show" = false.
Proof. unfold closed_dom. intros [-> | ->]; classes. Qed.

Lemma opened_show t d e : e = par t \/ e = menu t -> has_class (opened_dom t d) e "show" = true.
Proof. unfold opened_dom. intros [-> | ->]; classes. Qed.

Lemma closed_same t d e c : (e <> par t /\ e <> menu t) \/ (c <> "show" /\ c <> "position-static")%string ->
  has_class (closed_dom t d) e c = has_class d e c.
Proof. unfold closed_dom. intros Hec. classes. Qed.

Lemma opened_same t d e c : (e <> par t /\ e <> menu t) \/ (c <> "show" /\ c <> "position-static")%string ->
  has_class (opened_dom t d) e c = has_class d e c.
Proof. unfold opened_dom. intros Hec. classes. Qed.

Lemma closed_restyle t d : restyle d (closed_dom t d).
Proof. unfold closed_dom. eauto with wp. Qed.

Lemma opened_restyle t d : restyle d (opened_dom t d).
Proof. unfold opened_dom. eauto 8 with wp. Qed.

(** The body of the loop of [_clearMenus]: a drop-down without an instance is
    left as it is. *)
Lemma clear_menu_runs t w : coherent w -> t ∈ toggles ->
  runs (clear_menu silent None t) (fun _ w' => coherent w' /\ quiet w w' /\
    forall t', t' ∈ toggles -> is_open w' t' <-> is_open w t' /\ ~ (t' = t /\ is_Some (data w !! t))) w.
Proof.
  intros Hw Ht. destruct (co_at w Hw t Ht) as [Hcl Hi].
  unfold clear_menu. apply runs_bind. eapply runs_intro; [by apply (menus_parent _ _ _ _ Hpage), Hw|].
  wp. destruct (data w !! t) as [o|] eqn:Eo.
  2: { wp. split; [done|]. split; [done|]. intros t' Ht'. split; [|tauto]. intros Hop. split; [done|].
       intros [_ [? ?]]. done. }
  destruct (Hi o eq_refl) as (s & Hs & He & Hm & Hq).
  cbv beta iota. change (option_list (Some (par t))) with [par t]. rewrite has_class_one.
  destruct (has_class (dom w) (par t) "show") eqn:Ep; cbn [negb]; wp.
  - rewrite Hm. edestruct (coherent_set t o false (fun this => this <| dd_popper ::= option_map papi_destroy |>) w)
      as (Hc' & Hq' & Ho); [done|exact Ht|exact Eo|..|split; [exact Hc'|split; [exact Hq'|]]]; [done|done|done|..].
    + exact (closed_restyle t (dom w)).
    + exact (closed_show t (dom w)).
    + exact (closed_same t (dom w)).
    + intros [el [q'|] cfg mn nb]; (do 4 (split; [done|])); intros q; [|done].
      intros [= <-]. by rewrite papi_destroyed.
    + intros t' Ht'. rewrite (Ho t' Ht'). destruct (decide (t' = t)) as [->|Hne]; [|tauto].
      split; [done|]. intros [_ []]. by split; [|eexists].
  - split; [done|]. split; [done|]. intros t' Ht'. split; [|tauto]. intros Hop. split; [done|].
    intros [-> _]. unfold is_open in Hop. congruence.
Qed.

Lemma clearMenus_runs w : coherent w ->
  runs (_clearMenus silent None) (fun _ w' => coherent w' /\ quiet w w' /\
    forall t, t ∈ toggles -> is_open w' t <-> is_open w t /\ data w !! t = None) w.
Proof.
  intros Hw. unfold _clearMenus. apply runs_bind.
  eapply runs_query_all; [by apply (menus_query _ _ _ _ Hpage), Hw|].
  eapply runs_mono; [|apply (runs_for_each _ _ (fun l w' => l ⊆ toggles /\ coherent w' /\ quiet w w' /\
    forall t, t ∈ toggles -> (is_open w' t -> is_open w t /\ (data w !! t = None \/ t ∈ l)) /\
      (is_open w t -> data w !! t = None -> is_open w' t)))].
  - intros _ w' (_ & Hw' & Hq & Ho). split; [done|]. split; [done|]. intros t Ht. destruct (Ho t Ht) as [Ho1 Ho2].
    split; [|by intros [? ?]; apply Ho2]. intros [Hop [?|Hin]]%Ho1; [done|by apply not_elem_of_nil in Hin].
  - split; [done|]. split; [done|]. split; [done|]. intros t Ht. split; [by split; [|right]|done].
  - intros t l w1 (Hl & Hw1 & Hq1 & Ho1). eapply runs_mono; [|apply clear_menu_runs; [done|apply Hl; by left]].
    intros _ w2 (Hw2 & Hq2 & Ho2). split; [set_solver|]. split; [done|]. split; [by eapply quiet_trans|].
    rewrite (q_data _ _ Hq1) in Ho2.
    intros t' Ht'. destruct (Ho1 t' Ht') as [Hop1 Hop2]. rewrite (Ho2 t' Ht'). split.
    + intros [Hop Hne]. destruct (Hop1 Hop) as [Hop0 [Hn|Hin]]; [by auto|]. split; [done|].
      apply elem_of_cons in Hin as [->|Hin]; [|by right]. left. by apply eq_None_not_Some; intros ?; apply Hne.
    + intros Hop Hn. split; [by apply Hop2|]. intros [-> Hs]. rewrite Hn in Hs. by destruct Hs.
Qed.

(** Popper can be made for the drop-down of [t], or is not asked for. *)
Definition can_pop (t : elem) (cfg : config) (inNavbar : bool) : Prop :=
  inNavbar = true \/
  exists r, reference_element cfg t (Some (par t)) = Some r /\
    forall d, restyle d0 d -> is_Some (papi_new r (menu t) (_getPopperConfig user_popper_config d t (Some (menu t)) cfg)).

Lemma same_disabled t d d' : t ∈ toggles -> restyle d0 d -> restyle d0 d' -> same_but_show d d' ->
  dd_disabled d' t = dd_disabled d t.
Proof.
  intros Ht Hd Hd' Hs. unfold dd_disabled.
  rewrite (menus_prop _ _ _ _ Hpage t d), (menus_prop _ _ _ _ Hpage t d'), !has_class_one by done.
  by rewrite Hs.
Qed.

(** The popper part of [show]. *)
Definition pop_up (o : nat) (this : Dropdown P) (el : elem) (parent : option elem) : M W unit :=
  if negb (dd_inNavbar this) && true then
    when (negb (val_is_str (field (dd_config this) "boundary") "scrollParent"))
      (mod_dom (jq_add_class (option_list parent) "position-static")) ;;
    referenceElement ← deref (reference_element (dd_config this) el parent);
    menu ← deref (dd_menu this);
    d ← get_dom;
    p ← deref (papi_new referenceElement menu (_getPopperConfig user_popper_config d el (Some menu) (dd_config this)));
    put o (fun this => this <| dd_popper := Some p |>)
  else skip.

Lemma pop_up_runs t o s w : t ∈ toggles -> restyle d0 (dom w) -> heap w !! o = Some s ->
  dd_menu s = Some (menu t) -> can_pop t (dd_config s) (dd_inNavbar s) ->
  runs (pop_up o s t (Some (par t))) (fun _ w' => exists d f,
    data w' = data w /\ next_id w' = next_id w /\ heap w' = alter f o (heap w) /\ dom w' = d /\
    restyle (dom w) d /\ (d = dom w \/ d = add_class (par t) "position-static" (dom w)) /\
    forall s, dd_element (f s) = dd_element s /\ dd_menu (f s) = dd_menu s /\ dd_config (f s) = dd_config s /\
      dd_inNavbar (f s) = dd_inNavbar s) w.
Proof.
  intros Ht Hr Hs Hm Hpop. unfold pop_up. rewrite andb_true_r.
  destruct (dd_inNavbar s) eqn:En; cbn [negb].
  - wp. exists (dom w), id. do 2 (split; [done|]). split; [|split; [done|split; [done|split; [by left|done]]]].
    apply map_eq. intros o'. destruct (decide (o' = o)) as [->|Hne];
      [by rewrite lookup_alter_eq, Hs|by rewrite lookup_alter_ne].
  - destruct Hpop as [?|(r & Er & Hpop)]; [done|]. apply runs_bind.
    apply runs_when; intros _; (apply runs_bind; eapply runs_deref; [exact Er|]); wp.
    + destruct (Hpop (add_class (par t) "position-static" (dom w))) as [q Eq]; [by eauto with wp|].
      eapply runs_deref; [exact Eq|]. wp.
      exists (add_class (par t) "position-static" (dom w)), (fun this => this <| dd_popper := Some q |>).
      do 4 (split; [done|]). split; [eauto with wp|]. split; [by right|done].
    + destruct (Hpop (dom w)) as [q Eq]; [done|]. eapply runs_deref; [exact Eq|]. wp.
      exists (dom w), (fun this => this <| dd_popper := Some q |>).
      do 5 (split; [done|]). split; [by left|done].
Qed.

(** Toggling both classes of a closed drop-down. *)
Lemma toggles_on t d : t ∈ toggles -> has_class d (menu t) "show" = false -> has_class d (par t) "show" = false ->
  jq_each (fun e => toggle_class e "show") (option_list (Some (par t)))
    (jq_each (fun e => toggle_class e "show") (option_list (Some (menu t)))
      (set_attr t "aria-expanded" (Some "true"%string) (set_focus t d))) = opened_dom t d.
Proof.
  intros Ht Hm Hp. unfold opened_dom, jq_each. change (option_list (Some (par t))) with [par t].
  change (option_list (Some (menu t))) with [menu t]. cbn [foldl].
  pose proof (menus_apart _ _ _ _ Hpage t t Ht Ht).
  rewrite (toggle_class_off (menu t)) by (by autorewrite with classes).
  rewrite toggle_class_off; [done|]. classes.
Qed.

(** Opening a closed drop-down. *)
Lemma dd_show_runs t o s w : coherent w -> t ∈ toggles -> ~ is_open w t -> data w !! t = Some o ->
  heap w !! o = Some s -> dd_disabled (dom w) t = false -> can_pop t (dd_config s) (dd_inNavbar s) ->
  runs (dd_show silent user_popper_config o true) (fun _ w' => coherent w' /\ data w' = data w /\
    forall t', t' ∈ toggles -> is_open w' t' <-> t' = t \/ is_open w t') w.
Proof.
  intros Hw Ht Hcl Eo Hs Hdis Hpop. pose proof (co_page w Hw) as Hr. destruct (co_at w Hw t Ht) as [Hsame Hi].
  destruct (Hi o Eo) as (s' & Hs' & He & Hm & _).
  rewrite Hs in Hs'. injection Hs' as <-. unfold is_open in Hcl. apply not_true_is_false in Hcl. rewrite Hcl in Hsame.
  unfold dd_show. wp. rewrite Hdis, Hm. change (option_list (Some (menu t))) with [menu t].
  rewrite has_class_one, Hsame. cbn [orb]. apply runs_bind.
  eapply runs_intro; [by apply (menus_parent _ _ _ _ Hpage)|]. wp.
  eapply runs_mono; [|exact (pop_up_runs t o s w Ht Hr Hs Hm Hpop)].
  intros _ w1 (d & f & Ed & En & Eh & Edom & Hrd & Hd & Hf). destruct (Hf s) as (_ & Hfm & _). wp.
  eapply (runs_get _ (f s)); [autorewrite with world; by rewrite Eh, lookup_alter_eq, Hs|]. wp.
  rewrite Hfm, Hm.
  assert (Hsd : forall e c, (e <> par t /\ e <> menu t) \/ (c <> "show" /\ c <> "position-static")%string \/
    c = "show"%string -> has_class d e c = has_class (dom w) e c).
  { intros e c Hec. destruct Hd as [-> | ->]; [done|]. classes. }
  edestruct (coherent_set t o true f w) as (Hc' & Hq' & Ho); [done|exact Ht|exact Eo|..|split; [exact Hc'|split]].
  - exact Ed.
  - exact En.
  - exact Eh.
  - autorewrite with world. rewrite Edom, toggles_on by (rewrite ?Hsd by auto; done). etrans; [exact Hrd|]. apply opened_restyle.
  - autorewrite with world. rewrite Edom, toggles_on by (rewrite ?Hsd by auto; done). apply opened_show.
  - autorewrite with world. rewrite Edom, toggles_on by (rewrite ?Hsd by auto; done).
    intros e c Hec. rewrite opened_same by done. apply Hsd. tauto.
  - intros s'. destruct (Hf s') as (? & ? & ? & ?). done.
  - exact Ed.
  - intros t' Ht'. rewrite (Ho t' Ht'). destruct (decide (t' = t)); naive_solver.
Qed.

(** What is open after a click on [t]. *)
Definition clicked (t : elem) w w' : Prop :=
  coherent w' /\ forall t', t' ∈ toggles ->
    is_open w' t' <-> t' = t /\ ~ is_open w t \/ t' <> t /\ is_open w t' /\ data w !! t' = None.

Lemma dd_toggle_runs t o s w : coherent w -> t ∈ toggles -> data w !! t = Some o -> heap w !! o = Some s ->
  dd_disabled (dom w) t = false -> can_pop t (dd_config s) (dd_inNavbar s) ->
  runs (dd_toggle silent user_popper_config o) (fun _ w' => clicked t w w' /\ data w' = data w) w.
Proof.
  intros Hw Ht Eo Hs Hdis Hpop. destruct (co_at w Hw t Ht) as [Hsame Hi].
  destruct (Hi o Eo) as (s' & Hs' & He & Hm & _). rewrite Hs in Hs'. injection Hs' as <-.
  unfold dd_toggle. wp. rewrite Hdis. apply runs_bind.
  eapply runs_mono; [|by apply clearMenus_runs]. intros _ w1 (Hw1 & [Hq1 Hqd Hq2] & Hcl).
  rewrite Hm. change (option_list (Some (menu t))) with [menu t]. rewrite has_class_one, Hsame.
  assert (Hnt : ~ is_open w1 t) by (rewrite (Hcl t Ht), Eo; by intros [_ ?]).
  destruct (has_class (dom w) (par t) "show") eqn:Ep.
  - wp. split; [|done]. split; [done|]. intros t' Ht'. rewrite (Hcl t' Ht'). split; [|intros [[-> Hn]|?]; [by destruct Hn|tauto]].
    intros [Hop Hn]. right. split; [|done]. intros ->. congruence.
  - pose proof (Hq2 o) as Hset. unfold settings in Hset. rewrite Hs in Hset.
    apply fmap_Some in Hset as (s1 & Hs1 & [= Hcfg Hnav]). rewrite Hcfg, Hnav in Hpop.
    eapply runs_mono; [|eapply (dd_show_runs t o s1 w1)]; try done.
    + intros _ w2 (Hw2 & Hd2 & Ho). split; [|congruence]. split; [done|].
      intros t' Ht'. rewrite (Ho t' Ht'), (Hcl t' Ht'). split.
      * intros [->|[Hop Hn]]; [left; split; [done|]; unfold is_open; congruence|].
        right. split; [|done]. intros ->. congruence.
      * intros [[-> _]|(_ & Hop & Hn)]; [by left|by right].
    + congruence.
    + rewrite (same_disabled t (dom w) (dom w1)); [done|done|apply Hw|apply Hw1|done].
Qed.

(** The configuration of the instance, or the one a first click makes. *)
Definition can_click (t : elem) w : Prop :=
  match data w !! t with
  | Some o => forall s, heap w !! o = Some s -> can_pop t (dd_config s) (dd_inNavbar s)
  | None => exists cfg, dropdown_getConfig (dom w) t ∅ = inr cfg /\ can_pop t cfg (detectNavbar (dom w) (Some t))
  end.

(** The instance a first click makes. *)
Lemma first_click w t cfg : coherent w -> t ∈ toggles -> data w !! t = None ->
  coherent (w <| heap := <[next_id w := {| dd_element := Some t; dd_popper := None; dd_config := cfg;
                                            dd_menu := Some (menu t); dd_inNavbar := detectNavbar (dom w) (Some t) |}]> (heap w) |>
              <| next_id := (next_id w + 1)%nat |> <| data := <[t := next_id w]> (data w) |>).
Proof.
  intros Hw Ht En. set (s := {| dd_element := Some t |}).
  split; autorewrite with world; [apply Hw| |].
  - intros o s'. destruct (decide (o = next_id w)) as [->|Hne]; [intros _; lia|].
    rewrite lookup_insert_ne by done. intros Hs%(co_ids w Hw). lia.
  - intros t' Ht'. destruct (co_at w Hw t' Ht') as [Hcl Hi]. split; [done|]. autorewrite with world. intros o.
    destruct (decide (t' = t)) as [->|Hne].
    + rewrite lookup_insert_eq. intros [= <-]. exists s. by rewrite lookup_insert_eq.
    + rewrite lookup_insert_ne by done. intros Eo. destruct (Hi o Eo) as (s' & Hs' & Hq). exists s'.
      rewrite lookup_insert_ne; [done|]. apply (co_ids w Hw) in Hs'. lia.
Qed.

Lemma Dropdown_new_runs w t cfg : t ∈ toggles -> restyle d0 (dom w) -> dropdown_getConfig (dom w) t ∅ = inr cfg ->
  Dropdown_new t ∅ w =
    (w <| heap := <[next_id w := {| dd_element := Some t; dd_popper := None; dd_config := cfg;
                                    dd_menu := Some (menu t); dd_inNavbar := detectNavbar (dom w) (Some t) |}]> (heap w) |>
       <| next_id := (next_id w + 1)%nat |>, inr (next_id w)).
Proof.
  intros Ht Hr Ecfg. destruct (menus_find _ _ _ _ Hpage t (dom w)) as (l & El & Eh); [done|done|].
  unfold Dropdown_new, _getMenuElement, query_one, query_all, get_dom, lift_result, mbind, M_bind.
  rewrite Ecfg, (menus_parent _ _ _ _ Hpage), El by done. unfold mret, M_ret. by rewrite Eh.
Qed.

(** C15. A click on the toggle of a drop-down closes every other menu and
    toggles its own: on a page whose menus have the class of their parents and
    where no closed drop-down has a live popper, a click on an enabled toggle
    runs to its end and leaves open its own menu, if it was closed, and of the
    others only those that are open in the markup and whose toggle was never
    clicked, so that it has no instance. Where every open menu has an instance
    at most one is open afterwards. The first click makes the instance; the
    click leaves a page of the same kind, whatever implements the interface to
    Popper. *)
Theorem dropdown_toggle_exclusive t w : coherent w -> t ∈ toggles ->
  dd_disabled (dom w) t = false -> can_click t w ->
  exists w', dropdown_click silent user_popper_config t w = (w', inr tt) /\ coherent w' /\
    is_Some (data w' !! t) /\ (forall t', t' <> t -> data w' !! t' = data w !! t') /\
    forall t', t' ∈ toggles ->
      is_open w' t' <-> t' = t /\ ~ is_open w t \/ t' <> t /\ is_open w t' /\ data w !! t' = None.
Proof.
  intros Hw Ht Hdis Hcan. apply runs_unit. unfold dropdown_click, dropdown_jQueryInterface. apply runs_bind.
  eapply runs_intro; [reflexivity|]. cbn [for_each]. wp.
  set (w0 := w <| prevented := true |>). change (data w0) with (data w). unfold can_click in Hcan.
  destruct (data w !! t) as [o|] eqn:Eo.
  - wp. destruct (co_at w Hw t Ht) as [_ Hi]. destruct (Hi o Eo) as (s & Hs & _).
    eapply runs_mono; [|eapply (dd_toggle_runs t o s w0)]; [|by destruct Hw|done|done|done|done|by apply Hcan].
    intros _ w' [[Hw' Ho] Ed]. wp. split; [done|]. change (data w0) with (data w) in Ed. rewrite Ed. split; [by eexists|done].
  - destruct Hcan as (cfg & Ecfg & Hpop).    apply runs_bind. eapply runs_intro; [by apply (Dropdown_new_runs w0 t cfg); [|apply Hw|]|].
    apply runs_bind. eapply runs_intro; [reflexivity|]. wp. change (next_id w0) with (next_id w). change (heap w0) with (heap w).
    set (s := {| dd_element := Some t |}).
    eapply runs_mono; [|eapply (dd_toggle_runs t (next_id w) s)]; [| |done| | | |exact Hpop].
    + intros _ w' [[Hw' Ho] Ed]. wp. split; [done|]. rewrite Ed. autorewrite with world.
      split; [by rewrite lookup_insert_eq|].
      split; [intros t' Hne; by rewrite lookup_insert_ne|]. intros t' Ht'. rewrite (Ho t' Ht').
      destruct (decide (t' = t)) as [->|Hne]; [by split; intros [|[? _]]; auto|].
      autorewrite with world. by rewrite lookup_insert_ne.
    + pose proof (first_click w t cfg Hw Ht Eo) as [? ? ?]. by split.
    + autorewrite with world. by rewrite lookup_insert_eq.
    + autorewrite with world. by rewrite lookup_insert_eq.
    + done.
Qed.
End dropdown.

(** ** A page to try it on *)
Module DropdownDemo.
(** Two drop-downs: toggles 11 and 21 in 10 and 20, with the menus 12 and 22; the
    second is open, the first was never clicked. *)
Definition page : toy := {|
  toy_class := list_to_map [(10%nat, ["dropdown"]); (20%nat, ["dropdown"; "show"]);
    (12%nat, ["dropdown-menu"]); (22%nat, ["dropdown-menu"; "show"])]%string;
  toy_attr := ∅;
  toy_style := ∅;
  toy_prop := ∅;
  toy_data := ∅;
  toy_query := [(SELECTOR_TOGGLE, [11; 21]%nat); (".dropdown-menu in 10", [12%nat]); (".dropdown-menu in 20", [22%nat])]%string;
  toy_parent := {[ 11%nat := 10%nat; 21%nat := 20%nat ]};
  toy_next := 100
|}.

(** A popper is whether it is alive. *)
#[local] Instance api : PopperApi bool := {|
  papi_new _ _ _ := Some true; papi_destroy _ := false; papi_schedule p := p; papi_alive p := p |}.
#[local] Instance laws : PopperLaws bool.
Proof. by split. Qed.

Definition drop (t m : elem) (p : option bool) : Dropdown bool :=
  {| dd_element := Some t; dd_popper := p; dd_config := dropdown_Default; dd_menu := Some m; dd_inNavbar := false |}.
Definition world : World toy (Dropdown bool) Empty_set :=
  MkWorld page {[ 1%nat := drop 21 22 (Some true) ]} {[ 21%nat := 1%nat ]} [] ∅ 2%nat false.

Definition par (t : elem) : elem := (t - 1)%nat.
Definition menu (t : elem) : elem := (t + 1)%nat.

Lemma attr_none d e k : restyle page d -> String.prefix "aria-" k = false -> attr d e k = None.
Proof. intros Hr Hk. by rewrite (attr_restyle page d). Qed.

Lemma page_menus : menus (P := bool) page [11; 21]%nat par menu.
Proof.
  assert (Hin : forall t, t ∈ [11; 21]%nat -> t = 11%nat \/ t = 21%nat) by set_solver.
  split.
  - intros d (_ & Eq & _ & _)%toy_restyle. cbn. unfold toy_find, toy_entry. by rewrite Eq.
  - intros t w Ht Hr. destruct (toy_restyle _ _ Hr) as (Ep & _).
    unfold _getParentFromElement, selector_of, getSelectorFromElement, get_dom, mbind, M_bind, mret, M_ret.
    rewrite !(attr_none (dom w)) by done.
    assert (Hp : parent (dom w) t = Some (par t)) by (cbn; rewrite Ep; by destruct (Hin t Ht) as [-> | ->]).
    destruct (document_query (dom w) _) as [[?|]|]; cbn -[parent]; by rewrite Hp.
  - intros t d Ht (_ & Eq & _ & _)%toy_restyle. cbn. unfold toy_find, toy_entry. rewrite Eq.
    destruct (Hin t Ht) as [-> | ->]; eexists; (split; [vm_compute; reflexivity|done]).
  - intros t d _ (_ & _ & Epr & _)%toy_restyle. cbn. by rewrite Epr.
  - intros t t' Ht Ht'. destruct (Hin t Ht) as [-> | ->], (Hin t' Ht') as [-> | ->]; done.
  - intros t t' Ht Ht'. destruct (Hin t Ht) as [-> | ->], (Hin t' Ht') as [-> | ->]; done.
  - intros t t' Ht Ht'. destruct (Hin t Ht) as [-> | ->], (Hin t' Ht') as [-> | ->]; done.
Qed.

Lemma world_coherent : coherent page [11; 21]%nat par menu world.
Proof.
  split; [apply restyle_refl| |].
  - intros o s. cbn. intros [<- _]%lookup_singleton_Some. lia.
  - intros t Ht. assert (t = 11%nat \/ t = 21%nat) as [-> | ->] by set_solver.
    + split; [vm_compute; reflexivity|]. intros o E. discriminate E.
    + split; [vm_compute; reflexivity|]. intros o [= <-]. exists (drop 21 22 (Some true)).
      repeat (split; [vm_compute; reflexivity|]). intros q _ _. vm_compute. reflexivity.
Qed.
End DropdownDemo.

Lemma dropdown_toggle_exclusive_witness : exists w',
  dropdown_click (D := toy) (P := bool) (H0 := DropdownDemo.api) silent (fun _ o => o) 11 DropdownDemo.world = (w', inr tt) /\
  has_class (dom w') 10 "show" = true /\ has_class (dom w') 20 "show" = false.
Proof.
  destruct (dropdown_toggle_exclusive (D := toy) (P := bool) (H1 := DropdownDemo.api) (H2 := DropdownDemo.laws) (fun _ o => o) DropdownDemo.page
    [11; 21]%nat DropdownDemo.par DropdownDemo.menu DropdownDemo.page_menus 11
    DropdownDemo.world DropdownDemo.world_coherent) as (w' & E & _ & _ & _ & Ho).
  - left.
  - vm_compute. reflexivity.
  - exists (match dropdown_getConfig (dom DropdownDemo.world) 11 ∅ with inr c => c | inl _ => ∅ end).
    split; [vm_compute; reflexivity|]. right. exists 11%nat. split; [vm_compute; reflexivity|].
    intros d _. eexists. reflexivity.
  - exists w'. split; [exact E|]. split.
    + apply (Ho 11%nat); [left|]. left. split; [reflexivity|]. vm_compute. discriminate.
    + apply not_true_is_false. intros Hop. apply (Ho 21%nat) in Hop; [|right; left].
      destruct Hop as [[? _]|(_ & _ & Hd)]; [discriminate|]. discriminate Hd.
Defined.
