(* ===== verification/BsTooltipTheorems.v ===== *)
(** Tooltips and popovers: the HTML they show is clean, and at most one delay of
    a tip waits, which its instance remembers. *)
From Stdlib Require Import ZArith QArith Lia String Ascii.
From stdpp Require Import base list gmap strings.
From coqutil Require Import Datatypes.RecordSetters.
From S2P Require Import Prelude Js JsDom BsUtil BsUtilTheorems BsDomTheory BsHoare BsTasks PopperModifiers PopperClass BsDropdown BsDropdownTheorems BsSanitizer BsPureTheorems BsTooltip.

Local Open Scope Z_scope.

(** ** The content *)
Section content.
Context {D : Type} `{Dom D} {P : Type} (k : tip_class).
Local Abbreviation W := (World D (Tooltip P) tip_cb).
Context (call_value : nat -> elem -> D -> jsval)
        (sanitizer_of : jsval -> option (string -> string)) (whitelist_of : jsval -> whitelist)
        (parse_html : string -> list node) (print_html : list node -> string)
        (fun_length : nat -> nat) (object_text : jsval -> string)
        (append_object : list elem -> jsval -> D -> D * (exn + unit)).
Implicit Types (w : W).



Notation getConfig := (tip_getConfig k sanitizer_of whitelist_of parse_html print_html).
Notation setElementContent := (setElementContent call_value sanitizer_of whitelist_of parse_html print_html
  fun_length object_text append_object).










End content.

(** ** The delays *)
Section tooltip.
Context {D : Type} `{Dom D} {P : Type} `{PopperApi P} (k : tip_class).
Local Abbreviation W := (World D (Tooltip P) tip_cb).
Context (fire : event -> elem -> M W bool)
        (call_value : nat -> elem -> D -> jsval) (call_placement : nat -> elem -> elem -> D -> string)
        (sanitizer_of : jsval -> option (string -> string)) (whitelist_of : jsval -> whitelist)
        (user_popper_config : list (string * jsval) -> popper_options -> popper_options)
        (parse_html : string -> list node) (print_html : list node -> string)
        (fun_length : nat -> nat) (object_text : jsval -> string)
        (append_object : list elem -> jsval -> D -> D * (exn + unit)) (make_template : string -> D -> elem * D)
        (has_id : D -> string -> bool) (random : nat -> Q) (fuel : nat)
        (attachShadow : bool) (getRootNode : option (elem -> elem)) (is_shadow_root : elem -> bool).
Implicit Types (w : W).

(** The pending delay of the tip [o]. *)
Definition delays (o : nat) (t : task tip_cb) : bool :=
  match task_run t with
  | Call (TipEnter o') => (o' =? o)%nat
  | Call (TipLeave o') => (o' =? o)%nat
  | _ => false
  end.

Definition delay_timers (o : nat) w : list nat := picked (delays o) (tasks w).

(** Each delay that waits is the one its tip remembers. *)
Record waiting w : Prop := {
  waiting_numbered : numbered w;
  waiting_tip o j : j ∈ delay_timers o w -> (heap w !! o ≫= t_timeout) = Some j
}.

Global Instance waiting_frame : Frame waiting.
Proof. split; intros w x [Hn Ht]; by split; [destruct Hn|]. Qed.

Lemma waiting_put o f w : (forall s, t_timeout (f s) = t_timeout s) ->
  waiting w -> waiting (w <| heap := alter f o (heap w) |>).
Proof.
  intros Hf [Hn Ht]. split; [by apply numbered_alter|]. intros o' j Hj. specialize (Ht o' j Hj). autorewrite with world.
  destruct (decide (o' = o)) as [->|Hne]; [|by rewrite lookup_alter_ne].
  rewrite lookup_alter_eq. destruct (heap w !! o) as [s|]; [|done]. cbn in *. by rewrite Hf.
Qed.

Lemma waiting_filter (Q : task tip_cb -> Prop) `{!forall t, Decision (Q t)} w :
  waiting w -> waiting (w <| tasks := filter Q (tasks w) |>).
Proof.
  intros [Hn Ht]. split; [by apply numbered_filter|]. intros o j (t & Hin & Hd & <-)%elem_of_picked.
  autorewrite with world in *. apply list_elem_of_filter in Hin as [_ Hin]. apply Ht, elem_of_picked. eauto.
Qed.

Lemma waiting_add at_ c w : (forall o i, delays o (Task i at_ c) = false) ->
  waiting w -> waiting (fst (add_task at_ c w)).
Proof.
  intros Hd [Hn Ht]. split; [by eapply numbered_add|]. intros o j (t & Hin & Hdt & <-)%elem_of_picked.
  change (tasks (fst (add_task at_ c w))) with (tasks w ++ [Task (next_id w) at_ c]) in Hin.
  apply elem_of_app in Hin as [Hin| ->%list_elem_of_singleton]; [|by rewrite Hd in Hdt].
  apply Ht, elem_of_picked. eauto.
Qed.

(** The old delay is cleared, a new one is set and remembered. *)
Definition schedule (c : nat) (id : option nat) (h : hover_state) (cb : tip_cb) (ms : Q) : M W unit :=
  clear_task id ;;
  put c (fun this => this <| t_hoverState := h |>) ;;
  id ← setTimeout (Call cb) ms;
  put c (fun this => this <| t_timeout := Some id |>).

Lemma waiting_clear o id w : waiting w -> (heap w !! o ≫= t_timeout) = id ->
  waiting (fst (clear_task id w)) /\ delay_timers o (fst (clear_task id w)) = [] /\
  heap (fst (clear_task id w)) = heap w.
Proof.
  intros Hw Hid. destruct id as [i|].
  - set (w1 := w <| tasks := filter (fun t => task_id t <> i) (tasks w) |>).
    change (fst (clear_task (Some i) w)) with w1. split; [by apply waiting_filter|]. split; [|done].
    apply elem_of_nil_inv. intros j (t & Hin & Hd & <-)%elem_of_picked.
    apply list_elem_of_filter in Hin as [Hne Hin]. apply Hne.
    assert (Hp : task_id t ∈ delay_timers o w) by (apply elem_of_picked; eauto).
    apply (waiting_tip w Hw) in Hp. congruence.
  - split; [done|]. split; [|done]. apply elem_of_nil_inv. intros j Hj%(waiting_tip w Hw). congruence.
Qed.

Lemma schedule_waiting c s h cb ms w : waiting w -> heap w !! c = Some s -> cb = TipEnter c \/ cb = TipLeave c ->
  waiting (fst (schedule c (t_timeout s) h cb ms w)).
Proof.
  intros Hw Hc Hcb. destruct (waiting_clear c (t_timeout s) w Hw) as (Hw1 & Hnone & Eh); [by rewrite Hc|].
  unfold schedule, mbind, M_bind. change (clear_task (t_timeout s) w) with (fst (clear_task (t_timeout s) w), @inr exn unit tt).
  revert Hw1 Hnone Eh. generalize (fst (clear_task (t_timeout s) w)) as w1. intros w1 Hw1 Hnone Eh.
  cbv beta iota. set (f := fun this : Tooltip P => this <| t_hoverState := h |>).
  pose proof (waiting_put c f w1 (fun _ => eq_refl) Hw1) as Hw2.
  set (w2 := w1 <| heap := alter f c (heap w1) |>) in Hw2.
  change (waiting (fst ((id ← setTimeout (Call cb) ms; put c (fun this => this <| t_timeout := Some id |>)) w2))).
  set (w3 := fst (add_task (Timeout ms) (Call cb) w2)).
  change (waiting (w3 <| heap := alter (fun this => this <| t_timeout := Some (next_id w2) |>) c (heap w3) |>)).
  assert (Hn : numbered w3) by (eapply numbered_add; [apply Hw2|done]).
  assert (Ed : forall o t, task_run t = Call cb -> delays o t = (c =? o)%nat).
  { intros o t E. unfold delays. rewrite E. by destruct Hcb as [-> | ->]. }
  split; [by apply numbered_alter|]. intros o j (t & Hin & Hd & <-)%elem_of_picked.
  autorewrite with world in *. change (tasks w3) with (tasks w1 ++ [Task (next_id w2) (Timeout ms) (Call cb)]) in Hin.
  change (heap w3) with (heap w2). apply elem_of_app in Hin as [Hin| ->%list_elem_of_singleton].
  - assert (Hp : task_id t ∈ delay_timers o w2) by (apply elem_of_picked; eauto).
    assert (Hne : o <> c).
    { intros ->. change (delay_timers c w2) with (delay_timers c w1) in Hp. rewrite Hnone in Hp.
      by apply not_elem_of_nil in Hp. }
    rewrite lookup_alter_ne by done. by apply (waiting_tip w2 Hw2).
  - rewrite (Ed o) in Hd by done. apply Nat.eqb_eq in Hd as <-. rewrite lookup_alter_eq.
    change (heap w2) with (alter f c (heap w1)). by rewrite lookup_alter_eq, Eh, Hc.
Qed.

(** *** The operations keep it *)
Lemma wait_put o f : (forall s, t_timeout (f s) = t_timeout s) -> keeps waiting (put o f : M W unit).
Proof. intros Hf w. by apply waiting_put. Qed.

Lemma wait_add at_ c : (forall o i, delays o (Task i at_ c) = false) -> keeps waiting (add_task at_ c : M W nat).
Proof. intros Hd w. by apply waiting_add. Qed.

Lemma wait_clear id : keeps waiting (clear_task id : M W unit).
Proof. intros w Hw. destruct id; [by apply waiting_filter|done]. Qed.

Lemma wait_fresh : keeps waiting (fresh_cell : M W nat).
Proof. intros w [Hn Ht]. split; [by apply numbered_fresh|done]. Qed.

Lemma wait_alloc s : keeps waiting (alloc s : M W nat).
Proof.
  intros w [Hn Ht]. pose proof (numbered_free w Hn) as Hf. split; [by apply numbered_alloc|].
  intros o j Hj. specialize (Ht o j Hj). cbn. unfold constant.
  rewrite lookup_insert_ne; [done|]. intros <-. by rewrite Hf in Ht.
Qed.

Lemma wait_template template : keeps waiting (from_template make_template template : M W elem).
Proof. intros w Hw. unfold from_template. destruct (make_template _ (dom w)). by apply frame_dom. Qed.

Lemma wait_remove els : keeps waiting (jq_remove els : M W unit).
Proof.
  intros w [Hn Ht].
  assert (E : exists Q (dec : forall t, Decision (Q t)), tasks (fst (jq_remove els w)) = @filter _ _ _ Q dec (tasks w))
    by (eexists _, _; reflexivity).
  destruct E as (Q & dec & E). split.
  - pose proof (numbered_filter w Q Hn) as [Hn1 Hn2 Hn3]. split; rewrite ?E; [exact Hn1|exact Hn2|exact Hn3].
  - intros o j (t & Hin & Hd & <-)%elem_of_picked. rewrite E in Hin. apply list_elem_of_filter in Hin as [_ Hin].
    apply Ht, elem_of_picked. eauto.
Qed.

Hint Resolve wait_clear wait_fresh wait_alloc wait_remove wait_template : keeps.
Hint Extern 1 (keeps waiting (put _ _)) => apply wait_put; reflexivity : keeps.
Hint Extern 1 (keeps waiting (add_task _ _)) => apply wait_add; reflexivity : keeps.
Hint Extern 1 (keeps waiting (setTimeout _ _)) => apply wait_add; reflexivity : keeps.

Lemma wait_emulator els ms : keeps waiting (transitionEndEmulator els ms : M W unit).
Proof. unfold transitionEndEmulator, jq_one. keep. Qed.

Lemma wait_jq_one els e c : (forall o i, delays o (Task i (Once 0 e) c) = false) ->
  keeps waiting (jq_one els e c : M W unit).
Proof.
  intros Hd. unfold jq_one. apply keeps_for_each. intros el. apply keeps_bind; [|keep]. by apply wait_add.
Qed.
Hint Resolve wait_emulator : keeps.
Hint Extern 1 (keeps waiting (jq_one _ _ _)) => apply wait_jq_one; reflexivity : keeps.

Context (fire_waiting : forall e el, keeps waiting (fire e el)).
Hint Resolve fire_waiting : keeps.

Lemma wait_getTipElements o :
  keeps waiting (tooltip_getTipElement make_template o : M W elem) /\ keeps waiting (popover_getTipElement make_template o : M W elem).
Proof. unfold tooltip_getTipElement, popover_getTipElement. split; keep. Qed.
Hint Extern 1 (keeps waiting (tooltip_getTipElement _ _)) => apply wait_getTipElements : keeps.
Hint Extern 1 (keeps waiting (popover_getTipElement _ _)) => apply wait_getTipElements : keeps.

Lemma wait_getTipElement o : keeps waiting (getTipElement k make_template o : M W elem).
Proof. unfold getTipElement. keep. Qed.
Hint Resolve wait_getTipElement : keeps.

Lemma wait_cleanTipClass o : keeps waiting (_cleanTipClass k make_template o : M W unit).
Proof. unfold _cleanTipClass, tooltip_cleanTipClass, popover_cleanTipClass. keep. Qed.

Lemma wait_addAttachmentClass o a : keeps waiting (addAttachmentClass k make_template o a : M W unit).
Proof. unfold addAttachmentClass, tooltip_addAttachmentClass, popover_addAttachmentClass. keep. Qed.
Hint Resolve wait_cleanTipClass wait_addAttachmentClass : keeps.

Lemma wait_hidden o tip : keeps waiting (tip_hidden k fire make_template o tip).
Proof. unfold tip_hidden. keep. Qed.
Hint Resolve wait_hidden : keeps.

Lemma wait_hide o : keeps waiting (tip_hide k fire make_template o).
Proof. unfold tip_hide. keep. Qed.
Hint Resolve wait_hide : keeps.

(** A step that reads the instance first. *)
Lemma keeps_get_then {A} c (f : Tooltip P -> M W A) :
  (forall s w, waiting w -> heap w !! c = Some s -> waiting (fst (f s w))) ->
  keeps waiting (this ← get c; f this).
Proof.
  intros Hf w Hw. unfold get, mbind, M_bind. destruct (heap w !! c) as [s|] eqn:E; [by apply Hf|done].
Qed.

Lemma wait_leave event c : keeps waiting (leave_context k fire make_template event c).
Proof.
  unfold leave_context. apply keeps_bind; [keep|]. intros _. apply keeps_get_then. intros s w Hw Hs.
  destruct (_isWithActiveTrigger s); [done|]. destruct (delay_for s "hide") as [ms|].
  - exact (schedule_waiting c s HoverOut (TipLeave c) ms w Hw Hs (or_intror eq_refl)).
  - revert w Hw Hs. enough (Hk : keeps waiting (clear_task (t_timeout s) ;;
      put c (fun this => this <| t_hoverState := HoverOut |>) ;; tip_hide k fire make_template c)) by (intros; by apply Hk).
    keep.
Qed.
Hint Resolve wait_leave : keeps.

Notation Tooltip_new := (Tooltip_new k sanitizer_of whitelist_of parse_html print_html).
Notation context_of := (context_of k sanitizer_of whitelist_of parse_html print_html).
Notation setContent := (setContent k call_value sanitizer_of whitelist_of parse_html print_html fun_length object_text
  append_object make_template).
Notation insert_tip := (insert_tip k fire call_value call_placement sanitizer_of whitelist_of user_popper_config
  parse_html print_html fun_length object_text append_object make_template has_id random fuel).
Notation show_with := (tip_show_with k fire call_value call_placement sanitizer_of whitelist_of user_popper_config
  parse_html print_html fun_length object_text append_object make_template has_id random fuel
  attachShadow getRootNode is_shadow_root).
Notation fixTransition := (tip_fixTransition k fire call_value call_placement sanitizer_of whitelist_of
  user_popper_config parse_html print_html fun_length object_text append_object make_template has_id random fuel
  attachShadow getRootNode is_shadow_root).
Notation tip_show := (tip_show k fire call_value call_placement sanitizer_of whitelist_of user_popper_config
  parse_html print_html fun_length object_text append_object make_template has_id random fuel
  attachShadow getRootNode is_shadow_root).
Notation enter_context := (enter_context k fire call_value call_placement sanitizer_of whitelist_of
  user_popper_config parse_html print_html fun_length object_text append_object make_template has_id random fuel
  attachShadow getRootNode is_shadow_root).
Notation tip_plug := (tip_plug k fire call_value call_placement sanitizer_of whitelist_of user_popper_config
  parse_html print_html fun_length object_text append_object make_template has_id random fuel
  attachShadow getRootNode is_shadow_root).
Notation jQueryInterface := (tip_jQueryInterface k fire call_value call_placement sanitizer_of whitelist_of
  user_popper_config parse_html print_html fun_length object_text append_object make_template has_id random fuel
  attachShadow getRootNode is_shadow_root).
Notation run_listener := (run_tip_listener k fire call_value call_placement sanitizer_of whitelist_of
  user_popper_config parse_html print_html fun_length object_text append_object make_template has_id random fuel
  attachShadow getRootNode is_shadow_root).

Lemma wait_new el c : keeps waiting (Tooltip_new el c : M W nat).
Proof. unfold BsTooltip.Tooltip_new, tip_setListeners. keep. Qed.
Hint Resolve wait_new : keeps.

Lemma wait_context_of o el : keeps waiting (context_of o el : M W nat).
Proof. unfold BsTooltip.context_of. keep. Qed.

Lemma wait_getTitle o : keeps waiting (getTitle call_value o : M W jsval).
Proof. unfold getTitle. keep. Qed.

Lemma wait_getContent o : keeps waiting (_getContent o : M W jsval).
Proof. unfold _getContent. keep. Qed.

Lemma wait_append_forged els v : keeps waiting (append_forged append_object els v : M W unit).
Proof. intros w Hw. unfold append_forged. destruct (append_object _ _ _). by apply frame_dom. Qed.
Hint Resolve wait_append_forged : keeps.

Lemma wait_setElementContent o els c :
  keeps waiting (setElementContent call_value sanitizer_of whitelist_of parse_html print_html fun_length
    object_text append_object o els c : M W unit).
Proof. unfold setElementContent. keep. Qed.
Hint Resolve wait_context_of wait_getTitle wait_getContent wait_setElementContent : keeps.

Lemma wait_isWithContent o : keeps waiting (isWithContent k call_value o : M W bool).
Proof. unfold isWithContent, tooltip_isWithContent, popover_isWithContent. keep. Qed.

Lemma wait_setContent o : keeps waiting (setContent o : M W unit).
Proof. unfold BsTooltip.setContent, tooltip_setContent, popover_setContent. keep. Qed.
Hint Resolve wait_isWithContent wait_setContent : keeps.

Lemma wait_insert_tip o el : keeps waiting (insert_tip o el).
Proof. unfold BsTooltip.insert_tip. keep. Qed.
Hint Resolve wait_insert_tip : keeps.

Lemma wait_shown fix_ o : (forall o, keeps waiting (fix_ o)) -> keeps waiting (tip_shown k fire make_template fix_ o).
Proof. intros Hfix. unfold tip_shown. keep. Qed.

Lemma wait_show_with fix_ o : (forall o, keeps waiting (fix_ o)) -> keeps waiting (show_with fix_ o).
Proof. intros Hfix. pose proof (wait_shown fix_ o Hfix). unfold tip_show_with. keep. Qed.

Lemma wait_fixTransition depth o : keeps waiting (fixTransition depth o).
Proof.
  revert o. induction depth as [|depth IH]; intros o; cbn [tip_fixTransition]; [keep|].
  pose proof (wait_show_with (fixTransition depth) o IH). keep.
Qed.

Lemma wait_show o : keeps waiting (tip_show o).
Proof. apply wait_show_with. apply wait_fixTransition. Qed.
Hint Resolve wait_show wait_fixTransition : keeps.

Lemma wait_enter event c : keeps waiting (enter_context event c).
Proof.
  unfold BsTooltip.enter_context. apply keeps_bind; [keep|]. intros _. apply keeps_bind; [keep|]. intros tip.
  apply keeps_get_then. intros s w Hw Hs. unfold get_dom, mbind at 1, M_bind at 1.
  destruct (jq_has_class (dom w) [tip] "show" || bool_decide (t_hoverState s = HoverShow)).
  - by apply wait_put.
  - destruct (delay_for s "show") as [ms|].
    + exact (schedule_waiting c s HoverShow (TipEnter c) ms w Hw Hs (or_introl eq_refl)).
    + revert w Hw Hs. enough (Hk : keeps waiting (clear_task (t_timeout s) ;;
        put c (fun this => this <| t_hoverState := HoverShow |>) ;; tip_show c)) by (intros; by apply Hk).
      keep.
Qed.
Hint Resolve wait_enter : keeps.

(** A tip without a pending delay. *)
Definition idle (o : nat) w : Prop := waiting w /\ delay_timers o w = [].

Instance idle_frame o : Frame (idle o).
Proof. split; intros w x [Hw E]; (split; [|done]); [by apply frame_dom|by apply frame_data|by apply frame_called|by apply frame_prevented]. Qed.

Lemma idle_put o f : keeps (idle o) (put o f : M W unit).
Proof.
  intros w [[Hn Ht] E]. split; [|exact E]. split; [by apply numbered_alter|]. intros o' j Hj.
  change (j ∈ delay_timers o' w) in Hj. cbn. unfold constant. rewrite lookup_alter_ne; [by apply Ht|].
  intros <-. rewrite E in Hj. by apply not_elem_of_nil in Hj.
Qed.

Lemma idle_remove o els : keeps (idle o) (jq_remove els : M W unit).
Proof.
  intros w [Hw E]. split; [by apply wait_remove|]. apply elem_of_nil_inv.
  intros j (t & Hin & Hd & <-)%elem_of_picked. apply list_elem_of_filter in Hin as [_ Hin].
  assert (Hj : task_id t ∈ delay_timers o w) by (apply elem_of_picked; eauto).
  rewrite E in Hj. by apply not_elem_of_nil in Hj.
Qed.

(** [dispose] leaves no delay. *)
Lemma dispose_idle o s w : waiting w -> heap w !! o = Some s -> idle o (fst (tip_dispose o w)).
Proof.
  intros Hw Hs. destruct (waiting_clear o (t_timeout s) w Hw) as (Hw1 & Hnone & _); [by rewrite Hs|].
  set (blank := fun _ : Tooltip P => {| t_isEnabled := false; t_timeout := None; t_hoverState := HoverNone;
    t_activeTrigger := Triggers false false false; t_popper := @None P; t_element := None;
    t_config := None; t_tip := None; t_listeners := []; t_modal := None |}).
  assert (E : tip_dispose o w = (remove_data (t_element s) ;;
    (match t_tip s with Some t => jq_remove [t] | None => skip end) ;; put o blank) (fst (clear_task (t_timeout s) w))).
  { unfold tip_dispose, get, mbind, M_bind. by rewrite Hs. }
  rewrite E. enough (Hk : keeps (idle o) (remove_data (t_element s) ;;
    (match t_tip s with Some t => jq_remove [t] | None => skip end) ;; put o blank)) by (by apply Hk).
  apply keeps_bind; [keep|]. intros _. apply keeps_bind; [|intros; apply idle_put].
  destruct (t_tip s); [apply idle_remove|keep].
Qed.

Lemma wait_dispose o : keeps waiting (tip_dispose o : M W unit).
Proof.
  intros w Hw. destruct (heap w !! o) as [s|] eqn:Hs; [by apply (dispose_idle o s w Hw Hs)|].
  unfold tip_dispose, get, mbind, M_bind. by rewrite Hs.
Qed.
Hint Resolve wait_dispose : keeps.

(** *** Events, the interface and the event loop *)
Lemma wait_by_class (k' : tip_class) (m1 m2 : M W unit) : keeps waiting m1 -> keeps waiting m2 ->
  keeps waiting (match k' with ClsTooltip => m1 | ClsPopover => m2 end).
Proof. by destruct k'. Qed.

Lemma wait_jQueryInterface els arg : keeps waiting (jQueryInterface els arg).
Proof.
  unfold tip_jQueryInterface, tooltip_jQueryInterface, popover_jQueryInterface, tip_method, tip_enable, tip_disable,
    tip_toggleEnabled, tip_update, tip_toggle. apply wait_by_class; keep.
Qed.

Lemma wait_listener o l e : keeps waiting (run_listener o l e).
Proof. unfold run_tip_listener, tip_toggle, tip_enter, tip_leave. keep. Qed.

Lemma wait_modal_hides o : keeps waiting (tip_modal_hides k fire make_template o).
Proof. unfold tip_modal_hides. keep. Qed.

Lemma wait_onUpdate o data : keeps waiting (tip_onUpdate k make_template o data : M W unit).
Proof. unfold tip_onUpdate, tip_placement_change. keep. Qed.

Lemma wait_onCreate o data : keeps waiting (tip_onCreate k make_template o data : M W unit).
Proof. unfold tip_onCreate, tip_placement_change. keep. Qed.

Lemma wait_plug c : keeps waiting (tip_plug c).
Proof. pose proof wait_shown. destruct c; unfold BsTooltip.tip_plug; keep. Qed.

(** What happens to the tips of a page: calls of the jQuery interface, events of
    the browser, the modal around a tip, Popper's reports, the event loop. *)
Inductive tip_step : W -> W -> Prop :=
  | ts_interface els arg w w' r : jQueryInterface els arg w = (w', r) -> tip_step w w'
  | ts_listener o l e w w' r : run_listener o l e w = (w', r) -> tip_step w w'
  | ts_modal o w w' r : tip_modal_hides k fire make_template o w = (w', r) -> tip_step w w'
  | ts_create o data w w' r : tip_onCreate k make_template o data w = (w', r) -> tip_step w w'
  | ts_update o data w w' r : tip_onUpdate k make_template o data w = (w', r) -> tip_step w w'
  | ts_loop w w' : loop_step tip_plug w w' -> tip_step w w'.

Lemma tip_step_waiting w w' : tip_step w w' -> waiting w -> waiting w'.
Proof.
  intros Hs Hw. destruct Hs as [els arg w w' r E|o l e w w' r E|o w w' r E|o d w w' r E|o d w w' r E|w w' Hl].
  - eapply keeps_run; [apply wait_jQueryInterface|exact E|done].
  - eapply keeps_run; [apply wait_listener|exact E|done].
  - eapply keeps_run; [apply wait_modal_hides|exact E|done].
  - eapply keeps_run; [apply wait_onCreate|exact E|done].
  - eapply keeps_run; [apply wait_onUpdate|exact E|done].
  - eapply (loop_step_keeps waiting); [apply wait_plug| | |exact Hl|done]; intros; by apply waiting_filter.
Qed.

(** C24. A hovered tip never fires twice: after any calls, events, reports of
    Popper, timeouts and transitions in any order, errors included, and
    whatever the page's listeners do through the same interface, at most one
    delay of a tip waits, the one its instance remembers, so that entering or
    leaving again replaces it; and disposing of a tip leaves none. *)
Theorem tip_delays w0 w : tasks w0 = [] -> heap w0 = ∅ -> rtc tip_step w0 w ->
  (forall o, delay_timers o w = [] \/
     exists i, delay_timers o w = [i] /\ (heap w !! o ≫= t_timeout) = Some i) /\
  (forall o, is_Some (heap w !! o) -> delay_timers o (fst (tip_dispose o w)) = []).
Proof.
  intros Et Eh Hs. assert (Hw : waiting w).
  { assert (Hw0 : waiting w0).
    { split; [by apply numbered_empty|]. intros o j. unfold delay_timers. rewrite Et. intros Hj.
      by apply not_elem_of_nil in Hj. }
    clear Et Eh. induction Hs as [|w0 w1 w Hs _ IH]; [done|]. by eapply IH, tip_step_waiting. }
  split.
  - intros o. pose proof (picked_nodup (delays o) (tasks w) (num_nodup _ (waiting_numbered w Hw))) as Hn.
    pose proof (waiting_tip w Hw o) as Hin. unfold delay_timers in *.
    destruct (picked (delays o) (tasks w)) as [|i [|j l]]; [by left|right; exists i|].
    + split; [done|]. apply Hin. by left.
    + exfalso. pose proof (Hin i ltac:(by left)) as Hi. pose proof (Hin j ltac:(by right; left)) as Hj.
      apply NoDup_cons in Hn as [Hn _]. apply Hn. rewrite Hi in Hj. injection Hj as ->. by left.
  - intros o [s Hs']. by apply (dispose_idle o s w Hw Hs').
Qed.
End tooltip.

(** ** A page to try them on *)
Module TipDemo.
Definition page : toy := Toy ∅ ∅ ∅ ∅ ∅ [] ∅ 100.
Definition sanitizer_of (v : jsval) : option (string -> string) := None.
Definition whitelist_of (v : jsval) : whitelist := DefaultWhitelist.
Definition parse (s : string) : list node := [Element "script" [] [Text s]; Element "b" [Attr "onclick" "x"] [Text s]].
Definition print (l : list node) : string := if decide (length l = 1%nat) then "<b>" else "?".
Definition fun_length (f : nat) : nat := 0.
Definition object_text (v : jsval) : string := "".
Definition append (els : list elem) (v : jsval) (d : toy) : toy * (exn + unit) := (d, inl TypeError).
Definition template (s : string) (d : toy) : elem * toy := create_element d.
Definition options : config := {["title" := VStr "hi"; "delay" := VNum 100; "html" := VBool true]}%string.
Definition w0 : World toy (Tooltip bool) tip_cb := MkWorld page ∅ ∅ [] ∅ 0%nat false.
Definition interface := tip_jQueryInterface (D := toy) (P := bool) (H0 := DropdownDemo.api) ClsTooltip silent
  (fun _ _ _ => VUndef) (fun _ _ _ _ => ""%string) sanitizer_of whitelist_of (fun _ o => o) parse print fun_length object_text append template
  (fun _ _ => false) (fun _ => 0%Q) 10 false None (fun _ => false).
Definition listener := run_tip_listener (D := toy) (P := bool) (H0 := DropdownDemo.api) ClsTooltip silent
  (fun _ _ _ => VUndef) (fun _ _ _ _ => ""%string) sanitizer_of whitelist_of (fun _ o => o) parse print fun_length object_text append template
  (fun _ _ => false) (fun _ => 0%Q) 10 false None (fun _ => false).
Definition created := fst (interface [10%nat] (ArgObject options) w0).
Definition hover := DomEvent "mouseenter" 10 10 None 0 "" 0 None.
Definition hovered := fst (listener 0 TlEnter hover created).
Definition step := tip_step (D := toy) (P := bool) (H0 := DropdownDemo.api) ClsTooltip silent
  (fun _ _ _ => VUndef) (fun _ _ _ _ => ""%string) sanitizer_of whitelist_of (fun _ o => o) parse print fun_length object_text append template
  (fun _ _ => false) (fun _ => 0%Q) 10 false None (fun _ => false).


Lemma hovered_reached : rtc step w0 hovered.
Proof.
  apply (rtc_l _ _ created); [by eapply ts_interface, surjective_pairing|].
  apply rtc_once. by eapply ts_listener, surjective_pairing.
Qed.
End TipDemo.

Lemma tip_delays_witness :
  length (delay_timers 0 TipDemo.hovered) = 1%nat /\
  delay_timers 0 (fst (tip_dispose (D := toy) (P := bool) 0 TipDemo.hovered)) = [].
Proof.
  split; [vm_compute; reflexivity|].
  refine (proj2 (tip_delays (D := toy) (P := bool) (H0 := DropdownDemo.api) ClsTooltip silent
    (fun _ _ _ => VUndef) (fun _ _ _ _ => ""%string) TipDemo.sanitizer_of TipDemo.whitelist_of (fun _ o => o)
    TipDemo.parse TipDemo.print TipDemo.fun_length TipDemo.object_text TipDemo.append TipDemo.template (fun _ _ => false) (fun _ => 0%Q) 10 false None (fun _ => false)
    (fun _ _ w Hw => Hw) TipDemo.w0 TipDemo.hovered eq_refl eq_refl TipDemo.hovered_reached) 0%nat _).
  vm_compute. eexists. reflexivity.
Defined.

