(* ===== verification/BsTabTheorems.v ===== *)
(** Tabs: showing a tab moves the active class of the list and of the panes,
    now or at the end of the fade; what switching again during a fade leaves. *)
From Stdlib Require Import ZArith QArith Lia String Ascii.
From stdpp Require Import base list gmap strings.
From coqutil Require Import Datatypes.RecordSetters.
From S2P Require Import Prelude Js JsDom BsUtil BsDomTheory BsHoare BsTabToast.

Local Open Scope Z_scope.

Section tabs.
Context {D : Type} `{DomLaws D}.
Local Abbreviation W := (World D Tab tab_cb).
Implicit Types (w : W) (d : D).

Definition is_on d (e : elem) : bool := has_class d e "active".
(** The active ones of some elements. *)
Definition on d (l : list elem) : list elem := filter (fun e => is_on d e = true) l.

(** The page may be styled, and [active] and [show] move. *)
Definition same_page d d' : Prop :=
  restyle d d' /\
  forall e c, c <> "active"%string -> c <> "show"%string -> has_class d' e c = has_class d e c.

#[export] Instance same_page_preorder : PreOrder same_page.
Proof.
  split; [by intros d|]. intros d d' d'' [Ha Hb] [Hc Hd]. split; [by etrans|].
  intros e c ? ?. by rewrite Hd, Hb.
Qed.

Lemma same_page_step d d' d'' : restyle d' d'' ->
  (forall e c, c <> "active"%string -> c <> "show"%string -> has_class d'' e c = has_class d' e c) ->
  same_page d d' -> same_page d d''.
Proof. intros Hr Hc Hd. by etrans; [exact Hd|split]. Qed.

(** An element that is not an entry of a drop-down menu. *)
Definition plain d (e p : elem) : Prop :=
  parent d e = Some p /\ has_class d p "dropdown-menu" = false /\
  query d (Some p) "> .dropdown-menu .active" = Some [].

(** A list of tabs [nav], the panes they show in [box], and an instance per tab,
    however the page is styled. *)
Record tabs_page (d0 : D) (nav box : elem) (tabs panes : list elem) (pane : elem -> elem) (inst : elem -> nat) : Prop := {
  tabs_nodup : NoDup tabs;
  panes_nodup : NoDup panes;
  tabs_pane t : t ∈ tabs -> pane t ∈ panes;
  tabs_inj t t' : t ∈ tabs -> t' ∈ tabs -> pane t = pane t' -> t = t';
  tabs_apart e : e ∈ tabs -> e ∈ panes -> False;
  tabs_plain t : t ∈ tabs -> exists p, forall d, same_page d0 d ->
    plain d t p /\ Qeq_bool (num_prop d p "nodeType") 1 = true;
  tabs_nav t d : t ∈ tabs -> same_page d0 d -> closest d t ".nav, .list-group" = Some nav;
  tabs_find d : same_page d0 d ->
    query d (Some nav) (if is_list d nav then "> li > .active" else ".active") = Some (on d tabs);
  tabs_children d : same_page d0 d -> is_list d nav = false ->
    filter (fun e => matches d e ".active" = true) (children d nav) = on d tabs;
  tabs_target t w : t ∈ tabs -> same_page d0 (dom w) -> exists s l,
    selector_of t w = (w, inr (Some s)) /\ String.eqb s "" = false /\ query (dom w) None s = Some (pane t :: l);
  panes_plain p d : p ∈ panes -> same_page d0 d -> plain d p box;
  panes_box d : same_page d0 d -> is_list d box = false /\
    filter (fun e => matches d e ".active" = true) (children d box) = on d panes
}.

Definition shown_stay d d' : Prop := forall e, has_class d e "show" = true -> has_class d' e "show" = true.

(** The active class after a transition from [active] to [element]. *)
Definition moved (active : option elem) (element : elem) d d' : Prop :=
  same_page d d' /\ shown_stay d d' /\
  forall e, is_on d' e = bool_decide (e = element) || negb (bool_decide (active = Some e)) && is_on d e.

Ltac classes := autorewrite with classes; repeat case_bool_decide; naive_solver.

Lemma same_add e c d d' : c = "active"%string \/ c = "show"%string -> same_page d d' -> same_page d (add_class e c d').
Proof. intros Hc. apply same_page_step; [auto with wp|]. intros e' c' ? ?. classes. Qed.

Lemma same_remove e c d d' : c = "active"%string \/ c = "show"%string -> same_page d d' -> same_page d (remove_class e c d').
Proof. intros Hc. apply same_page_step; [auto with wp|]. intros e' c' ? ?. classes. Qed.

Lemma same_aria e k v d d' : String.prefix "aria-" k = true -> same_page d d' -> same_page d (set_attr e k v d').
Proof. intros Hk. apply same_page_step; [by apply restyle_aria|]. intros e' c' ? ?. classes. Qed.

(** The entry that leaves. *)
Lemma leave_runs d0 a p (Q : unit -> W -> Prop) w : same_page d0 (dom w) -> (forall d, same_page d0 d -> plain d a p) ->
  (forall d', same_page (dom w) d' -> shown_stay (dom w) d' ->
    (forall e, is_on d' e = negb (bool_decide (a = e)) && is_on (dom w) e) ->
    Q tt (w <| dom := d' |>)) ->
  runs (mod_dom (jq_remove_class [a] "active") ;;
    d ← get_dom;
    dropdownChild ← (match parent d a with
                     | Some p => query_one (Some p) "> .dropdown-menu .active"
                     | None => mret None
                     end);
    mod_dom (jq_remove_class (option_list dropdownChild) "active") ;;
    when (bool_decide (attr d a "role" = Some "tab"%string))
      (mod_dom (set_attr a "aria-selected" (Some "false"%string)))) Q w.
Proof.
  intros Hw Hp HQ. wp. rewrite jq_remove_one by done.
  assert (Hd : same_page (dom w) (remove_class a "active" (dom w))) by (apply same_remove; [by left|done]).
  autorewrite with world.
  destruct (Hp (remove_class a "active" (dom w))) as (-> & _ & Hq); [by etrans|].
  eapply runs_query_one; [exact Hq|]. wp.
  assert (Ha : forall e, is_on (remove_class a "active" (dom w)) e = negb (bool_decide (a = e)) && is_on (dom w) e).
  { intros e. unfold is_on. autorewrite with classes. f_equal. f_equal. apply bool_decide_ext. naive_solver. }
  assert (Hs : shown_stay (dom w) (remove_class a "active" (dom w))) by (intros e He; classes).
  apply runs_when; intros _; [wp; apply (HQ (set_attr a "aria-selected" _ _))|by apply (HQ (remove_class a "active" (dom w)))].
  - by apply same_aria.
  - intros e. rewrite has_class_set_attr. apply Hs.
  - intros e. unfold is_on. rewrite has_class_set_attr. apply Ha.
Qed.

(** The entry that comes. *)
Definition enter (element : elem) (callback : option tab_complete) : M W unit :=
  mod_dom (jq_add_class [element] "active") ;;
  d ← get_dom;
  when (bool_decide (attr d element "role" = Some "tab"%string))
    (mod_dom (set_attr element "aria-selected" (Some "true"%string))) ;;
  when (has_class d element "fade") (mod_dom (add_class element "show")) ;;
  (match parent d element with
   | Some p =>
       if jq_has_class d [p] "dropdown-menu" then
         (match closest d element ".dropdown" with
          | Some dropdownElement =>
              toggles ← query_all (Some dropdownElement) ".dropdown-toggle";
              mod_dom (jq_add_class toggles "active")
          | None => skip
          end) ;;
         mod_dom (set_attr element "aria-expanded" (Some "true"%string))
       else skip
   | None => skip
   end) ;;
  match callback with Some c => tab_finish silent c | None => skip end.

Lemma finish_runs c (Q : unit -> W -> Prop) w : is_Some (heap w !! tc_this c) -> Q tt w -> runs (tab_finish silent c) Q w.
Proof. intros [s Hs] HQ. unfold tab_finish. apply runs_bind. eapply runs_get; [exact Hs|]. by wp. Qed.

Lemma enter_runs d0 e p cb (Q : unit -> W -> Prop) w : same_page d0 (dom w) -> (forall d, same_page d0 d -> plain d e p) ->
  (forall c, cb = Some c -> is_Some (heap w !! tc_this c)) ->
  (forall d', same_page (dom w) d' -> shown_stay (dom w) d' ->
    (forall e', is_on d' e' = bool_decide (e' = e) || is_on (dom w) e') ->
    (has_class d0 e "fade" = true -> has_class d' e "show" = true) -> Q tt (w <| dom := d' |>)) ->
  runs (enter e cb) Q w.
Proof.
  intros Hw Hp Hcb HQ. unfold enter. wp. autorewrite with world. rewrite jq_add_one by done.
  set (d1 := add_class e "active" (dom w)).
  assert (Hd1 : same_page (dom w) d1) by (apply same_add; [by left|done]).
  destruct (Hp d1) as (-> & Hmenu & _); [by etrans|]. rewrite has_class_one, Hmenu. cbv beta iota.
  replace (has_class d1 e "fade") with (has_class d0 e "fade") by (symmetry; etrans; [by apply Hd1|by apply Hw]).
  assert (Hend : forall d', same_page (dom w) d' -> shown_stay (dom w) d' -> (forall e', is_on d' e' = bool_decide (e' = e) || is_on (dom w) e') ->
    (has_class d0 e "fade" = true -> has_class d' e "show" = true) ->
    runs (skip ;; match cb with Some c => tab_finish silent c | None => skip end) Q (w <| dom := d' |>)).
  { intros d' Hd' Hst Hon Hsh. wp. destruct cb as [c|]; [apply finish_runs; [by apply Hcb|]|wp]; by apply HQ. }
  assert (Hon1 : forall e', is_on d1 e' = bool_decide (e' = e) || is_on (dom w) e').
  { intros e'. unfold is_on, d1. autorewrite with classes. f_equal. apply bool_decide_ext. naive_solver. }
  assert (Hs1 : shown_stay (dom w) d1) by (intros e' He'; unfold d1; classes).
  assert (Hrest : forall d', same_page (dom w) d' -> shown_stay (dom w) d' -> (forall e', is_on d' e' = bool_decide (e' = e) || is_on (dom w) e') ->
    runs (when (has_class d0 e "fade") (mod_dom (add_class e "show"))) (fun _ =>
      runs (skip ;; match cb with Some c => tab_finish silent c | None => skip end) Q) (w <| dom := d' |>)).
  { intros d' Hd' Hst Hon. apply runs_when; intros Hf; [wp|apply Hend; [done..|congruence]].
    apply (Hend (add_class e "show" d')); [by apply same_add; [right|]|..];
      [intros e' He'%Hst|intros e'; rewrite <- Hon; unfold is_on|intros _]; classes. }
  apply runs_when; intros _; [wp; apply (Hrest (set_attr e "aria-selected" (Some "true"%string) d1))|by apply runs_bind, (Hrest d1)].
  - by apply same_aria.
  - intros e'. rewrite has_class_set_attr. apply Hs1.
  - intros e'. unfold is_on. rewrite has_class_set_attr. apply Hon1.
Qed.

(** [_transitionComplete]. *)
Lemma complete_runs d0 element p active cb (Q : unit -> W -> Prop) w : same_page d0 (dom w) ->
  (forall d, same_page d0 d -> plain d element p) ->
  (forall a, active = Some a -> exists p, forall d, same_page d0 d -> plain d a p) ->
  (forall c, cb = Some c -> is_Some (heap w !! tc_this c)) ->
  (forall d', moved active element (dom w) d' -> (has_class d0 element "fade" = true -> has_class d' element "show" = true) ->
    Q tt (w <| dom := d' |>)) ->
  runs (tab_transitionComplete silent element active cb) Q w.
Proof.
  intros Hw Hel Hact Hcb HQ. unfold tab_transitionComplete.
  assert (Hin : forall d1, same_page (dom w) d1 -> shown_stay (dom w) d1 ->
    (forall e, is_on d1 e = negb (bool_decide (active = Some e)) && is_on (dom w) e) ->
    runs (enter element cb) Q (w <| dom := d1 |>)).
  { intros d1 Hd1 Hs1 Hon1. apply (enter_runs d0 element p); [by etrans|done|by apply Hcb|].
    intros d' Hd' Hs Hon Hsh. apply (HQ d'); [|done]. split; [by etrans|]. split; [intros x Hx; by apply Hs, Hs1|].
    intros e. rewrite Hon, <- Hon1. done. }
  destruct active as [a|]; [|apply (Hin (dom w)); [done|by intros e|done]].
  destruct (Hact a eq_refl) as [pa Ha]. apply runs_bind, (leave_runs d0 a pa); [done|done|].
  intros d' Hd' Hs Hon. apply Hin; [done|done|]. intros e. rewrite Hon. do 2 f_equal. apply bool_decide_ext. naive_solver.
Qed.

(** ** One page *)
Context (d0 : D) (nav box : elem) (tabs panes : list elem) (pane : elem -> elem) (inst : elem -> nat).
Context (Hpage : tabs_page d0 nav box tabs panes pane inst).

Lemma elem_of_on e d l : e ∈ on d l <-> e ∈ l /\ is_on d e = true.
Proof. unfold on. rewrite list_elem_of_filter. naive_solver. Qed.

Lemma on_head a d l : head (on d l) = Some a -> a ∈ l /\ is_on d a = true.
Proof. destruct (on d l) as [|x k] eqn:E; [done|]. intros [= ->]. rewrite <- elem_of_on, E. by left. Qed.

Lemma on_single e d l : NoDup l -> e ∈ l -> (forall x, x ∈ l -> is_on d x = true <-> x = e) -> on d l = [e].
Proof.
  intros Hl He Hon'. assert (Hnd : NoDup (on d l)) by by apply NoDup_filter.
  assert (Hone : forall x, x ∈ on d l <-> x = e).
  { intros x. rewrite elem_of_on. split; [intros [Hx Hx']; by apply Hon'|intros ->; by rewrite Hon']. }
  destruct (on d l) as [|x [|y k]].
  - exfalso. apply (not_elem_of_nil e). by apply Hone.
  - f_equal. apply Hone. by left.
  - assert (x = e) by (apply Hone; by left). assert (y = e) by (apply Hone; by right; left). subst.
    apply NoDup_cons in Hnd as [[] _]. by left.
Qed.

(** The only active one of a list moves. *)
Lemma on_moved a e d d' l : NoDup l -> e ∈ l -> on d l = option_list a -> moved a e d d' -> on d' l = [e].
Proof.
  intros Hl He Hon (_ & _ & Hm). apply on_single; [done|done|].
  intros x Hx. rewrite Hm, orb_true_iff, bool_decide_eq_true, andb_true_iff, negb_true_iff, bool_decide_eq_false.
  split; [|auto]. intros [?|[Hne Hx']]; [done|]. exfalso.
  assert (Hin : x ∈ option_list a) by (rewrite <- Hon; by apply elem_of_on).
  destruct a as [y|]; [|by apply not_elem_of_nil in Hin]. apply list_elem_of_singleton in Hin. by subst.
Qed.

(** A list in which nothing moves. *)
Lemma on_apart a e d d' l : e ∉ l -> (forall x, a = Some x -> x ∉ l) -> moved a e d d' -> on d' l = on d l.
Proof.
  intros He Ha (_ & _ & Hm). unfold on. induction l as [|x l IH]; [done|].
  assert (Hx : is_on d' x = is_on d x).
  { rewrite Hm, (bool_decide_eq_false_2 (x = e)) by set_solver.
    rewrite bool_decide_eq_false_2; [done|]. intros ->. apply (Ha x); [done|by left]. }
  rewrite !filter_cons, Hx, IH; [done|set_solver|set_solver].
Qed.

(** [_activate] in the list of the tabs. *)
Lemma nav_activate t (Q : unit -> W -> Prop) w : same_page d0 (dom w) -> t ∈ tabs ->
  (forall d', moved (head (on (dom w) tabs)) t (dom w) d' -> Q tt (w <| dom := d' |>)) ->
  runs (tab_activate silent t (Some nav) None) Q w.
Proof.
  intros Hw Ht HQ. unfold tab_activate. wp.
  assert (Hgo : runs (tab_transitionComplete silent t (head (on (dom w) tabs)) None) Q w).
  { destruct (tabs_plain _ _ _ _ _ _ _ Hpage t Ht) as [p Hp]. apply (complete_runs d0 t p); [done|by apply Hp| |done|auto].
    intros a [Ha _]%on_head. destruct (tabs_plain _ _ _ _ _ _ _ Hpage a Ha) as [pa Hpa]. exists pa. apply Hpa. }
  assert (Hgo' : runs (match head (on (dom w) tabs) with
     | Some a => tab_transitionComplete silent t (head (on (dom w) tabs)) None
     | None => tab_transitionComplete silent t (head (on (dom w) tabs)) None end) Q w) by by destruct (head _).
  pose proof (tabs_find _ _ _ _ _ _ _ Hpage (dom w) Hw) as Hq.
  pose proof (tabs_children _ _ _ _ _ _ _ Hpage (dom w) Hw) as Hch.
  destruct (is_list (dom w) nav); [eapply runs_query_all; [exact Hq|]|rewrite Hch by done; wp]; exact Hgo'.
Qed.

(** [_activate] of a pane: at once, or when the pane that leaves has faded. *)
Lemma box_activate e o prev (Q : unit -> W -> Prop) w : same_page d0 (dom w) -> e ∈ panes -> is_Some (heap w !! o) ->
  (forall d', (forall a, head (on (dom w) panes) = Some a -> has_class d0 a "fade" = false) ->
    moved (head (on (dom w) panes)) e (dom w) d' ->
    (has_class d0 e "fade" = true -> has_class d' e "show" = true) -> Q tt (w <| dom := d' |>)) ->
  (forall a ms, head (on (dom w) panes) = Some a -> has_class d0 a "fade" = true ->
    Q tt (w <| dom := remove_class a "show" (dom w) |>
      <| tasks := tasks w ++ [Task (next_id w) (Once a TRANSITION_END) (Call (TabTransition e (Some a) (Some (TabComplete o prev))));
           Task (next_id w + 2) (Once a TRANSITION_END) (EmuMark (next_id w + 1));
           Task (next_id w + 3) (Timeout ms) (EmuFire (next_id w + 1) [a])] |>
      <| next_id := (next_id w + 4)%nat |>)) ->
  runs (tab_activate silent e (Some box) (Some (TabComplete o prev))) Q w.
Proof.
  intros Hw He Ho Hnow Hlater. unfold tab_activate. wp.
  destruct (panes_box _ _ _ _ _ _ _ Hpage (dom w) Hw) as [-> ->]. wp.
  assert (Hgo : (forall a, head (on (dom w) panes) = Some a -> has_class d0 a "fade" = false) ->
    runs (tab_transitionComplete silent e (head (on (dom w) panes)) (Some (TabComplete o prev))) Q w).
  { intros Hf. apply (complete_runs d0 e box); [done| | | |].
    - intros d Hd. by apply (panes_plain _ _ _ _ _ _ _ Hpage).
    - intros a [Ha _]%on_head. exists box. intros d Hd. by apply (panes_plain _ _ _ _ _ _ _ Hpage).
    - by intros c [= <-].
    - intros d' Hm Hs. by apply Hnow. }
  destruct (head (on (dom w) panes)) as [a|] eqn:Ea; [|by apply Hgo].
  change (option_list (Some a)) with [a]. rewrite has_class_one.
  rewrite bool_decide_eq_true_2 by done. rewrite andb_true_l.
  destruct Hw as [Hr Hcl]. rewrite (Hcl a "fade"%string) by done.
  destruct (has_class d0 a "fade") eqn:Ef; [|apply Hgo; by intros ? [= <-]].
  wp. rewrite jq_remove_one by done. destruct w as [dm hp dt tk cl ni pv].
  specialize (Hlater a (default 0%Q (getTransitionDurationFromElement dm (Some a))) eq_refl Ef).
  autorewrite with world. cbn in Hlater |- *. rewrite <- app_assoc. cbn.
  replace (ni + 1 + 1)%nat with (ni + 2)%nat by lia. replace (ni + 1 + 2)%nat with (ni + 3)%nat by lia.
  replace (ni + 1 + 3)%nat with (ni + 4)%nat by lia. exact Hlater.
Qed.

(** [show] of a tab that is neither active nor disabled. *)
Lemma tab_show_runs t (Q : unit -> W -> Prop) w : same_page d0 (dom w) -> t ∈ tabs ->
  heap w !! inst t = Some {| tab_element := Some t |} ->
  is_on (dom w) t = false -> has_class d0 t "disabled" = false ->
  (forall d', moved (head (on (dom w) tabs)) t (dom w) d' ->
    runs (tab_activate silent (pane t) (Some box) (Some (TabComplete (inst t) (last (on (dom w) tabs))))) Q
      (w <| dom := d' |>)) ->
  runs (tab_show silent (inst t)) Q w.
Proof.
  intros Hw Ht Ho Hoff Hdis HQ. unfold tab_show. apply runs_bind. eapply runs_get; [exact Ho|].
  cbn [tab_element]. wp. unfold is_on in Hoff. rewrite Hoff, andb_false_r.
  destruct Hw as [Hr Hcl]. rewrite (Hcl t "disabled"%string), Hdis by done. cbn [orb].
  assert (Hw : same_page d0 (dom w)) by done.
  rewrite (tabs_nav _ _ _ _ _ _ _ Hpage) by done.
  destruct (tabs_target _ _ _ _ _ _ _ Hpage t w Ht Hw) as (s & l & Hsel & Hs & Hq).
  apply runs_bind. eapply runs_intro; [exact Hsel|]. unfold tab_previous. wp.
  eapply runs_query_all; [by apply (tabs_find _ _ _ _ _ _ _ Hpage)|]. wp. cbv beta iota. cbn [orb].
  apply runs_bind. rewrite Hs. wp. apply nav_activate; [done|done|]. intros d' Hd'. cbn [head]. wp. autorewrite with world.
  destruct (panes_plain _ _ _ _ _ _ _ Hpage (pane t) d') as (-> & _); [|by etrans; [|apply Hd']|by apply HQ].
  by apply (tabs_pane _ _ _ _ _ _ _ Hpage).
Qed.

(** Moving the active tab leaves the panes, and conversely. *)
Lemma moved_tabs t0 t d d' : t0 ∈ tabs -> t ∈ tabs -> on d tabs = [t0] -> moved (Some t0) t d d' ->
  on d' tabs = [t] /\ on d' panes = on d panes.
Proof.
  intros Ht0 Ht Hon Hm. split.
  - apply (on_moved (Some t0) t d); [apply Hpage|done|exact Hon|done].
  - apply (on_apart (Some t0) t); [|intros x [= <-]|exact Hm]; intros Hx; by apply (tabs_apart _ _ _ _ _ _ _ Hpage _) in Hx.
Qed.

Lemma moved_panes t0 t d d' : t0 ∈ tabs -> t ∈ tabs -> on d panes = [pane t0] -> moved (Some (pane t0)) (pane t) d d' ->
  on d' panes = [pane t] /\ on d' tabs = on d tabs.
Proof.
  intros Ht0 Ht Hon Hm.
  pose proof (tabs_pane _ _ _ _ _ _ _ Hpage t0 Ht0) as Hp0. pose proof (tabs_pane _ _ _ _ _ _ _ Hpage t Ht) as Hp.
  split.
  - apply (on_moved (Some (pane t0)) (pane t) d); [apply Hpage|done|exact Hon|done].
  - apply (on_apart (Some (pane t0)) (pane t)); [|intros x [= <-]|exact Hm]; intros Hx; by apply (tabs_apart _ _ _ _ _ _ _ Hpage _ Hx).
Qed.

(** ** Switching while a pane fades *)

(** The callbacks that wait for the pane [p] to have faded. *)
Definition waiting (p : elem) w : list (callback tab_cb) :=
  map task_run (filter (fun tk => is_once p TRANSITION_END tk = true) (tasks w)).

(** Those of a sequence of tabs shown meanwhile. *)
Inductive queue (p : elem) : list (callback tab_cb) -> list elem -> Prop :=
| queue_nil : queue p [] []
| queue_snoc l ts t prev c : queue p l ts ->
    queue p (l ++ [Call (TabTransition (pane t) (Some p) (Some (TabComplete (inst t) prev))); EmuMark c]) (ts ++ [t]).

Definition ready w (t : elem) : Prop :=
  t ∈ tabs /\ heap w !! inst t = Some {| tab_element := Some t |} /\ has_class d0 t "disabled" = false.

(** One more tab while [p] fades. *)
Lemma show_in_fade p t t1 ts w : p ∈ panes -> has_class d0 p "fade" = true -> same_page d0 (dom w) -> ready w t ->
  on (dom w) tabs = [t1] -> t1 <> t -> on (dom w) panes = [p] -> queue p (waiting p w) ts ->
  runs (tab_show silent (inst t)) (fun _ w' => same_page d0 (dom w') /\ heap w' = heap w /\
    on (dom w') tabs = [t] /\ on (dom w') panes = [p] /\ queue p (waiting p w') (ts ++ [t])) w.
Proof.
  intros Hp Hf Hw (Ht & Ho & Hdis) Hon Hne Hpan Hq.
  assert (Hoff : is_on (dom w) t = false).
  { apply not_true_is_false. intros E. assert (t ∈ [t1]) as ->%list_elem_of_singleton; [|done].
    rewrite <- Hon. by apply elem_of_on. }
  apply tab_show_runs; [done..|]. rewrite Hon. cbn [head]. intros d1 Hd1.
  assert (Ht1 : t1 ∈ tabs).
  { assert (Hin : t1 ∈ on (dom w) tabs) by (rewrite Hon; by left). by apply elem_of_on in Hin as [? _]. }
  destruct (moved_tabs t1 t (dom w) d1) as [Htabs Hpanes]; [done..|]. rewrite Hpan in Hpanes.
  apply box_activate; autorewrite with world.
  - etrans; [exact Hw|apply Hd1].
  - by apply (tabs_pane _ _ _ _ _ _ _ Hpage).
  - by rewrite Ho.
  - rewrite Hpanes. intros d' Hno _ _. specialize (Hno p eq_refl). congruence.
  - rewrite Hpanes. intros a ms [= <-] _.
    assert (Hsame : forall l, on (remove_class p "show" d1) l = on d1 l).
    { intros l. unfold on. apply list_filter_iff. intros e. unfold is_on. autorewrite with classes.
      rewrite bool_decide_eq_false_2; [done|]. by intros [_ ?]. }
    autorewrite with world. rewrite !Hsame. split; [|split; [done|split; [done|split; [done|]]]].
    + apply same_remove; [by right|]. etrans; [exact Hw|apply Hd1].
    + unfold waiting. autorewrite with world. rewrite filter_app, map_app.
      rewrite filter_cons_True by (unfold is_once; cbn; by rewrite Nat.eqb_refl).
      rewrite filter_cons_True by (unfold is_once; cbn; by rewrite Nat.eqb_refl).
      rewrite filter_cons_False by done. cbn. by constructor.
Qed.

Lemma runs_for_each_app {A} (l k : list A) (f : A -> M W unit) Q w :
  runs (for_each l f) (fun _ => runs (for_each k f) Q) w -> runs (for_each (l ++ k) f) Q w.
Proof.
  revert w. induction l as [|a l IH]; intros w; [done|]. cbn [for_each app]. intros Hr.
  apply runs_bind. unfold runs at 1 in Hr. unfold mbind, M_bind in Hr. unfold runs at 1.
  destruct (f a w) as [w' [e|u]]; [done|]. by apply IH.
Qed.

(** The panes after the callbacks of the sequence [ts] have run. *)
Definition faded p ts w w' : Prop :=
  same_page d0 (dom w') /\ heap w' = heap w /\ on (dom w') tabs = on (dom w) tabs /\
  (forall e, is_on (dom w') e = true <-> (exists t, t ∈ ts /\ e = pane t) \/ is_on (dom w) e = true /\ (ts = [] \/ e <> p)) /\
  forall t, t ∈ ts -> has_class d0 (pane t) "fade" = true -> has_class (dom w') (pane t) "show" = true.

Lemma queue_runs p l ts w : queue p l ts -> p ∈ panes -> same_page d0 (dom w) ->
  (forall t, t ∈ ts -> ready w t /\ pane t <> p) ->
  runs (for_each l (run_mark_or_call (tab_plug silent))) (fun _ => faded p ts w) w.
Proof.
  intros Hq Hp Hw. induction Hq as [|l ts t prev c Hq IH]; intros Hts.
  - apply runs_skip. split; [done|]. split; [done|]. split; [done|]. split; [|set_solver].
    intros e. split; [by intros He; right; split; [|left]|]. intros [(t & Ht & _)|[? _]]; [set_solver|done].
  - apply runs_for_each_app. eapply runs_mono; [|apply IH; intros t' Ht'; apply Hts; set_solver].
    intros _ w1 (Hw1 & Hh1 & Hon1 & Hp1 & Hs1).
    destruct (Hts t) as [(Ht & Ho & _) Hne]; [set_solver|].
    pose proof (tabs_pane _ _ _ _ _ _ _ Hpage t Ht) as Hpt.
    cbn [for_each]. apply runs_bind. cbn [run_mark_or_call]. cbn [tab_plug].
    apply (complete_runs d0 (pane t) box); [done| | | |].
    + intros d Hd. by apply (panes_plain _ _ _ _ _ _ _ Hpage).
    + intros a [= <-]. exists box. intros d Hd. by apply (panes_plain _ _ _ _ _ _ _ Hpage).
    + intros ? [= <-]. cbn [tc_this]. by rewrite Hh1, Ho.
    + intros d' Hd' Hsh. apply runs_bind, runs_pure, runs_skip. unfold faded. cbn [dom heap].
      split; [etrans; [exact Hw1|apply Hd']|]. split; [exact Hh1|]. split; [|split].
      * rewrite <- Hon1. apply (on_apart (Some p) (pane t)); [|intros x [= <-]|exact Hd'];
          intros Hx; by apply (tabs_apart _ _ _ _ _ _ _ Hpage _ Hx).
      * intros e. destruct Hd' as (_ & _ & Hm).
        change (is_on d' e = true <-> (exists t0, t0 ∈ ts ++ [t] /\ e = pane t0) \/
          is_on (dom w) e = true /\ (ts ++ [t] = [] \/ e <> p)).
        rewrite Hm, orb_true_iff, bool_decide_eq_true, andb_true_iff, negb_true_iff, bool_decide_eq_false, Hp1.
        setoid_rewrite elem_of_app. setoid_rewrite list_elem_of_singleton.
        assert (Hnil : ts ++ [t] <> []) by (by intros [_ [=]]%app_nil).
        split.
        -- intros [-> |[Hep [(t' & ? & ?)|[? _]]]]; [left; by exists t; auto|left; by exists t'; auto|right; naive_solver].
        -- intros [(t' & [Ht'| ->] & ->)|[Hon [?|Hep]]]; [|by left|done|right; naive_solver].
           right. split; [|left; by exists t']. intros [= E]. destruct (Hts t') as [_ Hne']; [set_solver|]. by apply Hne'.
      * intros t' [Ht'| ->%list_elem_of_singleton]%elem_of_app Hf'; [|by apply Hsh]. apply Hd'. by apply Hs1.
Qed.

Lemma elem_of_last {A} (l : list A) a : List.last l a ∈ a :: l.
Proof.
  revert a. induction l as [|x l IH]; intros a; [by left|]. right.
  replace (List.last (x :: l) a) with (List.last l x); [apply IH|].
  clear. revert x a. induction l as [|y l IH]; intros x a; [done|]. change (List.last (y :: l) x = List.last (y :: l) a). by rewrite <- !IH.
Qed.

Lemma shows_in_fade t0 ts w : has_class d0 (pane t0) "fade" = true -> same_page d0 (dom w) ->
  t0 ∈ tabs -> on (dom w) tabs = [t0] -> on (dom w) panes = [pane t0] -> waiting (pane t0) w = [] ->
  NoDup (t0 :: ts) -> (forall t, t ∈ ts -> ready w t) ->
  runs (for_each ts (fun t => tab_show silent (inst t))) (fun _ w' => same_page d0 (dom w') /\ heap w' = heap w /\
    on (dom w') tabs = [List.last ts t0] /\ on (dom w') panes = [pane t0] /\ queue (pane t0) (waiting (pane t0) w') ts) w.
Proof.
  intros Hf Hw Ht0 Hon Hpan Hq Hnd Hts.
  pose proof (tabs_pane _ _ _ _ _ _ _ Hpage t0 Ht0) as Hp.
  eapply runs_mono; [|apply (runs_for_each _ _ (fun left w' => exists done_, ts = done_ ++ left /\
    same_page d0 (dom w') /\ heap w' = heap w /\ on (dom w') tabs = [List.last done_ t0] /\
    on (dom w') panes = [pane t0] /\ queue (pane t0) (waiting (pane t0) w') done_))].
  - intros _ w' (k & -> & Hr). by rewrite app_nil_r.
  - exists []. rewrite Hq. do 5 (split; [done|]). constructor.
  - intros t left w' (k & Ek & Hw' & Hh & Hon' & Hpan' & Hq'). destruct (Hts t) as (Ht & Ho & Hdis); [set_solver|].
    eapply runs_mono; [|apply (show_in_fade (pane t0) t (List.last k t0) k w'); try done].
    + intros _ w'' (H1 & H2 & H3 & H4 & H5). exists (k ++ [t]). rewrite <- app_assoc, List.last_last.
      do 5 (split; [done || congruence|]). done.
    + unfold ready. by rewrite Hh.
    + intros E. subst ts. apply NoDup_cons in Hnd as [Hn0 Hnd].
      pose proof (elem_of_last k t0) as Hin. rewrite E in Hin.
      apply elem_of_cons in Hin as [-> |Hin]; [set_solver|].
      apply NoDup_app in Hnd as (_ & Hd & _). apply (Hd t Hin). by left.
Qed.

(** The end of the fade of [p]. *)
Definition fade_end (p : elem) : M W unit := deliver (tab_plug silent) p TRANSITION_END.

Lemma fade_end_runs p ts w : queue p (waiting p w) ts -> p ∈ panes -> same_page d0 (dom w) ->
  (forall t, t ∈ ts -> ready w t /\ pane t <> p) -> runs (fade_end p) (fun _ => faded p ts w) w.
Proof.
  intros Hq Hp Hw Hts.
  set (w0 := w <| tasks := filter (fun tk => is_once p TRANSITION_END tk = false) (tasks w) |>).
  change (runs (for_each (waiting p w) (run_mark_or_call (tab_plug silent))) (fun _ => faded p ts w) w0).
  eapply runs_mono; [|exact (queue_runs p (waiting p w) ts w0 Hq Hp Hw Hts)]. by intros u w' Hf.
Qed.

(** A page at rest on the tab [t0]. *)
Definition resting w (t0 : elem) : Prop :=
  same_page d0 (dom w) /\ t0 ∈ tabs /\ on (dom w) tabs = [t0] /\ on (dom w) panes = [pane t0] /\
  waiting (pane t0) w = [].

Lemma ready_apart w t0 ts : NoDup (t0 :: ts) -> t0 ∈ tabs -> (forall t, t ∈ ts -> ready w t) ->
  forall t, t ∈ ts -> ready w t /\ pane t <> pane t0.
Proof.
  intros [Hn _]%NoDup_cons Ht0 Hts t Ht. split; [by apply Hts|]. intros E. apply Hn.
  destruct (Hts t Ht) as [Htt _]. by rewrite <- (tabs_inj _ _ _ _ _ _ _ Hpage t t0).
Qed.

(** The panes when the switches of a fade have ended. *)
Lemma switches_run t0 ts w : resting w t0 -> has_class d0 (pane t0) "fade" = true ->
  NoDup (t0 :: ts) -> (forall t, t ∈ ts -> ready w t) ->
  exists w1 w2, for_each ts (fun t => tab_show silent (inst t)) w = (w1, inr tt) /\
    fade_end (pane t0) w1 = (w2, inr tt) /\
    on (dom w1) tabs = [List.last ts t0] /\ on (dom w1) panes = [pane t0] /\ faded (pane t0) ts w1 w2.
Proof.
  intros (Hw & Ht0 & Hon & Hpan & Hq) Hf Hnd Hts.
  destruct (runs_unit _ _ _ (shows_in_fade t0 ts w Hf Hw Ht0 Hon Hpan Hq Hnd Hts))
    as (w1 & E1 & Hw1 & Hh1 & Hon1 & Hpan1 & Hq1).
  pose proof (tabs_pane _ _ _ _ _ _ _ Hpage t0 Ht0) as Hp.
  destruct (runs_unit _ _ _ (fade_end_runs (pane t0) ts w1 Hq1 Hp Hw1
    ltac:(unfold ready; rewrite Hh1; by apply ready_apart))) as (w2 & E2 & Hfd).
  by exists w1, w2.
Qed.

(** C19. Showing a tab that is not disabled, of a list whose tabs are not entries
    of a drop-down menu: from a page at rest on another tab, [show] runs to its
    end and makes it the only active tab of its list; its pane is the only
    active one of its box, and shown if panes fade, at once if the pane that
    leaves does not fade and otherwise when that fade has ended. *)
Theorem tab_show_exclusive t0 t w : resting w t0 -> ready w t -> t <> t0 ->
  exists w1 w2, tab_show silent (inst t) w = (w1, inr tt) /\
    (if has_class d0 (pane t0) "fade" then fade_end (pane t0) else skip) w1 = (w2, inr tt) /\
    on (dom w1) tabs = [t] /\ on (dom w2) tabs = [t] /\ on (dom w2) panes = [pane t] /\
    (has_class d0 (pane t) "fade" = true -> has_class (dom w2) (pane t) "show" = true).
Proof.
  intros Hrest Hready Hne. destruct (has_class d0 (pane t0) "fade") eqn:Hf.
  - destruct (switches_run t0 [t] w) as (w1 & w2 & E1 & E2 & Hon1 & Hpan1 & Hw2 & _ & Hon2 & Hp2 & Hs2); [done|done|..].
    { apply NoDup_cons. split; [set_solver|apply NoDup_singleton]. }
    { by intros t' ->%list_elem_of_singleton. }
    exists w1, w2. split; [|split; [exact E2|split; [exact Hon1|split; [by rewrite Hon2|split]]]].
    + cbn in E1. unfold mbind, M_bind in E1. by destruct (tab_show silent (inst t) w) as [w' [e|[]]].
    + destruct Hready as [Ht _]. pose proof (tabs_pane _ _ _ _ _ _ _ Hpage t Ht) as Hpt.
      apply on_single; [apply Hpage|done|]. intros x Hx. rewrite Hp2. split; [|intros ->; left; exists t; set_solver].
      intros [(t' & ->%list_elem_of_singleton & ->)|[Hox [?|Hxp]]]; [done|done|].
      exfalso. apply Hxp. apply list_elem_of_singleton. rewrite <- Hpan1. by apply elem_of_on.
    + apply Hs2. by left.
  - destruct Hrest as (Hw & Ht0 & Hon & Hpan & _), Hready as (Ht & Ho & Hdis).
    pose proof (tabs_pane _ _ _ _ _ _ _ Hpage t Ht) as Hpt.
    assert (Hr : runs (tab_show silent (inst t)) (fun _ w1 => on (dom w1) tabs = [t] /\ on (dom w1) panes = [pane t] /\
      (has_class d0 (pane t) "fade" = true -> has_class (dom w1) (pane t) "show" = true)) w).
    { apply tab_show_runs; [done|done|done| |done|].
      - apply not_true_is_false. intros E. apply Hne, list_elem_of_singleton. rewrite <- Hon. by apply elem_of_on.
      - rewrite Hon. intros d1 Hd1. destruct (moved_tabs t0 t (dom w) d1) as [Hon1 Hpan1]; [done..|].
        apply box_activate; autorewrite with world.
        + etrans; [exact Hw|apply Hd1].
        + done.
        + by rewrite Ho.
        + intros d2 _ Hd2 Hsh. rewrite Hpan1, Hpan in Hd2. destruct (moved_panes t0 t d1 d2) as [Hpan2 Hon2]; [done|done|congruence|done|].
          autorewrite with world. by rewrite Hon2.
        + intros a ms. rewrite Hpan1, Hpan. intros [= <-]. congruence. }
    apply runs_unit in Hr as (w1 & E1 & Hw1 & Hw2 & Hw3). by exists w1, w1.
Qed.

(** C20. Switching while a pane fades: when several tabs are shown one after the
    other before the fade of the first pane ends, the last is the only active
    tab, but the end of the fade makes the panes of all of them active. *)
Theorem tab_switch_during_fade t0 ts w : resting w t0 -> has_class d0 (pane t0) "fade" = true ->
  NoDup (t0 :: ts) -> (forall t, t ∈ ts -> ready w t) -> ts <> [] ->
  exists w1 w2, for_each ts (fun t => tab_show silent (inst t)) w = (w1, inr tt) /\
    on (dom w1) tabs = [List.last ts t0] /\ on (dom w1) panes = [pane t0] /\
    fade_end (pane t0) w1 = (w2, inr tt) /\
    on (dom w2) tabs = [List.last ts t0] /\
    (forall e, e ∈ on (dom w2) panes <-> exists t, t ∈ ts /\ e = pane t) /\
    forall t, t ∈ ts -> has_class d0 (pane t) "fade" = true -> has_class (dom w2) (pane t) "show" = true.
Proof.
  intros Hrest Hf Hnd Hts Hne.
  destruct (switches_run t0 ts w) as (w1 & w2 & E1 & E2 & Hon1 & Hpan1 & Hw2 & _ & Hon2 & Hp2 & Hs2); [done..|].
  exists w1, w2. do 4 (split; [done|]). split; [by rewrite Hon2|]. split; [|done].
  intros e. rewrite elem_of_on, Hp2. split.
  - intros [He [Ht|[Hoe [?|Hep]]]]; [done|done|]. exfalso. apply Hep, list_elem_of_singleton. rewrite <- Hpan1.
    by apply elem_of_on.
  - intros (t & Ht & ->). split; [|left; by exists t]. apply (tabs_pane _ _ _ _ _ _ _ Hpage). by apply (Hts t).
Qed.
End tabs.

(** ** A page to try it on *)
Module TabDemo.
(** The list 5 with the entries 10, 20 and 30, whose tabs are 11, 21 and 31; the
    box 40 with their panes 41, 42 and 43, which fade; the first is active. *)
Definition page : toy := {|
  toy_class := list_to_map [(11%nat, ["nav-link"; "active"]); (21%nat, ["nav-link"]); (31%nat, ["nav-link"]);
    (41%nat, ["tab-pane"; "fade"; "active"; "show"]); (42%nat, ["tab-pane"; "fade"]); (43%nat, ["tab-pane"; "fade"])]%string;
  toy_attr := list_to_map [((11%nat, "data-target"), "#p1"); ((21%nat, "data-target"), "#p2");
    ((31%nat, "data-target"), "#p3"); ((11%nat, "role"), "tab"); ((21%nat, "role"), "tab"); ((31%nat, "role"), "tab")]%string;
  toy_style := ∅;
  toy_prop := list_to_map [((5%nat, "nodeName"%string), VStr "UL"); ((10%nat, "nodeType"%string), VNum 1);
    ((20%nat, "nodeType"%string), VNum 1); ((30%nat, "nodeType"%string), VNum 1)];
  toy_data := ∅;
  toy_query := [("#p1", [41%nat]); ("#p2", [42%nat]); ("#p3", [43%nat])]%string;
  toy_parent := {[ 11%nat := 10%nat; 21%nat := 20%nat; 31%nat := 30%nat; 41%nat := 40%nat; 42%nat := 40%nat; 43%nat := 40%nat ]};
  toy_next := 100
|}.

Definition tabs : list elem := [11; 21; 31]%nat.
Definition panes : list elem := [41; 42; 43]%nat.
Definition pane (t : elem) : elem := if (t =? 11)%nat then 41%nat else if (t =? 21)%nat then 42%nat else 43%nat.
Definition inst (t : elem) : nat := ((t - 11) / 10)%nat.

(** The document whose queries see the classes. *)
#[local] Instance live : Dom toy := {|
  class_list := @class_list toy toy_dom;
  set_class_list := @set_class_list toy toy_dom;
  attr := @attr toy toy_dom;
  set_attr := @set_attr toy toy_dom;
  style := @style toy toy_dom;
  set_style := @set_style toy toy_dom;
  computed := @computed toy toy_dom;
  prop := @prop toy toy_dom;
  set_prop := @set_prop toy toy_dom;
  query d r s :=
    if String.eqb s "> li > .active" then Some (filter (fun e => "active"%string ∈ @class_list toy toy_dom d e) tabs)
    else @query toy toy_dom d r s;
  matches d e s := String.eqb s ".active" && bool_decide ("active"%string ∈ @class_list toy toy_dom d e);
  closest d e s := Some 5%nat;
  parent := @parent toy toy_dom;
  children d e := if (e =? 40)%nat then panes else [];
  ancestors := @ancestors toy toy_dom;
  prev_sibling := @prev_sibling toy toy_dom;
  contains := @contains toy toy_dom;
  bounding_rect := @bounding_rect toy toy_dom;
  dataset := @dataset toy toy_dom;
  user_data := @user_data toy toy_dom;
  set_user_data := @set_user_data toy toy_dom;
  remove_node := @remove_node toy toy_dom;
  append_child := @append_child toy toy_dom;
  create_element := @create_element toy toy_dom;
  set_focus := @set_focus toy toy_dom;
  document_element := @document_element toy toy_dom;
  body := @body toy toy_dom
|}.

#[local] Instance live_laws : DomLaws toy.
Proof. constructor; apply toy_laws. Qed.

Lemma live_restyle d d' : @restyle toy live d d' -> @restyle toy toy_dom d d'.
Proof.
  induction 1; [apply restyle_refl|by apply (restyle_class (D := toy) (H := toy_dom))|
    by apply (restyle_aria (D := toy) (H := toy_dom))|by apply (restyle_style (D := toy) (H := toy_dom))|
    by apply (restyle_focus (D := toy) (H := toy_dom))].
Qed.

Definition world : World toy Tab tab_cb :=
  MkWorld page (list_to_map [(0%nat, {| tab_element := Some 11%nat |}); (1%nat, {| tab_element := Some 21%nat |});
    (2%nat, {| tab_element := Some 31%nat |})]) ∅ [] ∅ 3%nat false.

Lemma on_live d l : filter (fun e => "active"%string ∈ @class_list toy toy_dom d e) l = on d l.
Proof. apply list_filter_iff. intros e. symmetry. apply bool_decide_eq_true. Qed.

Lemma live_plain d e p : same_page page d -> toy_parent page !! e = Some p -> has_class page p "dropdown-menu" = false ->
  plain d e p.
Proof.
  intros [Hr Hc] Hp Hm. destruct (toy_restyle _ _ (live_restyle _ _ Hr)) as (Ep & Eq & _).
  split; [by cbn; rewrite Ep|]. split; [by rewrite Hc|]. cbn. unfold toy_find, toy_entry. by rewrite Eq.
Qed.

Lemma page_tabs : tabs_page page 5 40 tabs panes pane inst.
Proof.
  assert (Hin : forall t, t ∈ tabs -> (t = 11 \/ t = 21 \/ t = 31)%nat) by (unfold tabs; set_solver).
  split.
  - apply (bool_decide_unpack _); vm_compute; done.
  - apply (bool_decide_unpack _); vm_compute; done.
  - intros t [-> | [-> | ->]]%Hin; apply (bool_decide_unpack _); vm_compute; done.
  - intros t t' [-> | [-> | ->]]%Hin [-> | [-> | ->]]%Hin; done.
  - intros e [-> | [-> | ->]]%Hin; unfold panes; set_solver.
  - intros t Ht. exists (t - 1)%nat. intros d Hd. split.
    + apply live_plain; [done|..]; destruct (Hin t Ht) as [-> | [-> | ->]]; done.
    + destruct (toy_restyle _ _ (live_restyle _ _ (proj1 Hd))) as (_ & _ & Epr & _). unfold num_prop. cbn. rewrite Epr.
      by destruct (Hin t Ht) as [-> | [-> | ->]].
  - done.
  - intros d [Hr _]. destruct (toy_restyle _ _ (live_restyle _ _ Hr)) as (_ & _ & Epr & _).
    assert (El : is_list d 5 = true) by (unfold is_list; cbn; by rewrite Epr). rewrite El.
    change (Some (filter (fun e => "active"%string ∈ @class_list toy toy_dom d e) tabs) = Some (on d tabs)).
    by rewrite on_live.
  - intros d [Hr _]. destruct (toy_restyle _ _ (live_restyle _ _ Hr)) as (_ & _ & Epr & _).
    unfold is_list. cbn. by rewrite Epr.
  - intros t w Ht [Hr _]. destruct (toy_restyle _ _ (live_restyle _ _ Hr)) as (_ & Eq & _).
    unfold selector_of, getSelectorFromElement, get_dom, mbind, M_bind, mret, M_ret.
    rewrite !(attr_restyle page (dom w)) by done.
    assert (Hq : forall s, String.eqb s "> li > .active" = false -> document_query (dom w) s = document_query page s).
    { intros s Hs. unfold document_query. cbn. unfold toy_find, toy_entry. by rewrite Hs, Eq. }
    assert (Ht' : exists s, attr page t "data-target" = Some s /\ String.eqb s "" = false /\ String.eqb s "#" = false /\
      String.eqb s "> li > .active" = false /\ query page None s = Some [pane t]).
    { destruct (Hin t Ht) as [-> | [-> | ->]]; eexists; (split; [reflexivity|done]). }
    destruct Ht' as (s & -> & E1 & E2 & E3 & E4). rewrite E1, E2. cbn [negb andb]. rewrite Hq by done.
    exists s, []. unfold document_query. rewrite E4. split; [done|]. split; [done|].
    rewrite <- E4. cbn. unfold toy_find, toy_entry. by rewrite E3, Eq.
  - intros p d Hp Hd. apply live_plain; [done| |done].
    assert (p = 41 \/ p = 42 \/ p = 43)%nat as [-> | [-> | ->]] by (unfold panes in Hp; set_solver); done.
  - intros d [Hr _]. destruct (toy_restyle _ _ (live_restyle _ _ Hr)) as (_ & _ & Epr & _).
    split; [unfold is_list; cbn; by rewrite Epr|]. rewrite <- on_live.
    change (filter (fun e => matches d e ".active" = true) panes = filter (fun e => "active"%string ∈ @class_list toy toy_dom d e) panes).
    apply list_filter_iff. intros e. apply bool_decide_eq_true.
Qed.

Lemma rest : resting page tabs panes pane world 11.
Proof. split; [done|]. split; [by left|]. done. Qed.

Lemma all_ready t : t ∈ [21; 31]%nat -> ready page tabs inst world t.
Proof. intros Ht. assert (t = 21 \/ t = 31)%nat as [-> | ->] by set_solver; (split; [unfold tabs; set_solver|done]). Qed.
End TabDemo.

Lemma tab_show_exclusive_witness : exists w1 w2,
  tab_show (H := TabDemo.live) silent 1 TabDemo.world = (w1, inr tt) /\
  fade_end (H := TabDemo.live) 41 w1 = (w2, inr tt) /\
  on (H := TabDemo.live) (dom w2) [11; 21; 31]%nat = [21%nat] /\ on (H := TabDemo.live) (dom w2) [41; 42; 43]%nat = [42%nat].
Proof.
  destruct (tab_show_exclusive (H := TabDemo.live) (H0 := TabDemo.live_laws) TabDemo.page 5 40 TabDemo.tabs TabDemo.panes TabDemo.pane TabDemo.inst TabDemo.page_tabs
    11 21 TabDemo.world TabDemo.rest) as (w1 & w2 & E1 & E2 & _ & H1 & H2 & _).
  - apply TabDemo.all_ready. left.
  - discriminate.
  - exists w1, w2. split; [exact E1|]. split; [exact E2|]. split; [exact H1|exact H2].
Defined.

(** The second tab and then the third, during the fade of the first pane: both
    panes are active in the end. *)
Lemma tab_switch_during_fade_witness : exists w1 w2,
  for_each [21; 31]%nat (fun t => tab_show (H := TabDemo.live) silent (TabDemo.inst t)) TabDemo.world = (w1, inr tt) /\
  fade_end (H := TabDemo.live) 41 w1 = (w2, inr tt) /\
  on (H := TabDemo.live) (dom w2) [11; 21; 31]%nat = [31%nat] /\
  42%nat ∈ on (H := TabDemo.live) (dom w2) [41; 42; 43]%nat /\ 43%nat ∈ on (H := TabDemo.live) (dom w2) [41; 42; 43]%nat.
Proof.
  destruct (tab_switch_during_fade (H := TabDemo.live) (H0 := TabDemo.live_laws) TabDemo.page 5 40 TabDemo.tabs TabDemo.panes TabDemo.pane TabDemo.inst TabDemo.page_tabs
    11 [21; 31]%nat TabDemo.world TabDemo.rest) as (w1 & w2 & E1 & _ & _ & E2 & H1 & H2 & _).
  - vm_compute. reflexivity.
  - apply (bool_decide_unpack _). vm_compute. exact I.
  - apply TabDemo.all_ready.
  - discriminate.
  - exists w1, w2. split; [exact E1|]. split; [exact E2|]. split; [exact H1|]. split; apply H2.
    + exists 21%nat. split; [left|reflexivity].
    + exists 31%nat. split; [right; left|reflexivity].
Defined.
