(* ===== verification/BsButtonTheorems.v ===== *)
(** Buttons: in a group of radio buttons a toggle moves the active class and
    checks the input; what the toggle of a disabled one leaves. *)
From Stdlib Require Import ZArith QArith Lia String Ascii.
From stdpp Require Import base list gmap strings.
From coqutil Require Import Datatypes.RecordSetters.
From S2P Require Import Prelude Js JsDom BsUtil BsDomTheory BsHoare BsAlertButton.

Local Open Scope Z_scope.

(** The [checked] property of an input: it reads what was written, and is
    neither a class, an attribute of the accessibility tree nor the focus. *)
Class CheckedLaws (D : Type) `{Dom D} := {
  checked_eq e b d : prop (set_prop e "checked" (VBool b) d) e "checked" = VBool b;
  checked_class e l d e' : prop (set_class_list e l d) e' "checked" = prop d e' "checked";
  checked_aria e v d e' : prop (set_attr e "aria-pressed" v d) e' "checked" = prop d e' "checked";
  checked_focus e d e' : prop (set_focus e d) e' "checked" = prop d e' "checked"
}.

Section buttons.
Context {D : Type} `{DomLaws D, !CheckedLaws D}.
Local Abbreviation W := (World D Button Empty_set).
Implicit Types (w : W) (d : D).

(** The page as the toggles of its buttons leave it. *)
Inductive pressed (d : D) : D -> Prop :=
| pressed_refl : pressed d d
| pressed_add e d' : pressed d d' -> pressed d (add_class e "active" d')
| pressed_remove e d' : pressed d d' -> pressed d (remove_class e "active" d')
| pressed_check e b d' : pressed d d' -> pressed d (set_prop e "checked" (VBool b) d')
| pressed_aria e v d' : pressed d d' -> pressed d (set_attr e "aria-pressed" v d')
| pressed_focus e d' : pressed d d' -> pressed d (set_focus e d').
#[local] Hint Constructors pressed : press.

Definition lit d (e : elem) : bool := has_class d e "active".
Definition checked d (e : elem) : bool := truthy (prop d e "checked").

Lemma has_class_set_prop e k v d e' c : has_class (set_prop e k v d) e' c = has_class d e' c.
Proof. unfold has_class. by rewrite class_list_prop. Qed.

Lemma pressed_enabled d d' e : pressed d d' -> is_disabled d' e = is_disabled d e.
Proof.
  unfold is_disabled, add_class, remove_class.
  induction 1 as [|e' d' Hd IH|e' d' Hd IH|e' b d' Hd IH|e' v d' Hd IH|e' d' Hd IH]; [done|..].
  - rewrite has_class_add_class, bool_decide_eq_false_2, orb_false_l by (by intros [_ ?]).
    unfold add_class. destruct (has_class d' e' "active"); rewrite ?attr_class; exact IH.
  - rewrite has_class_remove_class, bool_decide_eq_false_2 by (by intros [_ ?]).
    unfold remove_class. rewrite attr_class. exact IH.
  - rewrite has_class_set_prop, attr_prop. exact IH.
  - rewrite has_class_set_attr, attr_ne by (by intros [=]). exact IH.
  - rewrite has_class_set_focus, attr_focus. exact IH.
Qed.

Lemma checked_remove_class e c d e' : checked (remove_class e c d) e' = checked d e'.
Proof. unfold checked, remove_class. by rewrite checked_class. Qed.

Lemma checked_toggle e c d e' : checked (toggle_class e c d) e' = checked d e'.
Proof.
  unfold toggle_class, add_class. destruct (has_class d e c); [apply checked_remove_class|].
  unfold checked. by rewrite checked_class.
Qed.

Lemma lit_toggle e d e' : lit (toggle_class e "active" d) e' = xorb (bool_decide (e = e')) (lit d e').
Proof.
  unfold lit, toggle_class. destruct (has_class d e "active") eqn:E; autorewrite with classes.
  - destruct (decide (e = e')) as [->|Hne]; [by rewrite E, !bool_decide_eq_true_2|].
    by rewrite !bool_decide_eq_false_2 by tauto.
  - destruct (decide (e = e')) as [->|Hne]; [by rewrite E, !bool_decide_eq_true_2|].
    rewrite !bool_decide_eq_false_2 by tauto. by destruct (has_class d e' "active").
Qed.

(** ** A group of radio buttons *)

(** The lit ones of some elements. *)
Definition lits d (l : list elem) : list elem := filter (fun e => lit d e = true) l.

(** [bs] are the buttons of the group [root], [input] finds the radio input of
    each; nothing else in the group is ever active. *)
Record radio_group (d0 : D) (root : elem) (bs : list elem) (input : elem -> elem) : Prop := {
  group_nodup : NoDup bs;
  group_root b d : b ∈ bs -> pressed d0 d -> closest d b SELECTOR_DATA_TOGGLES = Some root;
  group_input b d : b ∈ bs -> pressed d0 d -> query d (Some b) SELECTOR_INPUT = Some [input b];
  group_radio b d : b ∈ bs -> pressed d0 d -> prop d (input b) "type" = VStr "radio";
  group_active d : pressed d0 d -> query d (Some root) ".active" = Some (lits d bs)
}.

Lemma elem_of_lits e d l : e ∈ lits d l <-> e ∈ l /\ lit d e = true.
Proof. unfold lits. rewrite list_elem_of_filter. naive_solver. Qed.

Lemma lits_ext d d' l : (forall e, e ∈ l -> lit d' e = lit d e) -> lits d' l = lits d l.
Proof. intros Hl. unfold lits. induction l as [|x l IH]; [done|]. rewrite !filter_cons, Hl, IH by set_solver. done. Qed.

Lemma lits_none d l : (forall e, e ∈ l -> lit d e = false) -> lits d l = [].
Proof.
  intros Hl. induction l as [|x l IH]; [done|]. unfold lits in *. rewrite filter_cons, Hl, IH by set_solver. done.
Qed.

Lemma lits_only b d l : NoDup l -> b ∈ l -> (forall e, e ∈ l -> lit d e = bool_decide (e = b)) -> lits d l = [b].
Proof.
  intros Hnd Hb Hl. induction Hnd as [|x l Hx Hnd IH]; [by apply not_elem_of_nil in Hb|].
  unfold lits in *. rewrite filter_cons, Hl by set_solver.
  destruct (decide (x = b)) as [->|Hne].
  - rewrite bool_decide_eq_true_2 by done. cbn. f_equal. apply lits_none. intros e He.
    rewrite Hl by set_solver. apply bool_decide_eq_false_2. by intros ->.
  - rewrite bool_decide_eq_false_2 by done. cbn. apply IH; set_solver.
Qed.

Context (d0 : D) (root : elem) (bs : list elem) (input : elem -> elem).
Context (Hgroup : radio_group d0 root bs input).

(** At most one button is lit. *)
Lemma lit_unique d a e : lits d bs = option_list a -> e ∈ bs -> lit d e = bool_decide (a = Some e).
Proof.
  intros Ha He. assert (Hi : lit d e = true <-> a = Some e).
  { assert (Hl : e ∈ option_list a <-> a = Some e).
    { destruct a as [x|]; cbn; [rewrite list_elem_of_singleton; naive_solver|].
      split; [by intros ?%not_elem_of_nil|done]. }
    rewrite <- Hl, <- Ha, elem_of_lits. tauto. }
  case_bool_decide as E; [by apply Hi|]. apply not_true_is_false. by rewrite Hi.
Qed.

(** The group after its part of a toggle: the other button is out, unless the
    toggle finds the button as it is to be. *)
Lemma toggle_input_runs b a (Q : bool -> W -> Prop) w : b ∈ bs -> pressed d0 (dom w) ->
  lits (dom w) bs = option_list a ->
  (checked (dom w) (input b) = true -> a = Some b -> Q false (w <| dom := set_focus (input b) (dom w) |>)) ->
  (forall d, pressed d0 d -> (forall e, e ∈ bs -> lit d e = false) -> checked d (input b) = true ->
    Q true (w <| dom := d |>)) ->
  runs (button_toggle_input silent b root (input b)) Q w.
Proof.
  intros Hb Hw Ha Hkeep Hmove. unfold button_toggle_input. wp.
  rewrite (group_radio _ _ _ _ Hgroup b (dom w)) by done. cbn [val_is_str String.eqb Ascii.eqb Bool.eqb].
  change (truthy (prop (dom w) (input b) "checked")) with (checked (dom w) (input b)).
  change (has_class (dom w) b "active") with (lit (dom w) b). rewrite (lit_unique (dom w) a b) by done.
  destruct (checked (dom w) (input b) && bool_decide (a = Some b)) eqn:E.
  - apply andb_true_iff in E as [E1 E2%bool_decide_eq_true]. wp. by apply Hkeep.
  - clear E Hkeep. assert (Hrest : forall d, pressed d0 d -> (forall e, e ∈ bs -> lit d e = false) ->
      runs (d ← get_dom;
            when true (mod_dom (set_prop (input b) "checked" (VBool (negb (has_class d b "active"))))) ;;
            trigger silent (Some (input b)) (ev "change") ;; skip)
        (fun _ => runs (mod_dom (set_focus (input b)) ;; mret true) Q) (w <| dom := d |>)).
    { intros d Hd Hoff. wp. autorewrite with world. fold (lit d b). rewrite (Hoff b) by done.
      apply (Hmove (set_focus (input b) (set_prop (input b) "checked" (VBool true) d))).
      - auto with press.
      - intros e He. unfold lit. rewrite has_class_set_focus, has_class_set_prop. by apply Hoff.
      - unfold checked. rewrite checked_focus. by rewrite checked_eq. }
    apply runs_bind. eapply runs_query_one; [by apply (group_active _ _ _ _ Hgroup)|].
    rewrite Ha. destruct a as [a|]; cbn [head option_list]; cbv beta iota; wp.
    + apply runs_bind, runs_mod_dom. rewrite jq_remove_one by done. wp. apply runs_bind, Hrest; [auto with press|].
      intros e He. unfold lit. autorewrite with classes. fold (lit (dom w) e). rewrite (lit_unique (dom w) (Some a) e) by done.
      repeat case_bool_decide; naive_solver.
    + apply runs_bind. replace w with (w <| dom := dom w |>) by by destruct w.
      apply Hrest; [done|]. intros e He. by rewrite (lit_unique (dom w) None e).
Qed.

(** A toggle is what happens in the group, then the class of the button. *)
Lemma radio_toggle_runs o b (Q : unit -> W -> Prop) w : b ∈ bs -> pressed d0 (dom w) ->
  heap w !! o = Some {| button_element := Some b |} ->
  runs (button_toggle_input silent b root (input b)) (fun move w' =>
    runs (if is_disabled (dom w') b then skip else when move (mod_dom (toggle_class b "active"))) Q w') w ->
  runs (button_toggle silent o) Q w.
Proof.
  intros Hb Hw Ho HQ. unfold button_toggle. apply runs_bind. eapply runs_get; [exact Ho|].
  cbn [button_element]. wp.
  change (Some b ≫= (fun e => closest (dom w) e SELECTOR_DATA_TOGGLES)) with (closest (dom w) b SELECTOR_DATA_TOGGLES).
  rewrite (group_root _ _ _ _ Hgroup) by done. wp.
  eapply runs_query_one; [by apply (group_input _ _ _ _ Hgroup)|]. cbn [head]. cbv beta iota. wp.
  eapply runs_mono; [|exact HQ]. intros move w' Hr. wp. exact Hr.
Qed.

(** The instances the buttons already have are theirs. *)
Definition bound w : Prop :=
  forall b o, b ∈ bs -> data w !! b = Some o -> heap w !! o = Some {| button_element := Some b |} /\ (o < next_id w)%nat.

Lemma bound_dom w d : bound (w <| dom := d |>) <-> bound w.
Proof. done. Qed.

(** [$(b).button('toggle')], the instance made when it is missing. *)
Lemma interface_runs b (Q : unit -> W -> Prop) w : b ∈ bs -> bound w ->
  (forall o w', dom w' = dom w -> bound w' -> heap w' !! o = Some {| button_element := Some b |} ->
    runs (button_toggle silent o) Q w') ->
  runs (button_jQueryInterface silent [b] (Some "toggle"%string)) Q w.
Proof.
  intros Hb Hw HQ. unfold button_jQueryInterface. cbn [for_each]. apply runs_bind, runs_bind, runs_get_data.
  assert (Hrest : forall o w', dom w' = dom w -> bound w' -> heap w' !! o = Some {| button_element := Some b |} ->
    runs (if decide (Some "toggle"%string = Some "toggle"%string) then button_toggle silent o else skip)
      (fun _ => runs skip Q) w').
  { intros o w' Hd Hb' Ho. rewrite decide_True by done. eapply runs_mono; [|by apply (HQ o w')]. by intros []. }
  destruct (data w !! b) as [o|] eqn:Ed; apply runs_bind.
  - apply runs_ret. apply Hrest; [done|done|by apply Hw].
  - apply (Hrest (next_id w)); [done| |cbn; apply lookup_insert_eq].
    intros b' o' Hb'. cbn. unfold constant. destruct (decide (b = b')) as [<-|Hne].
    + rewrite lookup_insert_eq. intros [= <-]. rewrite lookup_insert_eq. split; [done|lia].
    + rewrite lookup_insert_ne by done. intros Hd. destruct (Hw b' o' Hb' Hd).
      rewrite lookup_insert_ne by lia. split; [done|lia].
Qed.

(** What the buttons keep: their instances, and at most one of them lit. *)
Definition settled w : Prop := pressed d0 (dom w) /\ bound w /\ exists a, lits (dom w) bs = option_list a.

(** [b] is the one that is lit, and its input is checked. *)
Definition picked b w : Prop := lits (dom w) bs = [b] /\ checked (dom w) (input b) = true.

Lemma toggle_picks b o w : b ∈ bs -> is_disabled d0 b = false -> settled w ->
  heap w !! o = Some {| button_element := Some b |} ->
  runs (button_toggle silent o) (fun _ w' => settled w' /\ picked b w') w.
Proof.
  intros Hb Hen (Hw & Hbd & a & Ha) Ho. apply (radio_toggle_runs o b); [done|done|done|].
  assert (Hdis : forall d, pressed d0 d -> is_disabled d b = false) by (intros d Hd; by rewrite (pressed_enabled d0)).
  assert (Hset : forall d, pressed d0 d -> lits d bs = [b] -> checked d (input b) = true ->
    settled (w <| dom := d |>) /\ picked b (w <| dom := d |>)).
  { intros d Hd Hl Hc. split; [split; [done|split; [by apply bound_dom|by exists (Some b)]]|by split]. }
  apply (toggle_input_runs b a); [done|done|done|..].
  - intros Hc ->. autorewrite with world. rewrite Hdis by auto with press. apply runs_skip.
    apply Hset; [auto with press| |].
    + etrans; [apply lits_ext|exact Ha]. intros e _. apply has_class_set_focus.
    + unfold checked. by rewrite checked_focus.
  - intros d Hd Hoff Hc. autorewrite with world. rewrite Hdis by done. cbn [when]. apply runs_mod_dom.
    autorewrite with world. apply (Hset (toggle_class b "active" d)).
    + unfold toggle_class. destruct (has_class d b "active"); auto with press.
    + apply lits_only; [apply Hgroup|done|]. intros e He. rewrite lit_toggle, Hoff by done.
      rewrite xorb_false_r. apply bool_decide_ext. done.
    + by rewrite checked_toggle.
Qed.

(** A click on a button of the group that nothing disables. *)
Record clickable (b : elem) : Prop := {
  click_in : b ∈ bs;
  click_btn d : pressed d0 d -> has_class d b "btn" = true;
  click_enabled : is_disabled d0 b = false;
  click_input : is_disabled d0 (input b) = false
}.

Lemma click_picks b w : clickable b -> settled w ->
  runs (button_click silent b) (fun _ w' => settled w' /\ picked b w') w.
Proof.
  intros [Hb Hbtn Hen Hin] Hw. unfold button_click. wp. pose proof (proj1 Hw) as Hp.
  rewrite has_class_one, Hbtn by done. cbn [negb]. cbv beta iota.
  rewrite (pressed_enabled d0), Hen by done.
  apply runs_bind. eapply runs_query_one; [by apply (group_input _ _ _ _ Hgroup)|]. cbn [head]. cbv beta iota.
  rewrite (pressed_enabled d0), Hin by done. rewrite (group_radio _ _ _ _ Hgroup) by done.
  change (negb (val_is_str (VStr "radio") "checkbox")) with true. rewrite orb_true_r.
  apply interface_runs; [done|apply Hw|]. intros o w' Hd Hbd Ho.
  apply toggle_picks; [done|done| |done]. destruct Hw as (? & _ & ?). split; [by rewrite Hd|]. by rewrite Hd.
Qed.

(** C22. A group of radio buttons, at most one of them active: whatever enabled
    buttons of it are clicked, one after the other, every click goes through,
    and after the last one the button that was clicked last is the only active
    one of the group and its input is checked. *)
Theorem radio_clicks ts b w : settled w -> (forall t, t ∈ (ts ++ [b])%list -> clickable t) ->
  exists w', for_each (ts ++ [b])%list (button_click silent) w = (w', inr tt) /\
    lits (dom w') bs = [b] /\ checked (dom w') (input b) = true.
Proof.
  intros Hw Hts. apply (runs_unit _ (picked b)).
  revert w Hw Hts. induction ts as [|t ts IH]; intros w Hw Hts; cbn [for_each app].
  - eapply runs_seq; [apply click_picks; [apply Hts; by left|done]|]. intros [] w' [_ Hp]. by apply runs_skip.
  - eapply runs_seq; [apply click_picks; [apply Hts; by left|done]|].
    intros [] w' [Hw' _]. apply IH; [done|]. intros t' Ht'. apply Hts. by right.
Qed.

(** C23. [$(b).button('toggle')] of a disabled radio button, while another one of
    its group is active: the guard on [disabled] covers the class of the button
    alone, so the call checks the input of [b], takes the class off the active
    button, and leaves no button of the group active. *)
Theorem radio_disabled_unlit b a w : settled w -> b ∈ bs -> is_disabled d0 b = true ->
  lits (dom w) bs = [a] -> a <> b ->
  exists w', button_jQueryInterface silent [b] (Some "toggle"%string) w = (w', inr tt) /\
    lits (dom w') bs = [] /\ checked (dom w') (input b) = true.
Proof.
  intros (Hw & Hbd & _) Hb Hdis Ha Hne.
  apply (runs_unit _ (fun w' => lits (dom w') bs = [] /\ checked (dom w') (input b) = true)).
  apply interface_runs; [done|done|]. intros o w' Hd Hbd' Ho. rewrite <- Hd in Hw, Ha.
  apply (radio_toggle_runs o b); [done|done|done|].
  apply (toggle_input_runs b (Some a)); [done|done|done|by intros _ [= ->]|].
  intros d Hp Hoff Hc. autorewrite with world. rewrite (pressed_enabled d0), Hdis by done.
  apply runs_skip. autorewrite with world. split; [by apply lits_none|done].
Qed.
End buttons.

Module ButtonDemo.
(** The group 5 of the labels 11, 21 and 31 with the radio inputs 12, 22 and 32:
    the first is active, the third disabled. *)
Definition page : toy := {|
  toy_class := list_to_map [(11%nat, ["btn"; "active"]); (21%nat, ["btn"]); (31%nat, ["btn"; "disabled"])]%string;
  toy_attr := ∅;
  toy_style := ∅;
  toy_prop := list_to_map [((12%nat, "type"%string), VStr "radio"); ((22%nat, "type"%string), VStr "radio");
    ((32%nat, "type"%string), VStr "radio"); ((12%nat, "checked"%string), VBool true);
    ((11%nat, "tagName"%string), VStr "LABEL"); ((21%nat, "tagName"%string), VStr "LABEL")];
  toy_data := ∅;
  toy_query := [];
  toy_parent := ∅;
  toy_next := 100
|}.

Definition buttons : list elem := [11; 21; 31]%nat.
Definition input (b : elem) : elem := (b + 1)%nat.

(** The document whose queries see the classes. *)
#[local] Instance live : Dom toy := {|
  class_list := @class_list toy toy_dom;
  set_class_list := @set_class_list toy toy_dom;
  attr := @attr toy toy_dom;
  set_attr := @set_attr toy toy_dom;
  style := @style toy toy_dom;
  set_style := @set_style toy toy_dom;
  computed := @computed toy toy_dom;
  prop := @prop toy toy_dom;
  set_prop := @set_prop toy toy_dom;
  query d r s :=
    if String.eqb s ".active" then Some (filter (fun e => bool_decide ("active"%string ∈ @class_list toy toy_dom d e) = true) buttons)
    else Some (input <$> option_list r);
  matches := @matches toy toy_dom;
  closest d e s := Some 5%nat;
  parent := @parent toy toy_dom;
  children := @children toy toy_dom;
  ancestors := @ancestors toy toy_dom;
  prev_sibling := @prev_sibling toy toy_dom;
  contains := @contains toy toy_dom;
  bounding_rect := @bounding_rect toy toy_dom;
  dataset := @dataset toy toy_dom;
  user_data := @user_data toy toy_dom;
  set_user_data := @set_user_data toy toy_dom;
  remove_node := @remove_node toy toy_dom;
  append_child := @append_child toy toy_dom;
  create_element := @create_element toy toy_dom;
  set_focus := @set_focus toy toy_dom;
  document_element := @document_element toy toy_dom;
  body := @body toy toy_dom
|}.

#[local] Instance live_laws : DomLaws toy.
Proof. constructor; apply toy_laws. Qed.

#[local] Instance live_checked : CheckedLaws toy.
Proof. split; intros; destruct d; cbn; rewrite ?lookup_insert_eq; done. Qed.

Lemma live_prop d d' e k : pressed d d' -> k <> "checked"%string -> prop d' e k = prop d e k.
Proof.
  intros Hp Hk. induction Hp as [|e' d' Hd IH|e' d' Hd IH|e' b d' Hd IH|e' v d' Hd IH|e' d' Hd IH]; [done|..].
  - rewrite <- IH. unfold add_class. by destruct (has_class d' e' "active").
  - exact IH.
  - rewrite <- IH. cbn. by rewrite lookup_insert_ne by congruence.
  - exact IH.
  - exact IH.
Qed.

Lemma pressed_class d d' e c : pressed d d' -> c <> "active"%string -> has_class d' e c = has_class d e c.
Proof.
  intros Hp Hc. induction Hp as [|e' d' Hd IH|e' d' Hd IH|e' b d' Hd IH|e' v d' Hd IH|e' d' Hd IH]; [done|..].
  - by rewrite has_class_add_class, bool_decide_eq_false_2, orb_false_l by naive_solver.
  - by rewrite has_class_remove_class, bool_decide_eq_false_2 by naive_solver.
  - exact IH.
  - exact IH.
  - exact IH.
Qed.

Lemma group : radio_group page 5 buttons input.
Proof.
  split; [apply (bool_decide_unpack _); vm_compute; done|done|done| |done].
  intros b d Hb Hd. rewrite (live_prop page d) by done.
  assert (b = 11 \/ b = 21 \/ b = 31)%nat as [-> | [-> | ->]] by (unfold buttons in Hb; set_solver); reflexivity.
Qed.

Definition world : World toy Button Empty_set := MkWorld page ∅ ∅ [] ∅ 0%nat false.

Lemma ready : settled page buttons world.
Proof. split; [constructor|]. split; [done|]. by exists (Some 11%nat). Qed.

Lemma can_click t : t ∈ [21; 11]%nat -> clickable page buttons input t.
Proof.
  intros Ht. assert (t = 21 \/ t = 11)%nat as [-> | ->] by set_solver;
    (split; [unfold buttons; set_solver|intros d Hd; by rewrite (pressed_class page d)|done|done]).
Qed.
End ButtonDemo.

Lemma radio_clicks_witness : exists w',
  for_each [21; 11; 21]%nat (button_click (H := ButtonDemo.live) silent) ButtonDemo.world = (w', inr tt) /\
  lits (H := ButtonDemo.live) (dom w') [11; 21; 31]%nat = [21%nat] /\
  checked (H := ButtonDemo.live) (dom w') 22 = true.
Proof.
  apply (radio_clicks (H := ButtonDemo.live) (H0 := ButtonDemo.live_laws) (CheckedLaws0 := ButtonDemo.live_checked)
    ButtonDemo.page 5 ButtonDemo.buttons ButtonDemo.input ButtonDemo.group [21; 11]%nat 21 ButtonDemo.world ButtonDemo.ready).
  intros t Ht. apply ButtonDemo.can_click. cbn in Ht. set_solver.
Defined.

Lemma radio_disabled_unlit_witness : exists w',
  button_jQueryInterface (H := ButtonDemo.live) silent [31%nat] (Some "toggle"%string) ButtonDemo.world = (w', inr tt) /\
  lits (H := ButtonDemo.live) (dom w') [11; 21; 31]%nat = [] /\ checked (H := ButtonDemo.live) (dom w') 32 = true.
Proof.
  apply (radio_disabled_unlit (H := ButtonDemo.live) (H0 := ButtonDemo.live_laws) (CheckedLaws0 := ButtonDemo.live_checked)
    ButtonDemo.page 5 ButtonDemo.buttons ButtonDemo.input ButtonDemo.group 31 11 ButtonDemo.world ButtonDemo.ready);
    [unfold ButtonDemo.buttons; set_solver|reflexivity|reflexivity|done].
Defined.
