(* ===== verification/BsModalTheorems.v ===== *)
(** The life of a modal, fading or not: [show], [hide] and the ends of their
    transitions put the page and the instance back, whatever the configuration;
    what happens to the inline paddings of the page in between and after. *)
From Stdlib Require Import ZArith QArith Lia String Ascii.
From stdpp Require Import base list gmap strings.
From coqutil Require Import Datatypes.RecordSetters.
From S2P Require Import Prelude Js JsDom BsUtil BsDomTheory BsHoare BsTasks BsModal BsTheorems.

Local Open Scope Z_scope.

(** Documents in which every element has the same classes, inline styles and
    data. *)
Definition looks_same {D} `{Dom D} (d d' : D) : Prop := forall e,
  (forall c, has_class d' e c = has_class d e c) /\ (forall k, style d' e k = style d e k) /\
  (forall k, user_data d' e k = user_data d e k).

(** What else the documentation of the document promises. *)
Class NodeLaws (D : Type) `{Dom D} := {
  look_attr e k v d : k ∈ ["role"; "aria-hidden"; "aria-modal"]%string -> looks_same d (set_attr e k v d);
  look_scroll e v d : looks_same d (set_prop e "scrollTop" v d);
  look_focus e d : looks_same d (set_focus e d);
  look_create d : looks_same d (create_element d).2;
  look_append p c d : looks_same d (append_child p c d);
  look_remove e d : looks_same d (remove_node e d);
  (* an empty string takes the property away *)
  style_clear e k d : style (set_style e k "" d) e k = ""%string
}.

Section scrollbar.
Context {D : Type} `{DomLaws D, !NodeLaws D}.
Implicit Types d : D.

(** The data of the scrollbar after the elements of [l] were restored. *)
Lemma restore_padding_clears x d e k : user_data d e k = None \/ (e, k) = (x, "padding-right"%string) ->
  user_data (restore_padding x d) e k = None.
Proof.
  intros He. unfold restore_padding. rewrite user_data_style.
  destruct (decide ((x, "padding-right"%string) = (e, k))) as [[= <- <-]|Hne]; [apply user_data_eq|].
  rewrite user_data_ne by done. by destruct He as [He|[= -> ->]].
Qed.

Lemma restore_margin_clears x d e k : user_data d e k = None \/ (e, k) = (x, "margin-right"%string) ->
  user_data (restore_margin x d) e k = None.
Proof.
  intros He. unfold restore_margin. destruct (user_data d x "margin-right") as [m|] eqn:E.
  - destruct (decide ((x, "margin-right"%string) = (e, k))) as [[= <- <-]|Hne]; [apply user_data_eq|].
    rewrite user_data_ne, user_data_style by done. by destruct He as [He|[= -> ->]].
  - by destruct He as [He|[= -> ->]].
Qed.

Lemma each_clears (f : elem -> D -> D) dn l d e k :
  (forall x d e k, user_data d e k = None \/ (e, k) = (x, dn) -> user_data (f x d) e k = None) ->
  user_data d e k = None \/ k = dn /\ e ∈ l -> user_data (jq_each f l d) e k = None.
Proof.
  intros Hf. unfold jq_each. revert d. induction l as [|x l IH]; intros d He; cbn [foldl].
  - destruct He as [He|[_ He]]; [done|by apply not_elem_of_nil in He].
  - apply IH. destruct He as [He|[-> [->|He]%elem_of_cons]]; [left; apply Hf; by left|left; apply Hf; by right|by right].
Qed.

(** Nothing is saved. *)
Definition bare (fixed sticky : list elem) d : Prop :=
  (forall e, e ∈ body :: fixed -> user_data d e "padding-right" = None) /\
  (forall e, e ∈ sticky -> user_data d e "margin-right" = None).

Lemma unpadded_clears fixed sticky d : bare fixed sticky (unpadded fixed sticky d).
Proof.
  split; intros e He; unfold unpadded; apply restore_padding_clears.
  - apply elem_of_cons in He as [->|He]; [by right|left].
    eapply each_clears; [apply restore_margin_clears|]. left.
    eapply each_clears; [apply restore_padding_clears|]. by right.
  - left. eapply each_clears; [apply restore_margin_clears|]. by right.
Qed.

(** A page on which nothing was saved loses the inline paddings of the body and
    of the fixed elements, and nothing else. *)
Lemma restore_bare l d e k : (forall x, x ∈ l -> user_data d x "padding-right" = None) ->
  style (jq_each restore_padding l d) e k = if decide (k = pr_style /\ e ∈ l) then ""%string else style d e k.
Proof.
  revert d. unfold jq_each. induction l as [|x l IH]; intros d Hl; cbn [foldl].
  - rewrite decide_False by (intros [_ He]; by apply not_elem_of_nil in He). done.
  - assert (Hx : user_data d x "padding-right" = None) by (apply Hl; by left).
    rewrite IH by (intros y Hy; apply restore_padding_clears; left; apply Hl; by right).
    unfold restore_padding. rewrite Hx. cbn [default].
    destruct (decide (k = pr_style /\ e ∈ l)) as [[-> He]|Hne].
    + by rewrite decide_True by (split; [done|by right]).
    + destruct (decide ((x, pr_style) = (e, k))) as [[= <- <-]|Hne'].
      * rewrite decide_True by (split; [done|by left]). apply style_clear.
      * rewrite style_ne, style_data by done. rewrite decide_False; [done|].
        intros [-> [->|He]%elem_of_cons]; [done|]. tauto.
Qed.

Lemma margin_bare l d : (forall x, x ∈ l -> user_data d x "margin-right" = None) -> jq_each restore_margin l d = d.
Proof.
  unfold jq_each. induction l as [|x l IH]; intros Hl; cbn [foldl]; [done|].
  assert (E : restore_margin x d = d) by (unfold restore_margin; by rewrite Hl by by left).
  rewrite E. apply IH. intros y Hy. apply Hl. by right.
Qed.

Lemma unpadded_bare fixed sticky d e k : bare fixed sticky d ->
  style (unpadded fixed sticky d) e k = if decide (k = pr_style /\ e ∈ body :: fixed) then ""%string else style d e k.
Proof.
  intros [Hp Hm]. unfold unpadded. rewrite (margin_bare sticky).
  2: { intros x Hx. eapply each_clears; [apply restore_padding_clears|]. left. by apply Hm. }
  change (restore_padding body ?d) with (jq_each restore_padding [body] d).
  rewrite restore_bare.
  2: { intros x ->%list_elem_of_singleton. eapply each_clears; [apply restore_padding_clears|]. left. apply Hp. by left. }
  rewrite restore_bare by (intros x Hx; apply Hp; by right). repeat case_decide; set_solver.
Qed.
End scrollbar.

(** ** The page and the instance while the modal opens and closes *)
Section cycle.
Context {D : Type} `{DomLaws D, !NodeLaws D}.
Local Abbreviation W := (World D Modal modal_cb).
Implicit Types (d : D) (w : W).
Context (d0 : D) (o : nat) (el : elem) (dlg : option elem) (cfg : config) (fades ignore : bool) (inner : D -> Q)
  (event_target : D -> elem) (fixed sticky others : list elem).

(** The elements of the page: those the modal knows and any others. *)
Definition known : list elem := el :: body :: option_list dlg ++ fixed ++ sticky ++ others.

(** Classes that come and go: those of the body and of the modal, and that of a
    backdrop. *)
Definition moves (e : elem) (c : string) : Prop :=
  (e, c) ∈ [(body, "modal-open"); (el, "show")]%string \/ e ∉ known /\ c ∈ ["show"; "fade"]%string.

(** The page as the modal changes it. *)
Inductive touched d : D -> Prop :=
| touched_refl : touched d d
| touched_style e k v d' : touched d d' -> touched d (set_style e k v d')
| touched_data e k v d' : touched d d' -> touched d (set_user_data e k v d')
| touched_add e c d' : moves e c -> touched d d' -> touched d (add_class e c d')
| touched_drop e c d' : moves e c -> touched d d' -> touched d (remove_class e c d')
| touched_fresh b c d' : b ∉ known -> c ∈ ["modal-scrollbar-measure"; "modal-backdrop"]%string ->
    touched d d' -> touched d (set_class_list b [c] d')
| touched_attr e k v d' : k ∈ ["role"; "aria-hidden"; "aria-modal"]%string -> touched d d' -> touched d (set_attr e k v d')
| touched_scroll e v d' : touched d d' -> touched d (set_prop e "scrollTop" v d')
| touched_focus e d' : touched d d' -> touched d (set_focus e d')
| touched_create d' : touched d d' -> touched d (create_element d').2
| touched_append p c d' : touched d d' -> touched d (append_child p c d')
| touched_remove b d' : b ∉ known -> touched d d' -> touched d (remove_node b d').
#[local] Hint Constructors touched : modal.

(** A modal and its dialog, which one that fades has, and the fixed and the
    sticky elements of its page. *)
Record modal_page : Prop := {
  page_apart : el ∉ body :: fixed ++ sticky;
  page_fixed_nodup : NoDup (body :: fixed);
  page_sticky_nodup : NoDup sticky;
  page_fade d : touched d0 d -> has_class d el "fade" = fades;
  page_dialog : fades = true -> is_Some dlg;
  page_fixed d : touched d0 d -> query d None SELECTOR_FIXED_CONTENT = Some fixed;
  page_sticky d : touched d0 d -> query d None SELECTOR_STICKY_CONTENT = Some sticky;
  page_body dl d : dlg = Some dl -> touched d0 d -> is_Some (query d (Some dl) ".modal-body");
  page_fresh d : touched d0 d -> (create_element d).1 ∉ known
}.
Context (Hpage : modal_page).

(** The document [dd], against [d] when the modal was closed: whether the body
    and the modal have their classes, whether the paddings have moved. *)
Record doc (opened shown moved : bool) d dd : Prop := {
  doc_touched : touched d0 dd;
  doc_class e c : e ∈ known -> has_class dd e c =
    if decide ((e, c) = (body, "modal-open"%string)) then opened
    else if decide ((e, c) = (el, "show"%string)) then shown else has_class d e c;
  doc_style : if moved then shifted fixed sticky [el] d dd
    else bare fixed sticky dd /\ forall e k, e <> el -> style dd e k = style d e k
}.

(** The classes of the body and of the modal may change. *)
Lemma doc_reclass opened shown opened' shown' moved d dd dd' : doc opened shown moved d dd -> touched d0 dd' ->
  (forall e k, style dd' e k = style dd e k) -> (forall e k, user_data dd' e k = user_data dd e k) ->
  (forall e c, e ∈ known -> has_class dd' e c =
    if decide ((e, c) = (body, "modal-open"%string)) then opened'
    else if decide ((e, c) = (el, "show"%string)) then shown' else has_class dd e c) ->
  doc opened' shown' moved d dd'.
Proof.
  intros [_ Hdc Hds] Ht Hs Hu Hc. split; [done| |].
  - intros e c He. rewrite Hc, Hdc by done. repeat case_decide; done.
  - destruct moved.
    + destruct Hds as (P1 & P2 & P3). split_and!; [intros e He; rewrite Hu; by apply P1|intros e He; rewrite Hu; by apply P2|].
      intros e k He Hp Hm. rewrite Hs. by apply P3.
    + destruct Hds as [[P1 P2] P3]. split; [split; intros e He; rewrite Hu; auto|]. intros e k He. by rewrite Hs, P3.
Qed.

Lemma style_add e c dd e' k : style (add_class e c dd) e' k = style dd e' k.
Proof. unfold add_class. destruct (has_class dd e c); [done|apply style_class]. Qed.

Lemma user_data_add e c dd e' k : user_data (add_class e c dd) e' k = user_data dd e' k.
Proof. unfold add_class. destruct (has_class dd e c); [done|apply user_data_class]. Qed.

Lemma apart_body : el <> body.
Proof. intros E. apply (page_apart Hpage). rewrite E. by left. Qed.

Ltac reclass Hd := intros e c He; autorewrite with classes; rewrite (doc_class _ _ _ _ _ Hd e c He);
  destruct (decide ((e, c) = (body, "modal-open"%string))); destruct (decide ((e, c) = (el, "show"%string)));
  repeat case_bool_decide; naive_solver.

Lemma doc_open opened shown moved d dd : doc opened shown moved d dd -> doc true shown moved d (add_class body "modal-open" dd).
Proof.
  intros Hd. eapply doc_reclass; [exact Hd|apply touched_add; [left; by left|apply Hd]|apply style_add|apply user_data_add|].
  reclass Hd.
Qed.

Lemma doc_close opened shown moved d dd : doc opened shown moved d dd -> doc false shown moved d (remove_class body "modal-open" dd).
Proof.
  intros Hd. eapply doc_reclass; [exact Hd|apply touched_drop; [left; by left|apply Hd]|
    intros e k; apply style_class|intros e k; apply user_data_class|].
  reclass Hd.
Qed.

Lemma doc_show opened shown moved d dd : doc opened shown moved d dd -> doc opened true moved d (add_class el "show" dd).
Proof.
  intros Hd. pose proof apart_body.
  eapply doc_reclass; [exact Hd|apply touched_add; [left; set_solver|apply Hd]|apply style_add|apply user_data_add|].
  reclass Hd.
Qed.

Lemma doc_hide opened shown moved d dd : doc opened shown moved d dd -> doc opened false moved d (remove_class el "show" dd).
Proof.
  intros Hd. pose proof apart_body. eapply doc_reclass; [exact Hd|apply touched_drop; [left; set_solver|apply Hd]|
    intros e k; apply style_class|intros e k; apply user_data_class|].
  reclass Hd.
Qed.

(** A step that leaves the classes of the known elements and the styles of the
    others than the modal. *)
Definition mild dd dd' : Prop :=
  (touched d0 dd -> touched d0 dd') /\ (forall e c, e ∈ known -> has_class dd' e c = has_class dd e c) /\
  (forall e k, e <> el -> style dd' e k = style dd e k) /\ (forall e k, user_data dd' e k = user_data dd e k).

#[local] Instance mild_preorder : PreOrder mild.
Proof.
  split; [by intros dd|]. intros x y z (A1 & A2 & A3 & A4) (B1 & B2 & B3 & B4). split_and!; [auto|..]; intros.
  - by rewrite B2, A2. - by rewrite B3, A3. - by rewrite B4, A4.
Qed.

Lemma mild_doc opened shown moved d dd dd' : mild dd dd' -> doc opened shown moved d dd -> doc opened shown moved d dd'.
Proof.
  intros (Ht & Hc & Hs & Hu) [Hd Hdc Hds]. split; [auto|intros e c He; by rewrite Hc, Hdc|]. destruct moved.
  - destruct Hds as (P1 & P2 & P3). split_and!; [intros e He; rewrite Hu; by apply P1|intros e He; rewrite Hu; by apply P2|].
    intros e k He. rewrite Hs by (by intros ->; apply He; left). by apply P3.
  - destruct Hds as [[P1 P2] P3]. split; [split; intros e He; rewrite Hu; auto|]. intros e k He. by rewrite Hs, P3.
Qed.

Lemma mild_same dd dd' : looks_same dd dd' -> (touched d0 dd -> touched d0 dd') -> mild dd dd'.
Proof. intros Hl Ht. split_and!; [done|intros e c _; apply Hl|intros e k _; apply Hl|apply Hl]. Qed.

Lemma mild_own k v dd : mild dd (set_style el k v dd).
Proof.
  split_and!; [auto with modal| | |].
  - intros e c _. unfold has_class. by rewrite class_list_style.
  - intros e k' He. apply style_ne. congruence.
  - intros e k'. apply user_data_style.
Qed.

Lemma mild_class b l dd : b ∉ known -> (touched d0 dd -> touched d0 (set_class_list b l dd)) -> mild dd (set_class_list b l dd).
Proof.
  intros Hb Hl. split_and!; [done| | |].
  - intros e c He. unfold has_class. rewrite class_list_ne; [done|]. by intros ->.
  - intros e k _. apply style_class.
  - intros e k. apply user_data_class.
Qed.

Lemma mild_fresh b c dd : b ∉ known -> c ∈ ["modal-scrollbar-measure"; "modal-backdrop"]%string ->
  mild dd (set_class_list b [c] dd).
Proof. intros Hb Hc. apply mild_class; [done|]. by auto with modal. Qed.

Lemma mild_add b c dd : b ∉ known -> c ∈ ["show"; "fade"]%string -> mild dd (add_class b c dd).
Proof.
  intros Hb Hc. assert (Ht : touched d0 dd -> touched d0 (add_class b c dd)) by (intros; apply touched_add; [by right|done]).
  unfold add_class in *. destruct (has_class dd b c); [done|]. by apply mild_class.
Qed.

Lemma mild_drop b c dd : b ∉ known -> c ∈ ["show"; "fade"]%string -> mild dd (remove_class b c dd).
Proof. intros Hb Hc. apply mild_class; [done|]. intros Ht. apply touched_drop; [by right|done]. Qed.

Lemma mild_attr e k v dd : k ∈ ["role"; "aria-hidden"; "aria-modal"]%string -> mild dd (set_attr e k v dd).
Proof. intros Hk. apply mild_same; [by apply look_attr|auto with modal]. Qed.

Lemma mild_scroll e v dd : mild dd (set_prop e "scrollTop" v dd).
Proof. apply mild_same; [apply look_scroll|auto with modal]. Qed.

Lemma mild_focus e dd : mild dd (set_focus e dd).
Proof. apply mild_same; [apply look_focus|auto with modal]. Qed.

Lemma mild_create dd : mild dd (create_element dd).2.
Proof. apply mild_same; [apply look_create|auto with modal]. Qed.

Lemma mild_append p c dd : mild dd (append_child p c dd).
Proof. apply mild_same; [apply look_append|auto with modal]. Qed.

Lemma mild_remove b dd : b ∉ known -> mild dd (remove_node b dd).
Proof. intros Hb. apply mild_same; [apply look_remove|by auto with modal]. Qed.

(** A stage of the cycle: the fields of the instance that change (but the width
    of the scrollbar), the classes and paddings of the page, and the transition
    that is waited for. *)
Record snap := Snap {
  s_isShown : bool; s_isTransitioning : bool; s_overflow : bool;
  s_backdrop : option elem; s_listeners : list modal_listener;
  s_open : bool; s_show : bool; s_moved : bool;
  s_awaits : option (elem * modal_cb)
}.
Implicit Types s : snap.

Definition modal_of s (width : Q) : Modal := {|
  m_config := Some cfg; m_el := Some el; m_dialog := dlg; m_backdrop := s_backdrop s; m_isShown := s_isShown s;
  m_isBodyOverflowing := s_overflow s; m_ignoreBackdropClick := ignore; m_isTransitioning := s_isTransitioning s;
  m_scrollbarWidth := width; m_listeners := s_listeners s |}.

Section stages.
Context (T : list (task modal_cb)).

(** The callbacks that wait are those of the transition; beyond them and [T]
    there are timers of emulations only, whose cell ([cl] are those that are
    true) the end of its transition has set or will set. *)
Definition awaiting (a : option (elem * modal_cb)) (cl : gset nat) (ts : list (task modal_cb)) : Prop :=
  (forall t, t ∈ ts -> t ∈ T \/ (exists x, is_once x TRANSITION_END t = true) \/
     exists c els, task_run t = EmuFire c els /\
       (c ∈ cl \/ match a with Some (y, k) => waiting y ts = [Call k; EmuMark c] | None => False end)) /\
  forall x, match a with
            | Some (y, k) => if decide (x = y) then exists c, waiting x ts = [Call k; EmuMark c] else waiting x ts = []
            | None => waiting x ts = []
            end.

Record stage s d w : Prop := {
  stage_this : exists width, heap w !! o = Some (modal_of s width);
  stage_doc : doc (s_open s) (s_show s) (s_moved s) d (dom w);
  stage_backdrop b : s_backdrop s = Some b -> b ∉ known;
  stage_tasks : awaiting (s_awaits s) (called w) (tasks w)
}.

Lemma stage_dom s s' d dd w : stage s d w -> doc (s_open s') (s_show s') (s_moved s') d dd ->
  (forall width, modal_of s' width = modal_of s width) -> s_awaits s' = s_awaits s -> stage s' d (w <| dom := dd |>).
Proof.
  intros [[width Ht] Hd Hb Hk] Hdd Hm Ha. split; [|done| |by rewrite Ha].
  - exists width. by rewrite Hm.
  - intros b Hs. apply Hb. rewrite <- Hs. by injection (Hm 0%Q) as ->.
Qed.

Lemma stage_mild s d dd w : stage s d w -> mild (dom w) dd -> stage s d (w <| dom := dd |>).
Proof. intros Hw Hm. eapply stage_dom; [done|eapply mild_doc; [done|apply Hw]|done|done]. Qed.

(** A change of the instance. *)
Lemma stage_put s s' f d w : stage s d w ->
  (forall width, exists width', f (modal_of s width) = modal_of s' width') ->
  (s_open s', s_show s', s_moved s', s_awaits s') = (s_open s, s_show s, s_moved s, s_awaits s) ->
  (forall b, s_backdrop s' = Some b -> b ∉ known) -> stage s' d (w <| heap := alter f o (heap w) |>).
Proof.
  intros [[width Ht] Hd _ Hk] Hf Es Hb. injection Es as E1 E2 E3 E4. split; rewrite ?E1, ?E2, ?E3, ?E4; [|done..].
  destruct (Hf width) as [width' E]. exists width'. cbn. unfold constant. by rewrite lookup_alter_eq, Ht, <- E.
Qed.

(** ** Steps of the programs *)
Lemma get_stage {A} (Q : A -> W -> Prop) f s d w : stage s d w ->
  (forall width, runs (f (modal_of s width)) Q w) -> runs (get o ≫= f) Q w.
Proof. intros [[width Ht] _ _ _] Hf. apply runs_bind. by eapply runs_get. Qed.

Lemma put_stage s s' f d w : stage s d w ->
  (forall width, exists width', f (modal_of s width) = modal_of s' width') ->
  (s_open s', s_show s', s_moved s', s_awaits s') = (s_open s, s_show s, s_moved s, s_awaits s) ->
  (forall b, s_backdrop s' = Some b -> b ∉ known) -> runs (put o f) (fun _ => stage s' d) w.
Proof. intros. by eapply runs_put, stage_put. Qed.

Definition without (e : string) (ls : list modal_listener) : list modal_listener := filter (fun l => listener_event l <> e) ls.

Lemma on_stage l s d w : stage s d w -> runs (m_on o l) (fun _ => stage (s <| s_listeners := s_listeners s ++ [l] |>) d) w.
Proof. intros Hw. eapply put_stage; [exact Hw|intros width; by exists width|done|apply Hw]. Qed.

Lemma off_stage e s d w : stage s d w ->
  runs (m_off o e) (fun _ => stage (s <| s_listeners := without e (s_listeners s) |>) d) w.
Proof. intros Hw. eapply put_stage; [exact Hw|intros width; by exists width|done|apply Hw]. Qed.

Lemma off_shared_stage e s d w : stage s d w ->
  runs (m_off_shared e) (fun _ => stage (s <| s_listeners := without e (s_listeners s) |>) d) w.
Proof.
  intros [[width Ht] Hd Hb Hk]. split; [|done..]. exists width. cbn. unfold constant. by rewrite lookup_fmap, Ht.
Qed.

Lemma mod_stage f s d w : stage s d w -> (forall dd, mild dd (f dd)) -> runs (mod_dom f) (fun _ => stage s d) w.
Proof. intros Hw Hf. by apply stage_mild. Qed.

Lemma when_stage b f s d w : stage s d w -> (forall dd, mild dd (f dd)) -> runs (when b (mod_dom f)) (fun _ => stage s d) w.
Proof. intros Hw Hf. apply runs_when; intros _; [by apply mod_stage|done]. Qed.

Lemma fade_stage s s' d w width : stage s d w -> is_fade (dom w) (modal_of s' width) = fades.
Proof.
  intros Hw. unfold is_fade. cbn [m_el modal_of]. change (option_list (Some el)) with [el]. rewrite has_class_one.
  apply (page_fade Hpage), Hw.
Qed.

(** ** Transitions *)
Lemma begin_stage x k ms s d w : stage s d w -> s_awaits s = None ->
  runs (jq_one [x] TRANSITION_END (Call k) ;; transitionEndEmulator [x] ms)
    (fun _ => stage (s <| s_awaits := Some (x, k) |>) d) w.
Proof.
  intros [Ht Hd Hb [Hk Hn]] Ha. rewrite Ha in Hk, Hn. apply runs_transition.
  split; [exact Ht|exact Hd|exact Hb|]. cbn. unfold constant.
  assert (Hx : waiting x (tasks w ++ transition_tasks x k (next_id w) (next_id w + 1) (default 0%Q ms)) = [Call k; EmuMark (next_id w + 1)]).
  { by rewrite waiting_app, waiting_transition, Hn, decide_True. }
  split.
  - intros t [Hin|Hin]%elem_of_app.
    + destruct (Hk t Hin) as [?|[?|(c & els & E & [Hc|[]])]]; [by left|by right; left|].
      right; right. exists c, els. split; [done|by left].
    + right. unfold transition_tasks in Hin.
      rewrite !elem_of_cons in Hin. destruct Hin as [-> |[-> |[-> |Hin]]]; [..|by apply not_elem_of_nil in Hin].
      * left. exists x. unfold is_once. cbn. by rewrite Nat.eqb_refl.
      * left. exists x. unfold is_once. cbn. by rewrite Nat.eqb_refl.
      * right. eexists _, _. split; [reflexivity|]. by right.
  - intros y. rewrite waiting_app, waiting_transition, Hn. destruct (decide (y = x)); [by eexists|done].
Qed.

(** A removal of callbacks while none is waited for. *)
Lemma awaiting_removed (P : task modal_cb -> Prop) `{!forall t, Decision (P t)} cl ts :
  awaiting None cl ts -> awaiting None cl (filter P ts).
Proof.
  intros [Hk Hn]. split; [intros t [_ Ht]%list_elem_of_filter; by apply Hk|]. intros x. specialize (Hn x).
  unfold waiting in *. apply List.map_eq_nil in Hn.
  assert (E : filter (fun t => is_once x TRANSITION_END t = true) (filter P ts) = []); [|by rewrite E].
  apply elem_of_nil_inv. intros t [Hx [_ Ht]%list_elem_of_filter]%list_elem_of_filter.
  apply (not_elem_of_nil t). rewrite <- Hn. by apply list_elem_of_filter.
Qed.

(** An end that nothing waits for. *)
Lemma idle_stage x s d w : stage s d w -> s_awaits s = None ->
  runs (deliver (modal_plug silent event_target) x TRANSITION_END) (fun _ => stage s d) w.
Proof.
  intros [Ht Hd Hb Hk] Ha. apply runs_deliver. pose proof (proj2 Hk x) as Hx. rewrite Ha in Hx. rewrite Hx.
  cbn [for_each]. apply runs_skip. split; [exact Ht|exact Hd|exact Hb|]. rewrite Ha in *. by apply awaiting_removed.
Qed.

(** *** The scrollbar *)

Definition overflows d : bool :=
  let r := bounding_rect d body in
  negb (Qle_bool (inner d) (inject_Z (Qround.Qfloor (cr_left r + cr_right r + (1 # 2))))).

Lemma check_stage s d w : stage s d w ->
  runs (_checkScrollbar inner o) (fun _ => stage (s <| s_overflow := overflows (dom w) |>) d) w.
Proof.
  intros Hw. unfold _checkScrollbar. wp. fold (overflows (dom w)).
  assert (Hw1 : stage (s <| s_overflow := overflows (dom w) |>) d
    (w <| heap := alter (fun this => this <| m_isBodyOverflowing := overflows (dom w) |>) o (heap w) |>)).
  { eapply stage_put; [exact Hw| |done|apply Hw]. intros width. by exists width. }
  set (w1 := w <| heap := _ |>) in *. clearbody w1. unfold _getScrollbarWidth, runs at 1.
  pose proof (mild_create (dom w1)) as Hc. pose proof (page_fresh Hpage (dom w1)) as Hb.
  destruct (create_element (dom w1)) as [div dm]. cbn [fst snd] in Hc, Hb.
  specialize (Hb ltac:(apply Hw1)). wp. eapply stage_put; [|intros width; by eexists|done|apply Hw].
  eapply stage_mild; [exact Hw1|]. etrans; [exact Hc|].
  etrans; [apply (mild_fresh div "modal-scrollbar-measure"%string)|]; [done|set_solver|].
  etrans; [apply (mild_append body div)|]. by apply mild_remove.
Qed.

Lemma has_class_each (f : elem -> D -> D) l dd e c : (forall x dd, has_class (f x dd) e c = has_class dd e c) ->
  has_class (jq_each f l dd) e c = has_class dd e c.
Proof. intros Hf. unfold jq_each. revert dd. induction l as [|x l IH]; intros dd; cbn [foldl]; [done|]. by rewrite IH, Hf. Qed.

Lemma touched_each (f : elem -> D -> D) l dd : (forall x dd, touched d0 dd -> touched d0 (f x dd)) ->
  touched d0 dd -> touched d0 (jq_each f l dd).
Proof. intros Hf. unfold jq_each. revert dd. induction l as [|x l IH]; intros dd Hd; cbn [foldl]; auto. Qed.

Lemma has_class_data x k v dd e c : has_class (set_user_data x k v dd) e c = has_class dd e c.
Proof. unfold has_class. by rewrite class_list_data. Qed.

Lemma has_class_style x k v dd e c : has_class (set_style x k v dd) e c = has_class dd e c.
Proof. unfold has_class. by rewrite class_list_style. Qed.

Lemma touched_save x dn sn cn width dd : touched d0 dd -> touched d0 (save_style x dn sn cn width dd).
Proof. unfold save_style. auto with modal. Qed.

Lemma touched_restore x dd : touched d0 dd -> touched d0 (restore_padding x dd).
Proof. unfold restore_padding. auto with modal. Qed.

Lemma touched_margin x dd : touched d0 dd -> touched d0 (restore_margin x dd).
Proof. unfold restore_margin. destruct (user_data dd x "margin-right"); auto with modal. Qed.

Lemma padded_class width dd e c : has_class (padded fixed sticky width dd) e c =
  bool_decide (body = e /\ "modal-open"%string = c) || has_class dd e c.
Proof.
  unfold padded, save_style. rewrite jq_add_one, has_class_add_class by done. f_equal.
  rewrite has_class_style, has_class_data, !has_class_each; [done|..]; intros; by rewrite has_class_style, has_class_data.
Qed.

Lemma unpadded_class dd e c : has_class (unpadded fixed sticky dd) e c = has_class dd e c.
Proof.
  assert (Hr : forall x dd, has_class (restore_padding x dd) e c = has_class dd e c).
  { intros. unfold restore_padding. by rewrite has_class_style, has_class_data. }
  unfold unpadded. rewrite Hr, !has_class_each; [done|done|]. intros x dd'. unfold restore_margin.
  destruct (user_data dd' x "margin-right"); [by rewrite has_class_data, has_class_style|done].
Qed.

Lemma not_own e : e ∈ body :: fixed ++ sticky -> e <> el.
Proof. intros He ->. by apply (page_apart Hpage). Qed.

Lemma padded_doc width shown d dd : doc false shown false d dd -> doc true shown true d (padded fixed sticky width dd).
Proof.
  intros [Ht Hc [_ Hs]]. split.
  - unfold padded. rewrite jq_add_one by done. apply touched_add; [left; by left|]. apply touched_save, touched_each; [intros; by apply touched_save|].
    apply touched_each; [intros; by apply touched_save|done].
  - intros e c He. rewrite padded_class, Hc by done.
    destruct (decide ((e, c) = (body, "modal-open"%string))) as [[= -> ->]|Hne]; [by rewrite bool_decide_eq_true_2|].
    rewrite bool_decide_eq_false_2 by (intros [<- <-]; by apply Hne). done.
  - destruct (padded_shifted fixed sticky width dd (page_fixed_nodup Hpage) (page_sticky_nodup Hpage)) as (P1 & P2 & P3).
    split_and!.
    + intros e He. rewrite P1, Hs; [done|apply not_own; set_solver|done].
    + intros e He. rewrite P2, Hs; [done|apply not_own; set_solver|done].
    + intros e k He Hp Hm. rewrite P3, Hs; [done|set_solver|apply not_elem_of_nil|done|done].
Qed.

(** [_setScrollbar]. *)
Lemma set_stage s d w : stage s d w -> s_open s = false -> s_moved s = false ->
  runs (_setScrollbar o) (fun _ => stage (s <| s_open := true |> <| s_moved := s_overflow s |>) d) w.
Proof.
  destruct s as [sh tr overflow b ls op shown mv a]. cbn [s_open s_moved]. intros Hw -> ->.
  unfold _setScrollbar. eapply get_stage; [exact Hw|]. intros width. cbn [m_isBodyOverflowing modal_of m_scrollbarWidth s_overflow].
  pose proof (doc_touched _ _ _ _ _ (stage_doc _ _ _ Hw)) as Ht.
  destruct overflow; wp.
  - eapply runs_query_all; [by apply (page_fixed Hpage)|]. wp.
    eapply runs_query_all; [by apply (page_sticky Hpage)|]. wp. autorewrite with world.
    change (stage (Snap sh tr true b ls true shown true a) d (w <| dom := padded fixed sticky width (dom w) |>)).
    eapply stage_dom; [exact Hw| |done|done]. apply padded_doc, Hw.
  - eapply stage_dom; [exact Hw| |done|done]. rewrite jq_add_one by done. eapply doc_open, Hw.
Qed.

(** *** The steps of [show] *)
#[local] Hint Resolve mild_own mild_attr mild_scroll mild_focus mild_append mild_add mild_drop mild_remove : mild.
#[local] Hint Extern 1 (_ ∈ _) => set_solver : mild.

Ltac stage_step lem := eapply runs_seq; [eapply lem; eassumption|cbv beta; intros [] ? ?].

Ltac mod_step := eapply runs_seq; [eapply mod_stage; [eassumption|intros ?; auto with mild]|cbv beta; intros [] ? ?].

Ltac put_step s' := eapply runs_seq;
  [eapply (put_stage _ s'); [eassumption|intros ?; by eexists|done|match goal with H : stage _ _ _ |- _ => exact (stage_backdrop _ _ _ H) end]|cbv beta; intros [] ? ?].

Lemma adjust_stage s d w : stage s d w -> runs (_adjustDialog o) (fun _ => stage s d) w.
Proof.
  intros Hw. unfold _adjustDialog. eapply get_stage; [exact Hw|]. intros width. wp.
  eapply runs_mono; [|apply when_stage; [exact Hw|intros dd; apply mild_own]]. intros [] w1 Hw1.
  apply when_stage; [exact Hw1|]. intros dd. apply mild_own.
Qed.

Lemma escape_stage s d w : stage s d w -> runs (_setEscapeEvent o) (fun _ => stage (s <| s_listeners :=
  if s_isShown s then s_listeners s ++ [LKeydownDismiss] else without "keydown.dismiss" (s_listeners s) |>) d) w.
Proof.
  intros Hw. unfold _setEscapeEvent. eapply get_stage; [exact Hw|]. intros width. cbn [m_isShown modal_of].
  destruct (s_isShown s); [by apply on_stage|by apply off_stage].
Qed.

Lemma resize_stage s d w : stage s d w -> runs (_setResizeEvent o) (fun _ => stage (s <| s_listeners :=
  if s_isShown s then s_listeners s ++ [LResize] else without "resize" (s_listeners s) |>) d) w.
Proof.
  intros Hw. unfold _setResizeEvent. eapply get_stage; [exact Hw|]. intros width. cbn [m_isShown modal_of].
  destruct (s_isShown s); [by apply on_stage|by apply off_shared_stage].
Qed.

Lemma complete_stage rel s d w : stage s d w ->
  runs (transitionComplete silent o rel) (fun _ => stage (s <| s_isTransitioning := false |>) d) w.
Proof.
  intros Hw. unfold transitionComplete. eapply get_stage; [exact Hw|]. intros width.
  apply runs_bind. eapply runs_deref; [reflexivity|].
  eapply (runs_seq _ _ _ (fun _ => stage s d)).
  { destruct (truthy (field cfg "focus")); [|by apply runs_skip].
    apply runs_bind. eapply runs_deref; [done|]. apply runs_mod_dom. eapply stage_mild; [exact Hw|apply mild_focus]. }
  cbv beta. intros [] w1 Hw1. put_step (s <| s_isTransitioning := false |>).
  eapply get_stage; [eassumption|]. intros wd. by wp.
Qed.

(** [_enforceFocus], when the configuration asks for it. *)
Definition focusing (ls : list modal_listener) : list modal_listener :=
  if truthy (field cfg "focus") then without "focusin" ls ++ [LFocusin] else ls.

Lemma enforce_stage s d w : stage s d w -> runs (when (truthy (field cfg "focus")) (_enforceFocus o))
  (fun _ => stage (s <| s_listeners := focusing (s_listeners s) |>) d) w.
Proof.
  intros Hw. unfold focusing. destruct (truthy (field cfg "focus")); cbn [when]; [|by destruct s].
  unfold _enforceFocus. stage_step off_shared_stage.
  match goal with H : stage _ _ ?w1 |- _ => exact (on_stage LFocusin _ d w1 H) end.
Qed.

Lemma body_query s d w : stage s d w -> forall m, m = dlg ->
  runs (match m with Some dl => query_one (Some dl) ".modal-body" | None => mret None end) (fun _ w' => w' = w) w.
Proof.
  intros Hw [dl|] Hm; [|done]. destruct (page_body Hpage dl (dom w) (eq_sym Hm)) as [l Hl]; [apply Hw|].
  by eapply runs_query_one.
Qed.

(** What the dialog waits for. *)
Definition dialog_end rel : option (elem * modal_cb) :=
  match dlg with Some dl => if fades then Some (dl, MTransitionComplete o rel) else None | None => None end.

(** [_showElement], and the end of its transition. *)
Lemma element_stage rel overflow b ls opened shown moved d w :
  stage (Snap true fades overflow b ls opened shown moved None) d w ->
  runs (_showElement silent o rel)
    (fun _ => stage (Snap true fades overflow b (focusing ls) opened true moved (dialog_end rel)) d) w.
Proof.
  intros Hw. unfold _showElement. eapply get_stage; [exact Hw|]. intros width.
  apply runs_bind, runs_get_dom. cbv zeta. erewrite fade_stage by eassumption.
  eapply runs_seq; [by eapply body_query|]. cbv beta. intros modalBody w' ->.
  apply runs_bind. eapply runs_deref; [reflexivity|].
  eapply runs_seq; [eapply when_stage; [exact Hw|auto with mild]|]. cbv beta. intros [] w1 Hw1.
  do 4 mod_step. apply runs_bind, runs_get_dom. cbv beta.
  eapply (runs_seq _ _ _ (fun _ w' => stage (Snap true fades overflow b ls opened shown moved None) d w')).
  { destruct (jq_has_class _ _ _), modalBody; (apply mod_stage; [eassumption|auto with mild]). }
  cbv beta. intros [] w6 Hw6. apply runs_bind, runs_mod_dom. rewrite jq_add_one by done.
  apply runs_bind. eapply runs_deref; [reflexivity|].
  assert (Hw7 : stage (Snap true fades overflow b ls opened true moved None) d (w6 <| dom := add_class el "show" (dom w6) |>)).
  { eapply stage_dom; [exact Hw6|eapply doc_show, Hw6|done|done]. }
  stage_step enforce_stage. unfold dialog_end. pose proof (page_dialog Hpage) as Hdl. cbn [m_dialog modal_of]. destruct fades.
  - destruct dlg as [dl|]; [|by destruct Hdl]. apply runs_bind, runs_get_dom.
    match goal with Hl : stage _ _ ?w1 |- _ => exact (begin_stage dl _ _ _ d w1 Hl eq_refl) end.
  - replace (match dlg with Some _ => _ | None => _ end) with (@None (elem * modal_cb)) by by destruct dlg.
    by eapply runs_mono; [|by eapply complete_stage].
Qed.

(** [_showBackdrop] of [show]. *)
Lemma new_backdrop_stage animate s d w : stage s d w ->
  runs (new_backdrop animate) (fun b w' => b ∉ known /\ stage s d w') w.
Proof.
  intros Hw. unfold runs, new_backdrop.
  pose proof (mild_create (dom w)) as Hc. pose proof (page_fresh Hpage (dom w)) as Hb.
  destruct (create_element (dom w)) as [b dm]. cbn [fst snd] in Hc, Hb.
  specialize (Hb ltac:(apply Hw)). split; [done|]. eapply stage_mild; [exact Hw|]. etrans; [exact Hc|].
  etrans; [apply (mild_fresh b "modal-backdrop"%string)|]; [done|set_solver|].
  etrans; [|apply mild_append]. destruct animate; [auto with mild|done].
Qed.

(** The listeners of an open modal. *)
Definition backdrops : bool := truthy (field cfg "backdrop").
Definition show_listeners : list modal_listener := [LKeydownDismiss; LResize; LDismissClick; LMousedownDismiss].
Definition under_backdrop : list modal_listener := if backdrops then show_listeners ++ [LBackdropClick] else show_listeners.

(** The modal while its dialog appears, while its backdrop [b] does, and shown;
    [moved] says whether the paddings of the page have moved. *)
Definition entering rel b (moved : bool) : snap :=
  Snap true fades moved b (focusing under_backdrop) true true moved (dialog_end rel).
Definition opening rel (b : option elem) (moved : bool) : snap :=
  match b with
  | Some x => if fades then Snap true true moved b under_backdrop true false moved (Some (x, MBackdrop o (BackdropShowElement rel)))
              else entering rel b moved
  | None => entering rel b moved
  end.
Definition fully_shown b (moved : bool) : snap := Snap true false moved b (focusing under_backdrop) true true moved None.

Lemma backdrop_stage rel moved d w : stage (Snap true fades moved None show_listeners true false moved None) d w ->
  runs (_showBackdrop silent o (BackdropShowElement rel))
    (fun _ w' => exists b, (is_Some b <-> backdrops = true) /\ stage (opening rel b moved) d w') w.
Proof.
  intros Hw. pose proof (element_stage rel) as Hel. unfold _showBackdrop, opening, entering, under_backdrop.
  eapply get_stage; [exact Hw|]. intros width.
  apply runs_bind, runs_get_dom. cbv zeta. erewrite fade_stage by eassumption. cbn [m_isShown modal_of s_isShown].
  apply runs_bind. eapply runs_deref; [reflexivity|]. cbn [andb]. fold backdrops. destruct backdrops eqn:Eb.
  - eapply runs_seq; [by apply new_backdrop_stage|]. cbv beta. intros b w1 [Hb Hw1].
    eapply runs_seq; [eapply (put_stage _ (Snap true fades moved (Some b) show_listeners true false moved None));
      [exact Hw1|intros wd; by exists wd|done|by intros ? [= <-]]|cbv beta; intros [] w2 Hw2].
    stage_step on_stage. eapply runs_seq; [eapply mod_stage; [eassumption|]|].
    { intros dd. rewrite jq_add_one by done. auto with mild. }
    cbv beta. intros [] w4 Hw4. destruct fades; cbn [negb run_backdrop_cb].
    + apply runs_bind, runs_get_dom. eapply runs_mono; [|exact (begin_stage b _ _ _ d w4 Hw4 eq_refl)].
      intros [] w5 Hw5. by exists (Some b).
    + eapply runs_mono; [|by eapply Hel]. intros [] w5 Hw5. by exists (Some b).
  - cbn [run_backdrop_cb m_backdrop modal_of s_backdrop]. eapply runs_mono; [|by eapply Hel]. intros [] w5 Hw5. exists None.
    split; [|exact Hw5]. split; [by intros []|done].
Qed.

(** *** [show] *)

(** At rest, the modal is closed and the page has nothing of it. *)
Definition closed (overflow : bool) : snap := Snap false false overflow None [] false false false None.

Lemma show_stage rel overflow d w : stage (closed overflow) d w ->
  runs (m_show silent inner o rel)
    (fun _ w' => exists b, (is_Some b <-> backdrops = true) /\ stage (opening rel b (overflows (dom w))) d w') w.
Proof.
  intros Hw. unfold m_show. eapply get_stage; [exact Hw|]. intros width.
  cbn [m_isShown m_isTransitioning modal_of s_isShown s_isTransitioning closed orb].
  apply runs_bind, runs_get_dom. erewrite fade_stage by eassumption.
  eapply (runs_seq _ _ _ (fun _ w' => dom w' = dom w /\ stage (Snap false fades overflow None [] false false false None) d w')).
  { destruct fades; [|by split]. apply runs_put. split; [done|].
    eapply stage_put; [exact Hw|intros wd; by exists wd|done|apply Hw]. }
  cbv beta. intros [] w1 [<- Hw1]. apply runs_bind, runs_trigger. eapply get_stage; [exact Hw1|]. clear width. intros width.
  cbn [m_isShown modal_of s_isShown orb]. apply runs_bind, runs_put.
  assert (Hw2 : stage (Snap true fades overflow None [] false false false None) d
    (w1 <| heap := alter (fun this : Modal => this <| m_isShown := true |>) o (heap w1) |>)).
  { eapply stage_put; [exact Hw1|intros wd; by exists wd|done|apply Hw1]. }
  stage_step check_stage. autorewrite with world in *.
  eapply runs_seq; [eapply set_stage; [eassumption|done|done]|cbv beta; intros [] ? ?]. stage_step adjust_stage. stage_step escape_stage.
  stage_step resize_stage. stage_step on_stage. stage_step on_stage. by apply backdrop_stage.
Qed.

(** *** [hide] *)

(** The page [dc] after the modal was closed, against the page [d] before it opened. *)
Definition put_back (moved : bool) d dc : Prop :=
  (forall e c, e ∈ known -> has_class dc e c =
    if decide ((e, c) = (body, "modal-open"%string)) then false
    else if decide ((e, c) = (el, "show"%string)) then false else has_class d e c) /\
  forall e k, e <> el -> style dc e k =
    if moved then style d e k else if decide (k = pr_style /\ e ∈ body :: fixed) then ""%string else style d e k.

Definition gone (moved : bool) d w : Prop := exists dc, stage (closed moved) dc w /\ put_back moved d dc.

(** While the modal, then its backdrop, disappears. *)
Definition hiding b (moved : bool) : snap := Snap false true moved b [] true false moved (Some (el, MHideModal o)).
Definition leaving x (moved : bool) : snap :=
  Snap false false moved (Some x) [] true false moved (Some (x, MBackdropRemove o BackdropHidden)).

Definition left_by (b : option elem) (moved : bool) d w : Prop :=
  match b with Some x => if fades then stage (leaving x moved) d w else gone moved d w | None => gone moved d w end.

Lemma unpadded_put_back moved d dd : doc false false moved d dd -> put_back moved d (unpadded fixed sticky dd) /\
  doc false false false (unpadded fixed sticky dd) (unpadded fixed sticky dd).
Proof.
  intros [Ht Hc Hs]. split; [split|split].
  - intros e c He. by rewrite unpadded_class, Hc.
  - intros e k He. destruct moved.
    + apply (unpadded_shifted fixed sticky [el]); [apply Hpage|apply Hpage|done|set_solver].
    + destruct Hs as [Hb Hs]. rewrite unpadded_bare by done. case_decide; [done|by apply Hs].
  - unfold unpadded. apply touched_restore, touched_each; [intros; by apply touched_margin|].
    apply touched_each; [intros; by apply touched_restore|done].
  - intros e c He. rewrite unpadded_class, Hc by done. by repeat case_decide.
  - split; [apply unpadded_clears|done].
Qed.

Lemma reset_runs (Q : unit -> W -> Prop) w : touched d0 (dom w) ->
  Q tt (w <| dom := unpadded fixed sticky (dom w) |>) -> runs _resetScrollbar Q w.
Proof.
  intros Ht HQ. unfold _resetScrollbar. apply runs_bind. eapply runs_query_all; [by apply (page_fixed Hpage)|]. wp.
  eapply runs_query_all; [apply (page_sticky Hpage); autorewrite with world; apply touched_each; [intros; by apply touched_restore|done]|].
  wp. autorewrite with world. exact HQ.
Qed.

Lemma hidden_runs moved d w : stage (Snap false false moved None [] true false moved None) d w ->
  runs (after_hidden silent o) (fun _ => gone moved d) w.
Proof.
  intros Hw. unfold after_hidden. apply runs_bind, runs_mod_dom. rewrite jq_remove_one by done.
  assert (Hw1 : stage (Snap false false moved None [] false false moved None) d (w <| dom := remove_class body "modal-open" (dom w) |>)).
  { eapply stage_dom; [exact Hw|eapply doc_close, Hw|done|done]. }
  eapply (runs_seq _ _ _ (fun _ => stage (Snap false false moved None [] false false moved None) d)).
  { unfold _resetAdjustments. eapply get_stage; [exact Hw1|]. intros width. apply runs_bind.
    eapply runs_deref; [reflexivity|]. eapply mod_stage; [exact Hw1|]. intros dd. etrans; apply mild_own. }
  cbv beta. intros [] w2 Hw2. destruct (unpadded_put_back moved d (dom w2)) as [Hcl Hd]; [apply Hw2|].
  apply runs_bind, reset_runs; [apply Hw2|].
  assert (Hw3 : stage (closed moved) (unpadded fixed sticky (dom w2)) (w2 <| dom := unpadded fixed sticky (dom w2) |>)).
  { destruct Hw2 as [Ht _ Hb Hk]. by split. }
  eapply get_stage; [exact Hw3|]. intros width. wp. by eexists.
Qed.

Lemma remove_stage overflow x ls opened show moved d w :
  stage (Snap false false overflow (Some x) ls opened show moved None) d w ->
  runs (_removeBackdrop o) (fun _ => stage (Snap false false overflow None ls opened show moved None) d) w.
Proof.
  intros Hw. unfold _removeBackdrop. eapply get_stage; [exact Hw|]. intros width. cbn [m_backdrop modal_of s_backdrop].
  eapply (runs_seq _ _ _ (fun _ => stage (Snap false false overflow (Some x) ls opened show moved None) d)).
  - pose proof (mild_remove x (dom w) (stage_backdrop _ _ _ Hw x eq_refl)) as Hm.
    destruct (stage_mild _ _ _ _ Hw Hm) as [Ht Hd Hb _]. split; [exact Ht|exact Hd|exact Hb|]. apply awaiting_removed, Hw.
  - intros [] w1 Hw1. apply runs_put. eapply stage_put; [exact Hw1|intros wd; by exists wd|done|done].
Qed.

Lemma callbackRemove_runs x moved d w : stage (Snap false false moved (Some x) [] true false moved None) d w ->
  runs (callbackRemove silent o BackdropHidden) (fun _ => gone moved d) w.
Proof. intros Hw. unfold callbackRemove. stage_step remove_stage. by apply hidden_runs. Qed.

Lemma hideModal_runs b tr moved d w : stage (Snap false tr moved b [] true false moved None) d w ->
  runs (_hideModal silent o) (fun _ => left_by b moved d) w.
Proof.
  intros Hw. unfold _hideModal. eapply get_stage; [exact Hw|]. intros width. apply runs_bind.
  eapply runs_deref; [reflexivity|]. do 4 mod_step. put_step (Snap false false moved b [] true false moved None).
  match goal with Hl : stage (Snap false false _ _ _ _ _ _ _) _ ?w4 |- _ => set (w5 := w4) in *; clearbody w5; rename Hl into Hw5 end.
  unfold _showBackdrop. eapply get_stage; [exact Hw5|]. clear width. intros width.
  apply runs_bind, runs_get_dom. cbn [m_isShown modal_of s_isShown andb m_backdrop s_backdrop]. apply runs_bind, runs_ret.
  destruct b as [x|]; [|by eapply hidden_runs].
  eapply runs_seq; [eapply mod_stage; [exact Hw5|]|].
  { intros dd. rewrite jq_remove_one by done. apply mild_drop; [by apply Hw5|set_solver]. }
  cbv beta. intros [] w6 Hw6. apply runs_bind, runs_get_dom. erewrite fade_stage by eassumption.
  pose proof (callbackRemove_runs x moved d w6 Hw6) as Hcb. unfold left_by. destruct fades; [|exact Hcb].
  exact (begin_stage x _ _ _ d w6 Hw6 eq_refl).
Qed.

Lemma no_listener_left :
  without "mousedown.dismiss" (without "click.dismiss" (without "focusin" (without "resize"
    (without "keydown.dismiss" (focusing under_backdrop))))) = [].
Proof. unfold focusing, under_backdrop, show_listeners. destruct backdrops, (truthy (field cfg "focus")); reflexivity. Qed.

Lemma hide_stage given b moved d w : stage (fully_shown b moved) d w ->
  runs (m_hide silent o given) (fun _ w' => if fades then stage (hiding b moved) d w' else left_by b moved d w') w.
Proof.
  intros Hw0. unfold m_hide. pose proof (fun w => hideModal_runs b false moved d w) as Hh.
  eapply (runs_seq _ _ _ (fun _ => stage (fully_shown b moved) d)).
  { destruct given; [|done]. by destruct Hw0. }
  clear w Hw0. intros [] w Hw. eapply get_stage; [exact Hw|]. intros width.
  cbn [m_isShown m_isTransitioning modal_of s_isShown s_isTransitioning fully_shown orb negb].
  apply runs_bind, runs_trigger. eapply get_stage; [exact Hw|]. clear width. intros width. cbn [m_isShown modal_of s_isShown fully_shown orb negb].
  put_step ((fully_shown b moved) <| s_isShown := false |>). apply runs_bind, runs_get_dom. cbv zeta.
  erewrite fade_stage by eassumption.
  eapply (runs_seq _ _ _ (fun _ => stage ((fully_shown b moved) <| s_isShown := false |> <| s_isTransitioning := fades |>) d)).
  { destruct fades; [|done]. eapply put_stage; [eassumption|intros wd; by exists wd|done|].
    match goal with Hl : stage _ _ _ |- _ => exact (stage_backdrop _ _ _ Hl) end. }
  cbv beta. intros [] w1 Hw1. stage_step escape_stage. stage_step resize_stage. stage_step off_shared_stage.
  match goal with Hl : stage _ _ ?w4 |- runs _ _ ?w4 => set (w5 := w4) in *; clearbody w5; rename Hl into Hw5 end.
  apply runs_bind, runs_mod_dom. change (option_list (m_el _)) with [el]. rewrite jq_remove_one by done.
  eapply (stage_dom _ (_ <| s_show := false |>)) in Hw5; [|eapply doc_hide, Hw5|done|done].
  stage_step off_stage. stage_step off_stage.
  match goal with Hl : stage ?s _ ?w7 |- runs _ _ ?w7 => set (w6 := w7) in *; clearbody w6;
    assert (Hw7 : stage (Snap false fades moved b [] true false moved None) d w6) by (rewrite <- no_listener_left; exact Hl) end.
  destruct fades; [|by apply Hh]. apply runs_bind, runs_get_dom. exact (begin_stage el _ _ _ d w6 Hw7 eq_refl).
Qed.

End stages.

(** ** The ends of transitions *)

(** The timer of the emulation with the cell [c]. *)
Definition fires (c : nat) (t : task modal_cb) : Prop := exists els, task_run t = EmuFire c els.

#[local] Instance fires_dec c t : Decision (fires c t).
Proof.
  unfold fires. destruct (task_run t) as [c'|c' els|k]; [right; by intros [? ?]| |right; by intros [? ?]].
  destruct (decide (c' = c)) as [->|Hne]; [left; by eexists|right; by intros [? [= ? ?]]].
Defined.

(** What holds with the timers [F] of [c] among the callbacks that were there
    holds without them once [c] is set. *)
Definition markable (P : list (task modal_cb) -> W -> Prop) : Prop := forall T F c w,
  Forall (fires c) F -> P (T ++ F) w -> P T (w <| called := {[c]} ∪ called w |>).

Lemma stage_markable s d : markable (fun T => stage T s d).
Proof.
  intros T F c w HF [Ht Hd Hb [Hk Hn]]. split; [exact Ht|exact Hd|exact Hb|]. split; [|exact Hn].
  change (tasks (w <| called := {[c]} ∪ called w |>)) with (tasks w). change (called (w <| called := ?x |>)) with x.
  intros t Hin. destruct (Hk t Hin) as [[?|HtF]%elem_of_app|[?|(c' & els & E & Hc)]]; [by left| |by right; left|].
  - right; right. rewrite Forall_forall in HF. destruct (HF t HtF) as [els E]. exists c, els. split; [done|]. left. set_solver.
  - right; right. exists c', els. split; [done|]. destruct Hc as [Hc|Hc]; [left; set_solver|by right].
Qed.

Lemma gone_markable moved d : markable (fun T => gone T moved d).
Proof. intros T F c w HF [dc [Hw Hc]]. exists dc. split; [by eapply stage_markable|done]. Qed.

Lemma left_markable b moved d : markable (fun T => left_by T b moved d).
Proof.
  intros T F c w HF. unfold left_by. destruct b; [destruct fades|]; [by apply stage_markable|by apply gone_markable..].
Qed.

(** The end of the transition that is waited for: its callback runs with the
    timer of the transition among the callbacks that were there; the mark that
    follows sets the timer's cell. *)
Lemma end_stage T x k s d (P : list (task modal_cb) -> W -> Prop) w : markable P ->
  stage T s d w -> s_awaits s = Some (x, k) ->
  (forall F w', stage (T ++ F) (s <| s_awaits := None |>) d w' ->
     runs (modal_plug silent event_target k) (fun _ => P (T ++ F)) w') ->
  runs (deliver (modal_plug silent event_target) x TRANSITION_END) (fun _ => P T) w.
Proof.
  intros HP [Ht Hd Hb [Hk Hn]] Ha Hrun. apply runs_deliver. pose proof (Hn x) as Hx. rewrite Ha in Hx, Hk, Hn.
  rewrite decide_True in Hx by done.
  destruct Hx as [c Hx]. rewrite Hx. cbn [for_each run_mark_or_call]. set (F := filter (fires c) (tasks w)).
  assert (HF : Forall (fires c) F) by (apply List.Forall_forall; intros t Hin%list_elem_of_In; by apply list_elem_of_filter in Hin as [? _]).
  eapply runs_seq.
  - apply (Hrun F). split; [exact Ht|exact Hd|exact Hb|]. split.
    + intros t [_ Hin]%list_elem_of_filter. destruct (Hk t Hin) as [?|[?|(c' & els & E & [Hc|Hc])]].
      * left. by apply elem_of_app; left.
      * by right; left.
      * right; right. exists c', els. split; [done|by left].
      * left. apply elem_of_app; right. apply list_elem_of_filter. split; [|done]. rewrite Hx in Hc.
        injection Hc as ->. by exists els.
    + intros y. change (tasks (w <| tasks := ?ts |>)) with ts. cbv beta. rewrite waiting_drop. destruct (decide (y = x)) as [->|Hne]; [done|].
      specialize (Hn y). by rewrite decide_False in Hn.
  - cbv beta. intros [] w' Hw'. apply runs_bind, runs_pure, runs_skip. by apply (HP T F).
Qed.

Section ends.
Context (T : list (task modal_cb)).

(** [_showElement] ends. *)
Lemma element_end rel overflow b ls opened shown moved d w :
  stage T (Snap true fades overflow b ls opened shown moved (dialog_end rel)) d w ->
  runs (for_each (option_list dlg) (fun x => deliver (modal_plug silent event_target) x TRANSITION_END))
    (fun _ => stage T (Snap true false overflow b ls opened shown moved None) d) w.
Proof.
  intros Hw. unfold dialog_end in Hw. pose proof (page_dialog Hpage) as Hdl. destruct fades.
  - destruct dlg as [dl|]; [|by destruct Hdl]. cbn [option_list for_each].
    eapply (runs_seq _ _ _ (fun _ => stage T (Snap true false overflow b ls opened shown moved None) d)); [|by intros []].
    eapply (end_stage T _ _ _ _ (fun T => stage T (Snap true false overflow b ls opened shown moved None) d));
      [apply stage_markable|exact Hw|done|]. intros F w' Hw'. exact (complete_stage (T ++ F) rel _ d w' Hw').
  - destruct dlg as [dl|]; cbn [option_list for_each]; [|exact Hw].
    eapply runs_seq; [by eapply idle_stage|]. by cbv beta; intros [] w1 Hw1.
Qed.

(** The ends of the transitions of [show]. *)
Definition ends (xs : list elem) : M W unit :=
  for_each xs (fun x => deliver (modal_plug silent event_target) x TRANSITION_END).

Lemma opening_ends rel b moved d w : (is_Some b <-> backdrops = true) -> stage T (opening rel b moved) d w ->
  runs (ends (option_list b ++ option_list dlg)) (fun _ => stage T (fully_shown b moved) d) w.
Proof.
  intros Hb Hw. unfold ends, fully_shown. pose proof (fun T => element_stage T rel) as Hel. pose proof (element_end rel) as Hend.
  destruct b as [x|]; [|by eapply Hend]. cbn [option_list app for_each].
  eapply (runs_seq _ _ _ (fun _ => stage T (entering rel (Some x) moved) d)); [|intros [] w1 Hw1; by eapply Hend].
  unfold opening, entering, dialog_end in *. destruct fades.
  - eapply (end_stage T _ _ _ _ (fun T => stage T _ d)); [apply stage_markable|exact Hw|done|].
    intros F w' Hw'. by eapply Hel.
  - eapply idle_stage; [exact Hw|]. by destruct dlg.
Qed.

(** The ends of the transitions of [hide]. *)
Lemma gone_end x moved d w : gone T moved d w ->
  runs (deliver (modal_plug silent event_target) x TRANSITION_END) (fun _ => gone T moved d) w.
Proof.
  intros [dc [Hw Hc]]. eapply runs_mono; [|by eapply idle_stage]. intros [] w1 Hw1. by exists dc.
Qed.

Lemma hiding_ends b moved d w : (if fades then stage T (hiding b moved) d w else left_by T b moved d w) ->
  runs (ends (el :: option_list b)) (fun _ => gone T moved d) w.
Proof.
  intros Hw. pose proof (fun T w => hideModal_runs T b true moved d w) as Hh. unfold ends. cbn [for_each].
  eapply (runs_seq _ _ _ (fun _ => left_by T b moved d)).
  - unfold left_by, hiding in *. destruct fades.
    + eapply (end_stage T _ _ _ _ (fun T w => match b with Some x => stage T (leaving x moved) d w | None => gone T moved d w end));
        [|exact Hw|done|by intros F w' Hw'; apply Hh]. destruct b; [apply stage_markable|apply gone_markable].
    + destruct b; by apply gone_end.
  - clear w Hw Hh. intros [] w Hw. destruct b as [x|]; [|done]. cbn [option_list for_each].
    eapply (runs_seq _ _ _ (fun _ => gone T moved d)); [|by intros []]. unfold left_by, leaving in Hw. destruct fades; [|by apply gone_end].
    eapply (end_stage T _ _ _ _ (fun T => gone T moved d)); [apply gone_markable|exact Hw|done|].
    intros F w' Hw'. exact (callbackRemove_runs (T ++ F) x moved d w' Hw').
Qed.
End ends.

(** *** The cycle *)

(** The modal is closed, no callback waits for a transition, and the callbacks
    pending are those of [T] and timers of emulations whose cell is set, which
    will find their transition ended. *)
Definition resting T w : Prop := exists overflow d, stage T (closed overflow) d w.

Lemma resting_page overflow d T w : stage T (closed overflow) d w ->
  (forall e c, e ∈ known -> has_class (dom w) e c =
    if decide ((e, c) = (body, "modal-open"%string)) then false
    else if decide ((e, c) = (el, "show"%string)) then false else has_class d e c) /\
  forall e k, e <> el -> style (dom w) e k = style d e k.
Proof. intros [_ [_ Hc [_ Hs]] _ _]. by split. Qed.

Lemma opening_backdrop T rel b moved d w : stage T (opening rel b moved) d w -> (m_backdrop <$> heap w !! o) = Some b.
Proof.
  intros [[width Ht] _ _ _]. rewrite Ht. unfold opening, entering. destruct b; [|done]. by destruct fades.
Qed.

Lemma shown_page T b moved d w : stage T (fully_shown b moved) d w ->
  ((fun this => (m_isShown this, m_isTransitioning this)) <$> heap w !! o) = Some (true, false) /\
  has_class (dom w) el "show" = true /\ has_class (dom w) body "modal-open" = true.
Proof.
  intros [[width Ht] [_ Hc _] _ _]. rewrite Ht. split; [done|]. pose proof apart_body.
  split; rewrite Hc by (unfold known; set_solver); [rewrite decide_False by naive_solver|]; by rewrite decide_True.
Qed.

(** C17. A modal, fading or not, is opened and closed, whatever its configuration
    says of the backdrop and of the focus.  [show] goes through, and after the
    ends of the transitions of the backdrop and of the dialog the modal is shown
    and no longer in transition, with the class of the modal and that of the
    body; [hide] goes through, and after the ends of the transitions of the modal
    and of the backdrop the instance is at rest again: not shown, without
    backdrop, without one of its six listeners, with nothing waiting for a
    transition and no callback pending that was not there before but timers of
    emulations whose transition is marked as ended, which will do nothing.  Every
    element the page had before, those of the modal, the fixed and sticky ones and
    any others, has the classes it had.  Where the page was scrolling, every element but the modal has the
    inline styles it had; where it was not, the inline paddings of the body and
    of the fixed elements are gone. *)
Theorem modal_cycle rel given w : resting (tasks w) w ->
  exists w1 w2 w3 w4 b, m_show silent inner o rel w = (w1, inr tt) /\
    (m_backdrop <$> heap w1 !! o) = Some b /\ (is_Some b <-> backdrops = true) /\
    ends (option_list b ++ option_list dlg) w1 = (w2, inr tt) /\
    ((fun this => (m_isShown this, m_isTransitioning this)) <$> heap w2 !! o) = Some (true, false) /\
    has_class (dom w2) el "show" = true /\ has_class (dom w2) body "modal-open" = true /\
    m_hide silent o given w2 = (w3, inr tt) /\
    ends (el :: option_list b) w3 = (w4, inr tt) /\ resting (tasks w) w4 /\
    (forall e c, e ∈ known -> has_class (dom w4) e c = has_class (dom w) e c) /\
    forall e k, e <> el -> style (dom w4) e k =
      if overflows (dom w) then style (dom w) e k
      else if decide (k = "paddingRight"%string /\ e ∈ body :: fixed) then ""%string else style (dom w) e k.
Proof.
  intros (ov & d & Hw). destruct (resting_page _ _ _ _ Hw) as [Hc Hs].
  destruct (runs_unit _ _ _ (show_stage _ rel ov d w Hw)) as (w1 & E1 & b & Hb & H1).
  destruct (runs_unit _ _ _ (opening_ends _ _ _ _ _ w1 Hb H1)) as (w2 & E2 & H2).
  destruct (runs_unit _ _ _ (hide_stage _ given _ _ _ w2 H2)) as (w3 & E3 & H3).
  destruct (runs_unit _ _ _ (hiding_ends _ _ _ _ w3 H3)) as (w4 & E4 & dc & H4 & Hc4 & Hs4).
  destruct (resting_page _ _ _ _ H4) as [Hc' Hs']. destruct (shown_page _ _ _ _ _ H2) as (S1 & S2 & S3).
  exists w1, w2, w3, w4, b. split_and!; try done; [by eapply opening_backdrop|by eexists _, _|..].
  - intros e c He. rewrite Hc', Hc, Hc4 by done. by repeat case_decide.
  - intros e k He. rewrite Hs', Hs4, Hs by done. done.
Qed.
End cycle.

#[export] Instance toy_nodes : NodeLaws toy.
Proof.
  split; intros; try (intros e'; destruct d; cbn; done).
  destruct d; cbn. unfold constant. by rewrite lookup_insert_eq.
Qed.

Module ModalDemo.
(** The fading modal 30 with the dialog 31, on a page with the bar 40, fixed and
    sticky at once, which has an inline padding, and with a paragraph 50. *)
Definition page : toy := {|
  toy_class := list_to_map [(30%nat, ["modal"; "fade"]); (31%nat, ["modal-dialog"]); (40%nat, ["sticky-top"])]%string;
  toy_attr := ∅;
  toy_style := {[ (40%nat, "paddingRight"%string) := "3px"%string ]};
  toy_prop := ∅;
  toy_data := ∅;
  toy_query := [(SELECTOR_FIXED_CONTENT, [40%nat]); (SELECTOR_STICKY_CONTENT, [40%nat])]%string;
  toy_parent := ∅;
  toy_next := 100
|}.

Definition at_rest : snap := closed false.

Definition world : World toy Modal modal_cb :=
  MkWorld page {[ 0%nat := modal_of 30 (Some 31%nat) modal_Default false at_rest 0 ]} ∅ [] ∅ 1%nat false.

Lemma touched_page d : touched 30 (Some 31%nat) [40%nat] [40%nat] [50%nat] page d ->
  toy_query d = toy_query page /\ (100 <= toy_next d)%nat /\ has_class d 30 "fade" = true.
Proof.
  assert (Hm : forall e c, moves 30 (Some 31%nat) [40%nat] [40%nat] [50%nat] e c -> (e, c) <> (30%nat, "fade"%string)).
  { intros e c [Hin|[Hn _]] [= -> ->]; [|apply Hn; by left].
    rewrite !elem_of_cons in Hin. destruct Hin as [[=]|[[=]|Hin]]. by apply not_elem_of_nil in Hin. }
  induction 1 as [|e k v d Hd (Q & N & F)|e k v d Hd (Q & N & F)|e c d Hc Hd (Q & N & F)|e c d Hc Hd (Q & N & F)
    |b c d Hb Hc Hd (Q & N & F)|e k v d Hk Hd (Q & N & F)|e v d Hd (Q & N & F)|e d Hd (Q & N & F)|d Hd (Q & N & F)
    |p c d Hd (Q & N & F)|b d Hb Hd (Q & N & F)]; try (destruct d; cbn in Q, N; split; [exact Q|split; [cbn; unfold constant; lia|exact F]]).
  - split; [done|]. split; [cbn; lia|reflexivity].
  - rewrite has_class_add_class, F, orb_true_r. unfold add_class. by destruct (has_class d e c).
  - rewrite has_class_remove_class, F, bool_decide_eq_false_2 by (apply Hm in Hc; naive_solver). by split.
  - split; [exact Q|]. split; [exact N|]. unfold has_class. rewrite class_list_ne; [exact F|].
    intros ->. apply Hb. by left.
Qed.

Lemma modal : modal_page page 30 (Some 31%nat) true [40%nat] [40%nat] [50%nat].
Proof.
  split; try (apply (bool_decide_unpack _); vm_compute; done).
  - intros d Hd. apply (touched_page d Hd).
  - intros d Hd. cbn. unfold toy_find, toy_entry. by rewrite (proj1 (touched_page d Hd)).
  - intros d Hd. cbn. unfold toy_find, toy_entry. by rewrite (proj1 (touched_page d Hd)).
  - by intros dl d _ _.
  - intros d Hd. destruct (touched_page d Hd) as (_ & Hn & _). cbn [create_element toy_dom fst].
    unfold known. cbn. rewrite !not_elem_of_cons. pose proof (not_elem_of_nil (toy_next d)). cbn. split_and!; lia || done.
Qed.

Lemma rests : resting page 0 30 (Some 31%nat) modal_Default false [40%nat] [40%nat] [50%nat] (tasks world) world.
Proof.
  exists false, page. split; [by exists 0%Q| |done|].
  - split; [constructor| |].
    + intros e c _. case_decide as E1; [injection E1 as -> ->; reflexivity|]. case_decide as E2; [injection E2 as -> ->; reflexivity|done].
    + split; [|done]. by split; intros e _.
  - split; [intros t Ht; by apply not_elem_of_nil in Ht|done].
Qed.
End ModalDemo.

Lemma modal_cycle_witness : exists w1 w2 w3 w4 b,
  m_show (D := toy) silent (fun _ => 100%Q) 0 None ModalDemo.world = (w1, inr tt) /\
  ends (D := toy) (fun _ => 30%nat) [b; 31%nat] w1 = (w2, inr tt) /\
  m_hide silent 0 false w2 = (w3, inr tt) /\ ends (fun _ => 30%nat) [30%nat; b] w3 = (w4, inr tt) /\
  has_class (dom w2) body "modal-open" = true /\ has_class (dom w4) body "modal-open" = false /\
  style (dom w4) 40 "paddingRight" = "3px"%string.
Proof.
  destruct (modal_cycle (D := toy) ModalDemo.page 0 30 (Some 31%nat) modal_Default true false (fun _ => 100%Q) (fun _ => 30%nat) [40%nat] [40%nat] [50%nat]
    ModalDemo.modal None false ModalDemo.world ModalDemo.rests) as (w1 & w2 & w3 & w4 & b & E1 & _ & Hb & E2 & _ & _ & S2 & E3 & E4 & _ & S3 & S4).
  destruct b as [b|]; [|by destruct (proj2 Hb eq_refl)].
  exists w1, w2, w3, w4, b. split_and!; [exact E1|exact E2|exact E3|exact E4|exact S2| |].
  - rewrite S3 by (by right; left). reflexivity.
  - rewrite S4 by discriminate. reflexivity.
Defined.
