(* ===== verification/BsAccordion.v ===== *)
(** Accordions: the panels of a parent, each with its Collapse instance, refine
    an automaton over the states of the panels.  With a selector as the parent
    at most one panel is open or opening; with an element as the parent two may
    be. *)
From Stdlib Require Import ZArith QArith Lia String Ascii.
From stdpp Require Import base list gmap strings functions.
From coqutil Require Import Datatypes.RecordSetters.
From S2P Require Import Prelude Js JsDom BsUtil BsDomTheory BsHoare BsTasks BsCollapse BsTheorems.

Local Open Scope Z_scope.

(** ** The automaton *)
Inductive pstate := PClosed | POpening | POpened | PClosing.

#[export] Instance pstate_eq_dec : EqDecision pstate.
Proof. solve_decision. Defined.

Definition pbusy (s : pstate) : bool := match s with POpening | PClosing => true | _ => false end.
Definition pup (s : pstate) : bool := match s with POpening | POpened => true | _ => false end.

Section automaton.
Context (by_selector : bool) (panels : list elem).
Implicit Types (σ : elem -> pstate).

(** The panels [show] looks at: an element as the parent misses those that
    move. *)
Definition seen (s : pstate) : bool :=
  match s with PClosed => false | POpened => true | POpening | PClosing => by_selector end.
Definition a_actives σ : list elem := filter (fun y => seen (σ y) = true) panels.

Definition a_hide σ x : elem -> pstate := if decide (σ x = POpened) then <[x := PClosing]> σ else σ.
Definition a_hide_all σ (l : list elem) : elem -> pstate := foldl a_hide σ l.
Definition a_show σ x : elem -> pstate :=
  if decide (σ x = PClosed) then
    if match a_actives σ with y :: _ => pbusy (σ y) | [] => false end then σ
    else <[x := POpening]> (a_hide_all σ (a_actives σ))
  else σ.
Definition a_toggle σ x : elem -> pstate := if decide (σ x = POpened) then a_hide σ x else a_show σ x.
Definition a_end σ x : elem -> pstate :=
  match σ x with POpening => <[x := POpened]> σ | PClosing => <[x := PClosed]> σ | _ => σ end.

Lemma a_hide_spec σ x y : a_hide σ x y = if decide (x = y /\ σ y = POpened) then PClosing else σ y.
Proof.
  unfold a_hide. destruct (decide (x = y)) as [->|Hne].
  - destruct (decide (σ y = POpened)) as [E|E]; [|rewrite decide_False; tauto].
    rewrite fn_lookup_insert. by rewrite decide_True.
  - rewrite (decide_False (P := x = y /\ _)) by tauto. destruct (decide (σ x = POpened)); [by rewrite fn_lookup_insert_ne|done].
Qed.

Lemma a_hide_all_spec σ l y : a_hide_all σ l y = if decide (y ∈ l /\ σ y = POpened) then PClosing else σ y.
Proof.
  unfold a_hide_all. revert σ. induction l as [|x l IH]; intros σ; cbn [foldl].
  - rewrite decide_False; [done|]. intros [Hy _]. by apply not_elem_of_nil in Hy.
  - rewrite IH, a_hide_spec. repeat case_decide; set_solver.
Qed.
End automaton.

(** At most one panel is open or opening. *)
Definition exclusive (panels : list elem) (σ : elem -> pstate) : Prop :=
  forall x y, x ∈ panels -> y ∈ panels -> pup (σ x) = true -> pup (σ y) = true -> x = y.

Lemma exclusive_less panels σ σ' : (forall x, pup (σ' x) = true -> pup (σ x) = true) -> exclusive panels σ -> exclusive panels σ'.
Proof. intros Hs He x y Hx Hy Hpx Hpy. apply He; auto. Qed.

Lemma exclusive_hide panels σ x : exclusive panels σ -> exclusive panels (a_hide σ x).
Proof. apply exclusive_less. intros y. rewrite a_hide_spec. by case_decide. Qed.

Lemma exclusive_end panels σ x : exclusive panels σ -> exclusive panels (a_end σ x).
Proof.
  apply exclusive_less. intros y. unfold a_end.
  destruct (σ x) eqn:E; try done; destruct (decide (x = y)) as [<-|]; rewrite ?fn_lookup_insert, ?fn_lookup_insert_ne, ?E by done; done.
Qed.

(** When [show] goes through, nothing else is opening. *)
Lemma exclusive_show panels σ x : exclusive panels σ -> exclusive panels (a_show true panels σ x).
Proof.
  intros He. unfold a_show. case_decide as Hx; [|done].
  destruct (match a_actives true panels σ with y :: _ => _ | [] => false end) eqn:Eb; [done|].
  assert (Hdown : forall y, y ∈ panels -> pup (a_hide_all σ (a_actives true panels σ) y) = false).
  { intros y Hy. rewrite a_hide_all_spec. case_decide as Hc; [done|].
    destruct (σ y) eqn:Ey; try done.
    - exfalso. assert (Hin : y ∈ a_actives true panels σ) by (apply list_elem_of_filter; by rewrite Ey).
      destruct (a_actives true panels σ) as [|z l] eqn:Ea; [by apply not_elem_of_nil in Hin|].
      assert (Hz : z ∈ a_actives true panels σ) by (rewrite Ea; by left).
      apply list_elem_of_filter in Hz as [Hz Hzp]. destruct (σ z) eqn:Ez; try done.
      assert (z = y) as -> by (apply He; rewrite ?Ez, ?Ey; done). congruence.
    - exfalso. apply Hc. split; [|done]. apply list_elem_of_filter. by rewrite Ey. }
  intros y z Hy Hz.
  destruct (decide (x = y)) as [<-|Hxy]; [|rewrite fn_lookup_insert_ne, Hdown by done; done].
  destruct (decide (x = z)) as [<-|Hxz]; [done|]. rewrite (fn_lookup_insert_ne _ x z), Hdown by done. done.
Qed.

Lemma exclusive_toggle panels σ x : exclusive panels σ -> exclusive panels (a_toggle true panels σ x).
Proof. intros He. unfold a_toggle. case_decide; [by apply exclusive_hide|by apply exclusive_show]. Qed.

(** An element as the parent: [show] never finds a panel that moves. *)
Lemma unseen_show panels σ x y : σ x = PClosed -> y ∈ panels ->
  a_toggle false panels σ x y =
    if decide (x = y) then POpening else if decide (σ y = POpened) then PClosing else σ y.
Proof.
  intros Hx Hy. unfold a_toggle, a_show. rewrite Hx, decide_False, decide_True by done.
  assert (Ha : forall z, z ∈ a_actives false panels σ <-> z ∈ panels /\ σ z = POpened).
  { intros z. unfold a_actives. rewrite list_elem_of_filter. destruct (σ z); naive_solver. }
  assert (Eb : match a_actives false panels σ with z :: _ => pbusy (σ z) | [] => false end = false).
  { destruct (a_actives false panels σ) as [|z l]; [done|]. destruct (proj1 (Ha z)) as [_ ->]; [by left|done]. }
  rewrite Eb. destruct (decide (x = y)) as [->|Hne]; [by rewrite fn_lookup_insert|].
  rewrite fn_lookup_insert_ne, a_hide_all_spec by done. repeat case_decide; naive_solver.
Qed.

Lemma a_end_spec σ x y : a_end σ x y =
  if decide (x = y) then match σ y with POpening => POpened | PClosing => PClosed | s => s end else σ y.
Proof.
  unfold a_end. destruct (decide (x = y)) as [->|Hne].
  - destruct (σ y) eqn:E; rewrite ?fn_lookup_insert; done.
  - destruct (σ x); rewrite ?fn_lookup_insert_ne by done; done.
Qed.

(** ** The panels *)
Section accordion.
Context {D : Type} `{DomLaws D}.
Local Abbreviation W := (World D Collapse collapse_cb).
Implicit Types (d : D) (w : W) (σ : elem -> pstate) (x y : elem).
Context (d0 : D) (p : elem) (parent : jsval) (panels : list elem) (inst : elem -> nat) (sel : elem -> string)
  (cfg : elem -> config) (trs : elem -> list elem).

Definition by_selector : bool := match parent with VStr _ => true | _ => false end.

(** Classes that come and go: those of the panels and of their triggers. *)
Definition stirs (e : elem) (c : string) : Prop :=
  e ∈ panels /\ c ∈ ["collapse"; "collapsing"; "show"]%string \/
  (exists x, x ∈ panels /\ e ∈ trs x) /\ c = "collapsed"%string.

(** The page as the panels change it. *)
Inductive stirred d : D -> Prop :=
| stirred_refl : stirred d d
| stirred_style e k v d' : stirred d d' -> stirred d (set_style e k v d')
| stirred_add e c d' : stirs e c -> stirred d d' -> stirred d (add_class e c d')
| stirred_drop e c d' : stirs e c -> stirred d d' -> stirred d (remove_class e c d')
| stirred_aria e v d' : stirred d d' -> stirred d (set_attr e "aria-expanded" v d').
#[local] Hint Constructors stirred : stir.

(** The panels of the parent [p], their instances and selectors, however the
    page is stirred. *)
Record accordion : Prop := {
  acc_nodup : NoDup panels;
  acc_inst x y : x ∈ panels -> y ∈ panels -> inst x = inst y -> x = y;
  acc_triggers x y : x ∈ panels -> y ∈ panels -> x ∉ trs y;
  acc_parent x : x ∈ panels -> field (cfg x) "parent" = parent;
  acc_find d : stirred d0 d -> query d (Some p) ".show, .collapsing" =
    Some (filter (fun e => has_class d e "show" || has_class d e "collapsing" = true) panels);
  acc_attr x s d : x ∈ panels -> parent = VStr s -> stirred d0 d -> attr d x "data-parent" = Some s;
  acc_match x y d : x ∈ panels -> y ∈ panels -> stirred d0 d -> matches d y (sel x) = bool_decide (x = y)
}.
Context (Hacc : accordion).

Definition collapse_of (x : elem) (t : bool) : Collapse := {|
  c_isTransitioning := t; c_element := Some x; c_config := Some (cfg x); c_triggerArray := Some (trs x);
  c_selector := Some (sel x); c_parent := Some p |}.

Definition face (s : pstate) : collapse_state :=
  match s with PClosed => Closed | POpened => Opened | POpening | PClosing => Moving end.

Definition awaits (s : pstate) (x : elem) (l : list (callback collapse_cb)) : Prop :=
  match s with
  | POpening => exists dim c, l = [Call (CShown (inst x) dim); EmuMark c]
  | PClosing => exists c, l = [Call (CHidden (inst x)); EmuMark c]
  | _ => l = []
  end.

Record sim σ w : Prop := {
  sim_dom : stirred d0 (dom w);
  sim_data x : x ∈ panels -> data w !! x = Some (inst x);
  sim_this x : x ∈ panels -> heap w !! inst x = Some (collapse_of x (pbusy (σ x)));
  sim_face x : x ∈ panels -> in_state (face (σ x)) (dom w) x;
  sim_waits x : x ∈ panels -> awaits (σ x) x (waiting x (tasks w))
}.

(** One panel moves. *)
Lemma sim_move σ x s w w' : sim σ w -> x ∈ panels -> stirred d0 (dom w') ->
  data w' = data w ->
  heap w' = alter (fun this => this <| c_isTransitioning := pbusy s |>) (inst x) (heap w) ->
  in_state (face s) (dom w') x -> (forall y, y ∈ panels -> y <> x -> class_list (dom w') y = class_list (dom w) y) ->
  awaits s x (waiting x (tasks w')) -> (forall y, y <> x -> waiting y (tasks w') = waiting y (tasks w)) ->
  sim (<[x := s]> σ) w'.
Proof.
  intros [Hd Hda Ht Hf Hw] Hx Hd' Eda Eh Hface Hother Hwait Hrest.
  split; [done|intros y Hy; rewrite Eda; by apply Hda|..]; intros y Hy; destruct (decide (x = y)) as [<-|Hne];
    rewrite ?fn_lookup_insert, ?fn_lookup_insert_ne by done; try done.
  - rewrite Eh, lookup_alter_eq, Ht by done. done.
  - rewrite Eh, lookup_alter_ne; [by apply Ht|]. intros E. by apply Hne, (acc_inst Hacc).
  - eapply in_state_classes; [apply Hother; [done|by intros ->]|by apply Hf].
  - rewrite Hrest by (by intros ->). by apply Hw.
Qed.

(** A state is read off the classes. *)
Lemma face_show s d x : in_state (face s) d x -> has_class d x "show" = bool_decide (s = POpened).
Proof.
  intros Hs. destruct s; cbn in Hs |- *; first [apply has_class_spec|apply has_class_false]; tauto.
Qed.

Lemma face_collapsing s d x : in_state (face s) d x -> has_class d x "collapsing" = pbusy s.
Proof. intros Hs. destruct s; cbn in Hs |- *; first [apply has_class_spec|apply has_class_false]; tauto. Qed.

Lemma face_collapse s d x : in_state (face s) d x -> has_class d x "collapse" = negb (pbusy s).
Proof. intros Hs. destruct s; cbn in Hs |- *; first [apply has_class_spec|apply has_class_false]; tauto. Qed.

(** [show] sees what the automaton sees. *)
Lemma actives_runs σ x t (Q : list elem -> W -> Prop) w : sim σ w -> x ∈ panels ->
  Q (a_actives by_selector panels σ) w -> runs (collapse_actives (collapse_of x t)) Q w.
Proof.
  intros Hw Hx HQ. unfold collapse_actives. cbn [c_parent collapse_of].
  apply runs_bind. eapply runs_query_all; [apply (acc_find Hacc), Hw|]. wp.
  rewrite (acc_parent Hacc) by done. rewrite (filter_filter_iff _ _ (fun y => seen by_selector (σ y) = true)); [done|].
  intros e He. pose proof (sim_face _ _ Hw e He) as Hf.
  rewrite (face_show _ _ _ Hf), (face_collapsing _ _ _ Hf), (face_collapse _ _ _ Hf). unfold by_selector.
  pose proof (acc_attr Hacc e) as Ha. destruct parent as [| | | |s| | | | | |]; try (destruct (σ e); cbn; intuition congruence).
  rewrite (Ha s (dom w) He eq_refl (sim_dom _ _ Hw)). rewrite (bool_decide_eq_true_2 (Some s = Some s)) by done.
  destruct (σ e); cbn; intuition congruence.
Qed.

(** The panel that opens is none of them. *)
Lemma not_event_key σ x w : sim σ w -> x ∈ panels -> σ x = PClosed ->
  jq_not (dom w) (a_actives by_selector panels σ) (Some (sel x)) = a_actives by_selector panels σ.
Proof.
  intros Hw Hx Hc. unfold jq_not, a_actives. apply filter_filter_iff. intros e He.
  rewrite (acc_match Hacc) by (done || apply Hw). rewrite bool_decide_eq_false.
  split; [tauto|]. intros Hs. split; [done|]. intros ->. by rewrite Hc in Hs.
Qed.

(** A transition begins: two callbacks wait for its end. *)
Lemma transition_runs x k (w : W) : runs (collapse_transition [x] k) (fun _ w' =>
  dom w' = dom w /\ heap w' = heap w /\ data w' = data w /\
  (exists c, waiting x (tasks w') = waiting x (tasks w) ++ [Call k; EmuMark c]) /\
  forall y, y <> x -> waiting y (tasks w') = waiting y (tasks w)) w.
Proof.
  unfold collapse_transition. apply runs_bind, runs_get_dom. cbv zeta. apply runs_transition. autorewrite with world.
  do 3 (split; [done|]). split; [exists (next_id w + 1)%nat|intros y Hne]; rewrite waiting_app, waiting_transition.
  - by rewrite decide_True.
  - rewrite decide_False by done. by rewrite app_nil_r.
Qed.

Lemma stirred_triggers ts x w : x ∈ panels -> (forall t, t ∈ ts -> t ∈ trs x) -> stirred d0 (dom w) ->
  runs (for_each ts collapse_trigger) (fun _ w' => exists d', w' = w <| dom := d' |> /\ stirred d0 d' /\
    forall y, y ∈ panels -> class_list d' y = class_list (dom w) y) w.
Proof.
  intros Hx. revert w. induction ts as [|t ts IH]; intros w Hts Hd; cbn [for_each].
  - apply runs_skip. exists (dom w). split; [by destruct w|done].
  - destruct (collapse_trigger_run t w) as (d1 & E & Hc & Hd1).
    assert (Ht : t ∈ trs x) by (apply Hts; by left).
    assert (Hs1 : stirred d0 d1).
    { destruct Hd1 as [-> | ->]; [done|]. unfold jq_attr, jq_each. cbn [foldl]. apply stirred_aria.
      rewrite jq_add_one by done. apply stirred_add; [|done]. right. eauto. }
    apply runs_bind. eapply runs_intro; [exact E|].
    eapply runs_mono; [|apply IH; [intros t' Ht'; apply Hts; by right|exact Hs1]].
    intros [] w' (d' & -> & Hs' & Hc'). exists d'. split; [by destruct w|]. split; [done|].
    intros y Hy. rewrite Hc' by done. apply Hc. intros ->. by apply (acc_triggers Hacc t x).
Qed.

(** The classes of a panel that moves. *)
Lemma stirs_panel x c : x ∈ panels -> c ∈ ["collapse"; "collapsing"; "show"]%string -> stirs x c.
Proof. by left. Qed.

(** What the two halves of a transition do to the classes. *)
Lemma hide_classes x k v d : x ∈ panels -> stirred d0 d ->
  let d' := jq_remove_class [x] "collapse show" (jq_add_class [x] "collapsing" (set_style x k v d)) in
  stirred d0 d' /\ in_state Moving d' x /\ forall y, y <> x -> class_list d' y = class_list d y.
Proof.
  intros Hx Hd d'. assert (E : d' = remove_class x "show" (remove_class x "collapse" (add_class x "collapsing" (set_style x k v d)))).
  { unfold d'. rewrite jq_add_one by done. done. }
  clearbody d'. subst d'. split_and!.
  - do 2 (apply stirred_drop; [apply stirs_panel; set_solver|]). apply stirred_add; [apply stirs_panel; set_solver|].
    by apply stirred_style.
  - unfold in_state. rewrite !class_list_remove_class, class_list_add_class, !decide_True by done.
    rewrite !elem_of_cl_remove, !elem_of_cl_add. intuition discriminate.
  - intros y Hy. by rewrite !class_list_remove_class, class_list_add_class, class_list_style, !decide_False by congruence.
Qed.

Lemma show_classes x k v d : x ∈ panels -> stirred d0 d -> in_state Closed d x ->
  let d' := set_style x k v (jq_add_class [x] "collapsing" (jq_remove_class [x] "collapse" d)) in
  stirred d0 d' /\ in_state Moving d' x /\ forall y, y <> x -> class_list d' y = class_list d y.
Proof.
  intros Hx Hd Hc d'. assert (E : d' = set_style x k v (add_class x "collapsing" (remove_class x "collapse" d))).
  { unfold d'. rewrite jq_add_one, jq_remove_one by done. done. }
  clearbody d'. subst d'. split_and!.
  - apply stirred_style, stirred_add; [apply stirs_panel; set_solver|].
    apply stirred_drop; [apply stirs_panel; set_solver|done].
  - unfold in_state in *. rewrite class_list_style, class_list_add_class, class_list_remove_class, !decide_True by done.
    rewrite !elem_of_cl_add, !elem_of_cl_remove. intuition discriminate.
  - intros y Hy. by rewrite class_list_style, class_list_add_class, class_list_remove_class, !decide_False by congruence.
Qed.

Lemma hide_sim σ x w : sim σ w -> x ∈ panels -> runs (hide silent (inst x)) (fun _ => sim (a_hide σ x)) w.
Proof.
  intros Hw Hx. pose proof (sim_face _ _ Hw x Hx) as Hf. pose proof (sim_this _ _ Hw x Hx) as Ht.
  unfold hide, a_hide. apply runs_bind. eapply runs_get; [exact Ht|]. wp.
  cbn [c_element c_isTransitioning collapse_of]. change (option_list (Some x)) with [x].
  rewrite has_class_one, (face_show _ _ _ Hf).
  destruct (decide (σ x = POpened)) as [Ex|Ex].
  2: { rewrite (bool_decide_eq_false_2 (σ x = POpened)) by done. cbn [negb]. rewrite orb_true_r. by apply runs_skip. }
  rewrite Ex. rewrite bool_decide_eq_true_2 by done. cbn [pbusy negb orb]. wp. clear Hf.
  match goal with |- runs _ _ ?w' => set (w1 := w') end.
  assert (Hw1 : stirred d0 (dom w1) /\ in_state Moving (dom w1) x /\
    forall y, y <> x -> class_list (dom w1) y = class_list (dom w) y) by (apply hide_classes; [done|apply Hw]).
  assert (Hrest : heap w1 = heap w /\ data w1 = data w /\ tasks w1 = tasks w) by done.
  clearbody w1. destruct Hw1 as (Hs1 & Hf1 & Hc1), Hrest as (Eh1 & Ed1 & Et1).
  eapply runs_mono; [|apply (stirred_triggers (trs x) x); [done|done|exact Hs1]].
  cbv beta. intros [] w2 (d2 & -> & Hs2 & Hc2). unfold setTransitioning. wp. autorewrite with world in Hc2 |- *.
  eapply runs_mono; [|apply transition_runs]. autorewrite with world. cbv beta.
  intros [] w3 (Ed & Eh & Eda & (c & Ew) & Eo).
  pose proof (sim_waits _ _ Hw x Hx) as Hwait. rewrite Ex in Hwait. cbn in Hwait. rewrite <- Et1 in Hwait. rewrite Hwait in Ew.
  apply (sim_move σ x PClosing w w3 Hw Hx).
  - rewrite Ed. by apply stirred_style.
  - by rewrite Eda, <- Ed1.
  - by rewrite Eh, <- Eh1.
  - rewrite Ed. eapply in_state_classes; [rewrite class_list_style; by apply Hc2|exact Hf1].
  - intros y Hy Hne. rewrite Ed, class_list_style, Hc2 by done. by apply Hc1.
  - by exists c.
  - intros y Hne. rewrite Eo by done. f_equal. exact Et1.
Qed.

Lemma hide_all_sim l σ w : sim σ w -> (forall y, y ∈ l -> y ∈ panels) ->
  runs (hide_all silent l) (fun _ => sim (a_hide_all σ l)) w.
Proof.
  revert σ w. unfold hide_all, a_hide_all. induction l as [|y l IH]; intros σ w Hw Hl; cbn [for_each foldl]; [done|].
  assert (Hy : y ∈ panels) by (apply Hl; by left).
  eapply (runs_seq _ _ _ (fun _ => sim (a_hide σ y))).
  - apply runs_bind, runs_get_data. rewrite (sim_data _ _ Hw) by done. wp. by apply hide_sim.
  - intros [] w' Hw'. apply IH; [done|]. intros z Hz. apply Hl. by right.
Qed.

Lemma actives_in σ y : y ∈ a_actives by_selector panels σ -> y ∈ panels.
Proof. intros Hy. by apply list_elem_of_filter in Hy as [_ Hy]. Qed.

Lemma mark_stirred x ts d : x ∈ panels -> (forall t, t ∈ ts -> t ∈ trs x) -> stirred d0 d ->
  stirred d0 (mark_triggers ts d) /\ forall y, y ∈ panels -> class_list (mark_triggers ts d) y = class_list d y.
Proof.
  intros Hx Hts Hd. split.
  - unfold mark_triggers, jq_attr, jq_remove_class, jq_each.
    assert (Ha : forall l d, stirred d0 d -> stirred d0 (foldl (fun d e => set_attr e "aria-expanded" (Some "true"%string) d) d l)).
    { induction l as [|t l IH]; intros d' Hd'; cbn [foldl]; [done|]. apply IH. by apply stirred_aria. }
    apply Ha. revert d Hd. induction ts as [|t ts IH]; intros d Hd; cbn [foldl]; [done|].
    apply IH; [intros t' Ht'; apply Hts; by right|]. apply stirred_drop; [|done]. right. split; [|done].
    exists x. split; [done|]. apply Hts. by left.
  - intros y Hy. unfold mark_triggers. rewrite class_list_jq_attr, class_list_jq_remove_all, decide_False; [done| |done].
    intros Hin%Hts. by apply (acc_triggers Hacc y x).
Qed.

(** The part of [show] once the others are hiding. *)
Lemma open_sim σ x w : sim σ w -> x ∈ panels -> σ x = PClosed ->
  runs (this ← get (inst x);
        d ← get_dom;
        let dimension := _getDimension d (c_element this) in
        el ← deref (c_element this);
        mod_dom (fun d => jq_add_class [el] "collapsing" (jq_remove_class [el] "collapse" d)) ;;
        mod_dom (set_style el dimension "0") ;;
        triggers ← deref (c_triggerArray this);
        (match triggers with
         | [] => skip
         | _ => mod_dom (fun d => jq_attr triggers "aria-expanded" "true" (jq_remove_class triggers "collapsed" d))
         end) ;;
        setTransitioning (inst x) true ;;
        let scrollSize := ("scroll" ++ capitalize dimension)%string in
        collapse_transition [el] (CShown (inst x) dimension) ;;
        mod_dom (fun d => set_style el dimension (js_str (prop d el scrollSize) ++ "px") d))
    (fun _ => sim (<[x := POpening]> σ)) w.
Proof.
  intros Hw Hx Ex. pose proof (sim_face _ _ Hw x Hx) as Hf. pose proof (sim_this _ _ Hw x Hx) as Ht. rewrite Ex in Hf.
  apply runs_bind. eapply runs_get; [exact Ht|]. wp. cbn [c_element c_triggerArray collapse_of].
  apply runs_bind. eapply runs_deref; [reflexivity|]. set (dim := _getDimension (dom w) (Some x)). wp.
  match goal with |- runs _ _ ?w' => set (w1 := w') end.
  assert (Hw1 : stirred d0 (dom w1) /\ in_state Moving (dom w1) x /\
    forall y, y <> x -> class_list (dom w1) y = class_list (dom w) y) by (apply show_classes; [done|apply Hw|done]).
  assert (Hrest : heap w1 = heap w /\ data w1 = data w /\ tasks w1 = tasks w) by done.
  clearbody w1 dim. destruct Hw1 as (Hs1 & Hf1 & Hc1), Hrest as (Eh1 & Ed1 & Et1).
  destruct (mark_stirred x (trs x) (dom w1) Hx) as [Hs2 Hc2]; [done|done|].
  assert (Hgo : runs (
      setTransitioning (inst x) true ;;
      let scrollSize := ("scroll" ++ capitalize dim)%string in
      collapse_transition [x] (CShown (inst x) dim) ;;
      mod_dom (fun d => set_style x dim (js_str (prop d x scrollSize) ++ "px") d))
    (fun _ => sim (<[x := POpening]> σ)) (w1 <| dom := mark_triggers (trs x) (dom w1) |>)).
  { unfold setTransitioning. wp. eapply runs_mono; [|apply transition_runs]. autorewrite with world. cbv beta.
    intros [] w3 (Ed & Eh & Eda & (c & Ew) & Eo). wp.
    pose proof (sim_waits _ _ Hw x Hx) as Hwait. rewrite Ex in Hwait. cbn in Hwait. rewrite <- Et1 in Hwait. rewrite Hwait in Ew.
    apply (sim_move σ x POpening w _ Hw Hx); autorewrite with world.
    - rewrite Ed. by apply stirred_style.
    - change (data w3 = data w). by rewrite Eda, <- Ed1.
    - by rewrite Eh, <- Eh1.
    - rewrite Ed. eapply in_state_classes; [rewrite class_list_style; by apply Hc2|exact Hf1].
    - intros y Hy Hne. rewrite Ed, class_list_style, Hc2 by done. by apply Hc1.
    - by exists dim, c.
    - intros y Hne. rewrite Eo by done. f_equal. exact Et1. }
  destruct (trs x) as [|t l]; [|apply runs_bind, runs_mod_dom, Hgo].
  apply runs_bind, runs_skip. by replace w1 with (w1 <| dom := mark_triggers [] (dom w1) |>) at 2 by by destruct w1.
Qed.

Lemma show_sim σ x w : sim σ w -> x ∈ panels ->
  runs (show silent (inst x)) (fun _ => sim (a_show by_selector panels σ x)) w.
Proof.
  intros Hw Hx. pose proof (sim_face _ _ Hw x Hx) as Hf. pose proof (sim_this _ _ Hw x Hx) as Ht.
  unfold show, a_show. apply runs_bind. eapply runs_get; [exact Ht|]. wp.
  cbn [c_element c_isTransitioning collapse_of]. change (option_list (Some x)) with [x].
  rewrite has_class_one, (face_show _ _ _ Hf).
  destruct (decide (σ x = PClosed)) as [Ex|Ex].
  2: { assert (E : pbusy (σ x) || bool_decide (σ x = POpened) = true) by (destruct (σ x); done).
       rewrite E. by apply runs_skip. }
  rewrite (bool_decide_eq_false_2 (σ x = POpened)) by (by rewrite Ex). rewrite Ex. cbn [pbusy orb].
  apply runs_bind, (actives_runs σ); [done|done|]. wp. cbn [c_selector collapse_of]. rewrite not_event_key by done.
  pose proof (actives_in σ) as Hin. pose proof (not_event_key σ x w Hw Hx Ex) as Hno.
  destruct (a_actives by_selector panels σ) as [|y l] eqn:Ea.
  - unfold actives_data. apply runs_ret, runs_bind, runs_ret. cbv iota. apply runs_bind, runs_trigger. cbv iota. apply runs_bind, runs_skip.
    by apply open_sim.
  - unfold actives_data. apply runs_get_data. rewrite (sim_data _ _ Hw) by (apply Hin; by left).
    apply runs_bind, runs_bind. eapply runs_get; [apply (sim_this _ _ Hw), Hin; by left|]. apply runs_ret.
    cbn [c_isTransitioning collapse_of]. destruct (pbusy (σ y)); [by apply runs_skip|].
    apply runs_bind, runs_trigger. cbv iota. apply runs_bind, runs_bind. eapply runs_get; [exact Ht|].
    apply runs_bind, runs_get_dom. cbn [c_selector collapse_of]. rewrite Hno.
    eapply runs_seq; [by apply hide_all_sim|]. cbv beta. intros [] w1 Hw1. apply runs_skip. apply open_sim; [done|done|].
    rewrite a_hide_all_spec, Ex. by rewrite decide_False by (by intros [_ ?]).
Qed.

Lemma toggle_sim σ x w : sim σ w -> x ∈ panels ->
  runs (toggle silent (inst x)) (fun _ => sim (a_toggle by_selector panels σ x)) w.
Proof.
  intros Hw Hx. unfold toggle, a_toggle. apply runs_bind. eapply runs_get; [by apply (sim_this _ _ Hw)|]. wp.
  cbn [c_element collapse_of]. change (option_list (Some x)) with [x].
  rewrite has_class_one, (face_show (σ x)) by (by apply (sim_face _ _ Hw)).
  destruct (decide (σ x = POpened)) as [Ex|Ex].
  - rewrite bool_decide_eq_true_2 by done. by apply hide_sim.
  - rewrite bool_decide_eq_false_2 by done. by apply show_sim.
Qed.

Lemma end_classes_of x cs k v d s : x ∈ panels -> stirred d0 d -> in_state Moving d x ->
  (cs = "collapse" /\ s = Closed \/ cs = "collapse show" /\ s = Opened)%string ->
  let d' := jq_add_class [x] cs (jq_remove_class [x] "collapsing" d) in
  stirred d0 d' /\ stirred d0 (set_style x k v d') /\ in_state s d' x /\ forall y, y <> x -> class_list d' y = class_list d y.
Proof.
  intros Hx Hd Hm Hcs d'.
  assert (Hs : stirred d0 d').
  { unfold d'. rewrite jq_remove_one by done.
    assert (Hd1 : stirred d0 (remove_class x "collapsing" d)) by (apply stirred_drop; [apply stirs_panel; set_solver|done]).
    destruct Hcs as [[-> _]|[-> _]]; [rewrite jq_add_one by done; apply stirred_add; [apply stirs_panel; set_solver|done]|].
    change (jq_add_class [x] "collapse show" ?d1) with (add_class x "show" (add_class x "collapse" d1)).
    do 2 (apply stirred_add; [apply stirs_panel; set_solver|]). done. }
  split; [done|]. split; [by apply stirred_style|]. split; [by apply end_classes|].
  intros y Hy. unfold d'. by rewrite class_list_jq_add, class_list_jq_remove, !decide_False by congruence.
Qed.

(** The end of the transition of [x], from the browser or from its emulation. *)
Lemma end_sim σ x w : sim σ w -> x ∈ panels ->
  runs (deliver (collapse_plug silent) x TRANSITION_END) (fun _ => sim (a_end σ x)) w.
Proof.
  intros Hw Hx. apply runs_deliver.
  set (w0 := w <| tasks := filter (fun tk => is_once x TRANSITION_END tk = false) (tasks w) |>).
  assert (Hx0 : waiting x (tasks w0) = []) by (etrans; [apply waiting_drop|by rewrite decide_True]).
  assert (Hy0 : forall y, y <> x -> waiting y (tasks w0) = waiting y (tasks w)).
  { intros y Hy. etrans; [apply waiting_drop|by rewrite decide_False]. }
  assert (Hrest : dom w0 = dom w /\ heap w0 = heap w /\ data w0 = data w) by done.
  clearbody w0. destruct Hrest as (Ed & Eh & Eda).
  pose proof (sim_waits _ _ Hw x Hx) as Hwait. pose proof (sim_face _ _ Hw x Hx) as Hf.
  pose proof (sim_this _ _ Hw x Hx) as Ht. rewrite <- Eh in Ht. unfold a_end.
  assert (Hidle : awaits (σ x) x [] -> sim σ w0).
  { intros Hno. destruct Hw as [A B C E F]. split; rewrite ?Ed, ?Eh, ?Eda; [done..|]. intros y Hy.
    destruct (decide (y = x)) as [->|Hne]; [by rewrite Hx0|]. rewrite Hy0 by done. by apply F. }
  destruct (σ x) eqn:Ex; cbn [awaits face pbusy] in Hwait, Hf, Ht.
  - rewrite Hwait. cbn [for_each]. apply runs_skip. by apply Hidle.
  - destruct Hwait as (dim & c & ->). cbn [for_each run_mark_or_call collapse_plug]. unfold shown, setTransitioning. wp.
    apply runs_pure, runs_skip. change (option_list (c_element (collapse_of x true))) with [x]. rewrite <- Ed in Hf.
    destruct (end_classes_of x "collapse show" dim "" (dom w0) Opened Hx) as (_ & E1 & E2 & E3);
      [rewrite Ed; apply Hw|done|by right|].
    apply (sim_move σ x POpened w _ Hw Hx); autorewrite with world; [exact E1|exact Eda|by rewrite Eh|..].
    + eapply in_state_classes; [apply class_list_style|exact E2].
    + intros y _ Hne. by rewrite class_list_style, E3, Ed.
    + exact Hx0.
    + exact Hy0.
  - rewrite Hwait. cbn [for_each]. apply runs_skip. by apply Hidle.
  - destruct Hwait as (c & ->). cbn [for_each run_mark_or_call collapse_plug]. unfold hidden, setTransitioning. wp.
    apply runs_pure, runs_skip. change (option_list (c_element _)) with [x]. rewrite <- Ed in Hf.
    destruct (end_classes_of x "collapse" "" "" (dom w0) Closed Hx) as (E1 & _ & E2 & E3);
      [rewrite Ed; apply Hw|done|by left|].
    apply (sim_move σ x PClosed w _ Hw Hx); autorewrite with world; [exact E1|exact Eda|by rewrite Eh|exact E2|..].
    + intros y _ Hne. by rewrite E3, Ed.
    + exact Hx0.
    + exact Hy0.
Qed.

(** ** Sequences of calls *)

(** What may happen to a panel. *)
Inductive acc_call := AShow (x : elem) | AHide (x : elem) | AToggle (x : elem) | AEnd (x : elem).

Definition acc_panel (c : acc_call) : elem := match c with AShow x | AHide x | AToggle x | AEnd x => x end.

Definition acc_run (c : acc_call) : M W unit :=
  match c with
  | AShow x => show silent (inst x)
  | AHide x => hide silent (inst x)
  | AToggle x => toggle silent (inst x)
  | AEnd x => deliver (collapse_plug silent) x TRANSITION_END
  end.

Definition acc_step σ (c : acc_call) : elem -> pstate :=
  match c with
  | AShow x => a_show by_selector panels σ x
  | AHide x => a_hide σ x
  | AToggle x => a_toggle by_selector panels σ x
  | AEnd x => a_end σ x
  end.

Lemma calls_sim cs σ w : sim σ w -> (forall c, c ∈ cs -> acc_panel c ∈ panels) ->
  runs (for_each cs acc_run) (fun _ => sim (foldl acc_step σ cs)) w.
Proof.
  revert σ w. induction cs as [|c cs IH]; intros σ w Hw Hcs; cbn [for_each foldl]; [done|].
  assert (Hc : acc_panel c ∈ panels) by (apply Hcs; by left).
  eapply (runs_seq _ _ _ (fun _ => sim (acc_step σ c))).
  - destruct c as [x|x|x|x]; cbn [acc_panel acc_run acc_step] in *;
      [by apply show_sim|by apply hide_sim|by apply toggle_sim|by apply end_sim].
  - intros [] w' Hw'. apply IH; [done|]. intros c' Hc'. apply Hcs. by right.
Qed.

(** Open, or about to be. *)
Definition up w x : Prop := has_class (dom w) x "show" = true \/
  exists dim, Call (CShown (inst x) dim) ∈ waiting x (tasks w).

Lemma up_sim σ w x : sim σ w -> x ∈ panels -> up w x -> pup (σ x) = true.
Proof.
  intros Hw Hx Hup. pose proof (sim_face _ _ Hw x Hx) as Hf. pose proof (sim_waits _ _ Hw x Hx) as Hwait.
  destruct Hup as [Hs|[dim Hin]].
  - rewrite (face_show _ _ _ Hf) in Hs. apply bool_decide_eq_true in Hs. by rewrite Hs.
  - destruct (σ x); cbn in Hwait; [|done|done|].
    + rewrite Hwait in Hin. by apply not_elem_of_nil in Hin.
    + destruct Hwait as [c E]. rewrite E in Hin. apply elem_of_cons in Hin as [?|?%list_elem_of_singleton]; done.
Qed.

(** C16. The panels of an accordion whose parent is given by a selector, at most
    one of them open or opening: whatever calls of [show], [hide] and [toggle]
    and ends of transitions follow, in whatever order, even in the middle of
    transitions, each goes through, and at most one panel is open or on its way
    to be open. *)
Theorem accordion_exclusive cs σ w s : sim σ w -> exclusive panels σ -> parent = VStr s ->
  (forall c, c ∈ cs -> acc_panel c ∈ panels) ->
  exists w', for_each cs acc_run w = (w', inr tt) /\
    forall x y, x ∈ panels -> y ∈ panels -> up w' x -> up w' y -> x = y.
Proof.
  intros Hw He Hpar Hcs. destruct (runs_unit _ _ _ (calls_sim cs σ w Hw Hcs)) as (w' & E & Hw'). exists w'. split; [exact E|].
  assert (He' : exclusive panels (foldl acc_step σ cs)).
  { clear E Hw' Hw. revert σ He. induction cs as [|c cs IH]; intros σ He; cbn [foldl]; [done|].
    apply IH; [intros c' Hc'; apply Hcs; by right|]. unfold acc_step, by_selector. rewrite Hpar.
    destruct c; [by apply exclusive_show|by apply exclusive_hide|by apply exclusive_toggle|by apply exclusive_end]. }
  intros x y Hx Hy Hux Huy. apply He'; [done|done|by eapply up_sim|by eapply up_sim].
Qed.

(** C21. The same panels with an element for their parent, one of them open: the
    panels that move have lost the class that [show] looks for, so a third panel
    shown while the second opens sees none, and in the end both are open. *)
Theorem accordion_element_two_open a b c σ w : sim σ w -> by_selector = false ->
  a ∈ panels -> b ∈ panels -> c ∈ panels -> a <> b -> a <> c -> b <> c ->
  (forall x, x ∈ panels -> σ x = if decide (x = a) then POpened else PClosed) ->
  exists w', for_each [AToggle b; AToggle c; AEnd a; AEnd b; AEnd c] acc_run w = (w', inr tt) /\
    has_class (dom w') b "show" = true /\ has_class (dom w') c "show" = true.
Proof.
  intros Hw Hsel Ha Hb Hc Hab Hac Hbc Hσ.
  assert (Hin : forall k, k ∈ [AToggle b; AToggle c; AEnd a; AEnd b; AEnd c] -> acc_panel k ∈ panels).
  { intros k Hk. repeat (apply elem_of_cons in Hk as [->|Hk]; [done|]). by apply not_elem_of_nil in Hk. }
  destruct (runs_unit _ _ _ (calls_sim _ σ w Hw Hin)) as (w' & E & Hw'). exists w'. split; [exact E|].
  cbn [foldl acc_step] in Hw'. rewrite Hsel in Hw'.
  assert (H1 : forall x, x ∈ panels -> a_toggle false panels σ b x =
    if decide (b = x) then POpening else if decide (x = a) then PClosing else PClosed).
  { intros x Hx. rewrite unseen_show by (rewrite ?Hσ by done; rewrite ?decide_False by congruence; done).
    rewrite Hσ by done. repeat case_decide; done. }
  set (σ1 := a_toggle false panels σ b) in *. clearbody σ1.
  assert (H2 : forall x, x ∈ panels -> a_toggle false panels σ1 c x =
    if decide (c = x) then POpening else σ1 x).
  { intros x Hx. rewrite unseen_show; [|rewrite H1 by done; by rewrite !decide_False by congruence|done].
    rewrite H1 by done. repeat case_decide; done. }
  set (σ2 := a_toggle false panels σ1 c) in *. clearbody σ2.
  assert (Hop : forall x, x ∈ panels -> x = b \/ x = c -> a_end (a_end (a_end σ2 a) b) c x = POpened).
  { intros x Hx Hor. rewrite !a_end_spec, H2, H1 by done. destruct Hor as [-> | ->]; repeat case_decide; naive_solver. }
  split; rewrite (face_show POpened); [by apply bool_decide_eq_true_2| |by apply bool_decide_eq_true_2|].
  - pose proof (sim_face _ _ Hw' b Hb) as Hf. by rewrite Hop in Hf by auto.
  - pose proof (sim_face _ _ Hw' c Hc) as Hf. by rewrite Hop in Hf by auto.
Qed.
End accordion.

Module AccordionDemo.
(** The accordion 10 with the panels 20, 30 and 40, whose triggers are 21, 31 and
    41: the first is open. *)
Definition page : toy := {|
  toy_class := list_to_map [(20%nat, ["collapse"; "show"]); (30%nat, ["collapse"]); (40%nat, ["collapse"])]%string;
  toy_attr := list_to_map [((20%nat, "data-parent"), "#acc"); ((30%nat, "data-parent"), "#acc");
    ((40%nat, "data-parent"), "#acc")]%string;
  toy_style := ∅;
  toy_prop := ∅;
  toy_data := ∅;
  toy_query := [];
  toy_parent := ∅;
  toy_next := 100
|}.

Definition panels : list elem := [20; 30; 40]%nat.
Definition inst (x : elem) : nat := x.
Definition sel (x : elem) : string := if (x =? 20)%nat then "#a" else if (x =? 30)%nat then "#b" else "#c".
Definition trs (x : elem) : list elem := [S x].
Definition cfg (parent : jsval) (x : elem) : config := <["parent"%string := parent]> collapse_Default.

(** The document whose queries see the classes. *)
#[local] Instance live : Dom toy := {|
  class_list := @class_list toy toy_dom;
  set_class_list := @set_class_list toy toy_dom;
  attr := @attr toy toy_dom;
  set_attr := @set_attr toy toy_dom;
  style := @style toy toy_dom;
  set_style := @set_style toy toy_dom;
  computed := @computed toy toy_dom;
  prop := @prop toy toy_dom;
  set_prop := @set_prop toy toy_dom;
  query d r s :=
    if String.eqb s ".show, .collapsing" then
      Some (filter (fun e => bool_decide ("show"%string ∈ @class_list toy toy_dom d e)
        || bool_decide ("collapsing"%string ∈ @class_list toy toy_dom d e) = true) panels)
    else @query toy toy_dom d r s;
  matches d e s := String.eqb (sel e) s;
  closest := @closest toy toy_dom;
  parent := @parent toy toy_dom;
  children := @children toy toy_dom;
  ancestors := @ancestors toy toy_dom;
  prev_sibling := @prev_sibling toy toy_dom;
  contains := @contains toy toy_dom;
  bounding_rect := @bounding_rect toy toy_dom;
  dataset := @dataset toy toy_dom;
  user_data := @user_data toy toy_dom;
  set_user_data := @set_user_data toy toy_dom;
  remove_node := @remove_node toy toy_dom;
  append_child := @append_child toy toy_dom;
  create_element := @create_element toy toy_dom;
  set_focus := @set_focus toy toy_dom;
  document_element := @document_element toy toy_dom;
  body := @body toy toy_dom
|}.

#[local] Instance live_laws : DomLaws toy.
Proof. constructor; apply toy_laws. Qed.

Lemma stirred_attr d e : stirred panels trs page d -> attr d e "data-parent" = attr page e "data-parent".
Proof.
  induction 1 as [|e' k v d Hd IH|e' c d Hc Hd IH|e' c d Hc Hd IH|e' v d Hd IH]; [done|..].
  - by rewrite attr_style.
  - unfold add_class. destruct (has_class d e' c); by rewrite ?attr_class.
  - unfold remove_class. by rewrite attr_class.
  - rewrite attr_ne; [done|]. by intros [=].
Qed.

Lemma in_panels x : x ∈ panels -> (x = 20 \/ x = 30 \/ x = 40)%nat.
Proof. unfold panels. set_solver. Qed.

Lemma panels_in x : bool_decide (x ∈ panels) = true -> x ∈ panels.
Proof. apply bool_decide_eq_true. Qed.

Lemma acc pv : pv = VStr "#acc" \/ pv = VElem 10 -> accordion page 10 pv panels inst sel (cfg pv) trs.
Proof.
  intros Hpv. split.
  - apply (bool_decide_unpack _); vm_compute; done.
  - done.
  - intros x y [-> | [-> | ->]]%in_panels [-> | [-> | ->]]%in_panels; unfold trs; set_solver.
  - intros x _. unfold field, cfg. by rewrite lookup_insert_eq.
  - done.
  - intros x s d Hx E Hd. rewrite (stirred_attr d x Hd).
    destruct Hpv as [-> | ->]; [injection E as <-|done]. destruct (in_panels x Hx) as [-> | [-> | ->]]; reflexivity.
  - intros x y d [-> | [-> | ->]]%in_panels [-> | [-> | ->]]%in_panels _; reflexivity.
Qed.

Definition start (x : elem) : pstate := if decide (x = 20%nat) then POpened else PClosed.

Definition world pv : World toy Collapse collapse_cb :=
  MkWorld page (list_to_map ((fun x => (x, collapse_of 10 sel (cfg pv) trs x false)) <$> panels))
    (list_to_map ((fun x => (x, x)) <$> panels)) [] ∅ 50%nat false.

Lemma starts pv : sim page 10 panels inst sel (cfg pv) trs start (world pv).
Proof.
  split; [constructor|..]; intros x [-> | [-> | ->]]%in_panels; try reflexivity;
    (split; [|split]); apply (bool_decide_unpack _); vm_compute; exact I.
Qed.
End AccordionDemo.

Lemma accordion_exclusive_witness : exists w',
  for_each [AShow 30; AToggle 40; AEnd 20; AEnd 30; AToggle 40]%nat (acc_run (H := AccordionDemo.live) AccordionDemo.inst)
    (AccordionDemo.world (VStr "#acc")) = (w', inr tt) /\
  ~ (up (H := AccordionDemo.live) AccordionDemo.inst w' 30 /\ up (H := AccordionDemo.live) AccordionDemo.inst w' 40).
Proof.
  destruct (accordion_exclusive (H := AccordionDemo.live) (H0 := AccordionDemo.live_laws) AccordionDemo.page 10 (VStr "#acc")
    AccordionDemo.panels AccordionDemo.inst AccordionDemo.sel (AccordionDemo.cfg (VStr "#acc")) AccordionDemo.trs
    (AccordionDemo.acc _ (or_introl eq_refl)) [AShow 30; AToggle 40; AEnd 20; AEnd 30; AToggle 40]%nat AccordionDemo.start
    (AccordionDemo.world (VStr "#acc")) "#acc") as (w' & E & Hx).
  - apply AccordionDemo.starts.
  - intros x y [-> | [-> | ->]]%AccordionDemo.in_panels [-> | [-> | ->]]%AccordionDemo.in_panels; done.
  - reflexivity.
  - intros c Hc. repeat (apply elem_of_cons in Hc as [->|Hc]; [by apply AccordionDemo.panels_in|]). by apply not_elem_of_nil in Hc.
  - exists w'. split; [exact E|]. intros [H1 H2].
    assert (E34 : 30%nat = 40%nat) by (apply Hx; [by apply AccordionDemo.panels_in|by apply AccordionDemo.panels_in|exact H1|exact H2]).
    discriminate E34.
Defined.

Lemma accordion_element_two_open_witness : exists w',
  for_each [AToggle 30; AToggle 40; AEnd 20; AEnd 30; AEnd 40]%nat (acc_run (H := AccordionDemo.live) AccordionDemo.inst)
    (AccordionDemo.world (VElem 10)) = (w', inr tt) /\
  has_class (H := AccordionDemo.live) (dom w') 30 "show" = true /\ has_class (H := AccordionDemo.live) (dom w') 40 "show" = true.
Proof.
  apply (accordion_element_two_open (H := AccordionDemo.live) (H0 := AccordionDemo.live_laws) AccordionDemo.page 10 (VElem 10)
    AccordionDemo.panels AccordionDemo.inst AccordionDemo.sel (AccordionDemo.cfg (VElem 10)) AccordionDemo.trs
    (AccordionDemo.acc _ (or_intror eq_refl)) 20 30 40 AccordionDemo.start (AccordionDemo.world (VElem 10)));
    try reflexivity; try (by apply AccordionDemo.panels_in); try discriminate; try done. apply AccordionDemo.starts.
Defined.
